(* ===== verification/_CoqProject ===== *)
-Q . S2P
Prelude.v
JsNum.v
JsString.v
JsCollections.v
JsValue.v
JsDate.v
JsFormat.v
JsNumText.v
JsUrl.v
JsJson.v
JsJsonText.v
Pagination.v
Investigation.v
Utils.v
LiveEvents.v
ChartTheme.v
Annotations.v
LiveFeed.v
Ws.v
RunSamples.v
PathDiff.v
Matrix.v
MatrixZoom.v
Prom.v
InvestigationScope.v
InvestigationEntries.v
InvestigatePage.v
TimeMachine.v
Commands.v
RunPage.v
Agents.v
Location.v
PagedLoader.v
MtrExplorer.v
Alerting.v
SubmitGuard.v
RuleForm.v
Targets.v
Diagnostics.v
Api.v
Login.v
Overview.v
ConfigImport.v
Settings.v
Users.v
Topology.v
RunDetail.v
MatrixFeed.v
Tooltip.v
