(* ===== verification/Prelude.v ===== *)
(** * The web console of kconmon-ng

    kconmon-ng probes the network between the nodes of a cluster; its console is a browser application
    ([web/src], TypeScript) that reads the fleet over REST, PromQL and one WebSocket and shows it as a live
    feed, a matrix, an investigation timeline, routes and diagnostic runs.  This library models the logic
    of that console - the part between the wire and the pixels - and proves it correct.

    ** How the program is put together

    The pages ([pages/*.tsx]) compose pure libraries ([lib/*.ts]) with hooks ([hooks/*.ts]).  Three things
    are shared by all of them and carry the state: the WebSocket client, the address bar (scope, window and
    viewed instant live in the URL), and the page's own stores.  Data comes in as JSON of unproven shape,
    instants as strings, figures as doubles, so the model is built over JavaScript's own values.

    ** The files

    Language level (no part of the program, but what it is written in):
    - [Prelude]: lists, sublists, sortedness, loops.
    - [JsNum]: numbers as IEEE doubles, exact multiples of [2^-1074] with the rounding written out, NaN and
      the infinities; there is one zero (the sign of zero is never observable in the modelled code).
    - [JsString]: UTF-16 code units as [Z], the string methods in use, and the class of a host collation.
    - [JsCollections]: Map and Set as insertion-ordered lists, the stable sort, slices.
    - [JsValue], [JsJson], [JsFormat]: values of unknown shape, [JSON.stringify], number printing and
      parsing, lookups in literal objects (inherited members included).
    - [JsDate]: time values, [toISOString], and the class [DateHost] for [Date.parse], whose only laws are
      that results are time values and that [toISOString]'s format reads back.
    - [JsJsonText]: [JSON.parse] as a reader of text, [JSON.stringify] with an indent as a printer.
    - [JsUrl]: UTF-8, percent encoding, [URLSearchParams], the address bar.

    Components, each named after what it models ([lib/] unless said otherwise):
    - [Pagination]: pagination.ts and [components/ui/pager.tsx].
    - [Utils]: utils.ts, the shared text rules and the ad-hoc address grammar.
    - [LiveEvents], [LiveFeed]: live-events.ts and the store of [pages/live.tsx].
    - [Ws]: ws.ts, the reconnecting, resuming WebSocket client as a state machine with an output trace.
    - [Annotations], [ChartTheme]: annotations.ts and chart-theme.ts, overlays on charts.
    - [RunSamples], [RunPage]: run-samples.ts and [hooks/use-run.ts], diagnostic runs.
    - [PathDiff]: [components/mtr-path-diff.tsx], [mtr-hop-table.tsx] and [mtr-changes-timeline.tsx].
    - [Matrix], [MatrixZoom], [Prom]: matrix-cells.ts, matrix-plan.ts, matrix-promql.ts, matrix-zoom.ts,
      prom-series.ts, prom-table.ts.
    - [Investigation]: investigation.ts, the timeline, the onset and the ranking of causes.
    - [InvestigationScope], [InvestigationEntries]: investigation-sources.ts, the permalink, the window gate,
      the queries, and every source turned into entries.
    - [InvestigatePage]: the hydration and the assembly of [pages/investigate.tsx].
    - [TimeMachine]: timemachine.tsx, the viewed instant over the session history.
    - [Commands]: commands.ts, the palette's registry and ranked search.
    - [Agents]: agents.ts; [Location]: protocol-param.ts and location.ts.
    - [PagedLoader]: the ticket protocol of a list loaded page by page, generic in the pane (class [Pane]);
      [MtrExplorer] ([pages/mtr.tsx], destinations and the route history) and [Diagnostics]
      ([pages/diagnostics.tsx] and the Runner pane: run forms, gates, the run history) instantiate it.
    - [SubmitGuard]: [hooks/use-submit-guard.ts], which the forms below submit through.
    - [Alerting], [RuleForm]: [pages/alerting.tsx], durations, schemas and drafts of rules, and the builder form
      with its debounced preview as a state machine.
    - [Targets]: [pages/targets.tsx], labels, cadences, schedules and the checks of the three forms.
    - [Api]: api.ts, the REST client: every call as a request to a network, its errors, its paging walks.
    - [Login]: [pages/login.tsx] with the return address, across the redirect of [Api].
    - [Overview]: [pages/overview.tsx], the summaries of the planes, the verdict, the alerts that fire.
    - [ConfigImport], [Settings], [Users]: [pages/settings.tsx] and [pages/settings-users.tsx]: export and import of
      the configuration as a state machine over files read and answers received, webhooks and tokens, and the row of
      a local account.
    - [Topology]: [pages/topology.tsx], zone-layout.ts and the gates of [pages/matrix.tsx]: the boxes of the map,
      their packing and the edges drawn.
    - [RunDetail]: [pages/run-detail.tsx], the pair table, the track of probes and the panel of a probe's route.
    - [MatrixFeed]: [hooks/use-ws-topic.ts], [use-matrix.ts], [use-topology.ts]: a component's subscription to a topic
      and the grid fed by pushes and polls, as renders, effects and callbacks that interleave.
    - [Tooltip]: chart-tooltip.ts, where a chart's bubble stands, its rows and its HTML.

    State is a record, an operation a function on it, an event handler a function of the event; a [throw]
    is [None].  Names are the source's where Rocq allows.

    ** What is proved

    - State machines by invariants over every reachable state: the WebSocket client's socket, timers and
      cursors ([Ws.ws_invariant]) with resumption after a drop, silence after close, no rewinding snapshot
      and the backoff ladder; the live page's accounting of every arrival ([LiveFeed.live_store_accounts]);
      the address bar that always names the viewed instant ([TimeMachine.address_tells_the_truth]); the panes
      whose requests race show only what their query names ([MtrExplorer.history_names_its_pair],
      [Diagnostics.runs_match_filters]) and stop loading once the network settled ([PagedLoader.loading_ends]);
      the import dialog is always about the file it names ([ConfigImport.import_is_about_the_file]) and gives its
      button back ([ConfigImport.import_button_returns]); a user's row asks before it changes anything
      ([Users.user_row_asks_first]); the panel of a probe never shows another probe's route
      ([RunDetail.trace_is_the_probes_own]); the grid always has a source, and only its own
      ([MatrixFeed.grid_is_fed]).
    - The client of the server: no call leaves without the token its method needs ([Api.every_call_is_safe]), every
      answer is one of the outcomes the callers handle ([Api.handle_accounts]), a listing is whole unless it says it
      was cut ([Api.listings_are_whole]), and the sign-in leads back to where it began
      ([Login.sign_in_returns_here], [Login.returnTo_stays]).
    - What the pages conclude: the header of the overview ([Overview.verdict]) and its table
      ([Overview.summarize_spec]); on the map no box lies over another ([Topology.map_boxes_apart]) and the edges are
      the worst paths ([Topology.map_edges_are_the_worst]); a chart's bubble stays in the window
      ([Tooltip.tooltip_in_window]) and lets no label value be markup ([Tooltip.tooltip_text_verbatim]).
    - Forms send only what their server can take: rules ([RuleForm.form_sends_only_valid], and nothing a preview
      refused, [RuleForm.refused_expression_not_saved]), runs ([Diagnostics.run_request_wellformed]), schedules
      ([Targets.schedule_form_wellformed]).
    - Refinement of reference definitions: the capped ring is the newest events of the session however they
      were batched ([LiveEvents.feed_is_newest]), bands are the union of their windows, the diff walk is a
      longest common subsequence, the cadence plan in doubles is the exact integer plan, grouping is a
      partition, pages partition their list.
    - Round trips: permalinks, escaped label values, the [?at=] parameter, series identities, a stored rule
      opened and saved untouched ([Alerting.untouched_rule_saves_itself]), target labels, JSON text
      ([JsJsonText.JSON_roundtrip]) and with it an exported configuration ([ConfigImport.export_import_roundtrip]).
    - Totality and errors: whatever the query string, the Investigate page frames a window, and where the rows of its
      sources can be read it produces its timeline and export; a null row makes it throw
      ([InvestigatePage.investigate_throws_only_on_unreadable]); a past matrix fails exactly on the first failing
      answer; the loop that names a column ends.
    - Functional behaviour of the folds and rankings: merged timelines, causes, the past matrix, run rows,
      the palette, the alerts a scope hides.

    ** Bounds and fuel

    Loops that are not structural carry fuel that is proved enough: the LCS walk takes [length a + length b],
    the boundary search [S (length hay)], the column name one more turn than there are labels, the separator
    rewriting the length of its text, the reader of JSON the length of its text; a listing walks at most the
    page limit the source sets.  Theorems about millisecond arithmetic in doubles state the range they
    need (instants up to [2^50] or the whole calendar of [8.64e15] ms; counts up to [2^40]), far past what the
    console meets.

    ** Parameters

    [Date.parse] beyond the ISO format, the collator, [toLowerCase]'s Unicode tables, the [URL] constructor, the
    network behind [fetch], [Math.sqrt] and [Math.log], the locale's clock and the dictionaries are parameters; each
    class has a concrete instance, with which the witnesses evaluate.

    ** Not modelled

    JSX, styling and layout effects; react-query's cache and scheduling; the generated API types; the
    dictionaries; the chart library's options and cursor; the explore and PromQL pages and the object
    cards, which lay the modelled libraries out; the thin hooks; the Go programs (console server, controller,
    agent), which are the other side of the wire. *)
From stdpp Require Export base numbers list strings sets sorting relations.
From Stdlib Require Export ZArith Lia.

(** ** Sublists *)

Lemma elem_of_sublist {A} (x : A) l k : x ∈ l -> sublist l k -> x ∈ k.
Proof.
  intros Hx Hs. induction Hs as [|y l k Hs IH|y l k Hs IH]; [done| |constructor; auto].
  apply elem_of_cons in Hx as [->|Hx]; constructor; auto.
Qed.

Lemma StronglySorted_sublist {A} (R : A -> A -> Prop) l k :
  sublist l k -> StronglySorted R k -> StronglySorted R l.
Proof.
  induction 1 as [|x l k Hsub IH|x l k Hsub IH]; intros Hs; [constructor|..];
    inversion Hs as [|?? Hs' Hf]; subst; [|by apply IH].
  constructor; [by apply IH|]. rewrite Forall_forall in *. eauto using elem_of_sublist.
Qed.

Lemma fold_min_spec (l : list Z) t :
  (fold_left Z.min l t = t \/ fold_left Z.min l t ∈ l) /\
  (fold_left Z.min l t <= t)%Z /\ (forall x, x ∈ l -> fold_left Z.min l t <= x)%Z.
Proof.
  revert t; induction l as [|y l IH]; intros t; simpl.
  - split_and!; [by left|lia|]. by intros ? ?%elem_of_nil.
  - destruct (IH (Z.min t y)) as (H1 & H2 & H3). split_and!; [|lia|].
    + destruct H1 as [H1|H1]; [|right; by constructor].
      rewrite H1. destruct (Z.min_spec t y) as [[_ ->]|[_ ->]]; [by left|right; constructor].
    + intros x [->|Hx]%elem_of_cons; [lia|by apply H3].
Qed.

(** Turn every [Forall] into a statement on members. *)
Ltac foralls :=
  repeat match goal with H : Forall _ _ |- _ => rewrite Forall_forall in H end;
  try apply Forall_forall.

(** ** Boolean and propositional quantification over lists *)

Lemma forallb_Forall {A} (f : A -> bool) l : forallb f l = true <-> Forall (fun x => f x = true) l.
Proof. rewrite forallb_forall, Forall_forall. setoid_rewrite list_elem_of_In. done. Qed.

Lemma existsb_elem {A} (f : A -> bool) l : existsb f l = true <-> exists x, x ∈ l /\ f x = true.
Proof. rewrite existsb_exists. setoid_rewrite list_elem_of_In. done. Qed.

Lemma elem_of_filter_b {A} (f : A -> bool) l x : x ∈ List.filter f l <-> x ∈ l /\ f x = true.
Proof. rewrite !list_elem_of_In. apply filter_In. Qed.

(** A sorted list is sorted for every order its members' order implies. *)
Lemma StronglySorted_weaken {A} (P : A -> Prop) (R S : A -> A -> Prop) l :
  (forall x y, P x -> P y -> R x y -> S x y) -> Forall P l -> StronglySorted R l -> StronglySorted S l.
Proof.
  intros H Hl Hs. induction Hs as [|x l Hs IH Hf]; constructor; inversion Hl; subst; [auto|].
  rewrite Forall_forall in *. eauto.
Qed.

(** ** The first members of a list *)

Lemma take_filter_all {A} (f : A -> bool) n l :
  (forall x, x ∈ take n l -> f x = true) -> take n (List.filter f l) = take n l.
Proof.
  revert n; induction l as [|x l IH]; intros [|n] H; simpl; try done.
  rewrite (H x ltac:(constructor)). simpl. f_equal. apply IH. intros y Hy. apply H. by constructor.
Qed.

Lemma elem_of_take_filter {A} (f : A -> bool) n l x :
  x ∈ take n l -> f x = true -> x ∈ take n (List.filter f l).
Proof.
  revert n; induction l as [|y l IH]; intros [|n] Hx Hf; simpl in *; try by apply elem_of_nil in Hx.
  apply elem_of_cons in Hx as [->|Hx]; [rewrite Hf; simpl; constructor|].
  destruct (f y); [simpl; apply elem_of_cons; right; by apply IH|].
  apply (IH (S n)); [|done]. eapply elem_of_sublist; [exact Hx|].
  rewrite <- (take_drop n (take (S n) l)), take_take, Nat.min_l by lia.
  apply sublist_inserts_r. done.
Qed.

(** ** Order read backwards *)

Lemma StronglySorted_snoc {A} (R : A -> A -> Prop) l x :
  StronglySorted R l -> Forall (fun y => R y x) l -> StronglySorted R (l ++ [x]).
Proof.
  induction 1 as [|y l Hs IH Hf]; intros Hx; simpl; [by repeat constructor|].
  inversion Hx; subst. constructor; [by apply IH|]. apply Forall_app. split; [done|]. by repeat constructor.
Qed.

Lemma StronglySorted_snoc_inv {A} (R : A -> A -> Prop) l x :
  StronglySorted R (l ++ [x]) -> StronglySorted R l /\ Forall (fun y => R y x) l.
Proof.
  induction l as [|y l IH]; simpl; [by split; constructor|]. inversion_clear 1 as [|?? Hs Hf].
  apply Forall_app in Hf as [Hf [Hx _]%Forall_cons]. destruct (IH Hs). split; by constructor.
Qed.

Lemma StronglySorted_reverse {A} (R S : A -> A -> Prop) l :
  (forall x y, R x y -> S y x) -> StronglySorted R l -> StronglySorted S (reverse l).
Proof.
  intros H. induction 1 as [|x l Hs IH Hf]; [constructor|]. rewrite reverse_cons.
  apply StronglySorted_snoc; [done|]. apply Forall_reverse. eapply Forall_impl; eauto.
Qed.

Lemma Exists_reverse {A} (P : A -> Prop) l : Exists P (reverse l) <-> Exists P l.
Proof. rewrite !Exists_exists. setoid_rewrite elem_of_reverse. done. Qed.

#[export] Instance Exists_perm {A} (P : A -> Prop) : Proper ((≡ₚ) ==> iff) (Exists P).
Proof. intros l k Hp. rewrite !Exists_exists. by setoid_rewrite Hp. Qed.

Lemma rev_reverse {A} (l : list A) : rev l = reverse l.
Proof. apply rev_alt. Qed.

Lemma find_app_b {A} (f : A -> bool) l k :
  List.find f (l ++ k) = match List.find f l with Some x => Some x | None => List.find f k end.
Proof. induction l as [|x l IH]; simpl; [done|]. by destruct (f x). Qed.

Lemma StronglySorted_last {A} (R : A -> A -> Prop) l t y :
  StronglySorted R l -> last l = Some t -> y ∈ l -> y = t \/ R y t.
Proof.
  induction 1 as [|x l Hs IH Hf]; intros Hl Hy; [done|].
  apply elem_of_cons in Hy as [->|Hy].
  - destruct l as [|z l]; [injection Hl as ->; by left|]. right. rewrite Forall_forall in Hf.
    apply Hf. rewrite last_cons_cons in Hl. by apply last_Some_elem_of.
  - apply IH; [|done]. destruct l; [by apply elem_of_nil in Hy|]. by rewrite last_cons_cons in Hl.
Qed.

(** A separator that occurs in neither head splits a concatenation in one way only. *)
Lemma app_cons_inj {A} (c : A) l1 l2 r1 r2 :
  c ∉ l1 -> c ∉ l2 -> l1 ++ c :: r1 = l2 ++ c :: r2 -> l1 = l2 /\ r1 = r2.
Proof.
  revert l2; induction l1 as [|x l1 IH]; intros [|y l2]; simpl.
  - by intros _ _ [= ->].
  - intros _ H [= -> ->]. set_solver.
  - intros H _ [= -> _]. set_solver.
  - rewrite !not_elem_of_cons. intros [_ ?] [_ ?] [= -> E].
    by destruct (IH _ ltac:(done) ltac:(done) E) as [-> ->].
Qed.

Lemma fold_left_ext {A B} (f g : A -> B -> A) l a : (forall a x, f a x = g a x) -> fold_left f l a = fold_left g l a.
Proof. intros H. revert a; induction l; intros; simpl; rewrite ?H; auto. Qed.

Lemma omap_fmap_Some {A B C} (f : B -> option C) (g : A -> B) (h : A -> C) (l : list A) :
  (forall x, x ∈ l -> f (g x) = Some (h x)) -> omap f (g <$> l) = h <$> l.
Proof. induction l as [|x l IH]; intros H; csimpl; [done|]. rewrite H by set_solver. f_equal. apply IH. set_solver. Qed.

Lemma filter_ext_in_b {A} (f g : A -> bool) l :
  (forall x, x ∈ l -> f x = g x) -> List.filter f l = List.filter g l.
Proof. intros H. apply List.filter_ext_in. intros x Hx. apply H. by apply list_elem_of_In. Qed.

Lemma filter_all_b {A} (f : A -> bool) l : (forall x, x ∈ l -> f x = true) -> List.filter f l = l.
Proof.
  induction l as [|x l IH]; intros Hf; [done|]. simpl. rewrite (Hf x) by left. rewrite IH; [done|].
  intros y Hy. apply Hf. by right.
Qed.

Lemma Forall_filter_b {A} (P : A -> Prop) (f : A -> bool) l : Forall P l -> Forall P (List.filter f l).
Proof. intros Hl. apply Forall_forall. intros x [Hx _]%elem_of_filter_b. by apply (proj1 (Forall_forall _ _) Hl). Qed.

Lemma NoDup_fmap_filter_b {A B} (g : A -> B) (f : A -> bool) l : NoDup (g <$> l) -> NoDup (g <$> List.filter f l).
Proof.
  induction l as [|x l IH]; [done|]. rewrite fmap_cons, NoDup_cons. intros [Hx Hl]. simpl.
  destruct (f x); [|by apply IH]. rewrite fmap_cons, NoDup_cons. split; [|by apply IH].
  intros (y & E & Hy)%list_elem_of_fmap. apply elem_of_filter_b in Hy as [Hy _]. apply Hx. rewrite E.
  by apply list_elem_of_fmap_2.
Qed.

Lemma filter_perm_b {A} (f : A -> bool) l k : l ≡ₚ k -> List.filter f l ≡ₚ List.filter f k.
Proof.
  induction 1 as [|x l k _ IH|x y l|l k j _ IH1 _ IH2]; simpl; [done|case_match; by rewrite IH| |by rewrite IH1].
  repeat case_match; (reflexivity || apply perm_swap).
Qed.

Lemma NoDup_fmap_eq {A B} (f : A -> B) l x y : NoDup (f <$> l) -> x ∈ l -> y ∈ l -> f x = f y -> x = y.
Proof.
  induction l as [|z l IH]; simpl; intros Hn Hx Hy E; [by apply elem_of_nil in Hx|].
  apply NoDup_cons in Hn as [Hz Hn].
  assert (Hout : forall w, w ∈ l -> f w <> f z).
  { intros w Hw Ew. apply Hz. apply list_elem_of_fmap. eauto. }
  apply elem_of_cons in Hx as [->|Hx], Hy as [->|Hy]; [done| | |by apply IH].
  - by destruct (Hout y Hy).
  - by destruct (Hout x Hx).
Qed.

Lemma length_filter_perm {A} (f : A -> bool) l k :
  l ≡ₚ k -> length (List.filter f l) = length (List.filter f k).
Proof. induction 1; simpl; repeat case_match; simpl in *; lia. Qed.

(** An invariant of a loop over a list. *)
Lemma fold_left_inv {A B} (P : A -> Prop) (f : A -> B -> A) l a :
  P a -> (forall a x, x ∈ l -> P a -> P (f a x)) -> P (fold_left f l a).
Proof.
  revert a; induction l as [|x l IH]; intros a Ha Hf; simpl; [done|].
  apply IH; [apply Hf; [constructor|done]|]. intros b y Hy. apply Hf. by constructor.
Qed.

(** ** Sums *)

Definition sumZ (l : list Z) : Z := foldr Z.add 0%Z l.

Lemma sumZ_app l k : (sumZ (l ++ k) = sumZ l + sumZ k)%Z.
Proof. induction l as [|x l IH]; simpl; [done|]. rewrite IH. lia. Qed.

Lemma sumZ_nonneg l : Forall (fun x => 0 <= x)%Z l -> (0 <= sumZ l)%Z.
Proof. induction 1; simpl; lia. Qed.

(** A part of a sum of counts is at most the whole. *)
Lemma sumZ_filter_le {A} (w : A -> Z) (f : A -> bool) l :
  Forall (fun x => 0 <= w x)%Z l -> (0 <= sumZ (w <$> List.filter f l) <= sumZ (w <$> l))%Z.
Proof. unfold sumZ. induction 1 as [|x l Hx Hl IH]; [done|]. simpl List.filter. destruct (f x); csimpl; lia. Qed.
