(* ===== verification/JsNum.v ===== *)
(** JavaScript numbers: IEEE-754 doubles as exact multiples of the least positive double, with the
    operations the program uses rounded to nearest, ties to even, and the lemmas under which they
    act as integer arithmetic.  The sign of a zero is not kept: no operation of the modelled code
    tells the two zeros apart. *)
From S2P Require Import Prelude.
Local Open Scope Z_scope.

(** One, counted in units of the least positive double. *)
Definition U : Z := 2 ^ 1074.

(** The first magnitude that no finite double reaches, in the same units. *)
Definition OVERFLOW : Z := 2 ^ 2098.

Lemma U_pos : 0 < U.
Proof. reflexivity. Qed.

Lemma OVERFLOW_pos : 0 < OVERFLOW.
Proof. reflexivity. Qed.

(** A JavaScript number: [Fin z] is the double of value [z * 2^-1074]. *)
Inductive number :=
  | NaN
  | Inf (neg : bool)
  | Fin (z : Z).

#[export] Instance number_eq_dec : EqDecision number.
Proof. solve_decision. Defined.

(** Nearest integer to [a / b], ties to even. *)
Definition rne (a b : Z) : Z :=
  let q := a / b in
  let r := a mod b in
  if 2 * r <? b then q
  else if b <? 2 * r then q + 1
  else if Z.even q then q else q + 1.

(** The exponent of the last kept bit of [a / b], at least the unit's. *)
Definition ulp_exp (a b : Z) : Z := Z.max 0 (Z.log2 (Z.abs a / b) - 52).

(** [a / b] units rounded to 53 significant bits, before the overflow test. *)
Definition round_units (a b : Z) : Z :=
  let e := ulp_exp a b in rne a (b * 2 ^ e) * 2 ^ e.

(** Round to nearest, ties to even: the result of every inexact operation. *)
Definition round64 (a b : Z) : number :=
  let z := round_units a b in
  if Z.abs z <? OVERFLOW then Fin z else Inf (z <? 0).

(** The values a double can hold, overflow aside. *)
Definition repr (z : Z) : Prop :=
  exists m e, 0 <= e /\ Z.abs m <= 2 ^ 53 /\ z = m * 2 ^ e.

Lemma rne_le a b n : 0 < b -> a <= n * b -> rne a b <= n.
Proof.
  intros Hb H. unfold rne.
  pose proof (Z.div_mod a b ltac:(lia)). pose proof (Z.mod_pos_bound a b Hb).
  assert (a / b <= n) by nia.
  destruct (Z.eq_dec (a / b) n) as [E|E].
  - assert (a mod b = 0) by nia.
    destruct (2 * (a mod b) <? b) eqn:?; lia.
  - repeat case_match; lia.
Qed.

Lemma rne_ge a b n : 0 < b -> n * b <= a -> n <= rne a b.
Proof.
  intros Hb H. unfold rne.
  pose proof (Z.div_mod a b ltac:(lia)). pose proof (Z.mod_pos_bound a b Hb).
  assert (n <= a / b) by nia.
  repeat case_match; lia.
Qed.

Lemma pow2_pos e : 0 <= e -> 0 < 2 ^ e.
Proof. intros. apply Z.pow_pos_nonneg; lia. Qed.

Lemma ulp_exp_nonneg a b : 0 <= ulp_exp a b.
Proof. unfold ulp_exp. lia. Qed.

(** Above the subnormal range the magnitude fills its 53 bits. *)
Lemma ulp_exp_big a b :
  0 < b -> 0 < ulp_exp a b -> 2 ^ 52 * 2 ^ ulp_exp a b * b <= Z.abs a.
Proof.
  unfold ulp_exp. intros Hb He.
  set (L := Z.log2 (Z.abs a / b)) in *.
  assert (HL : 52 < L) by lia.
  replace (Z.max 0 (L - 52)) with (L - 52) by lia.
  rewrite <- Z.pow_add_r by lia. replace (52 + (L - 52)) with L by lia.
  assert (0 < Z.abs a / b).
  { destruct (Z.le_gt_cases (Z.abs a / b) 0) as [G|G]; [|lia].
    subst L. rewrite (Z.log2_nonpos _ G) in HL. lia. }
  pose proof (Z.log2_spec (Z.abs a / b) ltac:(lia)) as [Hlo _].
  fold L in Hlo. pose proof (Z.mul_div_le (Z.abs a) b Hb). nia.
Qed.

(** Rounding never steps over a representable value. *)
Lemma round_units_le a b x :
  0 < b -> repr x -> a <= x * b -> round_units a b <= x.
Proof.
  intros Hb (m & e' & He' & Hm & ->) H. unfold round_units.
  set (e := ulp_exp a b). pose proof (ulp_exp_nonneg a b) as He. fold e in He.
  pose proof (pow2_pos e He). pose proof (pow2_pos e' He').
  destruct (Z.le_gt_cases e e') as [C|C].
  - replace e' with ((e' - e) + e) in * by lia. rewrite Z.pow_add_r in * by lia.
    assert (rne a (b * 2 ^ e) <= m * 2 ^ (e' - e)); [|nia].
    apply rne_le; nia.
  - pose proof (ulp_exp_big a b Hb ltac:(fold e; lia)) as Hbig. fold e in Hbig.
    assert (Hp : 2 * 2 ^ e' <= 2 ^ e).
    { change 2 with (2 ^ 1) at 1. rewrite <- Z.pow_add_r by lia.
      apply Z.pow_le_mono_r; lia. }
    assert (Hx : Z.abs (m * 2 ^ e') <= 2 ^ 52 * 2 ^ e) by
      (rewrite Z.abs_mul, (Z.abs_eq (2 ^ e')) by lia; nia).
    destruct (Z.le_gt_cases 0 a) as [Ha|Ha].
    + assert (rne a (b * 2 ^ e) <= 2 ^ 52); [apply rne_le; nia|].
      assert (m * 2 ^ e' = 2 ^ 52 * 2 ^ e) by nia. nia.
    + assert (rne a (b * 2 ^ e) <= - 2 ^ 52); [apply rne_le; nia|]. nia.
Qed.

Lemma round_units_opp a b : 0 < b -> round_units (- a) b = - round_units a b.
Proof.
  intros Hb. unfold round_units.
  assert (He : ulp_exp (- a) b = ulp_exp a b) by (unfold ulp_exp; rewrite Z.abs_opp; done).
  rewrite He. set (e := ulp_exp a b).
  enough (rne (- a) (b * 2 ^ e) = - rne a (b * 2 ^ e)) by nia.
  assert (0 < b * 2 ^ e) as Hd by (pose proof (pow2_pos e (ulp_exp_nonneg a b)); nia).
  generalize dependent (b * 2 ^ e). clear. intros d Hd. unfold rne.
  pose proof (Z.div_mod a d ltac:(lia)). pose proof (Z.mod_pos_bound a d Hd).
  destruct (Z.eq_dec (a mod d) 0) as [E|E].
  - rewrite Z.div_opp_l_z, Z.mod_opp_l_z by lia.
    rewrite !(proj2 (Z.ltb_lt _ _)) by lia. done.
  - rewrite Z.div_opp_l_nz, Z.mod_opp_l_nz by lia.
    replace (- (a / d) - 1) with (- (a / d + 1)) by lia.
    rewrite Z.even_opp, Z.even_add.
    destruct (Z.even (a / d)) eqn:?, (2 * (a mod d) <? d) eqn:?, (d <? 2 * (a mod d)) eqn:?,
      (2 * (d - a mod d) <? d) eqn:?, (d <? 2 * (d - a mod d)) eqn:?; simpl; lia.
Qed.

Lemma repr_opp x : repr x -> repr (- x).
Proof. intros (m & e & ? & ? & ->). exists (- m), e. split_and!; lia. Qed.

Lemma round_units_ge a b x :
  0 < b -> repr x -> x * b <= a -> x <= round_units a b.
Proof.
  intros Hb Hx H.
  pose proof (round_units_le (- a) b (- x) Hb (repr_opp _ Hx) ltac:(lia)).
  rewrite round_units_opp in *; lia.
Qed.

Lemma round_units_repr a b : 0 < b -> repr (round_units a b).
Proof.
  intros Hb. unfold round_units. set (e := ulp_exp a b).
  pose proof (ulp_exp_nonneg a b) as He. fold e in He.
  exists (rne a (b * 2 ^ e)), e. split_and!; [done| |done].
  pose proof (pow2_pos e He).
  assert (Z.abs a < 2 ^ 53 * 2 ^ e * b) as Ha.
  { destruct (Z.eq_dec (Z.abs a / b) 0) as [E|E].
    - apply Z.div_small_iff in E; nia.
    - pose proof (Z.div_pos (Z.abs a) b ltac:(lia) Hb).
      pose proof (Z.log2_spec (Z.abs a / b) ltac:(lia)) as [_ Hhi].
      pose proof (Z.log2_nonneg (Z.abs a / b)).
      assert (2 ^ Z.succ (Z.log2 (Z.abs a / b)) <= 2 ^ (53 + e)) as Hle.
      { apply Z.pow_le_mono_r; [lia|]. subst e. unfold ulp_exp. lia. }
      rewrite (Z.pow_add_r 2 53 e) in Hle by lia.
      pose proof (Z.div_mod (Z.abs a) b ltac:(lia)).
      pose proof (Z.mod_pos_bound (Z.abs a) b Hb). nia. }
  apply Z.abs_le. split.
  - apply rne_ge; nia.
  - apply rne_le; nia.
Qed.

(** Rounding is exact on representable values. *)
Lemma round_units_exact a b x :
  0 < b -> repr x -> a = x * b -> round_units a b = x.
Proof.
  intros Hb Hx ->. apply Z.le_antisymm;
    [apply round_units_le|apply round_units_ge]; done || lia.
Qed.

(** ** The operations of the language *)

(** An integer-valued number. *)
Definition int (z : Z) : number := Fin (z * U).

(** The literal [m * 10^-k] of the source. *)
Definition dec (m k : Z) : number := round64 (m * U) (10 ^ k).

Definition nneg (x : number) : number :=
  match x with NaN => NaN | Inf s => Inf (negb s) | Fin z => Fin (- z) end.

Definition nadd (x y : number) : number :=
  match x, y with
  | NaN, _ | _, NaN => NaN
  | Inf s, Inf t => if Bool.eqb s t then Inf s else NaN
  | Inf s, _ => Inf s
  | _, Inf t => Inf t
  | Fin a, Fin b => round64 (a + b) 1
  end.

Definition nsub (x y : number) : number := nadd x (nneg y).

Definition nsign (x : number) : bool :=
  match x with NaN => false | Inf s => s | Fin z => z <? 0 end.

Definition nmul (x y : number) : number :=
  match x, y with
  | NaN, _ | _, NaN => NaN
  | Fin a, Fin b => round64 (a * b) U
  | Inf s, Inf t => Inf (xorb s t)
  | Inf s, Fin z | Fin z, Inf s => if z =? 0 then NaN else Inf (xorb s (z <? 0))
  end.

Definition ndiv (x y : number) : number :=
  match x, y with
  | NaN, _ | _, NaN => NaN
  | Inf _, Inf _ => NaN
  | Inf s, Fin _ => Inf (xorb s (nsign y))
  | Fin _, Inf _ => Fin 0
  | Fin a, Fin b =>
      if b =? 0 then (if a =? 0 then NaN else Inf (a <? 0))
      else round64 (a * U * Z.sgn b) (Z.abs b)
  end.

(** The remainder operator: exact, with the sign of the dividend. *)
Definition nrem (x y : number) : number :=
  match x, y with
  | Fin a, Fin b => if b =? 0 then NaN else Fin (Z.rem a b)
  | Fin a, Inf _ => Fin a
  | _, _ => NaN
  end.

Definition nltb (x y : number) : bool :=
  match x, y with
  | NaN, _ | _, NaN => false
  | Inf s, Inf t => s && negb t
  | Inf s, Fin _ => s
  | Fin _, Inf t => negb t
  | Fin a, Fin b => a <? b
  end.

(** Strict equality: NaN differs from itself. *)
Definition neqb (x y : number) : bool :=
  match x, y with
  | Inf s, Inf t => Bool.eqb s t
  | Fin a, Fin b => a =? b
  | _, _ => false
  end.

Definition nleb (x y : number) : bool := nltb x y || neqb x y.

Definition isNaN (x : number) : bool := match x with NaN => true | _ => false end.
Definition isFinite (x : number) : bool := match x with Fin _ => true | _ => false end.
Definition isInteger (x : number) : bool :=
  match x with Fin z => z mod U =? 0 | _ => false end.

Definition nfloor (x : number) : number :=
  match x with Fin z => Fin (z / U * U) | _ => x end.
Definition nceil (x : number) : number :=
  match x with Fin z => Fin (- (- z / U) * U) | _ => x end.
(** Math.round: the nearest integer, ties toward positive infinity. *)
Definition nround (x : number) : number :=
  match x with Fin z => Fin ((2 * z + U) / (2 * U) * U) | _ => x end.
Definition nabs (x : number) : number :=
  match x with NaN => NaN | Inf _ => Inf false | Fin z => Fin (Z.abs z) end.

Definition nmax (x y : number) : number :=
  if isNaN x || isNaN y then NaN else if nltb x y then y else x.
Definition nmin (x y : number) : number :=
  if isNaN x || isNaN y then NaN else if nltb y x then y else x.

Declare Scope number_scope.
Delimit Scope number_scope with num.
Bind Scope number_scope with number.
Notation "x + y" := (nadd x y) : number_scope.
Notation "x - y" := (nsub x y) : number_scope.
Notation "x * y" := (nmul x y) : number_scope.
Notation "x / y" := (ndiv x y) : number_scope.
Notation "x 'mod' y" := (nrem x y) : number_scope.
Notation "- x" := (nneg x) : number_scope.
Notation "x <? y" := (nltb x y) : number_scope.
Notation "x <=? y" := (nleb x y) : number_scope.
Notation "x >? y" := (nltb y x) (only parsing) : number_scope.
Notation "x >=? y" := (nleb y x) (only parsing) : number_scope.
Notation "x =? y" := (neqb x y) : number_scope.

(** ** Safe integers behave as integers *)

Definition safe (z : Z) : Prop := Z.abs z <= 2 ^ 53.

Lemma repr_int z : safe z -> repr (z * U).
Proof. intros. exists z, 1074. split_and!; [lia|done|reflexivity]. Qed.

Lemma U_OVERFLOW : 2 ^ 60 * U <= OVERFLOW.
Proof. vm_compute. discriminate. Qed.

#[global] Opaque U OVERFLOW.

Lemma safe_lt_OVERFLOW z : safe z -> Z.abs (z * U) < OVERFLOW.
Proof.
  unfold safe. intros. pose proof U_OVERFLOW. pose proof U_pos.
  rewrite Z.abs_mul, (Z.abs_eq U) by lia. nia.
Qed.

Lemma round64_int a b z : 0 < b -> safe z -> a = z * U * b -> round64 a b = int z.
Proof.
  intros Hb Hz ->. unfold round64.
  rewrite (round_units_exact _ b (z * U)) by (done || by apply repr_int).
  rewrite (proj2 (Z.ltb_lt _ _)) by by apply safe_lt_OVERFLOW. done.
Qed.

Lemma nadd_int a b : safe (a + b) -> (int a + int b)%num = int (a + b).
Proof. intros. apply round64_int; [lia|done|lia]. Qed.

(** Larger integers that are doubles all the same. *)
Definition exact (z : Z) : Prop := repr (z * U) /\ Z.abs z <= 2 ^ 64.

Lemma U_OVERFLOW64 : 2 ^ 64 * U < OVERFLOW.
Proof. reflexivity. Qed.

Lemma safe_exact z : safe z -> exact z.
Proof. intros Hz. split; [by apply repr_int|]. unfold safe in Hz. lia. Qed.

Lemma round64_exact a b z : 0 < b -> exact z -> a = z * U * b -> round64 a b = int z.
Proof.
  intros Hb [Hr Hz] ->. unfold round64. rewrite (round_units_exact _ _ (z * U)) by done.
  pose proof U_OVERFLOW64. pose proof U_pos. rewrite Z.abs_mul, (Z.abs_eq U) by lia.
  rewrite (proj2 (Z.ltb_lt _ _)); [done|].
  assert (Z.abs z * U <= 2 ^ 64 * U) by (apply Z.mul_le_mono_nonneg_r; lia). lia.
Qed.

Lemma nadd_exact a b : exact (a + b) -> (int a + int b)%num = int (a + b).
Proof. intros. apply round64_exact; [lia|done|lia]. Qed.

Lemma nmul_exact a b : exact (a * b) -> (int a * int b)%num = int (a * b).
Proof. intros. apply round64_exact; [apply U_pos|done|lia]. Qed.

(** An exact quotient. *)
Lemma ndiv_exact q b : 0 < b -> exact q -> (int (q * b) / int b)%num = int q.
Proof.
  intros Hb Hq. pose proof U_pos. unfold int at 1 2. cbn [ndiv].
  rewrite (proj2 (Z.eqb_neq _ _)) by nia. rewrite Z.sgn_pos, Z.abs_eq by nia.
  apply round64_exact; [nia|done|lia].
Qed.

Lemma nrem_int a b : b <> 0 -> (int a mod int b)%num = int (Z.rem a b).
Proof.
  intros Hb. pose proof U_pos. unfold int. cbn [nrem]. rewrite (proj2 (Z.eqb_neq _ _)) by nia.
  by rewrite Z.mul_rem_distr_r by lia.
Qed.

Lemma nneg_int a : (- int a)%num = int (- a).
Proof. simpl. unfold int. f_equal. lia. Qed.

Lemma nsub_int a b : safe (a - b) -> (int a - int b)%num = int (a - b).
Proof. intros. unfold nsub. rewrite nneg_int. by apply nadd_int. Qed.

Lemma nmul_int a b : safe (a * b) -> (int a * int b)%num = int (a * b).
Proof.
  intros. change (int a * int b)%num with (round64 (a * U * (b * U)) U).
  apply round64_int; [apply U_pos|done|lia].
Qed.

Lemma nltb_int a b : (int a <? int b)%num = (a <? b).
Proof. simpl. pose proof U_pos. destruct (Z.ltb_spec a b), (Z.ltb_spec (a * U) (b * U)); nia || done. Qed.

Lemma neqb_int a b : (int a =? int b)%num = (a =? b).
Proof. simpl. pose proof U_pos. destruct (Z.eqb_spec a b), (Z.eqb_spec (a * U) (b * U)); nia || done. Qed.

Lemma nleb_int a b : (int a <=? int b)%num = (a <=? b).
Proof. unfold nleb. rewrite nltb_int, neqb_int. lia. Qed.

Lemma nmax_int a b : nmax (int a) (int b) = int (Z.max a b).
Proof.
  unfold nmax. change (isNaN (int a) || isNaN (int b)) with false.
  rewrite nltb_int. destruct (Z.ltb_spec a b); f_equal; lia.
Qed.

Lemma nmin_int a b : nmin (int a) (int b) = int (Z.min a b).
Proof.
  unfold nmin. change (isNaN (int a) || isNaN (int b)) with false.
  rewrite nltb_int. destruct (Z.ltb_spec b a); f_equal; lia.
Qed.

Lemma nfloor_int a : nfloor (int a) = int a.
Proof. simpl. unfold int. rewrite Z.div_mul by (pose proof U_pos; lia). done. Qed.

Lemma nceil_int a : nceil (int a) = int a.
Proof.
  simpl. unfold int. replace (- (a * U)) with (- a * U) by lia.
  rewrite Z.div_mul by (pose proof U_pos; lia). f_equal. lia.
Qed.

Lemma ndiv_int_0_l b : 0 < b -> (int 0 / int b)%num = int 0.
Proof.
  intros Hb. pose proof U_pos. unfold ndiv, int.
  rewrite (proj2 (Z.eqb_neq (b * U) 0)) by nia.
  apply round64_int; [nia|unfold safe; lia|lia].
Qed.

Lemma isInteger_int a : isInteger (int a) = true.
Proof. simpl. rewrite Z.mod_mul by (pose proof U_pos; lia). done. Qed.

Lemma int_inj a b : int a = int b -> a = b.
Proof. unfold int. pose proof U_pos. intros [= ?]. nia. Qed.

(** [Math.floor(a / b)] is integer division: the rounded quotient never reaches the next integer
    while [(a / b + 1) * 2^j] still fits 53 bits for some [2^j >= b]. *)
Lemma nfloor_ndiv_int j a b :
  0 < b <= 2 ^ j -> 0 <= j -> 0 <= a -> (a / b + 1) * 2 ^ j <= 2 ^ 53 -> j <= 1074 ->
  nfloor (int a / int b)%num = int (a / b).
Proof.
  intros Hb Hj Ha Hfit Hj2. unfold ndiv, int. pose proof U_pos as HU.
  rewrite (proj2 (Z.eqb_neq (b * U) 0)) by nia.
  rewrite Z.sgn_pos, Z.mul_1_r, Z.abs_eq by nia.
  pose proof (Z.div_mod a b ltac:(lia)). pose proof (Z.mod_pos_bound a b ltac:(lia)).
  set (k := a / b) in *. assert (0 <= k) by (apply Z.div_pos; lia).
  assert (Hlo : k * U <= round_units (a * U * U) (b * U)).
  { apply round_units_ge; [nia|apply repr_int; unfold safe; nia|nia]. }
  assert (HUj : exists V, U = V * 2 ^ j /\ 0 < V /\ V = 2 ^ (1074 - j)).
  { exists (2 ^ (1074 - j)). split_and!; [|apply pow2_pos; lia|done].
    rewrite <- Z.pow_add_r by lia. replace (1074 - j + j) with 1074 by lia. done. }
  destruct HUj as (V & HV & HV0 & HVp).
  assert (Hhi : round_units (a * U * U) (b * U) <= ((k + 1) * 2 ^ j - 1) * V).
  { apply round_units_le; [nia| |].
    - exists ((k + 1) * 2 ^ j - 1), (1074 - j). split_and!; [lia|nia|by rewrite HVp].
    - replace (((k + 1) * 2 ^ j - 1) * V * (b * U)) with
        ((((k + 1) * 2 ^ j - 1) * b) * V * U) by ring.
      rewrite HV at 1. replace (a * (V * 2 ^ j) * U) with (a * 2 ^ j * V * U) by ring.
      apply Z.mul_le_mono_nonneg_r; [lia|]. apply Z.mul_le_mono_nonneg_r; [lia|].
      assert (a <= (k + 1) * b - 1) by lia. nia. }
  assert (Hlt : round_units (a * U * U) (b * U) < (k + 1) * U).
  { replace ((k + 1) * U) with ((k + 1) * 2 ^ j * V) by (rewrite HV; ring). lia. }
  clear Hhi HV. assert (0 <= k * U) by nia.
  pose proof (safe_lt_OVERFLOW (k + 1) ltac:(unfold safe; nia)) as G.
  rewrite (Z.abs_eq ((k + 1) * U)) in G by nia.
  unfold round64. rewrite (proj2 (Z.ltb_lt _ _)) by (rewrite Z.abs_eq; lia).
  simpl. f_equal. f_equal.
  symmetry. apply Z.div_unique with (r := round_units (a * U * U) (b * U) - k * U); lia.
Qed.

(** [Math.ceil(a / b)] likewise. *)
Lemma nceil_ndiv_int j a b :
  0 < b <= 2 ^ j -> 0 <= j <= 1074 -> 1 <= a -> ((a - 1) / b + 1) * 2 ^ j <= 2 ^ 53 ->
  nceil (int a / int b)%num = int ((a - 1) / b + 1).
Proof.
  intros Hb Hj Ha Hfit. unfold ndiv, int. pose proof U_pos as HU.
  rewrite (proj2 (Z.eqb_neq (b * U) 0)) by nia.
  rewrite Z.sgn_pos, Z.mul_1_r, Z.abs_eq by nia.
  pose proof (Z.div_mod (a - 1) b ltac:(lia)). pose proof (Z.mod_pos_bound (a - 1) b ltac:(lia)).
  set (k := (a - 1) / b) in *. assert (0 <= k) by (apply Z.div_pos; lia).
  assert (Hhi : round_units (a * U * U) (b * U) <= (k + 1) * U).
  { apply round_units_le; [nia|apply repr_int; unfold safe; nia|nia]. }
  assert (HUj : exists V, U = V * 2 ^ j /\ 0 < V /\ V = 2 ^ (1074 - j)).
  { exists (2 ^ (1074 - j)). split_and!; [|apply pow2_pos; lia|done].
    rewrite <- Z.pow_add_r by lia. replace (1074 - j + j) with 1074 by lia. done. }
  destruct HUj as (V & HV & HV0 & HVp).
  assert (Hlo : (k * 2 ^ j + 1) * V <= round_units (a * U * U) (b * U)).
  { apply round_units_ge; [nia| |].
    - exists (k * 2 ^ j + 1), (1074 - j). split_and!; [lia|nia|by rewrite HVp].
    - replace ((k * 2 ^ j + 1) * V * (b * U)) with (((k * 2 ^ j + 1) * b) * V * U) by ring.
      rewrite HV at 2. replace (a * (V * 2 ^ j) * U) with (a * 2 ^ j * V * U) by ring.
      apply Z.mul_le_mono_nonneg_r; [lia|]. apply Z.mul_le_mono_nonneg_r; [lia|].
      assert (k * b + 1 <= a) by lia. nia. }
  assert (Hgt : k * U < round_units (a * U * U) (b * U)).
  { replace (k * U) with (k * 2 ^ j * V) by (rewrite HV; ring). lia. }
  clear Hlo HV. assert (0 <= k * U) by nia.
  pose proof (safe_lt_OVERFLOW (k + 1) ltac:(unfold safe; nia)) as G.
  rewrite (Z.abs_eq ((k + 1) * U)) in G by nia.
  unfold round64. rewrite (proj2 (Z.ltb_lt _ _)) by (rewrite Z.abs_eq; lia).
  simpl. f_equal. f_equal.
  enough (- round_units (a * U * U) (b * U) / U = - (k + 1)) by lia.
  symmetry. apply Z.div_unique with (r := (k + 1) * U - round_units (a * U * U) (b * U)); lia.
Qed.

Example tenth_plus_fifth :
  (dec 1 1 + dec 2 1 =? dec 3 1)%num = false /\
  (dec 1 1 + dec 2 1 =? dec 30000000000000004 17)%num = true.
Proof. split; vm_compute; reflexivity. Qed.

Lemma log2_up_bound b : 1 <= b -> b <= 2 ^ Z.log2_up b <= 2 * b - 1.
Proof.
  intros Hb. destruct (Z.eq_dec b 1) as [->|]; [done|].
  pose proof (Z.log2_up_spec b ltac:(lia)) as [Hlo Hhi].
  pose proof (Z.log2_up_pos b ltac:(lia)).
  replace (Z.log2_up b) with (Z.succ (Z.pred (Z.log2_up b))) in Hhi |- * by lia.
  rewrite Z.pow_succ_r in Hhi |- * by lia. lia.
Qed.

(** Both hold for every pair a list or a duration of this program can produce. *)
Lemma nfloor_ndiv_safe a b :
  0 <= a -> 1 <= b -> a + b <= 2 ^ 51 -> nfloor (int a / int b)%num = int (a / b).
Proof.
  intros Ha Hb Hs. pose proof (log2_up_bound b Hb). pose proof (Z.log2_up_nonneg b).
  pose proof (Z.div_mod a b ltac:(lia)). pose proof (Z.mod_pos_bound a b ltac:(lia)).
  apply (nfloor_ndiv_int (Z.log2_up b)); [lia|lia|lia|nia|].
  transitivity (Z.log2_up (2 ^ 51)); [apply Z.log2_up_le_mono; lia|done].
Qed.

Lemma nceil_ndiv_safe a b :
  0 <= a -> 1 <= b -> a + b <= 2 ^ 51 ->
  nceil (int a / int b)%num = int ((a + b - 1) / b).
Proof.
  intros Ha Hb Hs. pose proof (log2_up_bound b Hb). pose proof (Z.log2_up_nonneg b).
  destruct (Z.eq_dec a 0) as [->|].
  - rewrite Z.div_small, ndiv_int_0_l, nceil_int by lia. done.
  - replace (a + b - 1) with (a - 1 + 1 * b) by lia. rewrite Z.div_add by lia.
    pose proof (Z.div_mod (a - 1) b ltac:(lia)). pose proof (Z.mod_pos_bound (a - 1) b ltac:(lia)).
    apply (nceil_ndiv_int (Z.log2_up b)); [lia| |lia|nia].
    split; [lia|]. transitivity (Z.log2_up (2 ^ 51)); [apply Z.log2_up_le_mono; lia|done].
Qed.

(** The length of an array or a string, as a number. *)
Definition len {A} (l : list A) : number := int (Z.of_nat (length l)).

(** ** Signs survive rounding *)

Lemma repr_small z : Z.abs z <= 2 ^ 53 -> repr z.
Proof. intros. exists z, 0. split_and!; lia. Qed.

Lemma round_units_sign a : Z.sgn (round_units a 1) = Z.sgn a.
Proof.
  destruct (Z.lt_trichotomy a 0) as [H|[->|H]].
  - pose proof (round_units_le a 1 (-1) ltac:(lia) ltac:(apply repr_small; lia) ltac:(lia)). lia.
  - rewrite (round_units_exact 0 1 0); [done|lia|apply repr_small; lia|lia].
  - pose proof (round_units_ge a 1 1 ltac:(lia) ltac:(apply repr_small; lia) ltac:(lia)). lia.
Qed.

Lemma nsub_sign x y :
  (int 0 <? Fin x - Fin y)%num = (y <? x) /\
  (Fin x - Fin y <? int 0)%num = (x <? y) /\
  (Fin x - Fin y =? int 0)%num = (x =? y).
Proof.
  unfold nsub. cbn [nneg nadd]. pose proof (round_units_sign (x + - y)) as Hs.
  change (int 0) with (Fin 0). unfold round64. pose proof OVERFLOW_pos.
  destruct (Z.ltb_spec (Z.abs (round_units (x + - y) 1)) OVERFLOW); cbn [nltb neqb negb];
    split_and!; lia.
Qed.

Lemma nsub_int_pos a b : (int 0 <? int a - int b)%num = (b <? a).
Proof. rewrite <- (nltb_int b a). apply (nsub_sign (a * U) (b * U)). Qed.

Lemma nsub_int_neg a b : (int a - int b <? int 0)%num = (a <? b).
Proof. rewrite <- (nltb_int a b). apply (nsub_sign (a * U) (b * U)). Qed.

Lemma nsub_int_zero a b : (int a - int b =? int 0)%num = (a =? b).
Proof. rewrite <- (neqb_int a b). apply (nsub_sign (a * U) (b * U)). Qed.

(** ** Bounds survive rounding *)

Lemma round64_between a b lo hi :
  0 < b -> repr lo -> repr hi -> Z.abs lo < OVERFLOW -> Z.abs hi < OVERFLOW ->
  lo * b <= a <= hi * b -> exists z, round64 a b = Fin z /\ lo <= z <= hi.
Proof.
  intros Hb Hlo Hhi Olo Ohi Ha. unfold round64.
  pose proof (round_units_ge a b lo Hb Hlo ltac:(lia)). pose proof (round_units_le a b hi Hb Hhi ltac:(lia)).
  rewrite (proj2 (Z.ltb_lt _ _)) by lia. eauto.
Qed.

(** A value between two integers stays there under the four operations with an integer. *)
Lemma ndiv_int_between z b lo hi :
  0 < b -> safe lo -> safe hi -> lo * b * U <= z <= hi * b * U ->
  exists q, (Fin z / int b)%num = Fin q /\ lo * U <= q <= hi * U.
Proof.
  intros Hb Hlo Hhi Hz. pose proof U_pos. unfold ndiv, int.
  rewrite (proj2 (Z.eqb_neq (b * U) 0)), Z.sgn_pos, Z.mul_1_r, Z.abs_eq by nia.
  apply round64_between; [nia|by apply repr_int|by apply repr_int|by apply safe_lt_OVERFLOW|
                          by apply safe_lt_OVERFLOW|nia].
Qed.

Lemma nsub_between x z lo hi :
  safe lo -> safe hi -> lo * U <= x - z <= hi * U ->
  exists q, (Fin x - Fin z)%num = Fin q /\ lo * U <= q <= hi * U.
Proof.
  intros Hlo Hhi Hz. pose proof U_pos. unfold nsub, nneg, nadd.
  apply round64_between; [lia|by apply repr_int|by apply repr_int|by apply safe_lt_OVERFLOW|
                          by apply safe_lt_OVERFLOW|lia].
Qed.

Lemma nmul_int_between a z lo hi :
  safe lo -> safe hi -> lo * U <= a * z <= hi * U ->
  exists q, (int a * Fin z)%num = Fin q /\ lo * U <= q <= hi * U.
Proof.
  intros Hlo Hhi Hz. pose proof U_pos. unfold nmul, int.
  apply round64_between; [lia|by apply repr_int|by apply repr_int|by apply safe_lt_OVERFLOW|
                          by apply safe_lt_OVERFLOW|nia].
Qed.

(** The exact comparison of a rounded difference or quotient with an integer. *)
Lemma round64_ge a b x :
  0 < b -> repr x -> - OVERFLOW < x -> x * b <= a -> (Fin x <=? round64 a b)%num = true.
Proof.
  intros Hb Hx Ho Ha. unfold round64, nleb. pose proof (round_units_ge a b x Hb Hx Ha).
  destruct (Z.ltb_spec (Z.abs (round_units a b)) OVERFLOW); cbn [nltb neqb]; [lia|].
  rewrite (proj2 (Z.ltb_ge _ _)) by lia. done.
Qed.

Lemma nsub_int_ge a b k : safe k -> k <= a - b -> (int k <=? int a - int b)%num = true.
Proof.
  intros Hk H. pose proof U_pos. unfold nsub, int. cbn [nneg nadd].
  pose proof (safe_lt_OVERFLOW k Hk).
  apply round64_ge; [lia|by apply repr_int|lia|nia].
Qed.

Lemma round64_le a b x :
  0 < b -> repr x -> x < OVERFLOW -> a <= x * b -> (round64 a b <=? Fin x)%num = true.
Proof.
  intros Hb Hx Ho Ha. unfold round64, nleb. pose proof (round_units_le a b x Hb Hx Ha).
  destruct (Z.ltb_spec (Z.abs (round_units a b)) OVERFLOW); cbn [nltb neqb]; [lia|].
  rewrite (proj2 (Z.ltb_lt _ _)) by lia. done.
Qed.

Lemma nsub_int_le a b k : safe k -> a - b <= k -> (int a - int b <=? int k)%num = true.
Proof.
  intros Hk H. pose proof U_pos. unfold nsub, int. cbn [nneg nadd].
  pose proof (safe_lt_OVERFLOW k Hk).
  apply round64_le; [lia|by apply repr_int|lia|nia].
Qed.

(** The units of a double split off ten binary digits. *)
Lemma U_split10 : exists V, U = V * 2 ^ 10 /\ 0 < V /\ forall m, Z.abs m <= 2 ^ 53 -> repr (m * V).
Proof.
  exists (2 ^ 1064). split_and!; [done|done|]. intros m Hm. exists m, 1064. split_and!; [lia|lia|done].
Qed.

Lemma quotient_above u v b w z :
  0 < v -> u = v * 2 ^ 10 -> 0 < b <= 2 ^ 10 -> 0 <= w -> (b * w + 1) * u <= z ->
  w * u < (w * 2 ^ 10 + 1) * v /\ (w * 2 ^ 10 + 1) * v * (b * u) <= z * u.
Proof.
  intros Hv -> Hb Hw Hz. split; [nia|].
  assert ((w * 2 ^ 10 + 1) * v * b <= z); [|nia]. nia.
Qed.

(** A quotient that is at least [2^-10] away from an integer is told apart from it. *)
Lemma ndiv_lt_0 x b :
  0 < b <= 2 ^ 10 -> (x <=? int (-1))%num = true -> (x / int b <? int 0)%num = true.
Proof.
  intros Hb Hx. pose proof U_pos as HU. pose proof OVERFLOW_pos as HO. destruct U_split10 as (V & HV & HV0 & Hrepr).
  pose proof (Hrepr (-1) ltac:(lia)) as Hr. clear Hrepr.
  destruct x as [|[]|z]; [done| |done|]; unfold ndiv, int, nleb, nsign in *; cbn [nltb neqb] in *.
  { rewrite (proj2 (Z.ltb_ge _ _)) by nia. done. }
  rewrite (proj2 (Z.eqb_neq (b * U) 0)), Z.sgn_pos, Z.mul_1_r, Z.abs_eq by nia.
  assert (z * U <= -1 * V * (b * U)) as Hle.
  { assert (z <= - V * b); [|nia]. clear -Hx HV HV0 Hb. generalize dependent U. intros. nia. }
  pose proof (round64_le (z * U) (b * U) (-1 * V) ltac:(nia) Hr ltac:(lia) Hle) as G.
  unfold nleb in G. destruct (round64 (z * U) (b * U)) as [|[]|q]; cbn [nltb neqb] in G |- *; try done.
  clear -G HV0. lia.
Qed.

Lemma ndiv_gt x b w :
  0 < b <= 2 ^ 10 -> 0 <= w <= 2 ^ 40 -> (int (b * w + 1) <=? x)%num = true ->
  (int w <? x / int b)%num = true.
Proof.
  intros Hb Hw Hx. pose proof U_pos as HU. pose proof OVERFLOW_pos as HO. destruct U_split10 as (V & HV & HV0 & Hrepr).
  pose proof (Hrepr (w * 2 ^ 10 + 1) ltac:(clear -Hw; lia)) as Hr. clear Hrepr.
  destruct x as [|[]|z]; [done|done| |]; unfold ndiv, int, nleb, nsign in *; cbn [nltb neqb] in *.
  { rewrite (proj2 (Z.ltb_ge _ _)) by nia. done. }
  rewrite (proj2 (Z.eqb_neq (b * U) 0)), Z.sgn_pos, Z.mul_1_r, Z.abs_eq by nia.
  destruct (quotient_above U V b w z HV0 HV Hb (proj1 Hw)) as [Hlt Hle]; [clear -Hx; lia|].
  assert (H0 : 0 < b * U) by nia. assert (Hm : - OVERFLOW < (w * 2 ^ 10 + 1) * V) by nia.
  pose proof (round64_ge (z * U) (b * U) ((w * 2 ^ 10 + 1) * V) H0 Hr Hm Hle) as G.
  clear -G Hlt. unfold nleb in G. destruct (round64 (z * U) (b * U)) as [|[]|q];
    cbn [nltb neqb] in G |- *; try done. lia.
Qed.

(** [Math.max(...l)] and [Math.min(...l)]. *)
Definition nmaximum (l : list number) : number := fold_left nmax l (Inf true).
Definition nminimum (l : list number) : number := fold_left nmin l (Inf false).

Lemma nleb_fin x y : (Fin x <=? Fin y)%num = (x <=? y).
Proof. unfold nleb. cbn. lia. Qed.

Lemma nleb_refl x : isFinite x = true -> (x <=? x)%num = true.
Proof. destruct x; try done. intros _. rewrite nleb_fin. lia. Qed.

(** ** Signs *)

Definition nonneg (x : number) : Prop := match x with Fin z => 0 <= z | Inf neg => neg = false | NaN => False end.

Lemma round64_nonneg a b : 0 < b -> 0 <= a -> nonneg (round64 a b).
Proof.
  intros Hb Ha. pose proof (round64_ge a b 0 Hb (repr_small 0 ltac:(lia)) ltac:(pose proof OVERFLOW_pos; lia) ltac:(lia)) as H.
  unfold nleb in H. destruct (round64 a b) as [|[]|z]; cbn [nltb neqb] in H; simpl; [done..|]. lia.
Qed.

Lemma nround_int a : nround (int a) = int a.
Proof.
  pose proof U_pos. unfold int. cbn [nround]. do 2 f_equal. symmetry. apply (Z.div_unique _ _ a U); lia.
Qed.
