(* ===== verification/JsString.v ===== *)
(** JavaScript strings: sequences of UTF-16 code units, and the string methods the console uses.

    A string is a [list Z] of code units; [js] turns a literal of this file (UTF-8 text) into its
    code units, so [js] of the arrow is the single unit 0x2192, as in the source.  Positions are
    [nat]; where the method answers -1 the model answers [None]. *)
From S2P Require Import Prelude JsNum.
Local Open Scope Z_scope.

Abbreviation jstr := (list Z).

(** ** Literals *)

Definition byte_of (c : Ascii.ascii) : Z := Z.of_N (Ascii.N_of_ascii c).

(** One code point as one or two code units. *)
Definition units_of_code_point (c : Z) : jstr :=
  if c <? 0x10000 then [c]
  else [0xD800 + (c - 0x10000) / 1024; 0xDC00 + (c - 0x10000) mod 1024].

(** UTF-8 decoding of a well-formed literal. *)
Fixpoint js (s : string) : jstr :=
  match s with
  | EmptyString => []
  | String c0 s0 =>
      let b0 := byte_of c0 in
      if b0 <? 0x80 then b0 :: js s0
      else match s0 with
           | EmptyString => []
           | String c1 s1 =>
               let b1 := byte_of c1 mod 64 in
               if b0 <? 0xE0 then (b0 mod 32 * 64 + b1) :: js s1
               else match s1 with
                    | EmptyString => []
                    | String c2 s2 =>
                        let b2 := byte_of c2 mod 64 in
                        if b0 <? 0xF0 then ((b0 mod 16 * 64 + b1) * 64 + b2) :: js s2
                        else match s2 with
                             | EmptyString => []
                             | String c3 s3 =>
                                 units_of_code_point
                                   (((b0 mod 8 * 64 + b1) * 64 + b2) * 64 + byte_of c3 mod 64)
                                 ++ js s3
                             end
                    end
           end
  end.

Example js_arrow : js "a→b" = [97; 0x2192; 98].
Proof. reflexivity. Qed.

(** ** Equality and order *)

Definition seqb (s t : jstr) : bool := bool_decide (s = t).

Lemma seqb_eq s t : seqb s t = true <-> s = t.
Proof. apply bool_decide_eq_true. Qed.

Lemma seqb_neq s t : seqb s t = false <-> s <> t.
Proof. apply bool_decide_eq_false. Qed.

(** [s < t] on strings compares code units from the left. *)
Fixpoint sltb (s t : jstr) : bool :=
  match s, t with
  | _, [] => false
  | [], _ :: _ => true
  | x :: s', y :: t' => (x <? y) || ((x =? y) && sltb s' t')
  end.

Lemma sltb_irrefl s : sltb s s = false.
Proof. induction s; simpl; [done|]. rewrite Z.ltb_irrefl, Z.eqb_refl. done. Qed.

Lemma sltb_trans s t u : sltb s t = true -> sltb t u = true -> sltb s u = true.
Proof.
  revert t u; induction s as [|x s IH]; intros [|y t] [|z u]; simpl; try done.
  rewrite !orb_true_iff, !andb_true_iff, !Z.ltb_lt, !Z.eqb_eq.
  intros [?|[-> ?]] [?|[-> ?]]; [left; lia..|right]; eauto.
Qed.

Lemma sltb_total s t : sltb s t = false -> sltb t s = false -> s = t.
Proof.
  revert t; induction s as [|x s IH]; intros [|y t]; simpl; try done.
  rewrite !orb_false_iff, !andb_false_iff, !Z.ltb_ge, !Z.eqb_neq.
  intros [? H1] [? H2]. assert (x = y) as -> by lia.
  f_equal. apply IH; intuition congruence.
Qed.

Lemma sltb_asym s t : sltb s t = true -> sltb t s = false.
Proof.
  intros H. destruct (sltb t s) eqn:E; [|done].
  pose proof (sltb_trans _ _ _ H E). by rewrite sltb_irrefl in *.
Qed.

(** ** Searching and slicing *)

Fixpoint startsWith (s p : jstr) {struct p} : bool :=
  match p, s with
  | [], _ => true
  | _, [] => false
  | y :: p', x :: s' => (x =? y) && startsWith s' p'
  end.

Definition endsWith (s p : jstr) : bool := startsWith (rev s) (rev p).

(** The first position at which [p] occurs; [None] is the method's -1. *)
Fixpoint indexOf (s p : jstr) : option nat :=
  if startsWith s p then Some 0%nat
  else match s with [] => None | _ :: s' => S <$> indexOf s' p end.

Fixpoint lastIndexOf (s p : jstr) : option nat :=
  match s with
  | [] => if startsWith [] p then Some 0%nat else None
  | _ :: s' =>
      match lastIndexOf s' p with
      | Some i => Some (S i)
      | None => if startsWith s p then Some 0%nat else None
      end
  end.

Definition includes (s p : jstr) : bool := bool_decide (is_Some (indexOf s p)).

(** [s.slice(i)] and [s.slice(i, j)] for non-negative positions, [s.slice(0, -1)]. *)
Definition slice_from (s : jstr) (i : nat) : jstr := drop i s.
Definition slice (s : jstr) (i j : nat) : jstr := take (j - i) (drop i s).
Definition slice_to_last (s : jstr) : jstr := take (length s - 1) s.

Lemma startsWith_spec s p : startsWith s p = true <-> exists r, s = p ++ r.
Proof.
  revert s; induction p as [|y p IH]; intros s; simpl.
  - split; [by exists s|done].
  - destruct s as [|x s]; [split; [done|intros [r ?]; done]|].
    rewrite andb_true_iff, Z.eqb_eq, IH. split.
    + intros [-> [r ->]]. by exists r.
    + intros [r [= -> ->]]. eauto.
Qed.

Lemma indexOf_Some s p i :
  indexOf s p = Some i -> exists r, s = take i s ++ p ++ r /\ length (take i s) = i.
Proof.
  revert i; induction s as [|x s IH]; intros i.
  - simpl. destruct (startsWith [] p) eqn:E; [|done]. intros [= <-].
    apply startsWith_spec in E as [r E]. exists r. by rewrite <- E.
  - simpl. destruct (startsWith (x :: s) p) eqn:E.
    + intros [= <-]. apply startsWith_spec in E as [r E]. exists r. by rewrite <- E.
    + destruct (indexOf s p) as [k|] eqn:F; simpl; [|done]. intros [= <-].
      destruct (IH k eq_refl) as (r & Hr & Hl). exists r. simpl. rewrite <- Hr. auto.
Qed.

Lemma startsWith_app_r s p r : startsWith s p = true -> startsWith (s ++ r) p = true.
Proof.
  rewrite !startsWith_spec. intros [q ->]. exists (q ++ r). by rewrite <- app_assoc.
Qed.

(** For a one-unit pattern the search is a search for that unit. *)
Lemma indexOf_unit_app c s r :
  c ∉ s -> indexOf (s ++ c :: r) [c] = Some (length s).
Proof.
  induction s as [|x s IH]; intros H; simpl.
  - by rewrite Z.eqb_refl.
  - apply not_elem_of_cons in H as [Hx Hs].
    rewrite (proj2 (Z.eqb_neq x c)) by done. simpl. by rewrite IH.
Qed.

Lemma indexOf_unit_None c s : indexOf s [c] = None <-> c ∉ s.
Proof.
  induction s as [|x s IH]; simpl; [split; [set_solver|done]|].
  rewrite not_elem_of_cons. destruct (Z.eqb_spec x c) as [->|Hx]; simpl.
  - split; [done|intros [? _]; done].
  - rewrite fmap_None, IH. intuition congruence.
Qed.

Lemma includes_unit s c : includes s [c] = true <-> c ∈ s.
Proof.
  unfold includes. rewrite bool_decide_eq_true.
  destruct (indexOf s [c]) eqn:E.
  - split; [intros _|eauto]. destruct (decide (c ∈ s)) as [?|n0]; [done|].
    apply indexOf_unit_None in n0. congruence.
  - apply indexOf_unit_None in E. split; [intros [? ?]; done|done].
Qed.

(** ** Splitting and joining *)

(** [s.split(c)] for a one-unit separator. *)
Fixpoint split_unit (c : Z) (s : jstr) : list jstr :=
  match s with
  | [] => [[]]
  | x :: s' =>
      if x =? c then [] :: split_unit c s'
      else match split_unit c s' with
           | [] => [[x]]
           | w :: ws => (x :: w) :: ws
           end
  end.

Fixpoint join (sep : jstr) (ws : list jstr) : jstr :=
  match ws with
  | [] => []
  | [w] => w
  | w :: ws' => w ++ sep ++ join sep ws'
  end.

Lemma split_unit_not_nil c s : split_unit c s <> [].
Proof. destruct s; simpl; [done|]. repeat case_match; done. Qed.

Lemma join_split_unit c s : join [c] (split_unit c s) = s.
Proof.
  induction s as [|x s IH]; simpl; [done|].
  pose proof (split_unit_not_nil c s). destruct (Z.eqb_spec x c) as [->|].
  - destruct (split_unit c s); [done|]. simpl in *. by rewrite IH.
  - destruct (split_unit c s) as [|w [|w' ws]]; [done|..]; simpl in *; by rewrite <- IH.
Qed.

Lemma split_unit_no_sep c s : Forall (fun w => c ∉ w) (split_unit c s).
Proof.
  induction s as [|x s IH]; simpl; [repeat constructor; set_solver|].
  destruct (Z.eqb_spec x c) as [->|]; [constructor; [set_solver|done]|].
  pose proof (split_unit_not_nil c s). destruct (split_unit c s) as [|w ws]; [done|].
  inversion IH; subst. constructor; [set_solver|done].
Qed.

(** ** White space *)

Definition is_space (c : Z) : bool :=
  bool_decide (c ∈ [9; 10; 11; 12; 13; 32; 160; 0x1680; 0x2028; 0x2029; 0x202F; 0x205F; 0x3000;
                    0xFEFF])
  || ((0x2000 <=? c) && (c <=? 0x200A)).

Fixpoint trim_start (s : jstr) : jstr :=
  match s with
  | [] => []
  | x :: s' => if is_space x then trim_start s' else s
  end.

Definition trim_end (s : jstr) : jstr := rev (trim_start (rev s)).
Definition trim (s : jstr) : jstr := trim_end (trim_start s).

Definition is_digit (c : Z) : bool := (48 <=? c) && (c <=? 57).
Definition is_hex (c : Z) : bool :=
  is_digit c || ((65 <=? c) && (c <=? 70)) || ((97 <=? c) && (c <=? 102)).
Definition is_alpha (c : Z) : bool :=
  ((65 <=? c) && (c <=? 90)) || ((97 <=? c) && (c <=? 122)).

(** [toLowerCase] on ASCII letters.  No code unit outside ASCII lowers to a letter of [http] or
    [https], so this decides the prefix tests the console makes with it. *)
Definition ascii_lower (s : jstr) : jstr :=
  (fun c => if (65 <=? c) && (c <=? 90) then c + 32 else c) <$> s.

(** Decimal digits of a non-negative integer. *)
Fixpoint digits_fuel (n : nat) (z : Z) (acc : jstr) : jstr :=
  match n with
  | O => acc
  | S n' => let acc' := 48 + z mod 10 :: acc in
            if z <? 10 then acc' else digits_fuel n' (z / 10) acc'
  end.

Definition digits (z : Z) : jstr := digits_fuel (S (Z.to_nat (Z.log2 z))) z [].
Definition string_of_Z (z : Z) : jstr := if z <? 0 then 45 :: digits (- z) else digits z.

(** Value of a digit string in base ten. *)
Definition digits_value (s : jstr) : Z := fold_left (fun acc c => acc * 10 + (c - 48)) s 0.

Lemma digits_fuel_value n z acc :
  0 <= z < 2 ^ Z.of_nat n ->
  fold_left (fun a c => a * 10 + (c - 48)) (digits_fuel n z acc) 0
  = fold_left (fun a c => a * 10 + (c - 48)) acc z.
Proof.
  revert z acc; induction n as [|n IH]; intros z acc [Hz Hlt].
  - simpl in *. assert (z = 0) as -> by lia. done.
  - cbn [digits_fuel]. pose proof (Z.div_mod z 10 ltac:(lia)).
    pose proof (Z.mod_pos_bound z 10 ltac:(lia)).
    destruct (Z.ltb_spec z 10); cbn [fold_left].
    + f_equal. rewrite Z.mod_small by lia. lia.
    + rewrite IH; [cbn [fold_left]; f_equal; lia|].
      rewrite Nat2Z.inj_succ, Z.pow_succ_r in Hlt by lia. lia.
Qed.

Lemma digits_value_digits z : 0 <= z -> digits_value (digits z) = z.
Proof.
  intros Hz. unfold digits_value, digits. rewrite digits_fuel_value; [done|].
  rewrite Nat2Z.inj_succ, Z2Nat.id by apply Z.log2_nonneg.
  destruct (Z.eq_dec z 0) as [->|]; [simpl; lia|].
  pose proof (Z.log2_spec z ltac:(lia)). lia.
Qed.

Lemma digits_fuel_all_digits n z acc :
  0 <= z -> Forall (fun c => is_digit c = true) acc ->
  Forall (fun c => is_digit c = true) (digits_fuel n z acc).
Proof.
  revert z acc; induction n as [|n IH]; intros z acc Hz Hacc; simpl; [done|].
  pose proof (Z.mod_pos_bound z 10 ltac:(lia)).
  assert (Forall (fun c => is_digit c = true) (48 + z mod 10 :: acc)).
  { constructor; [unfold is_digit; lia|done]. }
  case_match; [done|]. apply IH; [apply Z.div_pos; lia|done].
Qed.

Lemma digits_all_digits z : 0 <= z -> Forall (fun c => is_digit c = true) (digits z).
Proof. intros. by apply digits_fuel_all_digits. Qed.

Lemma digits_nonempty z : digits z <> [].
Proof.
  assert (Hgen : forall n z acc, acc <> [] -> digits_fuel n z acc <> []).
  { induction n as [|n IH]; intros z' acc Hacc; simpl; [done|]. case_match; [done|]. by apply IH. }
  unfold digits. simpl. case_match; [done|]. by apply Hgen.
Qed.

Lemma digits_inj a b : 0 <= a -> 0 <= b -> digits a = digits b -> a = b.
Proof.
  intros Ha Hb H. rewrite <- (digits_value_digits a Ha), <- (digits_value_digits b Hb).
  by rewrite H.
Qed.

(** ** Lexicographic keys of an instant and two strings *)

Definition key_leb (a b : Z * jstr * jstr) : bool :=
  let '(t, k, i) := a in
  let '(t', k', i') := b in
  (t <? t') || ((t =? t') && (sltb k k' || (seqb k k' && negb (sltb i' i)))).

Lemma key_leb_spec t k i t' k' i' :
  key_leb (t, k, i) (t', k', i') = true <->
  t < t' \/ t = t' /\ (sltb k k' = true \/ k = k' /\ sltb i' i = false).
Proof.
  unfold key_leb. rewrite !orb_true_iff, !andb_true_iff, !orb_true_iff, andb_true_iff, Z.ltb_lt, Z.eqb_eq,
    seqb_eq, negb_true_iff. done.
Qed.

Lemma key_leb_total a b : key_leb a b = true \/ key_leb b a = true.
Proof.
  destruct a as [[t k] i], b as [[t' k'] i']. rewrite !key_leb_spec.
  destruct (Z.lt_trichotomy t t') as [|[->|]]; [by auto| |by auto].
  destruct (sltb k k') eqn:E1; [by auto|]. destruct (sltb k' k) eqn:E2; [by auto 6|].
  apply (sltb_total k k' E1) in E2 as ->.
  destruct (sltb i' i) eqn:E3; [|by auto 6]. right. right. split; [done|]. right.
  split; [done|]. by apply sltb_asym.
Qed.

Lemma key_leb_antisym a b : key_leb a b = true -> key_leb b a = true -> a = b.
Proof.
  destruct a as [[t k] i], b as [[t' k'] i']. rewrite !key_leb_spec.
  intros [?|[-> [H|[-> H]]]] [?|[E [H'|[E' H']]]]; try lia.
  - apply sltb_asym in H. congruence.
  - subst. by rewrite sltb_irrefl in H.
  - by rewrite sltb_irrefl in H'.
  - f_equal. by apply sltb_total.
Qed.

Lemma key_leb_trans a b c : key_leb a b = true -> key_leb b c = true -> key_leb a c = true.
Proof.
  destruct a as [[t k] i], b as [[t' k'] i'], c as [[t'' k''] i'']. rewrite !key_leb_spec.
  intros [?|[-> [H|[-> H]]]] [?|[E [H'|[E' H']]]]; try (left; lia); subst; right; (split; [done|]).
  - left. by eapply sltb_trans.
  - by left.
  - by left.
  - right. split; [done|]. destruct (sltb i'' i) eqn:F; [|done].
    destruct (sltb i' i'') eqn:G.
    + rewrite <- H. symmetry. by eapply sltb_trans.
    + apply (sltb_total _ _ H') in G as ->. congruence.
Qed.

(** ** The last occurrence of a unit *)

Lemma lastIndexOf_unit_None c s : lastIndexOf s [c] = None <-> c ∉ s.
Proof.
  induction s as [|x s IH]; simpl; [split; [set_solver|done]|].
  rewrite not_elem_of_cons. destruct (lastIndexOf s [c]) eqn:E.
  - split; [done|]. intros [_ H]. apply IH in H. done.
  - rewrite andb_true_r. destruct (Z.eqb_spec x c) as [->|]; [split; [done|intros [? _]; done]|].
    split; [intros _; split; [congruence|by apply IH]|done].
Qed.

Lemma lastIndexOf_unit c s i :
  lastIndexOf s [c] = Some i <-> exists a b, s = a ++ (c :: b) /\ c ∉ b /\ length a = i.
Proof.
  split.
  - revert i; induction s as [|x s IH]; intros i; simpl; [done|].
    destruct (lastIndexOf s [c]) as [k|] eqn:E.
    + intros [= <-]. destruct (IH k eq_refl) as (a & b & -> & Hb & <-). exists (x :: a), b. done.
    + rewrite andb_true_r. destruct (Z.eqb_spec x c) as [->|]; [|done]. intros [= <-].
      exists [], s. split_and!; [done|by apply lastIndexOf_unit_None|done].
  - intros (a & b & -> & Hb & <-). apply lastIndexOf_unit_None in Hb.
    induction a as [|x a IH]; simpl; [rewrite Hb, Z.eqb_refl; done|]. by rewrite IH.
Qed.

Lemma indexOf_unit c s i :
  indexOf s [c] = Some i <-> exists a b, s = a ++ (c :: b) /\ c ∉ a /\ length a = i.
Proof.
  split.
  - revert i; induction s as [|x s IH]; intros i; simpl; [done|]. rewrite andb_true_r.
    destruct (Z.eqb_spec x c) as [->|Hx].
    + intros [= <-]. exists [], s. split_and!; [done|set_solver|done].
    + destruct (indexOf s [c]) as [k|] eqn:E; [|done]. intros [= <-].
      destruct (IH k eq_refl) as (a & b & -> & Ha & <-). exists (x :: a), b. split_and!; [done|set_solver|done].
  - intros (a & b & -> & Ha & <-). by apply indexOf_unit_app.
Qed.

Lemma includes_unit_false s c : includes s [c] = false <-> c ∉ s.
Proof. rewrite <- not_true_iff_false, includes_unit. done. Qed.

(** ** Trimming *)

Lemma trim_start_id s : (forall c, head s = Some c -> is_space c = false) -> trim_start s = s.
Proof. destruct s as [|c s]; simpl; [done|]. intros H. by rewrite (H c eq_refl). Qed.

Lemma trim_id s :
  (forall c, head s = Some c -> is_space c = false) ->
  (forall c, last s = Some c -> is_space c = false) -> trim s = s.
Proof.
  intros H1 H2. unfold trim. rewrite trim_start_id by done. unfold trim_end.
  rewrite trim_start_id; [by rewrite rev_involutive|]. intros c Hc. apply H2.
  rewrite <- (rev_involutive s). destruct (rev s) as [|x l]; [done|]. injection Hc as ->.
  simpl. apply last_snoc.
Qed.

Lemma trim_start_head s c : head (trim_start s) = Some c -> is_space c = false.
Proof. induction s as [|x s IH]; simpl; [done|]. destruct (is_space x) eqn:E; [done|]. by intros [= <-]. Qed.

Lemma trim_start_suffix s : exists p, s = p ++ trim_start s /\ Forall (fun c => is_space c = true) p.
Proof.
  induction s as [|x s (p & Hp & Hf)]; simpl; [by exists []|].
  destruct (is_space x) eqn:E; [exists (x :: p)|by exists []]. split; [by rewrite Hp at 1|by constructor].
Qed.

Lemma trim_last s c : last (trim s) = Some c -> is_space c = false.
Proof.
  unfold trim, trim_end. intros H. apply (trim_start_head (rev (trim_start s))).
  destruct (trim_start (rev (trim_start s))) as [|x l]; [done|]. simpl in H. by rewrite last_snoc in H.
Qed.

Lemma trim_head s c : head (trim s) = Some c -> is_space c = false.
Proof.
  unfold trim, trim_end. intros H. apply (trim_start_head s).
  destruct (trim_start_suffix (rev (trim_start s))) as (p & Hp & _).
  apply (f_equal (@rev Z)) in Hp. rewrite rev_involutive, rev_app_distr in Hp. rewrite Hp.
  destruct (rev (trim_start (rev (trim_start s)))); done.
Qed.

Lemma trim_idemp s : trim (trim s) = trim s.
Proof. apply trim_id; [apply trim_head|apply trim_last]. Qed.

Lemma trim_start_spaces p s : Forall (fun c => is_space c = true) p -> trim_start (p ++ s) = trim_start s.
Proof. induction 1 as [|c p Hc Hp IH]; simpl; [done|]. by rewrite Hc. Qed.

(** White space around a text that neither starts nor ends with one is taken off. *)
Lemma trim_around p s q :
  Forall (fun c => is_space c = true) p -> Forall (fun c => is_space c = true) q -> s <> [] ->
  (forall c, head s = Some c -> is_space c = false) ->
  (forall c, last s = Some c -> is_space c = false) -> trim (p ++ s ++ q) = s.
Proof.
  intros Hp Hq Hs H1 H2. unfold trim. rewrite trim_start_spaces by done.
  rewrite trim_start_id by (destruct s; [done|exact H1]). unfold trim_end.
  rewrite rev_app_distr, trim_start_spaces by (apply List.Forall_rev; done).
  change (trim_end s = s). rewrite <- (trim_start_id s H1) at 1. by apply trim_id.
Qed.

(** ** Splitting what was joined *)

Lemma split_unit_app c a s : c ∉ a -> split_unit c (a ++ c :: s) = a :: split_unit c s.
Proof.
  induction a as [|x a IH]; intros H; simpl; [by rewrite Z.eqb_refl|].
  apply not_elem_of_cons in H as [Hx Ha]. rewrite (proj2 (Z.eqb_neq x c)), IH by done. done.
Qed.

Lemma split_unit_single c a : c ∉ a -> split_unit c a = [a].
Proof.
  induction a as [|x a IH]; intros H; simpl; [done|].
  apply not_elem_of_cons in H as [Hx Ha]. rewrite (proj2 (Z.eqb_neq x c)), IH by done. done.
Qed.

Lemma split_unit_join c ws : ws <> [] -> Forall (fun w => c ∉ w) ws -> split_unit c (join [c] ws) = ws.
Proof.
  intros Hne H. induction H as [|w ws Hw Hws IH]; [done|].
  destruct ws as [|w' ws]; [by apply split_unit_single|].
  change (join [c] (w :: w' :: ws)) with (w ++ c :: join [c] (w' :: ws)).
  rewrite split_unit_app by done. by rewrite IH.
Qed.

(** ** Collation *)

(** [a.localeCompare(b)]: the host's collation, of which only an order is relied on. *)
Class LocaleHost := {
  localeCompare : jstr -> jstr -> number;
  localeCompare_total a b :
    (int 0 <? localeCompare a b)%num = false \/ (int 0 <? localeCompare b a)%num = false;
  localeCompare_trans a b c :
    (int 0 <? localeCompare a b)%num = false -> (int 0 <? localeCompare b c)%num = false ->
    (int 0 <? localeCompare a c)%num = false;
}.

(** The collation by code units, a host that orders at all. *)
Definition unit_compare (a b : jstr) : number := if sltb a b then int (-1) else if seqb a b then int 0 else int 1.

Lemma unit_compare_le a b : (int 0 <? unit_compare a b)%num = sltb b a.
Proof.
  unfold unit_compare. destruct (sltb a b) eqn:E; [by rewrite nltb_int, (sltb_asym _ _ E)|].
  destruct (seqb a b) eqn:F; [apply seqb_eq in F as ->; by rewrite nltb_int, sltb_irrefl|].
  rewrite nltb_int. destruct (sltb b a) eqn:G; [done|]. apply seqb_neq in F. by apply sltb_total in E.
Qed.

Definition unit_locale : LocaleHost.
Proof.
  refine {| localeCompare := unit_compare |}.
  - intros a b. rewrite !unit_compare_le. destruct (sltb b a) eqn:E; [|by left]. right. by apply sltb_asym.
  - intros a b c. rewrite !unit_compare_le. intros Hba Hcb. destruct (sltb c a) eqn:E; [|done].
    destruct (sltb a b) eqn:F.
    + rewrite <- Hcb. symmetry. by eapply sltb_trans.
    + rewrite (sltb_total _ _ F Hba) in E. congruence.
Defined.
