(* ===== verification/JsCollections.v ===== *)
(** Arrays, Maps and Sets: the stable [Array.prototype.sort], and the insertion-ordered [Map] and
    [Set] of the language.

    A [Map] is its list of entries in insertion order, with one entry per key; writing a key that is
    present keeps its place.  A [Set] is its list of members in insertion order. *)
From S2P Require Import Prelude JsNum.

(** ** Sorting *)

Section Sort.
Context {A : Type} (leb : A -> A -> bool).

(** [x] goes in front of the first element it may precede. *)
Fixpoint sort_insert (x : A) (l : list A) : list A :=
  match l with
  | [] => [x]
  | y :: l' => if leb x y then x :: l else y :: sort_insert x l'
  end.

Fixpoint sort_leb (l : list A) : list A :=
  match l with
  | [] => []
  | x :: l' => sort_insert x (sort_leb l')
  end.

Lemma sort_insert_perm x l : sort_insert x l ≡ₚ x :: l.
Proof.
  induction l as [|y l IH]; simpl; [done|]. case_match; [done|].
  rewrite IH. constructor.
Qed.

Lemma sort_leb_perm l : sort_leb l ≡ₚ l.
Proof. induction l; simpl; [done|]. rewrite sort_insert_perm. by constructor. Qed.

Lemma elem_of_sort_leb x l : x ∈ sort_leb l <-> x ∈ l.
Proof. by rewrite (sort_leb_perm l). Qed.

Lemma length_sort_leb l : length (sort_leb l) = length l.
Proof. by rewrite (sort_leb_perm l). Qed.

(** The order laws are asked for on the elements at hand only. *)
Context (P : A -> Prop).
Hypothesis leb_total : forall x y, P x -> P y -> leb x y = true \/ leb y x = true.
Hypothesis leb_trans :
  forall x y z, P x -> P y -> P z -> leb x y = true -> leb y z = true -> leb x z = true.

Abbreviation sorted := (StronglySorted (fun x y => leb x y = true)).

Lemma sort_insert_sorted x l :
  P x -> Forall P l -> sorted l -> sorted (sort_insert x l).
Proof.
  induction l as [|y l IH]; intros Hx Hl Hs; simpl; [by repeat constructor|].
  inversion Hl as [|?? Hy Hl']; inversion Hs as [|?? Hs' Hf]; subst.
  destruct (leb x y) eqn:E.
  - constructor; [done|]. constructor; [done|].
    rewrite Forall_forall in *. eauto.
  - constructor; [by apply IH|].
    rewrite (sort_insert_perm x l). constructor; [|done].
    destruct (leb_total x y Hx Hy); congruence.
Qed.

Lemma sort_leb_sorted l : Forall P l -> sorted (sort_leb l).
Proof.
  induction 1 as [|x l Hx Hl IH]; simpl; [constructor|].
  apply sort_insert_sorted; [done| |done]. by rewrite (sort_leb_perm l).
Qed.

(** Stability: the elements tied with [a] keep the order they arrived in. *)
Definition tied (a x : A) : bool := leb a x && leb x a.

Lemma sort_insert_stable a x l :
  P a -> P x -> Forall P l ->
  List.filter (tied a) (sort_insert x l) = List.filter (tied a) (x :: l).
Proof.
  intros Ha Hx. induction l as [|y l IH]; intros Hl; simpl; [done|].
  inversion Hl as [|?? Hy Hl']; subst. destruct (leb x y) eqn:E; [done|].
  simpl. rewrite IH by done. simpl. unfold tied.
  destruct (leb_total x y Hx Hy) as [|Hyx]; [congruence|].
  destruct (leb a x) eqn:E1, (leb x a) eqn:E2, (leb a y) eqn:E3, (leb y a) eqn:E4; simpl; try done.
  assert (leb x y = true) by (apply (leb_trans x a y); done). congruence.
Qed.

Lemma sort_leb_stable a l :
  P a -> Forall P l -> List.filter (tied a) (sort_leb l) = List.filter (tied a) l.
Proof.
  intros Ha. induction 1 as [|x l Hx Hl IH]; simpl; [done|].
  rewrite sort_insert_stable; [|done|done|by rewrite (sort_leb_perm l)].
  simpl. by rewrite IH.
Qed.

(** A sorted list is left as it is. *)
Lemma sort_leb_id l : sorted l -> sort_leb l = l.
Proof.
  induction 1 as [|x l Hs IH Hf]; simpl; [done|]. rewrite IH.
  destruct l as [|y l]; simpl; [done|]. inversion Hf; subst. by case_match.
Qed.

(** Sorting commutes with filtering. *)
Lemma sort_insert_filter f x l :
  P x -> Forall P l -> sorted l ->
  List.filter f (sort_insert x l) =
    (if f x then sort_insert x (List.filter f l) else List.filter f l).
Proof.
  intros Hx. induction l as [|y l IH]; intros Hl Hs; simpl; [by destruct (f x)|].
  inversion Hl as [|?? Hy Hl']; inversion Hs as [|?? Hs' Hf]; subst.
  destruct (leb x y) eqn:E; simpl.
  - destruct (f x); [|done]. destruct (f y); simpl; [by rewrite E|].
    destruct (List.filter f l) as [|z r] eqn:Ez; simpl; [done|].
    assert (z ∈ l) as Hz by (apply (elem_of_filter_b f); rewrite Ez; constructor).
    rewrite Forall_forall in Hf, Hl'. by rewrite (leb_trans x y z) by auto.
  - rewrite IH by done. destruct (f y); [|done]. destruct (f x); [|done]. simpl. by rewrite E.
Qed.

Lemma sort_leb_filter f l :
  Forall P l -> List.filter f (sort_leb l) = sort_leb (List.filter f l).
Proof.
  induction 1 as [|x l Hx Hl IH]; simpl; [done|]. rewrite sort_insert_filter; [|done| |].
  - rewrite IH. by destruct (f x).
  - by rewrite (sort_leb_perm l).
  - by apply sort_leb_sorted.
Qed.
End Sort.

(** With a total order sorting is canonical: it depends on the contents alone. *)
Lemma sort_leb_canonical {A} (leb : A -> A -> bool) (P : A -> Prop) l1 l2 :
  (forall x y, P x -> P y -> leb x y = true \/ leb y x = true) ->
  (forall x y z, P x -> P y -> P z -> leb x y = true -> leb y z = true -> leb x z = true) ->
  (forall x y, P x -> P y -> leb x y = true -> leb y x = true -> x = y) ->
  Forall P l1 -> l1 ≡ₚ l2 -> sort_leb leb l1 = sort_leb leb l2.
Proof.
  intros Htot Htr Hanti H1 Hp.
  assert (Forall P l2) as H2 by by rewrite <- Hp.
  assert (Hs1 := sort_leb_sorted leb P Htot Htr l1 H1).
  assert (Hs2 := sort_leb_sorted leb P Htot Htr l2 H2).
  assert (Hpp : sort_leb leb l1 ≡ₚ sort_leb leb l2) by by rewrite !sort_leb_perm.
  assert (HP : Forall P (sort_leb leb l1)) by by rewrite sort_leb_perm.
  revert Hs1 Hs2 Hpp HP. generalize (sort_leb leb l1) (sort_leb leb l2). clear l1 l2 Hp H1 H2.
  intros l1; induction l1 as [|x l1 IH]; intros l2 Hs1 Hs2 Hp HP.
  - symmetry in Hp. by apply Permutation_nil_r in Hp as ->.
  - destruct l2 as [|y l2]; [by apply Permutation_nil_r in Hp|].
    assert (HP2 : Forall P (y :: l2)) by by rewrite <- Hp.
    inversion Hs1 as [|?? Hs1' Hf1]; inversion Hs2 as [|?? Hs2' Hf2]; subst.
    assert (x = y) as ->.
    { assert (x ∈ y :: l2) as Hx by (rewrite <- Hp; constructor).
      assert (y ∈ x :: l1) as Hy by (rewrite Hp; constructor).
      apply elem_of_cons in Hx as [->|Hx]; [done|].
      apply elem_of_cons in Hy as [->|Hy]; [done|].
      rewrite Forall_forall in Hf1, Hf2.
      apply Hanti; [by inversion HP|by inversion HP2|by apply Hf1|by apply Hf2]. }
    f_equal. apply IH; [done|done| |by inversion HP].
    by apply Permutation_cons_inv in Hp.
Qed.

(** Sorting by a key sorts the keys. *)
Lemma sort_leb_fmap {A B} (f : A -> B) (leb : B -> B -> bool) (leb' : A -> A -> bool) l :
  (forall x y, leb (f x) (f y) = leb' x y) -> sort_leb leb (f <$> l) = f <$> sort_leb leb' l.
Proof.
  intros Hf. induction l as [|x l IH]; [done|]. rewrite fmap_cons. cbn [sort_leb]. rewrite IH.
  clear IH. induction (sort_leb leb' l) as [|y k IHk]; [done|]. rewrite fmap_cons. cbn [sort_insert].
  rewrite Hf. case_match; [done|]. by rewrite IHk.
Qed.

(** The unique sorted list of given contents. *)
Lemma sorted_sort_leb {A} (leb : A -> A -> bool) (P : A -> Prop) l l' :
  (forall x y, P x -> P y -> leb x y = true \/ leb y x = true) ->
  (forall x y z, P x -> P y -> P z -> leb x y = true -> leb y z = true -> leb x z = true) ->
  (forall x y, P x -> P y -> leb x y = true -> leb y x = true -> x = y) ->
  Forall P l -> StronglySorted (fun x y => leb x y = true) l -> l ≡ₚ l' -> l = sort_leb leb l'.
Proof.
  intros Htot Htr Hanti HP Hs Hp. rewrite <- (sort_leb_canonical leb P l l' Htot Htr Hanti HP Hp).
  by rewrite sort_leb_id.
Qed.

Lemma sort_leb_ext {A} (f g : A -> A -> bool) l : (forall x y, f x y = g x y) -> sort_leb f l = sort_leb g l.
Proof.
  intros E. induction l as [|x l IH]; [done|]. simpl. rewrite IH. clear IH. induction (sort_leb g l) as [|y k IHk]; [done|].
  simpl. by rewrite E, IHk.
Qed.

(** [l.sort(cmp)]: [x] may precede [y] unless the comparator answers a positive number. *)
Definition cmp_leb {A} (cmp : A -> A -> number) (x y : A) : bool :=
  negb (int 0 <? cmp x y)%num.

Definition js_sort {A} (cmp : A -> A -> number) (l : list A) : list A := sort_leb (cmp_leb cmp) l.

(** A comparator that decides a total preorder on the elements at hand sorts by it. *)
Lemma js_sort_sorted {A} (cmp : A -> A -> number) (P : A -> Prop) (R : A -> A -> Prop) l :
  (forall a b, P a -> P b -> cmp_leb cmp a b = true <-> R a b) ->
  (forall a b, R a b \/ R b a) -> (forall a b c, R a b -> R b c -> R a c) ->
  Forall P l -> StronglySorted R (js_sort cmp l).
Proof.
  intros Hcmp Htot Htr Hl. unfold js_sort. apply (StronglySorted_weaken P (fun a b => cmp_leb cmp a b = true)).
  - intros a b Ha Hb. by apply Hcmp.
  - by rewrite sort_leb_perm.
  - apply (sort_leb_sorted _ P); [| |done].
    + intros a b Ha Hb. rewrite !Hcmp by done. apply Htot.
    + intros a b c Ha Hb Hc. rewrite !Hcmp by done. apply Htr.
Qed.

(** ** Searching *)

(** [l.findIndex(p)], [None] for -1. *)
Fixpoint findIndex {A} (p : A -> bool) (l : list A) : option nat :=
  match l with [] => None | x :: l' => if p x then Some 0%nat else S <$> findIndex p l' end.

(** The longest prefix of elements that satisfy [p], and what follows it. *)
Fixpoint span {A} (p : A -> bool) (s : list A) : list A * list A :=
  match s with
  | c :: s' => if p c then let '(a, r) := span p s' in (c :: a, r) else ([], s)
  | [] => ([], [])
  end.

Lemma span_app {A} (p : A -> bool) l r :
  Forall (fun x => p x = true) l -> (forall x, head r = Some x -> p x = false) -> span p (l ++ r) = (l, r).
Proof.
  intros Hl Hr. induction Hl as [|x l Hx Hl IH]; simpl; [|by rewrite Hx, IH].
  destruct r as [|y r]; [done|]. simpl. by rewrite (Hr y eq_refl).
Qed.

Lemma span_eq {A} (p : A -> bool) s : s = (span p s).1 ++ (span p s).2 /\ Forall (fun x => p x = true) (span p s).1.
Proof.
  induction s as [|x s [IH Hp]]; simpl; [done|]. destruct (p x) eqn:E; [|done].
  destruct (span p s) as [a r]. simpl in *. subst. split; [done|]. by constructor.
Qed.

Lemma span_head {A} (p : A -> bool) s x : head (span p s).2 = Some x -> p x = false.
Proof.
  induction s as [|y s IH]; simpl; [done|]. destruct (p y) eqn:E; [by destruct (span p s)|]. simpl. congruence.
Qed.

Lemma findIndex_Some {A} (p : A -> bool) l i :
  findIndex p l = Some i <-> exists x, l !! i = Some x /\ p x = true /\ forall j y, (j < i)%nat -> l !! j = Some y -> p y = false.
Proof.
  revert i. induction l as [|a l IH]; intros i; simpl; [split; [done|by intros (x & ? & _)]|].
  destruct (p a) eqn:E.
  - split; [intros [= <-]; exists a; split_and!; [done|done|lia]|].
    intros (x & Hx & Hp & Hm). destruct i; [done|]. specialize (Hm 0%nat a ltac:(lia) eq_refl). congruence.
  - rewrite fmap_Some. split.
    + intros (j & Hj & ->). apply IH in Hj as (x & Hx & Hp & Hm). exists x. split_and!; [done|done|].
      intros [|k] y Hk Hy; simpl in Hy; [congruence|]. apply (Hm k); [lia|done].
    + intros (x & Hx & Hp & Hm). destruct i as [|i]; [simpl in Hx; congruence|]. exists i. split; [|done].
      apply IH. exists x. split_and!; [done|done|]. intros j y Hj Hy. apply (Hm (S j)); [lia|done].
Qed.

(** ** Maps *)

Section OrderedMap.
Context {K V : Type} `{EqDecision K}.
Implicit Types (m : list (K * V)) (k : K) (v : V).

Fixpoint mget m k : option V :=
  match m with
  | [] => None
  | (k', v) :: m' => if decide (k = k') then Some v else mget m' k
  end.

Fixpoint mset m k v : list (K * V) :=
  match m with
  | [] => [(k, v)]
  | (k', v') :: m' => if decide (k = k') then (k', v) :: m' else (k', v') :: mset m' k v
  end.

Definition mhas m k : bool := bool_decide (is_Some (mget m k)).
Definition mdelete m k : list (K * V) := List.filter (fun kv => negb (bool_decide (kv.1 = k))) m.
Definition mkeys m : list K := m.*1.
Definition mvalues m : list V := m.*2.

Lemma mget_mset_eq m k v : mget (mset m k v) k = Some v.
Proof. induction m as [|[k' v'] m IH]; simpl; repeat (case_decide; simpl; try done). Qed.

Lemma mget_mset_ne m k k' v : k <> k' -> mget (mset m k v) k' = mget m k'.
Proof.
  intros Hne. induction m as [|[k0 v0] m IH]; simpl; [by rewrite decide_False|].
  destruct (decide (k = k0)) as [->|]; simpl; case_decide; congruence.
Qed.

Lemma mget_None m k : mget m k = None <-> k ∉ mkeys m.
Proof.
  unfold mkeys. induction m as [|[k' v'] m IH]; simpl; [split; [intros _; apply not_elem_of_nil|done]|].
  rewrite not_elem_of_cons. case_decide; [split; [done|intros [? _]; congruence]|].
  rewrite IH. intuition.
Qed.

Lemma mset_new m k v : k ∉ mkeys m -> mset m k v = m ++ [(k, v)].
Proof.
  unfold mkeys. induction m as [|[k' v'] m IH]; simpl; [done|].
  rewrite not_elem_of_cons. intros [? ?]. rewrite decide_False by done. by rewrite IH.
Qed.

Lemma mkeys_mset m k v :
  mkeys (mset m k v) = if decide (k ∈ mkeys m) then mkeys m else mkeys m ++ [k].
Proof.
  unfold mkeys. induction m as [|[k' v'] m IH]; csimpl; [done|].
  destruct (decide (k = k')) as [->|Hne]; csimpl.
  - rewrite decide_True by constructor. done.
  - rewrite IH. destruct (decide (k ∈ m.*1)).
    + rewrite decide_True by by constructor. done.
    + rewrite decide_False by (rewrite elem_of_cons; intuition). done.
Qed.

Lemma NoDup_mkeys_mset m k v : NoDup (mkeys m) -> NoDup (mkeys (mset m k v)).
Proof.
  intros H. rewrite mkeys_mset. case_decide; [done|].
  apply NoDup_app. split_and!; [done| |apply NoDup_singleton].
  intros x Hx Hk. apply list_elem_of_singleton in Hk as ->. done.
Qed.

Lemma mget_mdelete_eq m k : mget (mdelete m k) k = None.
Proof.
  induction m as [|[k' v'] m IH]; simpl; [done|].
  case_bool_decide; simpl; [done|]. by rewrite decide_False by congruence.
Qed.

Lemma mget_mdelete_ne m k k' : k <> k' -> mget (mdelete m k) k' = mget m k'.
Proof.
  intros Hne. induction m as [|[k0 v0] m IH]; simpl; [done|].
  case_bool_decide as E; simpl in *.
  - subst. rewrite decide_False by congruence. done.
  - case_decide; [done|]. done.
Qed.

Lemma NoDup_mkeys_mdelete m k : NoDup (mkeys m) -> NoDup (mkeys (mdelete m k)).
Proof.
  unfold mkeys, mdelete. induction m as [|[k' v'] m IH]; simpl; [done|].
  intros [Hn Hd]%NoDup_cons. case_bool_decide; simpl; [auto|].
  constructor; [|auto]. intros Hin. apply Hn.
  apply list_elem_of_fmap in Hin as ([k0 v0] & -> & Hin). simpl.
  apply list_elem_of_In, filter_In in Hin as [Hin _].
  apply list_elem_of_fmap. exists (k0, v0). split; [done|by apply list_elem_of_In].
Qed.

Lemma elem_of_mget m k v : mget m k = Some v -> (k, v) ∈ m.
Proof.
  induction m as [|[k' v'] m IH]; simpl; [done|].
  case_decide as E; [intros [= ->]; subst; constructor|]. constructor. auto.
Qed.

Lemma mget_in m k v : mget m k = Some v -> (k, v) ∈ m.
Proof.
  induction m as [|[k' v'] m IH]; simpl; [done|]. case_decide as E; [intros [= ->]; subst; left|]. right. by apply IH.
Qed.

Lemma mget_elem_of m k v : NoDup (mkeys m) -> (k, v) ∈ m -> mget m k = Some v.
Proof.
  unfold mkeys. induction m as [|[k' v'] m IH]; simpl; [by intros _ ?%elem_of_nil|].
  intros [Hn Hd]%NoDup_cons [[= -> ->]|Hin]%elem_of_cons; [by rewrite decide_True|].
  case_decide as E; [|auto]. subst. exfalso. apply Hn.
  apply list_elem_of_fmap. by exists (k', v).
Qed.

Lemma mhas_spec m k : mhas m k = true <-> k ∈ mkeys m.
Proof.
  unfold mhas. rewrite bool_decide_eq_true.
  pose proof (mget_None m k) as Hn. destruct (mget m k) eqn:E.
  - split; [intros _|eauto]. destruct (decide (k ∈ mkeys m)) as [|Hk]; [done|].
    apply Hn in Hk. done.
  - split; [intros [? ?]; done|]. intros Hk. by apply (proj1 Hn eq_refl) in Hk.
Qed.
End OrderedMap.

(** ** Sets *)

Section OrderedSet.
Context {A : Type} `{EqDecision A}.
Implicit Types (s l : list A) (x : A).

Definition sadd s x : list A := if decide (x ∈ s) then s else s ++ [x].
Definition sdelete s x : list A := List.filter (fun y => negb (bool_decide (y = x))) s.
Definition shas s x : bool := bool_decide (x ∈ s).

(** [new Set(l)]: the first occurrence of each member, in order. *)
Definition set_of_list l : list A := fold_left sadd l [].

Lemma elem_of_sadd s x y : y ∈ sadd s x <-> y ∈ s \/ y = x.
Proof.
  unfold sadd. case_decide.
  - split; [auto|]. intros [Hy|Hy]; [done|by subst].
  - rewrite elem_of_app, list_elem_of_singleton. done.
Qed.

Lemma NoDup_sadd s x : NoDup s -> NoDup (sadd s x).
Proof.
  intros H. unfold sadd. case_decide; [done|].
  apply NoDup_app. split_and!; [done| |apply NoDup_singleton].
  intros y Hy ->%list_elem_of_singleton. done.
Qed.

Lemma elem_of_fold_sadd l s y : y ∈ fold_left sadd l s <-> y ∈ s \/ y ∈ l.
Proof.
  revert s; induction l as [|x l IH]; intros s; simpl; [set_solver|].
  rewrite IH, elem_of_sadd, elem_of_cons. tauto.
Qed.

Lemma NoDup_fold_sadd l s : NoDup s -> NoDup (fold_left sadd l s).
Proof. revert s; induction l; intros; simpl; auto using NoDup_sadd. Qed.

Lemma elem_of_set_of_list l y : y ∈ set_of_list l <-> y ∈ l.
Proof. unfold set_of_list. rewrite elem_of_fold_sadd. set_solver. Qed.

Lemma NoDup_set_of_list l : NoDup (set_of_list l).
Proof. apply NoDup_fold_sadd. constructor. Qed.

Lemma elem_of_sdelete s x y : y ∈ sdelete s x <-> y ∈ s /\ y <> x.
Proof.
  unfold sdelete. rewrite !list_elem_of_In, filter_In, negb_true_iff, bool_decide_eq_false. done.
Qed.

Lemma NoDup_sdelete s x : NoDup s -> NoDup (sdelete s x).
Proof. rewrite !NoDup_ListNoDup. apply List.NoDup_filter. Qed.

Lemma shas_spec s x : shas s x = true <-> x ∈ s.
Proof. apply bool_decide_eq_true. Qed.
End OrderedSet.

(** ** Array slices with numeric bounds *)

(** A [slice] argument as a position in an array of [n] elements. *)
Definition slice_index (n : nat) (x : number) : nat :=
  match x with
  | NaN => 0
  | Inf neg => if neg then 0 else n
  | Fin z => let k := Z.quot z U in
             if (k <? 0)%Z then Z.to_nat (Z.of_nat n + k) else min (Z.to_nat k) n
  end.

Definition array_slice {A} (l : list A) (x y : number) : list A :=
  let i := slice_index (length l) x in
  let j := slice_index (length l) y in
  take (j - i) (drop i l).

Lemma slice_index_int n z : (0 <= z)%Z -> slice_index n (int z) = min (Z.to_nat z) n.
Proof.
  intros Hz. simpl. pose proof U_pos. rewrite Z.quot_mul by lia.
  destruct (Z.ltb_spec z 0); [lia|done].
Qed.

Lemma array_slice_int {A} (l : list A) a b :
  (0 <= a <= b)%Z -> (b <= Z.of_nat (length l))%Z ->
  array_slice l (int a) (int b) = take (Z.to_nat b - Z.to_nat a) (drop (Z.to_nat a) l).
Proof.
  intros Ha Hb. unfold array_slice. rewrite !slice_index_int by lia.
  rewrite !Nat.min_l by lia. done.
Qed.

(** An array read at a computed index: undefined unless it is an index of the array. *)
Definition nth_number {A} (l : list A) (x : number) : option A :=
  match x with
  | Fin z => if (z mod U =? 0)%Z && (0 <=? z)%Z then l !! Z.to_nat (z / U) else None
  | _ => None
  end.

(** ** Grouping into a map *)

Lemma set_of_list_snoc {A} `{EqDecision A} (l : list A) x : set_of_list (l ++ [x]) = sadd (set_of_list l) x.
Proof. unfold set_of_list. by rewrite fold_left_app. Qed.

(** Deduplication commutes with a renaming that keeps the members at hand apart. *)
Lemma set_of_list_fmap {A B} `{EqDecision A, EqDecision B} (P : A -> Prop) (f : A -> B) l :
  (forall x y, P x -> P y -> f x = f y -> x = y) -> Forall P l ->
  set_of_list (f <$> l) = f <$> set_of_list l.
Proof.
  intros Hinj. induction l as [|x l IH] using rev_ind; intros HP; [done|].
  apply Forall_app in HP as [HP Hx]. inversion Hx as [|?? Px _]; subst.
  rewrite fmap_app, set_of_list_snoc. cbn [fmap list_fmap]. rewrite set_of_list_snoc, IH by done.
  unfold sadd. rewrite Forall_forall in HP.
  destruct (decide (x ∈ set_of_list l)) as [H|H].
  - rewrite decide_True; [done|]. by apply list_elem_of_fmap_2.
  - rewrite decide_False; [by rewrite fmap_app|]. intros (y & Hy & Hin)%list_elem_of_fmap.
    apply H. rewrite (Hinj x y Px); [done| |done]. apply HP. by apply elem_of_set_of_list.
Qed.

Lemma mvalues_mget {K V} `{EqDecision K} (m : list (K * V)) :
  NoDup (mkeys m) -> mvalues m = omap (mget m) (mkeys m).
Proof.
  unfold mvalues, mkeys. induction m as [|[k v] m IH]; csimpl; [done|].
  intros [Hk Hd]%NoDup_cons. rewrite decide_True by done. f_equal. rewrite IH by done.
  apply list_omap_ext, Forall2_same_length_lookup. split; [done|]. intros i x y Hx Hy.
  simplify_eq. rewrite decide_False; [done|]. intros ->. apply Hk. by eapply list_elem_of_lookup_2.
Qed.

(** A loop that files every element under its key, [upd] building a key's entry from the one before:
    the keys come out in first-seen order, and an entry has seen exactly its own elements, in order. *)
Section Grouping.
Context {A K V : Type} `{EqDecision K} (key : A -> K) (upd : option V -> A -> V).

Definition file_step (m : list (K * V)) (x : A) : list (K * V) := mset m (key x) (upd (mget m (key x)) x).

Definition entry_of (l : list A) (k : K) : option V :=
  fold_left (fun o x => Some (upd o x)) (List.filter (fun x => bool_decide (key x = k)) l) None.

Lemma file_fold l :
  mkeys (fold_left file_step l []) = set_of_list (key <$> l) /\
  forall k, mget (fold_left file_step l []) k = entry_of l k.
Proof.
  unfold entry_of. induction l as [|x l [IHk IHg]] using rev_ind; [done|].
  rewrite fold_left_app, fmap_app. cbn [fold_left fmap list_fmap]. rewrite set_of_list_snoc. split.
  - unfold file_step at 1. rewrite mkeys_mset, IHk. unfold sadd. done.
  - intros k. rewrite List.filter_app, fold_left_app, <- IHg. unfold file_step at 1. simpl.
    case_bool_decide as E; [subst; apply mget_mset_eq|by apply mget_mset_ne].
Qed.

Lemma file_values l :
  mvalues (fold_left file_step l []) = omap (entry_of l) (set_of_list (key <$> l)).
Proof.
  destruct (file_fold l) as [Hk Hg]. rewrite mvalues_mget, Hk.
  - apply list_omap_ext. by apply Forall2_same_length_lookup; split; [done|]; intros; simplify_eq.
  - rewrite Hk. apply NoDup_set_of_list.
Qed.
End Grouping.

(** A list as long as the set of its members repeats none. *)
Lemma length_set_of_list_le {A} `{EqDecision A} (l : list A) : (length (set_of_list l) <= length l)%nat.
Proof.
  induction l as [|x l IH] using rev_ind; [done|]. rewrite set_of_list_snoc, length_app. unfold sadd.
  case_decide; rewrite ?length_app; simpl; lia.
Qed.

Lemma NoDup_of_set_of_list_length {A} `{EqDecision A} (l : list A) :
  (length l <= length (set_of_list l))%nat -> NoDup l.
Proof.
  induction l as [|x l IH] using rev_ind; [constructor|]. rewrite set_of_list_snoc, length_app. simpl.
  pose proof (length_set_of_list_le l). unfold sadd. case_decide as Hx; [lia|]. rewrite length_app. simpl.
  intros Hl. apply NoDup_app. split_and!; [apply IH; lia| |apply NoDup_singleton].
  intros y Hy ->%list_elem_of_singleton. apply Hx. by apply elem_of_set_of_list.
Qed.
