(* ===== verification/JsValue.v ===== *)
(** Values of unknown shape, as they come out of [JSON.parse]: what the console reads defensively.

    [VObj] lists the own properties in enumeration order, one per key. *)
From S2P Require Import Prelude JsNum JsString JsCollections.

Inductive value :=
  | VUndef
  | VNull
  | VBool (b : bool)
  | VNum (n : number)
  | VStr (s : jstr)
  | VArr (l : list value)
  | VObj (fields : list (jstr * value)).

(** [typeof v === "object" && v !== null && !Array.isArray(v)]. *)
Definition isRecord (v : value) : bool := match v with VObj _ => true | _ => false end.

Definition isArray (v : value) : bool := match v with VArr _ => true | _ => false end.

(** [v.k] for a value known to be an object; [v?.k] for any other answers undefined here. *)
Definition vget (v : value) (k : jstr) : value :=
  match v with VObj fs => default VUndef (mget fs k) | _ => VUndef end.

(** [v.k] of a value that may be null or undefined; [None] is the [TypeError]. *)
Definition read_member (v : value) (k : jstr) : option value := match v with VUndef | VNull => None | _ => Some (vget v k) end.

(** [typeof v === "string" ? v : ""]. *)
Definition str (v : value) : jstr := match v with VStr s => s | _ => [] end.

(** [ToString(v)] throws on an object whose own [toString] shadows the inherited one: no JSON value can be called. *)
Fixpoint to_string_throws (v : value) : bool :=
  match v with
  | VObj fs => mhas fs (js "toString")
  | VArr l => existsb to_string_throws l
  | _ => false
  end.

(** A translator of the interface language: a dictionary key and its variables. *)
Abbreviation Translate := (jstr -> list (jstr * value) -> jstr).
