(* ===== verification/JsDate.v ===== *)
(** Dates: time values, [toISOString], and the interface to [Date.parse].

    A [Date] holds a time value: an integral number of milliseconds within 8.64e15 of the epoch, or
    NaN ([None] here, an Invalid Date).  [Date.parse] accepts implementation-defined formats beside
    the ISO one, so it is a class parameter ([DateHost]) whose laws are the ones ECMA-262 fixes: its
    results are time values, and it reads back what [toISOString] prints.  [iso_host] is a concrete
    instance, the parser of exactly the [toISOString] format. *)
From S2P Require Import Prelude JsNum JsString.
Local Open Scope Z_scope.

Definition MAX_TIME_MS : Z := 8640000000000000.

(** A [Date] object's time value. *)
Abbreviation date := (option Z).

Definition in_time_range (t : Z) : Prop := Z.abs t <= MAX_TIME_MS.

Definition valid_date (d : date) : Prop := match d with Some t => in_time_range t | None => True end.

(** [d.getTime()]. *)
Definition getTime (d : date) : number := match d with Some t => int t | None => NaN end.

(** [new Date(ms)]: TimeClip. *)
Definition date_of_number (x : number) : date :=
  match x with
  | Fin z => let t := Z.quot z U in
             if Z.abs z <=? MAX_TIME_MS * U then Some t else None
  | _ => None
  end.

Lemma date_of_number_int t : in_time_range t -> date_of_number (int t) = Some t.
Proof.
  unfold in_time_range. intros H. simpl. pose proof U_pos.
  rewrite Z.abs_mul, (Z.abs_eq U), Z.quot_mul by lia.
  rewrite (proj2 (Z.leb_le _ _)) by nia. done.
Qed.

Lemma date_of_number_valid x : valid_date (date_of_number x).
Proof.
  destruct x as [| |z]; try done. simpl. destruct (Z.leb_spec (Z.abs z) (MAX_TIME_MS * U)); [|done].
  simpl. unfold in_time_range. pose proof U_pos.
  pose proof (Z.quot_rem' z U). pose proof (Z.rem_bound_abs z U ltac:(lia)). 
  apply Z.lt_succ_r. pose proof (Z.quot_abs z U ltac:(lia)) as E. rewrite (Z.abs_eq U) in E by lia.
  rewrite <- E. apply Z.quot_lt_upper_bound; lia.
Qed.

(** ** The calendar *)

Definition ms_per_day : Z := 86400000.

(** Days before year [y], month [m], day [d] of the proleptic Gregorian calendar, from the epoch. *)
Definition days_from_civil (y m d : Z) : Z :=
  let y' := if m <=? 2 then y - 1 else y in
  let era := y' / 400 in
  let yoe := y' mod 400 in
  let mp := if m <=? 2 then m + 9 else m - 3 in
  let doy := (153 * mp + 2) / 5 + d - 1 in
  let doe := yoe * 365 + yoe / 4 - yoe / 100 + doy in
  era * 146097 + doe - 719468.

(** Year, month and day of a day number. *)
Definition civil_from_days (z : Z) : Z * Z * Z :=
  let era := (z + 719468) / 146097 in
  let doe := (z + 719468) mod 146097 in
  let yoe := (doe - doe / 1460 + doe / 36524 - doe / 146096) / 365 in
  let doy := doe - (365 * yoe + yoe / 4 - yoe / 100) in
  let mp := (5 * doy + 2) / 153 in
  let d := doy - (153 * mp + 2) / 5 + 1 in
  let m := if mp <? 10 then mp + 3 else mp - 9 in
  (yoe + era * 400 + (if m <=? 2 then 1 else 0), m, d).

(** The year within an era of 400 years: the day of the year it leaves is one of at most 366. *)
Lemma year_of_era doe :
  0 <= doe < 146097 ->
  let yoe := (doe - doe / 1460 + doe / 36524 - doe / 146096) / 365 in
  0 <= yoe < 400 /\ 0 <= doe - (365 * yoe + yoe / 4 - yoe / 100) <= 365.
Proof. intros H. cbv zeta. Z.to_euclidean_division_equations. lia. Qed.

Lemma month_of_year doy :
  0 <= doy <= 365 ->
  let mp := (5 * doy + 2) / 153 in
  0 <= mp <= 11 /\ 1 <= doy - (153 * mp + 2) / 5 + 1 <= 31.
Proof. intros H. cbv zeta. Z.to_euclidean_division_equations. lia. Qed.

Lemma civil_roundtrip z :
  let '(y, m, d) := civil_from_days z in
  days_from_civil y m d = z /\ 1 <= m <= 12 /\ 1 <= d <= 31.
Proof.
  unfold civil_from_days.
  set (era := (z + 719468) / 146097). set (doe := (z + 719468) mod 146097).
  pose proof (Z.div_mod (z + 719468) 146097 ltac:(lia)) as E. fold era doe in E.
  pose proof (Z.mod_pos_bound (z + 719468) 146097 ltac:(lia)) as Hd. fold doe in Hd.
  pose proof (year_of_era doe Hd) as Hy. cbv zeta in Hy.
  set (yoe := (doe - doe / 1460 + doe / 36524 - doe / 146096) / 365) in *.
  set (doy := doe - (365 * yoe + yoe / 4 - yoe / 100)) in *.
  pose proof (month_of_year doy (proj2 Hy)) as Hm. cbv zeta in Hm.
  set (mp := (5 * doy + 2) / 153) in *.
  set (m := if mp <? 10 then mp + 3 else mp - 9).
  assert (Hmm : 1 <= m <= 12 /\ (if m <=? 2 then m + 9 else m - 3) = mp).
  { subst m. destruct (Z.ltb_spec mp 10); destruct (Z.leb_spec (mp + 3) 2);
      try destruct (Z.leb_spec (mp - 9) 2); lia. }
  destruct Hmm as [Hmr Hmp]. split_and!; [|lia..].
  unfold days_from_civil. rewrite Hmp.
  replace (if m <=? 2 then yoe + era * 400 + (if m <=? 2 then 1 else 0) - 1
           else yoe + era * 400 + (if m <=? 2 then 1 else 0)) with (yoe + era * 400)
    by (destruct (m <=? 2); lia).
  rewrite Z.div_add, Z.mod_add, Z.div_small, Z.mod_small by lia. lia.
Qed.

(** ** ISO strings *)

(** [z] in exactly [n] decimal digits, leading zeros included. *)
Fixpoint pad (n : nat) (z : Z) : jstr :=
  match n with
  | O => []
  | S n' => pad n' (z / 10) ++ [48 + z mod 10]
  end.

Lemma length_pad n z : length (pad n z) = n.
Proof. revert z; induction n; intros; simpl; [done|]. rewrite length_app, IHn. simpl. lia. Qed.

Lemma digits_value_pad n z : digits_value (pad n z) = z mod 10 ^ Z.of_nat n.
Proof.
  revert z; induction n as [|n IH]; intros z; [by rewrite Z.mod_1_r|].
  simpl pad. unfold digits_value in *. rewrite fold_left_app. simpl fold_left. rewrite IH.
  rewrite Nat2Z.inj_succ, Z.pow_succ_r by lia.
  rewrite (Z.rem_mul_r z 10) by lia. lia.
Qed.

Lemma pad_all_digits n z : Forall (fun c => is_digit c = true) (pad n z).
Proof.
  revert z; induction n as [|n IH]; intros z; simpl; [constructor|].
  apply Forall_app. split; [done|]. constructor; [|constructor].
  pose proof (Z.mod_pos_bound z 10 ltac:(lia)). unfold is_digit. lia.
Qed.

Definition year_string (y : Z) : jstr :=
  if (0 <=? y) && (y <=? 9999) then pad 4 y
  else (if y <? 0 then 45 else 43) :: pad 6 (Z.abs y).

(** The date and time parts of an instant, up to the seconds. *)
Definition iso_seconds (t : Z) : jstr :=
  let '(y, m, d) := civil_from_days (t / ms_per_day) in
  let ms := t mod ms_per_day in
  year_string y ++ js "-" ++ pad 2 m ++ js "-" ++ pad 2 d ++ js "T" ++ pad 2 (ms / 3600000)
  ++ js ":" ++ pad 2 (ms / 60000 mod 60) ++ js ":" ++ pad 2 (ms / 1000 mod 60).

Definition iso_string (t : Z) : jstr := iso_seconds t ++ js "." ++ pad 3 (t mod 1000) ++ js "Z".

(** [d.toISOString()]; [None] is the RangeError an Invalid Date throws. *)
Definition toISOString (d : date) : option jstr := iso_string <$> d.

(** A reader of the fields of that format. *)
Definition read_digits (n : nat) (s : jstr) : option (Z * jstr) :=
  let w := take n s in
  if (length w =? n)%nat && forallb is_digit w then Some (digits_value w, drop n s) else None.

Definition expect (c : Z) (s : jstr) : option jstr :=
  match s with x :: s' => if x =? c then Some s' else None | [] => None end.

Definition read_year (s : jstr) : option (Z * jstr) :=
  match s with
  | [] => None
  | c :: s' =>
      if c =? 45 then '(y, r) ← read_digits 6 s'; Some (- y, r)
      else if c =? 43 then read_digits 6 s'
      else read_digits 4 s
  end.

(** The fields of an instant up to the seconds, in milliseconds from the epoch. *)
Definition read_seconds (s : jstr) : option (Z * jstr) :=
  '(y, s) ← read_year s; s ← expect 45 s;
  '(m, s) ← read_digits 2 s; s ← expect 45 s;
  '(d, s) ← read_digits 2 s; s ← expect 84 s;
  '(hh, s) ← read_digits 2 s; s ← expect 58 s;
  '(mm, s) ← read_digits 2 s; s ← expect 58 s;
  '(ss, s) ← read_digits 2 s;
  Some (days_from_civil y m d * ms_per_day + hh * 3600000 + mm * 60000 + ss * 1000, s).

(** Accepts exactly the strings [toISOString] prints. *)
Definition parse_iso (s : jstr) : option Z :=
  '(t, r) ← read_seconds s; r ← expect 46 r;
  '(ms, r) ← read_digits 3 r; r ← expect 90 r;
  if bool_decide (r = []) && (Z.abs (t + ms) <=? MAX_TIME_MS)
     && bool_decide (iso_string (t + ms) = s)
  then Some (t + ms) else None.

Lemma read_digits_pad n z r :
  0 <= z < 10 ^ Z.of_nat n -> read_digits n (pad n z ++ r) = Some (z, r).
Proof.
  intros Hz. unfold read_digits. rewrite take_app_length', drop_app_length' by by rewrite length_pad.
  rewrite length_pad, Nat.eqb_refl. simpl.
  assert (forallb is_digit (pad n z) = true) as ->.
  { apply forallb_forall. intros x Hx%list_elem_of_In. revert x Hx.
    apply Forall_forall, pad_all_digits. }
  rewrite digits_value_pad, Z.mod_small by done. done.
Qed.

#[local] Opaque pad read_digits.

Lemma pad_head n z r : (0 < n)%nat -> exists c r', pad n z ++ r = c :: r' /\ is_digit c = true.
Proof.
  intros Hn. pose proof (pad_all_digits n z) as H. pose proof (length_pad n z).
  destruct (pad n z) as [|c w]; [simpl in *; lia|]. inversion H; subst. simpl. eauto.
Qed.

Lemma read_year_string y r :
  Z.abs y < 1000000 -> read_year (year_string y ++ r) = Some (y, r).
Proof.
  intros Hy. unfold year_string.
  destruct (Z.leb_spec 0 y), (Z.leb_spec y 9999); simpl andb; cbv iota.
  - destruct (pad_head 4 y r ltac:(lia)) as (c & r' & E & Hc).
    assert (read_year (pad 4 y ++ r) = read_digits 4 (pad 4 y ++ r)) as ->.
    { rewrite E. unfold is_digit in Hc. unfold read_year.
      rewrite !(proj2 (Z.eqb_neq c _)) by lia. done. }
    rewrite read_digits_pad by (simpl; lia). done.
  - rewrite (proj2 (Z.ltb_ge y 0)) by lia. simpl. rewrite read_digits_pad by (simpl; lia).
    rewrite Z.abs_eq by lia. done.
  - rewrite (proj2 (Z.ltb_lt y 0)) by lia. simpl. rewrite read_digits_pad by (simpl; lia).
    simpl. do 2 f_equal. lia.
  - lia.
Qed.

Lemma year_bound z y m d :
  civil_from_days z = (y, m, d) -> Z.abs z <= 100000000 -> Z.abs y < 1000000.
Proof.
  intros E Hz. pose proof (civil_roundtrip z) as H. rewrite E in H. destruct H as (H & Hm & Hd).
  unfold days_from_civil in H. destruct (m <=? 2); Z.to_euclidean_division_equations; lia.
Qed.

Lemma read_iso_seconds t r :
  in_time_range t -> read_seconds (iso_seconds t ++ r) = Some (t - t mod 1000, r).
Proof.
  unfold in_time_range, MAX_TIME_MS. intros Ht. unfold iso_seconds.
  pose proof (civil_roundtrip (t / ms_per_day)) as Hc.
  destruct (civil_from_days (t / ms_per_day)) as [[y m] d] eqn:E. destruct Hc as (Hdays & Hm & Hd).
  assert (Z.abs y < 1000000) as Hy.
  { apply (year_bound _ _ _ _ E). unfold ms_per_day. Z.to_euclidean_division_equations. lia. }
  assert (Hms : 0 <= t mod ms_per_day < 86400000) by (apply Z.mod_pos_bound; done).
  set (ms := t mod ms_per_day) in *.
  assert (0 <= ms / 3600000 < 24) by (Z.to_euclidean_division_equations; lia).
  assert (0 <= ms / 60000 mod 60 < 60) by (apply Z.mod_pos_bound; lia).
  assert (0 <= ms / 1000 mod 60 < 60) by (apply Z.mod_pos_bound; lia).
  rewrite <- !app_assoc. unfold read_seconds.
  rewrite read_year_string by done. simpl.
  rewrite read_digits_pad by (simpl; lia). simpl.
  rewrite read_digits_pad by (simpl; lia). simpl.
  rewrite read_digits_pad by (simpl; lia). simpl.
  rewrite read_digits_pad by (simpl; lia). simpl.
  rewrite read_digits_pad by (simpl; lia). simpl.
  rewrite Hdays. do 2 f_equal.
  subst ms. unfold ms_per_day in *. clear. Z.to_euclidean_division_equations. lia.
Qed.

(** [Date.parse] of an ISO string is the instant it names. *)
Lemma parse_iso_string t : in_time_range t -> parse_iso (iso_string t) = Some t.
Proof.
  intros Ht. unfold parse_iso.
  assert (read_seconds (iso_string t) = Some (t - t mod 1000, js "." ++ pad 3 (t mod 1000) ++ js "Z"))
    as -> by by apply read_iso_seconds.
  simpl.
  pose proof (Z.mod_pos_bound t 1000 ltac:(lia)).
  rewrite read_digits_pad by (simpl; lia). simpl.
  replace (t - t mod 1000 + t mod 1000) with t by lia.
  rewrite (proj2 (Z.leb_le _ _)) by done. rewrite !bool_decide_eq_true_2 by done. done.
Qed.

Lemma parse_iso_range s t : parse_iso s = Some t -> in_time_range t.
Proof.
  unfold parse_iso, mbind, option_bind. repeat (case_match; try done).
  intros [= <-]. unfold in_time_range. lia.
Qed.

(** ** Date.parse *)

Class DateHost := {
  Date_parse : jstr -> option Z;
  Date_parse_range s t : Date_parse s = Some t -> in_time_range t;
  Date_parse_iso t : in_time_range t -> Date_parse (iso_string t) = Some t;
}.

Definition iso_host : DateHost := {|
  Date_parse := parse_iso;
  Date_parse_range := parse_iso_range;
  Date_parse_iso := parse_iso_string;
|}.

Section Host.
Context `{DateHost}.

(** [new Date(s)] and [Date.parse(s)]. *)
Definition date_of_string (s : jstr) : date := Date_parse s.
Definition parse_ms (s : jstr) : number := getTime (Date_parse s).

Lemma date_of_string_valid s : valid_date (date_of_string s).
Proof. unfold date_of_string. destruct (Date_parse s) eqn:E; simpl; eauto using Date_parse_range. Qed.
End Host.

Lemma iso_string_inj t u :
  in_time_range t -> in_time_range u -> iso_string t = iso_string u -> t = u.
Proof.
  intros Ht Hu E. apply parse_iso_string in Ht, Hu. rewrite E in Ht. congruence.
Qed.

Example iso_epoch : iso_string 1754550000123 = js "2025-08-07T07:00:00.123Z".
Proof. vm_compute. reflexivity. Qed.

Example iso_max : iso_string MAX_TIME_MS = js "+275760-09-13T00:00:00.000Z".
Proof. vm_compute. reflexivity. Qed.

(** A printed instant is plain ASCII. *)
Lemma digits_ascii s : Forall (fun c => is_digit c = true) s -> Forall (fun c => 0 <= c < 128) s.
Proof. intros H. eapply Forall_impl; [exact H|]. intros c. unfold is_digit. simpl. lia. Qed.

Lemma js_ascii s : forallb (fun c => (0 <=? c) && (c <? 128)) s = true -> Forall (fun c => 0 <= c < 128) s.
Proof. rewrite forallb_Forall. intros H. eapply Forall_impl; [exact H|]. simpl. lia. Qed.

Lemma iso_string_ascii t : Forall (fun c => 0 <= c < 128) (iso_string t).
Proof.
  unfold iso_string, iso_seconds, year_string.
  destruct (civil_from_days (t / ms_per_day)) as [[y m] d].
  repeat (apply Forall_app; split);
    try (by apply digits_ascii, pad_all_digits); try (apply js_ascii; reflexivity).
  repeat case_match; try (by apply digits_ascii, pad_all_digits);
    (apply Forall_cons; split; [lia|by apply digits_ascii, pad_all_digits]).
Qed.
