(* ===== verification/JsFormat.v ===== *)
(** Numbers as text: [String(x)], [x.toFixed(d)] and [Number(s)]. *)
From S2P Require Import Prelude JsNum JsString JsCollections JsValue.
Local Open Scope Z_scope.

(** ** Number to string *)

(** The decimal exponent [n] of [z] units: [10^(n-1) <= z / U < 10^n]. *)
Fixpoint small_exponent (fuel : nat) (z m : Z) : Z :=
  match fuel with
  | O => - m
  | S fuel' => if U <=? z * 10 ^ (m + 1) then - m else small_exponent fuel' z (m + 1)
  end.

Definition decimal_exponent (z : Z) : Z :=
  if U <=? z then Z.of_nat (length (digits (z / U))) else small_exponent 330 z 0.

(** [s * 10^p] as the double it rounds to. *)
Definition round_decimal (s p : Z) : number :=
  if 0 <=? p then round64 (s * 10 ^ p * U) 1 else round64 (s * U) (10 ^ (- p)).

(** The fewest digits [s], with their exponent, that round back to [z] units; of two such the
    closer one.  Seventeen digits always suffice. *)
Fixpoint shortest (fuel : nat) (k n z : Z) : Z * Z :=
  let p := n - k in
  let num := if 0 <=? p then z else z * 10 ^ (- p) in
  let den := if 0 <=? p then U * 10 ^ p else U in
  let lo := num / den in
  let fits s := bool_decide (round_decimal s p = Fin z) in
  match fuel with
  | O => (lo, k)
  | S fuel' =>
      if fits lo && (negb (fits (lo + 1)) || (2 * (num mod den) <=? den)) then (lo, k)
      else if fits (lo + 1) then (lo + 1, k)
      else shortest fuel' (k + 1) n z
  end.

Definition zeros (n : Z) : jstr := replicate (Z.to_nat n) 48.

(** The layout of the digits [ds] at decimal exponent [n]. *)
Definition layout_digits (ds : jstr) (n : Z) : jstr :=
  let k := Z.of_nat (length ds) in
  if (k <=? n) && (n <=? 21) then ds ++ zeros (n - k)
  else if (0 <? n) && (n <=? 21) then take (Z.to_nat n) ds ++ js "." ++ drop (Z.to_nat n) ds
  else if (-6 <? n) && (n <=? 0) then js "0." ++ zeros (- n) ++ ds
  else
    let e := n - 1 in
    let ex := js "e" ++ (if e <? 0 then js "-" else js "+") ++ digits (Z.abs e) in
    if k =? 1 then ds ++ ex else take 1 ds ++ js "." ++ drop 1 ds ++ ex.

(** Rounding up to a power of ten leaves a zero the shortest form does not carry. *)
Definition strip_zeros (ds : jstr) : jstr :=
  rev ((fix go l := match l with c :: l' => if c =? 48 then go l' else l | [] => [] end) (rev ds)).

Definition positive_to_string (z : Z) : jstr :=
  let n := decimal_exponent z in
  let '(s, k) := shortest 20 1 n z in
  layout_digits (strip_zeros (digits s)) (n - k + Z.of_nat (length (digits s))).

(** [String(x)].  A safe integer prints its own digits: a shorter decimal would be another safe
    integer, which rounds to itself. *)
Definition num_to_string (x : number) : jstr :=
  match x with
  | NaN => js "NaN"
  | Inf neg => if neg then js "-Infinity" else js "Infinity"
  | Fin z =>
      if (z mod U =? 0) && (Z.abs z <=? 2 ^ 53 * U) then string_of_Z (z / U)
      else if z <? 0 then js "-" ++ positive_to_string (- z) else positive_to_string z
  end.

Lemma num_to_string_int z : safe z -> num_to_string (int z) = string_of_Z z.
Proof.
  unfold safe. intros H. simpl. pose proof U_pos. rewrite Z.mod_mul, Z.div_mul by lia.
  rewrite Z.eqb_refl, Z.abs_mul, (Z.abs_eq U) by lia.
  rewrite (proj2 (Z.leb_le _ _)) by nia. done.
Qed.

Example string_of_numbers :
  num_to_string (dec 105 1) = js "10.5" /\
  num_to_string (int 1234567) = js "1234567" /\
  num_to_string (dec 1 7) = js "1e-7" /\
  num_to_string (int (10 ^ 21)) = js "1e+21".
Proof. split_and!; vm_compute; reflexivity. Qed.

(** ** toFixed *)

(** The digits of [m / 10^d] with exactly [d] of them after the point. *)
Definition fixed_digits (m : Z) (d : nat) : jstr :=
  let ds := digits m in
  let ds := zeros (Z.of_nat d + 1 - Z.of_nat (length ds)) ++ ds in
  let k := (length ds - d)%nat in
  if (d =? 0)%nat then ds else take k ds ++ js "." ++ drop k ds.

Definition toFixed (x : number) (d : nat) : jstr :=
  match x with
  | Fin z =>
      if Z.abs z <? 10 ^ 21 * U then
        let m := (2 * Z.abs z * 10 ^ Z.of_nat d + U) / (2 * U) in
        (if z <? 0 then js "-" else []) ++ fixed_digits m d
      else num_to_string x
  | _ => num_to_string x
  end.

Example toFixed_values :
  toFixed (dec 1005 3) 2 = js "1.00" /\ toFixed (dec 25 1) 0 = js "3" /\
  toFixed (int 7) 1 = js "7.0" /\ toFixed (dec (-4) 2) 1 = js "-0.0" /\ toFixed NaN 1 = js "NaN".
Proof. split_and!; vm_compute; reflexivity. Qed.

(** ** String to number *)

Fixpoint span_digits (s : jstr) : jstr * jstr :=
  match s with
  | c :: s' => if is_digit c then let '(d, r) := span_digits s' in (c :: d, r) else ([], s)
  | [] => ([], [])
  end.

(** An optional exponent part, after which nothing may follow. *)
Definition read_exponent (s : jstr) : option Z :=
  match s with
  | [] => Some 0
  | c :: r =>
      if (c =? 101) || (c =? 69) then
        let '(neg, r) := match r with
                         | x :: r' => if x =? 45 then (true, r') else if x =? 43 then (false, r') else (false, r)
                         | [] => (false, r)
                         end in
        let '(ds, rest) := span_digits r in
        if bool_decide (ds <> []) && bool_decide (rest = [])
        then Some (if neg then - digits_value ds else digits_value ds) else None
      else None
  end.

(** StrUnsignedDecimalLiteral. *)
Definition read_decimal (s : jstr) : option number :=
  if bool_decide (s = js "Infinity") then Some (Inf false)
  else
    let '(ip, r) := span_digits s in
    let '(fp, r) := match r with
                    | c :: r' => if c =? 46 then span_digits r' else ([], r)
                    | [] => ([], r)
                    end in
    if bool_decide (ip = []) && bool_decide (fp = []) then None
    else e ← read_exponent r;
         Some (round_decimal (digits_value (ip ++ fp)) (e - Z.of_nat (length fp))).

Definition hex_value (c : Z) : Z := if c <=? 57 then c - 48 else if c <=? 70 then c - 55 else c - 87.

(** 0x, 0o and 0b literals. *)
Definition read_radix (s : jstr) : option number :=
  match s with
  | z :: x :: c :: r =>
      let base := if (x =? 120) || (x =? 88) then 16 else if (x =? 111) || (x =? 79) then 8
                  else if (x =? 98) || (x =? 66) then 2 else 0 in
      let ok d := is_hex d && (hex_value d <? base) in
      if (z =? 48) && (0 <? base) && forallb ok (c :: r)
      then Some (round64 (fold_left (fun a d => a * base + hex_value d) (c :: r) 0 * U) 1) else None
  | _ => None
  end.

(** [Number(s)]. *)
Definition number_of_string (s : jstr) : number :=
  let t := trim s in
  match t with
  | [] => int 0
  | c :: r =>
      match read_radix t with
      | Some x => x
      | None =>
          if c =? 45 then default NaN (nneg <$> read_decimal r)
          else if c =? 43 then default NaN (read_decimal r)
          else default NaN (read_decimal t)
      end
  end.

Example number_of_strings :
  number_of_string (js " 12.50 ") = dec 125 1 /\ number_of_string (js "1e3") = int 1000 /\
  number_of_string (js "0x50") = int 80 /\ number_of_string (js "+Inf") = NaN /\
  number_of_string (js "-Infinity") = Inf true /\ number_of_string (js "1e400") = Inf false /\
  number_of_string (js ".5e1") = int 5 /\ number_of_string (js "") = int 0 /\
  number_of_string (js "1_0") = NaN /\ number_of_string (js ".") = NaN.
Proof. split_and!; vm_compute; reflexivity. Qed.

Lemma span_digits_all s :
  Forall (fun c => is_digit c = true) s -> span_digits s = (s, []).
Proof. induction 1 as [|c s Hc Hs IH]; simpl; [done|]. by rewrite Hc, IH. Qed.

(** [Number] of a text of digits is the integer it spells, rounded. *)
Lemma digit_not_space c : is_digit c = true -> is_space c = false.
Proof.
  unfold is_digit, is_space. intros H. rewrite bool_decide_eq_false_2; [lia|].
  intros Hin. repeat (apply elem_of_cons in Hin as [->|Hin]; [done|]). by apply elem_of_nil in Hin.
Qed.

Lemma read_radix_digits s : Forall (fun c => is_digit c = true) s -> read_radix s = None.
Proof.
  intros H. destruct s as [|a [|x [|c r]]]; [done..|].
  inversion H as [|?? _ H']; subst. inversion H' as [|?? Hx _]; subst.
  unfold read_radix. unfold is_digit in Hx.
  rewrite (proj2 (Z.eqb_neq x 120)), (proj2 (Z.eqb_neq x 88)), (proj2 (Z.eqb_neq x 111)),
    (proj2 (Z.eqb_neq x 79)), (proj2 (Z.eqb_neq x 98)), (proj2 (Z.eqb_neq x 66)) by lia.
  cbn [orb]. by rewrite andb_false_r.
Qed.

Lemma number_of_digits s :
  s <> [] -> Forall (fun c => is_digit c = true) s ->
  number_of_string s = round_decimal (digits_value s) 0.
Proof.
  intros Hne H. unfold number_of_string.
  rewrite trim_id.
  2:{ intros c Hc. apply digit_not_space. rewrite Forall_forall in H. apply H.
      destruct s; [done|]. injection Hc as ->. constructor. }
  2:{ intros c Hc. apply digit_not_space. rewrite Forall_forall in H. apply H. by apply last_Some_elem_of. }
  destruct s as [|c s]; [done|]. rewrite (read_radix_digits (c :: s)) by done.
  inversion H as [|?? Hc Hs]; subst. pose proof Hc as Hc'. unfold is_digit in Hc'.
  rewrite (proj2 (Z.eqb_neq c 45)), (proj2 (Z.eqb_neq c 43)) by lia.
  unfold read_decimal. rewrite bool_decide_eq_false_2.
  2:{ intros E. vm_compute in E. injection E as -> _. lia. }
  rewrite span_digits_all by done. cbn [span_digits read_exponent]. 
  rewrite bool_decide_eq_false_2 by done. cbn [andb]. simpl. by rewrite app_nil_r.
Qed.

Lemma number_of_digits_int z : 0 <= z -> safe z -> number_of_string (digits z) = int z.
Proof.
  intros Hz Hs. rewrite number_of_digits by eauto using digits_nonempty, digits_all_digits.
  rewrite digits_value_digits by done. unfold round_decimal. change (0 <=? 0) with true. cbn match.
  apply round64_int; [lia|done|]. lia.
Qed.

(** Comparisons of such a number with a small integer are those of the integer it spells. *)
Lemma round_decimal_leb v k : safe (k + 1) -> safe k -> (round_decimal v 0 <=? int k)%num = (v <=? k).
Proof.
  intros Hk1 Hk. unfold round_decimal. change (0 <=? 0) with true. cbn match. rewrite Z.pow_0_r, Z.mul_1_r. pose proof U_pos as HU.
  destruct (Z.leb_spec v k) as [H|H].
  - pose proof (safe_lt_OVERFLOW k Hk). apply round64_le; [lia|by apply repr_int|lia|nia].
  - pose proof (safe_lt_OVERFLOW (k + 1) Hk1) as Ho.
    apply Z.abs_lt in Ho as [Ho _].
    assert ((k + 1) * U <= v * U) as Hle by (apply Z.mul_le_mono_nonneg_r; lia).
    pose proof (round64_ge (v * U) 1 ((k + 1) * U) ltac:(lia) (repr_int _ Hk1) Ho ltac:(lia)) as G.
    unfold nleb in *. unfold int. destruct (round64 _ _) as [|[]|z]; cbn [nltb neqb] in *; try done.
    lia.
Qed.

Lemma round_decimal_geb v k : safe (k - 1) -> safe k -> (int k <=? round_decimal v 0)%num = (k <=? v).
Proof.
  intros Hk1 Hk. unfold round_decimal. change (0 <=? 0) with true. cbn match. rewrite Z.pow_0_r, Z.mul_1_r. pose proof U_pos as HU.
  destruct (Z.leb_spec k v) as [H|H].
  - pose proof (safe_lt_OVERFLOW k Hk). apply round64_ge; [lia|by apply repr_int|lia|nia].
  - pose proof (safe_lt_OVERFLOW (k - 1) Hk1) as Ho.
    apply Z.abs_lt in Ho as [_ Ho].
    assert (v * U <= (k - 1) * U) as Hle by (apply Z.mul_le_mono_nonneg_r; lia).
    pose proof (round64_le (v * U) 1 ((k - 1) * U) ltac:(lia) (repr_int _ Hk1) Ho ltac:(lia)) as G.
    unfold nleb in *. unfold int. destruct (round64 _ _) as [|[]|z]; cbn [nltb neqb] in *; try done.
    lia.
Qed.

(** ** Coercions of unknown values *)

(** [String(v)] of a value out of [JSON.parse]; an array joins its elements, null and undefined as
    nothing. *)
Fixpoint string_of_value (v : value) : jstr :=
  match v with
  | VUndef => js "undefined"
  | VNull => js "null"
  | VBool b => if b then js "true" else js "false"
  | VNum n => num_to_string n
  | VStr s => s
  | VArr l => join (js ",") (map (fun x => match x with VUndef | VNull => [] | _ => string_of_value x end) l)
  | VObj _ => js "[object Object]"
  end.

(** [Number(v)]. *)
Definition number_of_value (v : value) : number :=
  match v with
  | VUndef => NaN
  | VNull => int 0
  | VBool b => if b then int 1 else int 0
  | VNum n => n
  | VStr s => number_of_string s
  | VArr _ | VObj _ => number_of_string (string_of_value v)
  end.

(** [String(v)] and [Number(v)] of a value off the wire; [None] is the [TypeError] of an object that cannot be printed. *)
Definition coerce_string (v : value) : option jstr := if to_string_throws v then None else Some (string_of_value v).
Definition coerce_number (v : value) : option number := if to_string_throws v then None else Some (number_of_value v).
