(* ===== verification/JsNumText.v ===== *)
(** A double printed by [String(x)] is read back as itself, by [Number(s)] and, in JsJsonText, by [JSON.parse].

    The digits the printer settles on round back to the double they were taken from ([shortest_rounds]): it stops at the
    first length that does, and twenty digits, the last length it tries, always do, since cutting there moves the value
    by less than a [10^19]th part of it, well under half of the last of its 53 bits ([round_units_below]). *)
From S2P Require Import Prelude JsNum JsString JsCollections JsValue JsFormat.
Local Open Scope Z_scope.

Abbreviation all_digits := (Forall (fun c => is_digit c = true)).

(** A finite double. *)
Definition double (z : Z) : Prop := repr z /\ Z.abs z < OVERFLOW.

Lemma double_int z : safe z -> double (z * U).
Proof. intros Hz. split; [by apply repr_int|by apply safe_lt_OVERFLOW]. Qed.

Lemma double_opp z : double z -> double (- z).
Proof. intros [Hr Ho]. split; [by apply repr_opp|lia]. Qed.

Lemma round64_double a b z : round64 a b = Fin z -> 0 < b -> double z.
Proof.
  unfold round64. destruct (Z.ltb_spec (Z.abs (round_units a b)) OVERFLOW) as [H|]; [|done].
  intros [= <-] Hb. split; [by apply round_units_repr|done].
Qed.

(** A literal of the source. *)
Lemma double_dec m k : 0 <= k -> isFinite (dec m k) = true -> exists z, dec m k = Fin z /\ double z.
Proof.
  intros Hk. assert (H10 : 0 < 10 ^ k) by (apply Z.pow_pos_nonneg; lia). unfold dec.
  destruct (round64 (m * U) (10 ^ k)) as [| |z] eqn:E; [done..|]. intros _. exists z. split; [done|]. by eapply round64_double.
Qed.

(** ** Rounding a value just below a double *)

Lemma rne_below a b q : 0 < b -> a <= q * b -> 2 * (q * b - a) < b -> rne a b = q.
Proof.
  intros Hb Hle Hnear. unfold rne. pose proof (Z.div_mod a b ltac:(lia)). pose proof (Z.mod_pos_bound a b Hb).
  destruct (Z.eq_dec (a / b) q) as [E|Hne].
  - assert (a mod b = 0) by (rewrite E in *; nia). rewrite (proj2 (Z.ltb_lt _ _)) by lia. done.
  - assert (a / b <= q) by nia. assert (E : a / b = q - 1) by nia. rewrite E in *.
    assert (b < 2 * (a mod b)) by nia. rewrite (proj2 (Z.ltb_ge _ _)), (proj2 (Z.ltb_lt _ _)) by lia. lia.
Qed.

(** A double is a whole number of the last places of a value just below it. *)
Lemma repr_multiple a b z :
  0 < b -> repr z -> 0 < z -> 0 <= a <= z * b -> exists q, z = q * 2 ^ ulp_exp a b.
Proof.
  intros Hb (m & e' & He' & Hm & ->) Hz Ha. set (e := ulp_exp a b). pose proof (ulp_exp_nonneg a b) as He. fold e in He.
  destruct (Z.le_gt_cases e e') as [C|C].
  - exists (m * 2 ^ (e' - e)). rewrite <- Z.mul_assoc, <- Z.pow_add_r by lia. do 2 f_equal. lia.
  - exists (2 ^ 52). pose proof (ulp_exp_big a b Hb ltac:(fold e; lia)) as Hbig. fold e in Hbig.
    assert (Hp : 2 * 2 ^ e' <= 2 ^ e) by (rewrite <- Z.pow_succ_r by lia; apply Z.pow_le_mono_r; lia).
    pose proof (pow2_pos e' He'). nia.
Qed.

Lemma round_units_below a b z :
  0 < b -> repr z -> 0 < z -> 0 <= a <= z * b -> 2 ^ 55 * (z * b - a) <= z * b -> round_units a b = z.
Proof.
  intros Hb Hr Hz Ha Hnear. destruct (repr_multiple a b z Hb Hr Hz Ha) as [q Hq].
  unfold round_units. set (e := ulp_exp a b) in *. pose proof (pow2_pos e (ulp_exp_nonneg a b)) as Hp.
  assert (Hbits : a < 2 ^ 53 * 2 ^ e * b).
  { pose proof (Z.mod_pos_bound a b Hb).
    pose proof (Z.div_mod a b ltac:(lia)). assert (a / b < 2 ^ 53 * 2 ^ e); [|nia].
    destruct (Z.le_gt_cases (a / b) 0) as [Hq0|Hq0]; [lia|]. pose proof (Z.log2_spec (a / b) Hq0) as [_ Hhi].
    rewrite <- Z.pow_add_r by (try apply ulp_exp_nonneg; lia). eapply Z.lt_le_trans; [exact Hhi|].
    apply Z.pow_le_mono_r; [lia|]. subst e. unfold ulp_exp. rewrite Z.abs_eq by lia. lia. }
  rewrite (rne_below a (b * 2 ^ e) q); [lia|nia|nia|]. rewrite Hq in Hnear. nia.
Qed.

(** Rounding sees the ratio only. *)
Lemma round64_scale a b c : 0 < b -> 0 < c -> round64 (a * c) (b * c) = round64 a b.
Proof.
  intros Hb Hc. assert (round_units (a * c) (b * c) = round_units a b) as E; [|by unfold round64; rewrite E].
  unfold round_units. assert (Hu : ulp_exp (a * c) (b * c) = ulp_exp a b).
  { unfold ulp_exp. by rewrite Z.abs_mul, (Z.abs_eq c), Z.div_mul_cancel_r by lia. }
  rewrite Hu. pose proof (pow2_pos _ (ulp_exp_nonneg a b)) as Hp. f_equal. rewrite <- Z.mul_assoc, (Z.mul_comm c), Z.mul_assoc.
  assert (Hd : 0 < b * 2 ^ ulp_exp a b) by nia. revert Hd. generalize (b * 2 ^ ulp_exp a b). intros d Hd. unfold rne.
  rewrite Z.div_mul_cancel_r, Z.mul_mod_distr_r by lia.
  destruct (Z.ltb_spec (2 * (a mod d)) d), (Z.ltb_spec d (2 * (a mod d))), (Z.ltb_spec (2 * (a mod d * c)) (d * c)),
    (Z.ltb_spec (d * c) (2 * (a mod d * c))); done || nia.
Qed.

Lemma round_decimal_shift s p j : 0 <= j -> round_decimal (s * 10 ^ j) p = round_decimal s (p + j).
Proof.
  intros Hj. unfold round_decimal. destruct (Z.leb_spec 0 p), (Z.leb_spec 0 (p + j)); [|lia| |].
  - rewrite Z.pow_add_r by lia. f_equal. ring.
  - rewrite <- (round64_scale (s * 10 ^ (p + j) * U) 1 (10 ^ (- p))) by (try apply Z.pow_pos_nonneg; lia).
    f_equal; [|lia]. replace j with ((p + j) + - p) at 1 by lia. rewrite Z.pow_add_r by lia. ring.
  - rewrite <- (round64_scale (s * U) _ (10 ^ j)) by (apply Z.pow_pos_nonneg; lia). f_equal; [ring|].
    rewrite <- Z.pow_add_r by lia. f_equal. lia.
Qed.

(** ** Digits *)

Lemma digits_value_app s t : digits_value (s ++ t) = digits_value s * 10 ^ Z.of_nat (length t) + digits_value t.
Proof.
  unfold digits_value. rewrite fold_left_app. generalize (fold_left (fun acc c => acc * 10 + (c - 48)) s 0) as v.
  induction t as [|c t IH] using rev_ind; intros v; [simpl; lia|].
  rewrite !fold_left_app, length_app, Nat2Z.inj_add, Z.pow_add_r by lia. cbn [fold_left length]. rewrite IH. change (10 ^ Z.of_nat 1) with 10. ring.
Qed.

Lemma digits_value_bounds s : all_digits s -> 0 <= digits_value s < 10 ^ Z.of_nat (length s).
Proof.
  induction s as [|c s IH] using rev_ind; intros Hs; [by cbn|]. apply Forall_app in Hs as [Hs Hc].
  apply Forall_cons in Hc as [Hc _]. unfold is_digit in Hc. specialize (IH Hs).
  rewrite digits_value_app, length_app, Nat2Z.inj_add, Z.pow_add_r by lia. change (10 ^ Z.of_nat (length [c])) with 10.
  change (digits_value [c]) with (0 * 10 + (c - 48)). lia.
Qed.

Lemma zeros_length n : 0 <= n -> Z.of_nat (length (zeros n)) = n.
Proof. intros. unfold zeros. rewrite length_replicate. lia. Qed.

Lemma zeros_digits n : all_digits (zeros n).
Proof. by apply Forall_replicate. Qed.

Lemma zeros_value n : digits_value (zeros n) = 0.
Proof.
  unfold zeros, digits_value. induction (Z.to_nat n) as [|m IH]; [done|]. exact IH.
Qed.

(** Digits that do not start with a zero. *)
Definition leading (ds : jstr) : Prop := match ds with c :: _ => c <> 48 | [] => False end.

Lemma leading_value ds : leading ds -> all_digits ds -> 10 ^ (Z.of_nat (length ds) - 1) <= digits_value ds.
Proof.
  destruct ds as [|c ds]; [done|]. intros Hc [Hd Hds]%Forall_cons. unfold is_digit in Hd. cbn in Hc.
  change (c :: ds) with ([c] ++ ds) at 2. rewrite digits_value_app. change (digits_value [c]) with (0 * 10 + (c - 48)).
  pose proof (digits_value_bounds ds Hds). replace (Z.of_nat (length (c :: ds)) - 1) with (Z.of_nat (length ds)) by (cbn [length]; lia).
  assert (0 < 10 ^ Z.of_nat (length ds)) by (apply Z.pow_pos_nonneg; lia). nia.
Qed.

Lemma digits_fuel_head n z acc : 0 < z < 2 ^ Z.of_nat n -> leading (digits_fuel n z acc).
Proof.
  revert z acc. induction n as [|n IH]; intros z acc [H0 H1]; [simpl in H1; lia|]. cbn [digits_fuel].
  destruct (Z.ltb_spec z 10).
  - cbn [leading]. rewrite Z.mod_small by lia. lia.
  - apply IH. rewrite Nat2Z.inj_succ, Z.pow_succ_r in H1 by lia. split; [apply Z.div_str_pos; lia|].
    apply Z.div_lt_upper_bound; lia.
Qed.

Lemma digits_leading z : 0 < z -> leading (digits z).
Proof.
  intros Hz. apply digits_fuel_head. rewrite Nat2Z.inj_succ, Z2Nat.id by apply Z.log2_nonneg. pose proof (Z.log2_spec z Hz). lia.
Qed.

Lemma digits_length z : 0 < z -> 10 ^ (Z.of_nat (length (digits z)) - 1) <= z.
Proof.
  intros Hz. pose proof (leading_value (digits z) (digits_leading z Hz) (digits_all_digits z ltac:(lia))) as H.
  by rewrite digits_value_digits in H by lia.
Qed.

(** ** The digits the printer settles on *)

(** [10^(n-1)] is at most [z / U]. *)
Definition reaches (n z : Z) : Prop := if 1 <=? n then 10 ^ (n - 1) * U <= z else U <= z * 10 ^ (1 - n).

Lemma U_decimal : U <= 10 ^ 331.
Proof. vm_compute. discriminate. Qed.

Lemma small_exponent_reaches fuel z m :
  0 <= m -> 0 < z -> U <= z * 10 ^ (m + Z.of_nat fuel + 1) -> reaches (small_exponent fuel z m) z.
Proof.
  revert m. induction fuel as [|fuel IH]; intros m Hm Hz H; cbn [small_exponent].
  - unfold reaches. rewrite (proj2 (Z.leb_gt _ _)) by lia. replace (1 - - m) with (m + Z.of_nat 0 + 1) by lia. done.
  - destruct (Z.leb_spec U (z * 10 ^ (m + 1))) as [Hle|_].
    + unfold reaches. rewrite (proj2 (Z.leb_gt _ _)) by lia. by replace (1 - - m) with (m + 1) by lia.
    + apply IH; [lia|done|]. by replace (m + 1 + Z.of_nat fuel + 1) with (m + Z.of_nat (S fuel) + 1) by lia.
Qed.

Lemma decimal_exponent_reaches z : 0 < z -> reaches (decimal_exponent z) z.
Proof.
  intros Hz. pose proof U_pos. unfold decimal_exponent. destruct (Z.leb_spec U z) as [Hle|Hlt].
  - assert (Hq : 0 < z / U) by (apply Z.div_str_pos; lia). pose proof (digits_length (z / U) Hq) as Hd.
    pose proof (Z.mul_div_le z U ltac:(lia)). pose proof (digits_nonempty (z / U)).
    assert (1 <= Z.of_nat (length (digits (z / U)))) by (destruct (digits (z / U)); [done|cbn [length]; lia]).
    unfold reaches. rewrite (proj2 (Z.leb_le _ _)) by done. nia.
  - apply small_exponent_reaches; [lia|done|]. pose proof U_decimal as HU. change (0 + Z.of_nat 330 + 1) with 331.
    revert HU. generalize (10 ^ 331). intros. nia.
Qed.

(** The first digits of [z], down to the place [10^p]. *)
Definition cut (p z : Z) : Z := (if 0 <=? p then z else z * 10 ^ (- p)) / (if 0 <=? p then U * 10 ^ p else U).

Lemma cut_nonneg p z : 0 <= z -> 0 <= cut p z.
Proof.
  intros Hz. pose proof U_pos. unfold cut. destruct (Z.leb_spec 0 p); apply Z.div_pos;
    try (apply Z.mul_nonneg_nonneg || apply Z.mul_pos_pos); try apply Z.pow_nonneg; try apply Z.pow_pos_nonneg; lia.
Qed.

(** Cutting leaves nearly everything once twenty digits are kept. *)
Lemma pow10_19 : 2 ^ 55 <= 10 ^ 19.
Proof. vm_compute. discriminate. Qed.

Lemma reaches_far n z : 0 < z -> reaches n z ->
  if 0 <=? n - 20 then 10 ^ 19 * (U * 10 ^ (n - 20)) <= z else 10 ^ 19 * U <= z * 10 ^ (- (n - 20)).
Proof.
  intros Hz H. unfold reaches in H. pose proof U_pos. destruct (Z.leb_spec 1 n) as [Hn|Hn], (Z.leb_spec 0 (n - 20)) as [Hp|Hp]; try lia.
  - replace (n - 1) with (19 + (n - 20)) in H by lia. rewrite Z.pow_add_r in H by lia. lia.
  - replace 19 with ((n - 1) + - (n - 20)) by lia. rewrite Z.pow_add_r by lia.
    assert (0 < 10 ^ (- (n - 20))) by (apply Z.pow_pos_nonneg; lia). nia.
  - replace (- (n - 20)) with ((1 - n) + 19) by lia. rewrite Z.pow_add_r by lia. assert (0 < 10 ^ 19) by reflexivity. nia.
Qed.

Lemma round64_below a b z :
  0 < b -> double z -> 0 < z -> 0 <= a <= z * b -> 2 ^ 55 * (z * b - a) <= z * b -> round64 a b = Fin z.
Proof.
  intros Hb [Hr Ho] Hz Ha Hnear. unfold round64. rewrite (round_units_below a b z) by done. by rewrite (proj2 (Z.ltb_lt _ _) Ho).
Qed.

Lemma cut_rounds n z : double z -> 0 < z -> reaches n z -> round_decimal (cut (n - 20) z) (n - 20) = Fin z.
Proof.
  intros Hd Hz Hn. pose proof (reaches_far n z Hz Hn) as Hfar. pose proof U_pos as HU. pose proof pow10_19 as H19.
  unfold round_decimal, cut. generalize dependent (n - 20). generalize dependent (10 ^ 19). intros T HT p. clear n Hn. destruct (Z.leb_spec 0 p) as [Hp|Hp].
  - assert (H10 : 0 < 10 ^ p) by (apply Z.pow_pos_nonneg; lia). intros Hfar. assert (Hden : 0 < U * 10 ^ p) by nia.
    rewrite <- Z.mul_assoc, (Z.mul_comm (10 ^ p)). generalize dependent (U * 10 ^ p). intros den Hfar Hden.
    pose proof (Z.div_mod z den ltac:(lia)). pose proof (Z.mod_pos_bound z den Hden). pose proof (Z.div_pos z den ltac:(lia) Hden).
    apply round64_below; [lia|done|done|nia|]. replace (z * 1 - z / den * den) with (z mod den) by lia. nia.
  - assert (H10 : 0 < 10 ^ (- p)) by (apply Z.pow_pos_nonneg; lia). generalize dependent (10 ^ (- p)). intros b Hb Hfar.
    pose proof (Z.div_mod (z * b) U ltac:(lia)). pose proof (Z.mod_pos_bound (z * b) U HU). pose proof (Z.div_pos (z * b) U ltac:(nia) HU).
    apply round64_below; [lia|done|done|nia|]. replace (z * b - z * b / U * U) with ((z * b) mod U) by lia. nia.
Qed.

Lemma shortest_rounds fuel k n z s k' :
  0 < z -> k <= 20 < k + Z.of_nat fuel -> round_decimal (cut (n - 20) z) (n - 20) = Fin z ->
  shortest fuel k n z = (s, k') -> round_decimal s (n - k') = Fin z /\ 0 <= s.
Proof.
  intros Hz Hk H20. revert k Hk. induction fuel as [|fuel IH]; intros k Hk; [lia|]. cbn [shortest].
  fold (cut (n - k) z). pose proof (cut_nonneg (n - k) z ltac:(lia)) as H0.
  destruct (bool_decide_reflect (round_decimal (cut (n - k) z) (n - k) = Fin z)) as [Hlo|Hlo],
    (bool_decide_reflect (round_decimal (cut (n - k) z + 1) (n - k) = Fin z)) as [Hhi|Hhi]; cbn [andb orb negb].
  - destruct (2 * _ <=? _); intros [= <- <-]; (split; [done|lia]).
  - intros [= <- <-]. split; [done|lia].
  - intros [= <- <-]. split; [done|lia].
  - apply IH. assert (k <> 20) by (intros ->; done). lia.
Qed.

Lemma strip_zeros_split ds : exists j, 0 <= j /\ ds = strip_zeros ds ++ zeros j.
Proof.
  unfold strip_zeros. induction ds as [|c ds IH] using rev_ind; [by exists 0|].
  rewrite rev_app_distr. cbn [rev app]. destruct (Z.eqb_spec c 48) as [->|].
  - destruct IH as (j & Hj & E). exists (j + 1). split; [lia|]. rewrite E at 1. rewrite <- app_assoc. f_equal.
    unfold zeros. replace (Z.to_nat (j + 1)) with (S (Z.to_nat j)) by lia. by rewrite replicate_S_end.
  - exists 0. split; [done|]. cbn [rev]. rewrite rev_involutive. by rewrite app_nil_r.
Qed.

Lemma strip_zeros_leading ds : leading ds -> leading (strip_zeros ds).
Proof.
  intros H. destruct (strip_zeros_split ds) as (j & Hj & E). destruct (strip_zeros ds) as [|c l]; [|by rewrite E in H].
  rewrite E in H. unfold zeros in H. by destruct (Z.to_nat j).
Qed.

(** ** The texts of a number *)

Definition power_text (e : option Z) : jstr :=
  match e with Some e => 101 :: (if e <? 0 then 45 else 43) :: digits (Z.abs e) | None => [] end.

(** Whole digits, digits after a point, and a power of ten with its sign. *)
Definition spell (ip fp : jstr) (e : option Z) : jstr :=
  ip ++ match fp with [] => [] | _ => 46 :: fp end ++ power_text e.

(** No superfluous zero in front. *)
Definition spelled (ip fp : jstr) : Prop := all_digits ip /\ all_digits fp /\ (leading ip \/ ip = [48]).

(** The value such a text has. *)
Definition spelled_value (ip fp : jstr) (e : option Z) : number :=
  round_decimal (digits_value (ip ++ fp)) (default 0 e - Z.of_nat (length fp)).

Lemma layout_spelled ds n :
  all_digits ds -> leading ds ->
  exists ip fp e, layout_digits ds n = spell ip fp e /\ spelled ip fp /\
    spelled_value ip fp e = round_decimal (digits_value ds) (n - Z.of_nat (length ds)).
Proof.
  intros Hd Hl. unfold layout_digits, spelled_value. assert (Hk : (1 <= length ds)%nat) by (destruct ds; [done|cbn [length]; lia]).
  destruct ((Z.of_nat (length ds) <=? n) && (n <=? 21)) eqn:E1; [|destruct ((0 <? n) && (n <=? 21)) eqn:E2; [|destruct ((-6 <? n) && (n <=? 0)) eqn:E3]].
  - exists (ds ++ zeros (n - Z.of_nat (length ds))), [], None. unfold spell, spelled. rewrite !app_nil_r. split; [done|]. split.
    + split_and!; [|done|by left; destruct ds]. apply Forall_app. split; [done|apply zeros_digits].
    + rewrite digits_value_app, zeros_value, zeros_length, Z.add_0_r by lia. cbn [default length]. rewrite round_decimal_shift by lia.
      f_equal; lia.
  - assert (Hn : (Z.to_nat n < length ds)%nat) by lia.
    exists (take (Z.to_nat n) ds), (drop (Z.to_nat n) ds), None. unfold spell, spelled. split; [|split].
    + destruct (drop (Z.to_nat n) ds) eqn:E; [|by rewrite app_nil_r]. apply (f_equal length) in E. rewrite length_drop in E. cbn in E. lia.
    + split_and!; [by apply Forall_take|by apply Forall_drop|left]. destruct ds; [done|]. destruct (Z.to_nat n) eqn:E; [lia|done].
    + rewrite take_drop, length_drop. f_equal. cbn [default]. lia.
  - exists [48], (zeros (- n) ++ ds), None. unfold spell, spelled. split; [|split].
    + destruct (zeros (- n) ++ ds) eqn:E; [destruct ds; [done|by apply app_eq_nil in E as [_ E]]|]. by rewrite app_nil_r.
    + split_and!; [by repeat constructor|apply Forall_app; split; [apply zeros_digits|done]|by right].
    + rewrite !digits_value_app, zeros_value, length_app, Nat2Z.inj_add, zeros_length by lia.
      change (digits_value [48]) with 0. rewrite !Z.mul_0_l, !Z.add_0_l. f_equal. cbn [default]. lia.
  - exists (take 1 ds), (drop 1 ds), (Some (n - 1)). unfold spell, spelled. split; [|split].
    + destruct ds as [|c [|d ds]]; [done| |].
      * rewrite (proj2 (Z.eqb_eq _ _)) by reflexivity. cbn [take drop app power_text]. f_equal. by destruct (n - 1 <? 0).
      * rewrite (proj2 (Z.eqb_neq _ _)) by (cbn [length]; lia). cbn [take drop app power_text]. do 3 f_equal. by destruct (n - 1 <? 0).
    + split_and!; [by apply Forall_take|by apply Forall_drop|left; by destruct ds].
    + rewrite take_drop, length_drop. f_equal. cbn [from_option id]. lia.
Qed.

Lemma positive_spelled z :
  double z -> 0 < z ->
  exists ip fp e, positive_to_string z = spell ip fp e /\ spelled ip fp /\ spelled_value ip fp e = Fin z.
Proof.
  intros Hd Hz. unfold positive_to_string. set (n := decimal_exponent z).
  destruct (shortest 20 1 n z) as [s k] eqn:E.
  apply shortest_rounds in E as [Hs H0]; [|done|lia|apply cut_rounds; [done..|by apply decimal_exponent_reaches]].
  assert (Hpos : 0 < s).
  { destruct (Z.eq_dec s 0) as [->|]; [|lia]. exfalso. unfold round_decimal in Hs. rewrite !Z.mul_0_l in Hs.
    assert (Hzero : forall b, 0 < b -> round64 0 b = int 0) by (intros b Hb; apply round64_int; [done|unfold safe; lia|lia]).
    destruct (0 <=? n - k) eqn:E'; rewrite Hzero in Hs by (try apply Z.pow_pos_nonneg; lia); injection Hs; lia. }
  pose proof (digits_all_digits s H0) as Hds. pose proof (strip_zeros_leading _ (digits_leading s Hpos)) as Hl.
  destruct (strip_zeros_split (digits s)) as (j & Hj & Ej). rewrite Ej in Hds. apply Forall_app in Hds as [Hds _].
  destruct (layout_spelled (strip_zeros (digits s)) (n - k + Z.of_nat (length (digits s))) Hds Hl) as (ip & fp & e & Et & Hsp & Hv).
  exists ip, fp, e. split_and!; [done|done|]. rewrite Hv, <- Hs. pose proof (digits_value_digits s H0) as Es. rewrite Ej in Es.
  rewrite digits_value_app, zeros_value, zeros_length, Z.add_0_r in Es by lia.
  transitivity (round_decimal (digits_value (strip_zeros (digits s)) * 10 ^ j) (n - k)); [|by rewrite Es].
  rewrite round_decimal_shift by done. f_equal. rewrite Ej at 1. rewrite length_app, Nat2Z.inj_add, zeros_length by lia. lia.
Qed.

(** [String(x)] of a double: a sign, where it is negative, and a text of its magnitude. *)
Definition signed (z : Z) (t : jstr) : jstr := if z <? 0 then 45 :: t else t.

Lemma num_to_string_spelled z :
  double z ->
  exists ip fp e, num_to_string (Fin z) = signed z (spell ip fp e) /\ spelled ip fp /\ spelled_value ip fp e = Fin (Z.abs z).
Proof.
  intros Hd. pose proof U_pos. cbn [num_to_string]. destruct ((z mod U =? 0) && (Z.abs z <=? 2 ^ 53 * U)) eqn:E.
  - assert (Ez : z = z / U * U) by (pose proof (Z.div_mod z U ltac:(lia)); lia). set (q := z / U) in *.
    assert (Hq : safe q) by (unfold safe; rewrite Ez, Z.abs_mul, (Z.abs_eq U) in E by lia; nia).
    exists (digits (Z.abs q)), [], None. split_and!.
    + unfold string_of_Z, signed, spell. rewrite !app_nil_r. destruct (Z.ltb_spec q 0), (Z.ltb_spec z 0); try nia; do 2 f_equal; lia.
    + split_and!; [by apply digits_all_digits, Z.abs_nonneg|done|]. destruct (Z.eq_dec q 0) as [->|]; [by right|left; apply digits_leading; lia].
    + unfold spelled_value. rewrite app_nil_r, digits_value_digits by lia. cbn [from_option length]. unfold round_decimal.
      change (0 <=? 0 - Z.of_nat 0) with true. cbn match. rewrite Ez, Z.abs_mul, (Z.abs_eq U) by lia.
      apply round64_int; [lia|unfold safe in *; lia|]. change (10 ^ (0 - Z.of_nat 0)) with 1. lia.
  - assert (z <> 0) by (intros ->; done). unfold signed. destruct (Z.ltb_spec z 0).
    + destruct (positive_spelled (- z) (double_opp z Hd) ltac:(lia)) as (ip & fp & e & -> & Hsp & Hv). exists ip, fp, e.
      split_and!; [done..|]. rewrite Hv. f_equal. lia.
    + destruct (positive_spelled z Hd ltac:(lia)) as (ip & fp & e & -> & Hsp & Hv). exists ip, fp, e.
      split_and!; [done..|]. rewrite Hv. f_equal. lia.
Qed.

(** ** Reading such a text *)

Definition no_digit (r : jstr) : Prop := match r with c :: _ => is_digit c = false | [] => True end.

Lemma span_digits_stop s r : all_digits s -> no_digit r -> span_digits (s ++ r) = (s, r).
Proof.
  intros Hs Hr. induction Hs as [|c s Hc Hs IH]; simpl; [|by rewrite Hc, IH]. destruct r as [|c r]; [done|]. simpl. by rewrite Hr.
Qed.

Lemma spelled_nonempty ip fp : spelled ip fp -> ip <> [].
Proof. intros (_ & _ & [H| ->]); [by destruct ip|done]. Qed.

Lemma read_exponent_power e : read_exponent (power_text e) = Some (default 0 e).
Proof.
  destruct e as [e|]; [|done]. unfold power_text, read_exponent. change ((101 =? 101) || (101 =? 69)) with true. cbn match.
  assert (Hs : span_digits (digits (Z.abs e)) = (digits (Z.abs e), [])) by (apply span_digits_all, digits_all_digits; lia).
  pose proof (digits_nonempty (Z.abs e)).
  destruct (Z.ltb_spec e 0); [change (45 =? 45) with true|change (43 =? 45) with false; change (43 =? 43) with true]; cbn match;
    rewrite Hs, !bool_decide_eq_true_2 by done; cbn [andb from_option]; rewrite digits_value_digits by lia; unfold id; f_equal; lia.
Qed.

Lemma read_decimal_spell ip fp e : spelled ip fp -> read_decimal (spell ip fp e) = Some (spelled_value ip fp e).
Proof.
  intros Hs. pose proof (spelled_nonempty _ _ Hs) as Hne. destruct Hs as (Hi & Hf & _). unfold read_decimal, spelled_value.
  rewrite bool_decide_eq_false_2.
  2:{ destruct ip as [|c ip]; [done|]. apply Forall_cons in Hi as [Hc _]. intros E. vm_compute in E. injection E as -> _. done. }
  unfold spell. assert (Hpow : no_digit (power_text e)) by (by destruct e).
  destruct fp as [|c fp].
  - cbn [app]. rewrite span_digits_stop by done.
    assert (Hr : match power_text e with c :: r' => if c =? 46 then span_digits r' else ([], power_text e) | [] => ([], power_text e) end
      = ([] : jstr, power_text e)) by (by destruct e).
    rewrite Hr, (bool_decide_eq_false_2 (ip = [])) by done. cbn [andb]. by rewrite read_exponent_power.
  - rewrite span_digits_stop by done. change (46 =? 46) with true. cbn match. cbn [app]. change (46 =? 46) with true. cbn match.
    change (c :: fp ++ power_text e) with ((c :: fp) ++ power_text e). rewrite span_digits_stop by done. rewrite (bool_decide_eq_false_2 (ip = [])) by done. cbn [andb].
    by rewrite read_exponent_power.
Qed.

Lemma read_radix_head c s : c <> 48 -> read_radix (c :: s) = None.
Proof. intros Hc. destruct s as [|x [|d r]]; [done..|]. unfold read_radix. by rewrite (proj2 (Z.eqb_neq c 48) Hc). Qed.

Lemma read_radix_spell ip fp e : spelled ip fp -> read_radix (spell ip fp e) = None.
Proof.
  intros (_ & _ & [Hl| ->]).
  - unfold spell. destruct ip as [|c ip]; [done|]. by apply read_radix_head.
  - destruct fp as [|c fp]; [|by destruct fp as [|? []]]. destruct e as [e|]; [|done].
    unfold spell. cbn [app]. by destruct (digits (Z.abs e)).
Qed.

Lemma spell_last ip fp e c : spelled ip fp -> last (spell ip fp e) = Some c -> is_digit c = true.
Proof.
  intros Hs. pose proof (spelled_nonempty _ _ Hs) as Hne. destruct Hs as (Hi & Hf & _).
  assert (Hd : forall p (t : jstr), all_digits t -> t <> [] -> last (p ++ t) = Some c -> is_digit c = true).
  { intros p t Ht Hn. rewrite last_app. destruct (last t) as [d|] eqn:E; [|by apply last_None in E].
    intros [= <-]. apply (proj1 (Forall_forall _ _) Ht). by apply last_Some_elem_of. }
  unfold spell. destruct e as [e|].
  - intros H. apply (Hd (ip ++ match fp with [] => [] | _ => 46 :: fp end ++ [101; if e <? 0 then 45 else 43]) (digits (Z.abs e)));
      [apply digits_all_digits; lia|apply digits_nonempty|]. rewrite <- !app_assoc. exact H.
  - rewrite app_nil_r. destruct fp as [|f fp]; [rewrite app_nil_r; by apply (Hd [])|].
    intros H. apply (Hd (ip ++ [46]) (f :: fp)); [done..|]. rewrite <- app_assoc. exact H.
Qed.

Lemma spell_head ip fp e : spelled ip fp -> exists c r, spell ip fp e = c :: r /\ is_digit c = true.
Proof.
  intros Hs. pose proof (spelled_nonempty _ _ Hs). destruct Hs as (Hi & _). destruct ip as [|c ip]; [done|]. apply Forall_cons in Hi as [Hc _].
  unfold spell. cbn [app]. eauto.
Qed.

Lemma trim_signed z ip fp e : spelled ip fp -> trim (signed z (spell ip fp e)) = signed z (spell ip fp e).
Proof.
  intros Hs. destruct (spell_head ip fp e Hs) as (c & r & E & Hc).
  assert (Hlast : forall d, last (spell ip fp e) = Some d -> is_space d = false).
  { intros d Hd. apply digit_not_space. by eapply spell_last. }
  unfold signed. destruct (z <? 0).
  - apply trim_id; [by intros d [= <-]|]. intros d. change (45 :: spell ip fp e) with ([45] ++ spell ip fp e). rewrite last_app.
    destruct (last (spell ip fp e)) eqn:El; [|apply last_None in El; by rewrite E in El]. intros [= <-]. by apply Hlast.
  - apply trim_id; [rewrite E; intros d [= <-]; by apply digit_not_space|done].
Qed.

Lemma number_of_signed z ip fp e :
  spelled ip fp ->
  number_of_string (signed z (spell ip fp e)) =
    if z <? 0 then nneg (spelled_value ip fp e) else spelled_value ip fp e.
Proof.
  intros Hs. pose proof (read_decimal_spell ip fp e Hs) as Hread. pose proof (read_radix_spell ip fp e Hs) as Hradix.
  destruct (spell_head ip fp e Hs) as (c & r & E & Hc).
  unfold number_of_string. rewrite trim_signed by done. unfold signed. destruct (z <? 0).
  - rewrite read_radix_head by done. change (45 =? 45) with true. cbn match. by rewrite Hread.
  - rewrite Hradix, E. unfold is_digit in Hc. rewrite (proj2 (Z.eqb_neq c 45)), (proj2 (Z.eqb_neq c 43)) by lia. by rewrite <- E, Hread.
Qed.

(** The text of a double is not blank and has no white space around it. *)
Lemma num_to_string_trimmed z : double z -> num_to_string (Fin z) <> [] /\ trim (num_to_string (Fin z)) = num_to_string (Fin z).
Proof.
  intros Hd. destruct (num_to_string_spelled z Hd) as (ip & fp & e & -> & Hs & _). split; [|by apply trim_signed].
  destruct (spell_head ip fp e Hs) as (c & r & E & _). unfold signed. rewrite E. by destruct (z <? 0).
Qed.

(** [Number(String(x))] is [x]. *)
Theorem number_roundtrip z : double z -> number_of_string (num_to_string (Fin z)) = Fin z.
Proof.
  intros Hd. destruct (num_to_string_spelled z Hd) as (ip & fp & e & -> & Hs & Hv). rewrite number_of_signed, Hv by done.
  destruct (Z.ltb_spec z 0); cbn [nneg]; f_equal; lia.
Qed.
