(* ===== verification/JsUrl.v ===== *)
(** Query strings: [URLSearchParams] and [encodeURIComponent], down to the UTF-8 bytes they escape.

    A list of parameters is what [URLSearchParams] holds; [qs_print] is its [toString], [qs_parse] its
    constructor.  The main fact is [qs_parse_print]: what was printed is read back, for parameters
    that are well-formed text (no lone surrogate). *)
From S2P Require Import Prelude JsNum JsString JsCollections.
Local Open Scope Z_scope.

(** ** Code points *)

Definition is_high (c : Z) : bool := (0xD800 <=? c) && (c <=? 0xDBFF).
Definition is_low (c : Z) : bool := (0xDC00 <=? c) && (c <=? 0xDFFF).

(** The code points of a string; a lone surrogate reads as the replacement character. *)
Fixpoint code_points (s : jstr) : list Z :=
  match s with
  | [] => []
  | c :: r =>
      if is_high c then
        match r with
        | d :: r' => if is_low d then (0x10000 + (c - 0xD800) * 1024 + (d - 0xDC00)) :: code_points r'
                     else 0xFFFD :: code_points r
        | [] => [0xFFFD]
        end
      else (if is_low c then 0xFFFD else c) :: code_points r
  end.

Definition units_of (cps : list Z) : jstr := cps ≫= units_of_code_point.

Definition scalar (c : Z) : Prop := 0 <= c <= 0x10FFFF /\ is_high c = false /\ is_low c = false.

(** Text without lone surrogates. *)
Definition well_formed (s : jstr) : Prop := exists cps, Forall scalar cps /\ s = units_of cps.

Lemma code_points_units cps : Forall scalar cps -> code_points (units_of cps) = cps.
Proof.
  unfold units_of. induction 1 as [|c cps [Hr [Hh Hl]] _ IH]; [done|]. csimpl.
  unfold units_of_code_point at 1. destruct (Z.ltb_spec c 0x10000); cbn [app code_points].
  - by rewrite Hh, Hl, IH.
  - pose proof (Z.div_mod (c - 65536) 1024 ltac:(lia)). pose proof (Z.mod_pos_bound (c - 65536) 1024 ltac:(lia)).
    assert (is_high (0xD800 + (c - 0x10000) / 1024) = true) as -> by (unfold is_high; lia).
    assert (is_low (0xDC00 + (c - 0x10000) mod 1024) = true) as -> by (unfold is_low; lia).
    rewrite IH. f_equal. lia.
Qed.

(** ** UTF-8 *)

Definition utf8_bytes (c : Z) : list Z :=
  if c <? 0x80 then [c]
  else if c <? 0x800 then [0xC0 + c / 64; 0x80 + c mod 64]
  else if c <? 0x10000 then [0xE0 + c / 4096; 0x80 + c / 64 mod 64; 0x80 + c mod 64]
  else [0xF0 + c / 262144; 0x80 + c / 4096 mod 64; 0x80 + c / 64 mod 64; 0x80 + c mod 64].

Definition utf8_encode (cps : list Z) : list Z := cps ≫= utf8_bytes.

(** The decoder's state inside a sequence: the bits so far, the bytes still needed, and the bounds of
    the next one. *)
Record utf8_state := { acc : Z; needed : nat; lower : Z; upper : Z }.

(** A byte at the start of a sequence. *)
Definition start_byte (b : Z) : list Z * option utf8_state :=
  if b <? 0x80 then ([b], None)
  else if (0xC2 <=? b) && (b <=? 0xDF) then ([], Some {| acc := b - 0xC0; needed := 1; lower := 0x80; upper := 0xBF |})
  else if (0xE0 <=? b) && (b <=? 0xEF) then
    ([], Some {| acc := b - 0xE0; needed := 2; lower := if b =? 0xE0 then 0xA0 else 0x80;
                 upper := if b =? 0xED then 0x9F else 0xBF |})
  else if (0xF0 <=? b) && (b <=? 0xF4) then
    ([], Some {| acc := b - 0xF0; needed := 3; lower := if b =? 0xF0 then 0x90 else 0x80;
                 upper := if b =? 0xF4 then 0x8F else 0xBF |})
  else ([0xFFFD], None).

Definition utf8_step (st : option utf8_state) (b : Z) : list Z * option utf8_state :=
  match st with
  | None => start_byte b
  | Some s =>
      if (lower s <=? b) && (b <=? upper s) then
        let v := acc s * 64 + (b - 0x80) in
        match needed s with
        | S (S n) => ([], Some {| acc := v; needed := S n; lower := 0x80; upper := 0xBF |})
        | _ => ([v], None)
        end
      else let '(out, st') := start_byte b in (0xFFFD :: out, st')
  end.

Fixpoint utf8_decode (st : option utf8_state) (bs : list Z) : list Z :=
  match bs with
  | [] => match st with None => [] | Some _ => [0xFFFD] end
  | b :: bs' => let '(out, st') := utf8_step st b in out ++ utf8_decode st' bs'
  end.

Lemma utf8_decode_cons st b bs :
  utf8_decode st (b :: bs) = (utf8_step st b).1 ++ utf8_decode (utf8_step st b).2 bs.
Proof. simpl. by destruct (utf8_step st b). Qed.

Ltac zcases :=
  repeat match goal with
  | |- context [?a <? ?b] => destruct (Z.ltb_spec a b); [try lia|try lia]
  | |- context [?a <=? ?b] => destruct (Z.leb_spec a b); [try lia|try lia]
  | |- context [?a =? ?b] => destruct (Z.eqb_spec a b); [try lia|try lia]
  end.

Lemma start_byte_2 b : 0xC2 <= b <= 0xDF ->
  start_byte b = ([], Some {| acc := b - 0xC0; needed := 1; lower := 0x80; upper := 0xBF |}).
Proof. intros. unfold start_byte. by zcases. Qed.

Lemma start_byte_3 b : 0xE0 <= b <= 0xEF ->
  start_byte b = ([], Some {| acc := b - 0xE0; needed := 2; lower := if b =? 0xE0 then 0xA0 else 0x80;
                              upper := if b =? 0xED then 0x9F else 0xBF |}).
Proof. intros. unfold start_byte. by zcases. Qed.

Lemma start_byte_4 b : 0xF0 <= b <= 0xF4 ->
  start_byte b = ([], Some {| acc := b - 0xF0; needed := 3; lower := if b =? 0xF0 then 0x90 else 0x80;
                              upper := if b =? 0xF4 then 0x8F else 0xBF |}).
Proof. intros. unfold start_byte. by zcases. Qed.

Lemma utf8_step_more a n lo hi b : lo <= b <= hi ->
  utf8_step (Some {| acc := a; needed := S (S n); lower := lo; upper := hi |}) b
  = ([], Some {| acc := a * 64 + (b - 0x80); needed := S n; lower := 0x80; upper := 0xBF |}).
Proof. intros. cbn. by zcases. Qed.

Lemma utf8_step_last a lo hi b : lo <= b <= hi ->
  utf8_step (Some {| acc := a; needed := 1; lower := lo; upper := hi |}) b = ([a * 64 + (b - 0x80)], None).
Proof. intros. cbn. by zcases. Qed.

Lemma utf8_decode_bytes c bs : scalar c -> utf8_decode None (utf8_bytes c ++ bs) = c :: utf8_decode None bs.
Proof.
  intros ([H0 H1] & Hh & Hl). unfold is_high, is_low in Hh, Hl. unfold utf8_bytes.
  pose proof (Z.div_mod c 64 ltac:(lia)). pose proof (Z.mod_pos_bound c 64 ltac:(lia)).
  pose proof (Z.div_mod (c / 64) 64 ltac:(lia)). pose proof (Z.mod_pos_bound (c / 64) 64 ltac:(lia)).
  pose proof (Z.div_mod (c / 4096) 64 ltac:(lia)). pose proof (Z.mod_pos_bound (c / 4096) 64 ltac:(lia)).
  assert (E1 : c / 64 / 64 = c / 4096) by (rewrite Z.div_div by lia; done).
  assert (E2 : c / 4096 / 64 = c / 262144) by (rewrite Z.div_div by lia; done).
  rewrite E1, E2 in *.
  destruct (Z.ltb_spec c 0x80); [|destruct (Z.ltb_spec c 0x800); [|destruct (Z.ltb_spec c 0x10000)]]; cbn [app].
  - rewrite utf8_decode_cons. cbn [utf8_step]. unfold start_byte. by rewrite (proj2 (Z.ltb_lt c 0x80)).
  - rewrite utf8_decode_cons. cbn [utf8_step]. rewrite start_byte_2 by lia. cbn [fst snd app].
    rewrite utf8_decode_cons, utf8_step_last by lia. cbn [fst snd app]. f_equal. lia.
  - rewrite utf8_decode_cons. cbn [utf8_step]. rewrite start_byte_3 by lia. cbn [fst snd app].
    rewrite utf8_decode_cons, utf8_step_more by (zcases; lia). cbn [fst snd app].
    rewrite utf8_decode_cons, utf8_step_last by lia. cbn [fst snd app]. f_equal. lia.
  - rewrite utf8_decode_cons. cbn [utf8_step]. rewrite start_byte_4 by lia. cbn [fst snd app].
    rewrite utf8_decode_cons, utf8_step_more by (zcases; lia). cbn [fst snd app].
    rewrite utf8_decode_cons, utf8_step_more by lia. cbn [fst snd app].
    rewrite utf8_decode_cons, utf8_step_last by lia. cbn [fst snd app]. f_equal. lia.
Qed.

Lemma utf8_roundtrip cps : Forall scalar cps -> utf8_decode None (utf8_encode cps) = cps.
Proof.
  unfold utf8_encode. induction 1 as [|c cps Hc _ IH]; [done|]. csimpl. by rewrite utf8_decode_bytes, IH.
Qed.

Lemma utf8_encode_bytes cps : Forall scalar cps -> Forall (fun b => 0 <= b < 256) (utf8_encode cps).
Proof.
  unfold utf8_encode. induction 1 as [|c cps [[H0 H1] _] _ IH]; csimpl; [constructor|].
  apply Forall_app. split; [|done]. unfold utf8_bytes.
  pose proof (Z.mod_pos_bound c 64 ltac:(lia)). pose proof (Z.mod_pos_bound (c / 64) 64 ltac:(lia)).
  pose proof (Z.mod_pos_bound (c / 4096) 64 ltac:(lia)).
  pose proof (Z.div_mod c 64 ltac:(lia)). pose proof (Z.div_mod c 4096 ltac:(lia)).
  pose proof (Z.mod_pos_bound c 4096 ltac:(lia)).
  pose proof (Z.div_mod c 262144 ltac:(lia)). pose proof (Z.mod_pos_bound c 262144 ltac:(lia)).
  repeat case_match; repeat (apply Forall_cons; split); try apply Forall_nil; lia.
Qed.

(** Ascii text is its own bytes. *)
Lemma utf8_ascii s : Forall (fun c => 0 <= c < 128) s -> utf8_encode (code_points s) = s.
Proof.
  unfold utf8_encode. induction 1 as [|c s Hc _ IH]; [done|]. cbn [code_points].
  assert (is_high c = false) as -> by (unfold is_high; lia). assert (is_low c = false) as -> by (unfold is_low; lia).
  csimpl. rewrite IH. unfold utf8_bytes. by rewrite (proj2 (Z.ltb_lt c 128)) by lia.
Qed.

(** ** application/x-www-form-urlencoded *)

Definition hex_digit (d : Z) : Z := if d <? 10 then 48 + d else 55 + d.
Definition percent (b : Z) : jstr := [37; hex_digit (b / 16); hex_digit (b mod 16)].

Definition form_byte (b : Z) : jstr :=
  if is_alpha b || is_digit b || (b =? 42) || (b =? 45) || (b =? 46) || (b =? 95) then [b]
  else if b =? 32 then [43]
  else percent b.

Definition form_encode (s : jstr) : jstr := utf8_encode (code_points s) ≫= form_byte.

Definition qs_pair (p : jstr * jstr) : jstr := form_encode p.1 ++ [61] ++ form_encode p.2.
Definition qs_print (ps : list (jstr * jstr)) : jstr := join [38] (qs_pair <$> ps).

Definition hex_val (c : Z) : option Z :=
  if is_digit c then Some (c - 48)
  else if (65 <=? c) && (c <=? 70) then Some (c - 55)
  else if (97 <=? c) && (c <=? 102) then Some (c - 87)
  else None.

Fixpoint percent_decode (bs : list Z) : list Z :=
  match bs with
  | [] => []
  | b :: r =>
      if b =? 37 then
        match r with
        | x :: y :: r' =>
            match hex_val x, hex_val y with
            | Some u, Some v => (u * 16 + v) :: percent_decode r'
            | _, _ => b :: percent_decode r
            end
        | _ => b :: percent_decode r
        end
      else b :: percent_decode r
  end.

Definition plus_to_space (bs : list Z) : list Z := (fun b => if b =? 43 then 32 else b) <$> bs.

Definition form_decode (bs : list Z) : jstr := units_of (utf8_decode None (percent_decode (plus_to_space bs))).

(** The two sides of the first [=], the second empty when there is none. *)
Fixpoint split_eq (s : list Z) : list Z * list Z :=
  match s with
  | [] => ([], [])
  | c :: r => if c =? 61 then ([], r) else let '(a, b) := split_eq r in (c :: a, b)
  end.

Definition strip_question (s : jstr) : jstr := match s with c :: r => if c =? 63 then r else s | [] => [] end.

(** [new URLSearchParams(search)]. *)
Definition qs_parse (search : jstr) : list (jstr * jstr) :=
  let bytes := utf8_encode (code_points (strip_question search)) in
  (fun seq => let '(n, v) := split_eq seq in (form_decode n, form_decode v))
  <$> List.filter (fun seq => negb (bool_decide (seq = []))) (split_unit 38 bytes).

(** [qs.get(k)], [qs.set(k, v)], [qs.append(k, v)] and [qs.delete(k)]. *)
Definition qs_get (ps : list (jstr * jstr)) (k : jstr) : option jstr := mget ps k.
Definition qs_append (ps : list (jstr * jstr)) (k v : jstr) : list (jstr * jstr) := ps ++ [(k, v)].
Fixpoint qs_set (ps : list (jstr * jstr)) (k v : jstr) : list (jstr * jstr) :=
  match ps with
  | [] => [(k, v)]
  | (k', v') :: r => if decide (k = k') then (k, v) :: mdelete r k else (k', v') :: qs_set r k v
  end.
Definition qs_delete (ps : list (jstr * jstr)) (k : jstr) : list (jstr * jstr) := mdelete ps k.

(** [encodeURIComponent(s)] of well-formed text. *)
Definition uri_byte (b : Z) : jstr :=
  if is_alpha b || is_digit b || bool_decide (b ∈ js "-_.!~*'()") then [b] else percent b.

Definition encodeURIComponent (s : jstr) : jstr := utf8_encode (code_points s) ≫= uri_byte.

(** [encodeURIComponent(s)]; [None] is the [URIError] of a lone surrogate. *)
Definition uri_component (s : jstr) : option jstr :=
  if seqb (units_of (code_points s)) s then Some (encodeURIComponent s) else None.

Example qs_print_example :
  qs_print [(js "scope", js "a b→c"); (js "at", js "2024-01-01T00:00:00.000Z")]
  = js "scope=a+b%E2%86%92c&at=2024-01-01T00%3A00%3A00.000Z".
Proof. vm_compute. reflexivity. Qed.

(** ** What is printed is read back *)

Lemma hex_val_digit d : 0 <= d < 16 -> hex_val (hex_digit d) = Some d.
Proof. intros Hd. unfold hex_val, hex_digit, is_digit. destruct (Z.ltb_spec d 10); zcases; simpl; f_equal; lia. Qed.

Lemma hex_digit_range d : 0 <= d < 16 -> 48 <= hex_digit d <= 57 \/ 65 <= hex_digit d <= 70.
Proof. unfold hex_digit. zcases. Qed.

Lemma percent_decode_percent b r :
  0 <= b < 256 -> percent_decode (plus_to_space (percent b ++ r)) = b :: percent_decode (plus_to_space r).
Proof.
  intros Hb. pose proof (Z.div_mod b 16 ltac:(lia)). pose proof (Z.mod_pos_bound b 16 ltac:(lia)).
  pose proof (hex_digit_range (b / 16) ltac:(lia)). pose proof (hex_digit_range (b mod 16) ltac:(lia)).
  unfold percent, plus_to_space. csimpl.
  rewrite (proj2 (Z.eqb_neq (hex_digit (b / 16)) 43)), (proj2 (Z.eqb_neq (hex_digit (b mod 16)) 43)) by lia.
  cbn [percent_decode Z.eqb Pos.eqb]. rewrite !hex_val_digit by lia. f_equal. lia.
Qed.

Lemma form_byte_decode b r :
  0 <= b < 256 -> percent_decode (plus_to_space (form_byte b ++ r)) = b :: percent_decode (plus_to_space r).
Proof.
  intros Hb. unfold form_byte. destruct (_ || _ || _ || _ || _ || _) eqn:E.
  - assert (b <> 37 /\ b <> 43) as [H1 H2] by (unfold is_alpha, is_digit in E; lia).
    unfold plus_to_space. csimpl. rewrite (proj2 (Z.eqb_neq b 43)) by done.
    by rewrite (proj2 (Z.eqb_neq b 37)) by done.
  - destruct (Z.eqb_spec b 32) as [->|]; [done|]. by apply percent_decode_percent.
Qed.

Lemma form_bytes_decode bs :
  Forall (fun b => 0 <= b < 256) bs -> percent_decode (plus_to_space (bs ≫= form_byte)) = bs.
Proof. induction 1 as [|b bs Hb _ IH]; [done|]. csimpl. by rewrite form_byte_decode, IH. Qed.

(** The characters a component is printed with. *)
Definition form_char (c : Z) : Prop := 0 <= c < 128 /\ c <> 38 /\ c <> 61 /\ c <> 63.

Lemma form_byte_chars b : 0 <= b < 256 -> Forall form_char (form_byte b).
Proof.
  intros Hb. unfold form_byte. destruct (_ || _ || _ || _ || _ || _) eqn:E.
  - apply Forall_singleton. unfold form_char. unfold is_alpha, is_digit in E. lia.
  - destruct (b =? 32); [apply Forall_singleton; unfold form_char; lia|].
    pose proof (Z.div_mod b 16 ltac:(lia)). pose proof (Z.mod_pos_bound b 16 ltac:(lia)).
    pose proof (hex_digit_range (b / 16) ltac:(lia)). pose proof (hex_digit_range (b mod 16) ltac:(lia)).
    unfold percent, form_char. repeat (apply Forall_cons; split); try apply Forall_nil; lia.
Qed.

Lemma well_formed_bytes s :
  well_formed s -> Forall (fun b => 0 <= b < 256) (utf8_encode (code_points s)).
Proof. intros (cps & Hc & ->). rewrite code_points_units by done. by apply utf8_encode_bytes. Qed.

Lemma form_encode_chars s : well_formed s -> Forall form_char (form_encode s).
Proof.
  intros Hs. apply well_formed_bytes in Hs. unfold form_encode.
  induction Hs as [|b bs Hb _ IH]; csimpl; [constructor|]. apply Forall_app. split; [by apply form_byte_chars|done].
Qed.

Lemma form_decode_encode s : well_formed s -> form_decode (form_encode s) = s.
Proof.
  intros Hs. unfold form_decode, form_encode. rewrite form_bytes_decode by by apply well_formed_bytes.
  destruct Hs as (cps & Hc & ->). rewrite code_points_units, utf8_roundtrip by done. done.
Qed.

Lemma split_eq_app a b : 61 ∉ a -> split_eq (a ++ [61] ++ b) = (a, b).
Proof.
  induction a as [|c a IH]; intros Ha; simpl; [done|]. apply not_elem_of_cons in Ha as [Hc Ha].
  rewrite (proj2 (Z.eqb_neq c 61)) by done. simpl in IH. by rewrite IH.
Qed.

Lemma form_chars_free s c : Forall form_char s -> (c = 38 \/ c = 61 \/ c = 63) -> c ∉ s.
Proof. rewrite Forall_forall. intros H Hc Hin. destruct (H c Hin). lia. Qed.

Definition wf_pair (p : jstr * jstr) : Prop := well_formed p.1 /\ well_formed p.2.

Lemma qs_pair_chars p : wf_pair p -> Forall (fun c => 0 <= c < 128) (qs_pair p) /\ 38 ∉ qs_pair p.
Proof.
  intros [H1%form_encode_chars H2%form_encode_chars]. unfold qs_pair. split.
  - rewrite !Forall_app, Forall_singleton. split_and!; [|lia|lia|].
    + eapply Forall_impl; [exact H1|]. unfold form_char. lia.
    + eapply Forall_impl; [exact H2|]. unfold form_char. lia.
  - rewrite !not_elem_of_app. split_and!; [by apply form_chars_free; auto| |by apply form_chars_free; auto].
    intros Hin. apply list_elem_of_singleton in Hin. lia.
Qed.

Lemma join_ascii c ws :
  0 <= c < 128 -> Forall (Forall (fun c => 0 <= c < 128)) ws -> Forall (fun c => 0 <= c < 128) (join [c] ws).
Proof.
  intros Hc. induction 1 as [|w ws Hw Hws IH]; [constructor|]. destruct ws as [|w' ws]; [done|].
  change (join [c] (w :: w' :: ws)) with (w ++ [c] ++ join [c] (w' :: ws)).
  rewrite !Forall_app, Forall_singleton. done.
Qed.

(** [new URLSearchParams("?" + qs.toString())] holds the parameters of [qs]. *)
Lemma qs_parse_print ps : Forall wf_pair ps -> qs_parse (63 :: qs_print ps) = ps.
Proof.
  intros Hps. unfold qs_parse. cbn [strip_question Z.eqb Pos.eqb]. unfold qs_print.
  assert (Hcs : Forall (fun p => Forall (fun c => 0 <= c < 128) (qs_pair p) /\ 38 ∉ qs_pair p) ps).
  { eapply Forall_impl; [exact Hps|]. apply qs_pair_chars. }
  rewrite utf8_ascii.
  2:{ apply join_ascii; [lia|]. apply Forall_fmap. eapply Forall_impl; [exact Hcs|]. by intros p []. }
  destruct ps as [|p ps]; [done|].
  rewrite split_unit_join; [|done|apply Forall_fmap; eapply Forall_impl; [exact Hcs|by intros q []]].
  rewrite List.forallb_filter_id.
  2:{ apply forallb_Forall, Forall_fmap, Forall_forall. intros [k v] _. unfold compose, qs_pair.
      rewrite bool_decide_eq_false_2; [done|]. intros [_ E]%app_eq_nil. done. }
  rewrite <- list_fmap_compose. rewrite <- (list_fmap_id (p :: ps)) at 2.
  apply list_fmap_ext. intros i [k v] Hi. unfold compose, qs_pair.
  rewrite Forall_forall in Hps. apply list_elem_of_lookup_2 in Hi. destruct (Hps _ Hi) as [Hk Hv]. simpl in Hk, Hv.
  cbn [fst snd]. rewrite split_eq_app by (by apply form_chars_free; [apply form_encode_chars|auto]).
  by rewrite !form_decode_encode.
Qed.

Lemma scalar_ascii c : 0 <= c < 0xD800 -> scalar c.
Proof. unfold scalar, is_high, is_low. lia. Qed.

(** Text of ordinary units, surrogates apart, is well formed. *)
Lemma well_formed_units s : Forall (fun c => 0 <= c < 0xD800) s -> well_formed s.
Proof.
  intros H. exists s. split; [eapply Forall_impl; [exact H|apply scalar_ascii]|].
  unfold units_of. induction H as [|c s Hc _ IH]; [done|]. csimpl. unfold units_of_code_point.
  rewrite (proj2 (Z.ltb_lt c 0x10000)) by lia. simpl. by f_equal.
Qed.

Lemma well_formed_app s t : well_formed s -> well_formed t -> well_formed (s ++ t).
Proof.
  intros (c & Hc & ->) (d & Hd & ->). exists (c ++ d). split; [by apply Forall_app|].
  unfold units_of. by rewrite bind_app.
Qed.

Lemma qs_get_set_eq ps k v : qs_get (qs_set ps k v) k = Some v.
Proof.
  unfold qs_get. induction ps as [|[k' v'] ps IH]; simpl; [by rewrite decide_True|].
  case_decide; simpl; [by rewrite decide_True|]. by rewrite decide_False.
Qed.

Lemma qs_get_set_ne ps k k' v : k <> k' -> qs_get (qs_set ps k v) k' = qs_get ps k'.
Proof.
  intros Hne. unfold qs_get. induction ps as [|[k0 v0] ps IH]; simpl; [by rewrite decide_False|].
  destruct (decide (k = k0)) as [->|]; simpl.
  - rewrite !decide_False by congruence. by rewrite mget_mdelete_ne by congruence.
  - case_decide; [done|]. apply IH.
Qed.

Lemma qs_set_wf ps k v : Forall wf_pair ps -> wf_pair (k, v) -> Forall wf_pair (qs_set ps k v).
Proof.
  intros Hps Hp. induction Hps as [|[k' v'] ps Hp' Hps IH]; simpl; [by apply Forall_singleton|].
  case_decide; constructor; try done. unfold mdelete. rewrite Forall_forall in *.
  intros q [Hq _]%elem_of_filter_b. by apply Hps.
Qed.

(** ** The address bar *)

(** The parts of [window.location] the console touches. *)
Record Url := { pathname : jstr; params : list (jstr * jstr); hash : jstr }.

(** [url.search] once its parameters were written. *)
Definition search_text (ps : list (jstr * jstr)) : jstr :=
  match ps with [] => [] | _ => js "?" ++ qs_print ps end.

Definition href (u : Url) : jstr := pathname u ++ search_text (params u) ++ hash u.

Lemma qs_get_delete ps k : qs_get (qs_delete ps k) k = None.
Proof. apply mget_mdelete_eq. Qed.

(** Text below the surrogates is well formed. *)
Lemma units_wf (k : jstr) : forallb (fun c => (0 <=? c) && (c <? 0xD800)) k = true -> well_formed k.
Proof.
  intros Hk. apply well_formed_units. apply Forall_forall. intros c Hc. rewrite forallb_forall in Hk.
  apply list_elem_of_In, Hk in Hc. lia.
Qed.

Lemma ascii_wf (k : jstr) : forallb (fun c => (0 <=? c) && (c <? 128)) k = true -> well_formed k.
Proof.
  intros Hk. apply units_wf. apply forallb_Forall. apply forallb_Forall in Hk.
  eapply Forall_impl; [exact Hk|]. simpl. lia.
Qed.

(** ** A parameter printed by hand *)

Lemma uri_kept b : is_alpha b || is_digit b || bool_decide (b ∈ js "-_.!~*'()") = true -> form_char b /\ b <> 37 /\ b <> 43.
Proof.
  intros E. apply orb_true_iff in E as [E|E]; [unfold form_char, is_alpha, is_digit in *; lia|].
  apply bool_decide_eq_true in E. cbv in E. unfold form_char.
  repeat (apply elem_of_cons in E as [->|E]; [lia|]). by apply not_elem_of_nil in E.
Qed.

Lemma uri_byte_decode b r :
  0 <= b < 256 -> percent_decode (plus_to_space (uri_byte b ++ r)) = b :: percent_decode (plus_to_space r).
Proof.
  intros Hb. unfold uri_byte. destruct (_ || _ || _) eqn:E; [|by apply percent_decode_percent].
  destruct (uri_kept b E) as (_ & H1 & H2). unfold plus_to_space. csimpl. rewrite (proj2 (Z.eqb_neq b 43)) by done.
  by rewrite (proj2 (Z.eqb_neq b 37)) by done.
Qed.

Lemma percent_chars b : 0 <= b < 256 -> Forall form_char (percent b).
Proof.
  intros Hb. pose proof (Z.div_mod b 16 ltac:(lia)). pose proof (Z.mod_pos_bound b 16 ltac:(lia)).
  pose proof (hex_digit_range (b / 16) ltac:(lia)). pose proof (hex_digit_range (b mod 16) ltac:(lia)).
  unfold percent, form_char. repeat (apply Forall_cons; split); try apply Forall_nil; lia.
Qed.

Lemma uri_chars s : well_formed s -> Forall form_char (encodeURIComponent s).
Proof.
  intros Hs. apply well_formed_bytes in Hs. unfold encodeURIComponent.
  induction Hs as [|b bs Hb _ IH]; csimpl; [constructor|]. apply Forall_app. split; [|done].
  unfold uri_byte. destruct (_ || _ || _) eqn:E; [apply Forall_singleton, uri_kept, E|by apply percent_chars].
Qed.

Lemma form_decode_uri s : well_formed s -> form_decode (encodeURIComponent s) = s.
Proof.
  intros Hs. pose proof (well_formed_bytes s Hs) as Hb. destruct Hs as (cps & Hc & ->).
  unfold form_decode, encodeURIComponent.
  assert (E : forall bs, Forall (fun b => 0 <= b < 256) bs -> percent_decode (plus_to_space (bs ≫= uri_byte)) = bs).
  { induction 1 as [|b bs Hb' _ IH]; [done|]. csimpl. by rewrite uri_byte_decode, IH. }
  by rewrite E, code_points_units, utf8_roundtrip by (done || by rewrite code_points_units in Hb).
Qed.

(** The address [?name=encodeURIComponent(v)] carries [v]. *)
Lemma qs_parse_uri name v :
  well_formed name -> form_encode name = name -> well_formed v ->
  qs_parse (63 :: name ++ [61] ++ encodeURIComponent v) = [(name, v)].
Proof.
  intros Hn En Hv. pose proof (form_encode_chars name Hn) as Hnc. rewrite En in Hnc. pose proof (uri_chars v Hv) as Hvc.
  unfold qs_parse. cbn [strip_question Z.eqb Pos.eqb]. rewrite utf8_ascii.
  2:{ rewrite !Forall_app, Forall_singleton. split_and!; [|lia|lia|]; eapply Forall_impl; [exact Hnc| |exact Hvc|]; unfold form_char; lia. }
  assert (Hfree : 38 ∉ name ++ [61] ++ encodeURIComponent v).
  { rewrite !not_elem_of_app. split_and!; [by apply form_chars_free; auto|intros ?%list_elem_of_singleton; lia|by apply form_chars_free; auto]. }
  pose proof (split_unit_join 38 [name ++ [61] ++ encodeURIComponent v] ltac:(done) ltac:(by apply Forall_singleton)) as E.
  cbn [join] in E. rewrite E. cbn [List.filter].
  rewrite bool_decide_eq_false_2 by (intros [_ E']%app_eq_nil; done). cbn [negb fmap list_fmap].
  rewrite split_eq_app by (by apply form_chars_free; auto). rewrite <- En at 1. by rewrite form_decode_encode, form_decode_uri.
Qed.

(** ** What is read is text *)

Definition byte (b : Z) : Prop := 0 <= b < 256.

(** Every code point a state can still decode to is one. *)
Definition state_ok (s : utf8_state) : Prop :=
  0x80 <= lower s /\ upper s <= 0xBF /\
  match needed s with
  | 1%nat => forall v, acc s * 64 + (lower s - 128) <= v <= acc s * 64 + (upper s - 128) -> scalar v
  | 2%nat => forall v, (acc s * 64 + (lower s - 128)) * 64 <= v <= (acc s * 64 + (upper s - 128)) * 64 + 63 -> scalar v
  | 3%nat => forall v, (acc s * 64 + (lower s - 128)) * 4096 <= v <= (acc s * 64 + (upper s - 128)) * 4096 + 4095 -> scalar v
  | _ => False
  end.

Lemma scalar_range v : 0 <= v < 0xD800 \/ 0xE000 <= v <= 0x10FFFF -> scalar v.
Proof. unfold scalar, is_high, is_low. lia. Qed.

Lemma start_byte_ok b : byte b -> Forall scalar (start_byte b).1 /\ forall s, (start_byte b).2 = Some s -> state_ok s.
Proof.
  intros Hb. unfold start_byte, byte in *.
  destruct (Z.ltb_spec b 0x80); [split; [apply Forall_singleton, scalar_range; lia|done]|].
  destruct (Z.leb_spec 0xC2 b), (Z.leb_spec b 0xDF); cbn [andb];
  destruct (Z.leb_spec 0xE0 b), (Z.leb_spec b 0xEF); cbn [andb]; try lia;
  destruct (Z.leb_spec 0xF0 b), (Z.leb_spec b 0xF4); cbn [andb fst snd]; try lia;
    (split; [first [apply Forall_nil_2 | apply Forall_singleton, scalar_range; lia]|]); intros s Hs; try discriminate Hs;
    apply (inj Some) in Hs as <-; unfold state_ok; cbn [acc needed lower upper]; zcases;
    (split_and!; [lia|lia|intros v Hv; apply scalar_range; lia]).
Qed.

Lemma utf8_step_ok st b :
  byte b -> (forall s, st = Some s -> state_ok s) ->
  Forall scalar (utf8_step st b).1 /\ forall s, (utf8_step st b).2 = Some s -> state_ok s.
Proof.
  intros Hb Hst. destruct st as [s|]; [|by apply start_byte_ok]. specialize (Hst s eq_refl) as (Hl & Hu & Hn). cbn [utf8_step].
  destruct (Z.leb_spec (lower s) b), (Z.leb_spec b (upper s)); cbn [andb];
    try (destruct (start_byte_ok b Hb) as [H1 H2]; destruct (start_byte b) as [out st']; cbn [fst snd] in *;
         split; [constructor; [apply scalar_range; lia|done]|done]).
  destruct (needed s) as [|[|[|[|n]]]]; cbn [fst snd]; try done.
  - split; [|done]. apply Forall_singleton, Hn. lia.
  - split; [constructor|]. intros s' Hs. apply (inj Some) in Hs as <-. unfold state_ok. cbn [acc needed lower upper].
    split_and!; [lia|lia|]. intros v Hv. apply Hn. lia.
  - split; [constructor|]. intros s' Hs. apply (inj Some) in Hs as <-. unfold state_ok. cbn [acc needed lower upper].
    split_and!; [lia|lia|]. intros v Hv. apply Hn. lia.
Qed.

Lemma utf8_decode_scalar st bs :
  Forall byte bs -> (forall s, st = Some s -> state_ok s) -> Forall scalar (utf8_decode st bs).
Proof.
  intros Hbs. revert st. induction Hbs as [|b bs Hb _ IH]; intros st Hst.
  - destruct st; cbn; [apply Forall_singleton, scalar_range; lia|constructor].
  - rewrite utf8_decode_cons. destruct (utf8_step_ok st b Hb Hst) as [H1 H2]. apply Forall_app. split; [done|by apply IH].
Qed.

Lemma hex_val_range c v : hex_val c = Some v -> 0 <= v < 16.
Proof. unfold hex_val, is_digit. zcases; simpl; intros E; simplify_eq; lia. Qed.

Lemma percent_decode_bytes bs : Forall byte bs -> Forall byte (percent_decode bs).
Proof.
  assert (H : forall n bs, (length bs <= n)%nat -> Forall byte bs -> Forall byte (percent_decode bs)); [|by eapply H].
  clear bs. induction n as [|n IH]; intros bs Hn Hbs; (destruct bs as [|b r]; [constructor|]); simpl in Hn; [lia|].
  inversion Hbs as [|? ? Hb Hr]; subst. cbn [percent_decode].
  assert (Hk : Forall byte (b :: percent_decode r)) by (constructor; [done|apply IH; [lia|done]]).
  destruct (b =? 37); [|done]. destruct r as [|x [|y r']]; try done.
  destruct (hex_val x) as [u|] eqn:Eu; [|done]. destruct (hex_val y) as [v|] eqn:Ev; [|done].
  apply hex_val_range in Eu, Ev. inversion Hr as [|? ? _ Hr1]; subst. inversion Hr1; subst. simpl in Hn.
  constructor; [unfold byte; lia|]. apply IH; [lia|done].
Qed.

Lemma form_decode_wf bs : Forall byte bs -> well_formed (form_decode bs).
Proof.
  intros Hbs. exists (utf8_decode None (percent_decode (plus_to_space bs))). split; [|done].
  apply utf8_decode_scalar; [|done]. apply percent_decode_bytes. apply Forall_fmap. apply (Forall_impl _ _ _ Hbs).
  intros b Hb. unfold compose. destruct (b =? 43); [unfold byte; lia|done].
Qed.

Lemma split_eq_Forall (P : Z -> Prop) s : Forall P s -> Forall P (split_eq s).1 /\ Forall P (split_eq s).2.
Proof.
  induction 1 as [|c s Hc Hs IH]; [done|]. cbn [split_eq]. destruct (c =? 61); [by split|].
  destruct (split_eq s) as [a b]. cbn [fst snd] in *. split; [constructor|]; tauto.
Qed.

Lemma split_unit_Forall (P : Z -> Prop) c s : Forall P s -> Forall (Forall P) (split_unit c s).
Proof.
  induction 1 as [|x s Hx Hs IH]; [repeat constructor|]. cbn [split_unit]. destruct (x =? c); [by constructor|].
  destruct (split_unit c s) as [|w ws]; [repeat constructor; done|]. inversion IH; subst. repeat (constructor; try done).
Qed.

(** The parameters of a well-formed address are well formed. *)
Lemma qs_parse_wf search : well_formed search -> Forall wf_pair (qs_parse search).
Proof.
  intros Hs. unfold qs_parse. set (s := strip_question search).
  assert (Hb : Forall byte (utf8_encode (code_points s))).
  { destruct Hs as (cps & Hc & ->). assert (Ht : exists cps', Forall scalar cps' /\ s = units_of cps').
    { unfold s, strip_question. destruct (units_of cps) as [|u us] eqn:E; [by exists []|].
      destruct (Z.eqb_spec u 63) as [->|]; [|by exists cps; rewrite E].
      destruct cps as [|c cps]; [done|]. inversion Hc as [|? ? Hc0 Hcs]; subst. exists cps. split; [done|].
      revert E. unfold units_of. csimpl. unfold units_of_code_point at 1. destruct (Z.ltb_spec c 0x10000); cbn [app].
      - intros E. by injection E as _ ->.
      - intros E. exfalso. injection E as E _. pose proof (Z.div_pos (c - 65536) 1024). lia. }
    destruct Ht as (cps' & Hc' & ->). rewrite code_points_units by done. by apply utf8_encode_bytes. }
  apply Forall_fmap. apply (split_unit_Forall byte 38) in Hb. apply Forall_forall. intros seq Hseq.
  apply elem_of_filter_b in Hseq as [Hseq _]. apply (proj1 (Forall_forall _ _) Hb) in Hseq. unfold compose.
  destruct (split_eq_Forall byte seq Hseq) as [H1 H2]. destruct (split_eq seq) as [n v]. split; by apply form_decode_wf.
Qed.

Lemma uri_component_wf s : well_formed s -> uri_component s = Some (encodeURIComponent s).
Proof.
  intros (cps & Hc & ->). unfold uri_component. rewrite code_points_units by done. by rewrite (proj2 (seqb_eq _ _) eq_refl).
Qed.
