(* ===== verification/JsJson.v ===== *)
(** What the console does with values of unknown shape besides reading their fields: [JSON.stringify],
    [new Date(v)], lookups in literal objects used as tables, and upper-casing a word that is then
    compared with ASCII text. *)
From S2P Require Import Prelude JsNum JsString JsCollections JsValue JsDate JsFormat.
Local Open Scope Z_scope.

(** ** JSON.stringify *)

Definition hex4 (c : Z) : jstr :=
  (fun k => let d := (c / 16 ^ k) mod 16 in if d <? 10 then 48 + d else 87 + d) <$> [3; 2; 1; 0].

Definition unicode_escape (c : Z) : jstr := js "\u" ++ hex4 c.

(** One code unit that is not part of a surrogate pair. *)
Definition json_unit (c : Z) : jstr :=
  if c =? 8 then js "\b" else if c =? 9 then js "\t" else if c =? 10 then js "\n"
  else if c =? 12 then js "\f" else if c =? 13 then js "\r"
  else if c =? 34 then [92; 34] else if c =? 92 then js "\\"
  else if (c <? 32) || ((0xD800 <=? c) && (c <=? 0xDFFF)) then unicode_escape c
  else [c].

Definition surrogate_pair (h l : Z) : bool :=
  (0xD800 <=? h) && (h <=? 0xDBFF) && (0xDC00 <=? l) && (l <=? 0xDFFF).

Fixpoint json_units (s : jstr) : jstr :=
  match s with
  | [] => []
  | h :: r =>
      match r with
      | l :: r' => if surrogate_pair h l then h :: l :: json_units r' else json_unit h ++ json_units r
      | [] => json_unit h
      end
  end.

Definition json_quote (s : jstr) : jstr := [34] ++ json_units s ++ [34].

(** [JSON.stringify(v)]; [None] is the undefined it answers for undefined.  An undefined member of an
    array prints as null, one of an object is left out. *)
Fixpoint json_stringify (v : value) : option jstr :=
  match v with
  | VUndef => None
  | VNull => Some (js "null")
  | VBool b => Some (if b then js "true" else js "false")
  | VNum n => Some (if isFinite n then num_to_string n else js "null")
  | VStr s => Some (json_quote s)
  | VArr l => Some (js "[" ++ join (js ",") (map (fun x => default (js "null") (json_stringify x)) l) ++ js "]")
  | VObj fs =>
      Some (js "{" ++ join (js ",") (omap (fun p => s ← json_stringify p.2; Some (json_quote p.1 ++ js ":" ++ s)) fs)
              ++ js "}")
  end.

(** [Object.entries(v)] of a record; an array lists its indices. *)
Definition object_entries (v : value) : list (jstr * value) :=
  match v with
  | VObj fs => fs
  | VArr l => imap (fun i x => (num_to_string (int (Z.of_nat i)), x)) l
  | VStr s => imap (fun i c => (num_to_string (int (Z.of_nat i)), VStr [c])) s
  | _ => []
  end.

(** [new Date(v)]. *)
Definition date_of_value `{DateHost} (v : value) : date :=
  match v with
  | VStr s => date_of_string s
  | VArr _ | VObj _ => date_of_string (string_of_value v)
  | _ => date_of_number (number_of_value v)
  end.

Lemma date_of_value_valid `{DateHost} v : valid_date (date_of_value v).
Proof.
  destruct v; try apply date_of_string_valid; apply date_of_number_valid.
Qed.

(** ** Literal objects as tables *)

(** What a lookup in a literal object finds besides its own keys. *)
Definition prototype_members : list jstr :=
  js <$> ["constructor"; "__defineGetter__"; "__defineSetter__"; "hasOwnProperty"; "__lookupGetter__";
          "__lookupSetter__"; "isPrototypeOf"; "propertyIsEnumerable"; "toString"; "valueOf"; "__proto__";
          "toLocaleString"]%string.

(** [TABLE[k]]: the own entry, else an inherited member ([inr], by its name), else undefined. *)
Definition table_lookup {A} (table : list (jstr * A)) (k : jstr) : option (A + jstr) :=
  match mget table k with
  | Some v => Some (inl v)
  | None => if existsb (seqb k) prototype_members then Some (inr k) else None
  end.

(** ** Upper case *)

(** [toUpperCase] of one code unit, as far as the result holds ASCII letters: the ASCII letters
    themselves and the letters outside ASCII whose upper case is written with ASCII letters only.  Every
    other letter maps to text with a letter outside ASCII and stays put here, which is enough for the
    comparisons with ASCII words the source makes. *)
Definition upper_unit (c : Z) : jstr :=
  if (97 <=? c) && (c <=? 122) then [c - 32]
  else if c =? 0xDF then js "SS" else if c =? 0x131 then js "I" else if c =? 0x17F then js "S"
  else if c =? 0xFB00 then js "FF" else if c =? 0xFB01 then js "FI" else if c =? 0xFB02 then js "FL"
  else if c =? 0xFB03 then js "FFI" else if c =? 0xFB04 then js "FFL"
  else if (c =? 0xFB05) || (c =? 0xFB06) then js "ST"
  else [c].

Definition toUpperCase (s : jstr) : jstr := s ≫= upper_unit.

(** ** Own keys *)

(** A key that is an array index; an object lists those first, ascending, and every other key in the order it was
    written. *)
Definition is_index (k : jstr) : bool :=
  negb (seqb k []) && forallb is_digit k && seqb k (digits (digits_value k)) && (digits_value k <? 4294967295).

Definition key_before (k k' : jstr) : bool :=
  is_index k && (negb (is_index k') || (digits_value k <? digits_value k')).

(** [o[k] = v] on the entries of an object, in the order [Object.entries] lists them. *)
Fixpoint obj_set {A} (o : list (jstr * A)) (k : jstr) (v : A) : list (jstr * A) :=
  match o with
  | [] => [(k, v)]
  | (k', v') :: o' =>
      if decide (k = k') then (k', v) :: o'
      else if key_before k k' then (k, v) :: o
      else (k', v') :: obj_set o' k v
  end.

(** Entries in the order an object lists them. *)
Definition own_ordered {A} (o : list (jstr * A)) : Prop :=
  NoDup o.*1 /\ StronglySorted (fun k k' => key_before k' k = false) o.*1.

Lemma obj_set_snoc {A} (o : list (jstr * A)) k v :
  Forall (fun k' => k' <> k /\ key_before k k' = false) o.*1 -> obj_set o k v = o ++ [(k, v)].
Proof.
  induction o as [|[k' v'] o IH]; [done|]. intros [[Hne Hb] Ho]%Forall_cons. simpl in *.
  rewrite decide_False, Hb by congruence. by rewrite IH.
Qed.

(** Writing an object's entries one by one into an empty one gives the object. *)
Lemma obj_set_rebuild {A} (o : list (jstr * A)) :
  own_ordered o -> fold_left (fun m kv => obj_set m kv.1 kv.2) o [] = o.
Proof.
  induction o as [|[k v] o IH] using rev_ind; [done|]. intros [Hn Hs]. rewrite fmap_app in Hn, Hs.
  apply NoDup_app in Hn as (Hn & Hk & _). apply StronglySorted_snoc_inv in Hs as [Hs Hf].
  rewrite fold_left_app, IH by done. simpl. apply obj_set_snoc.
  apply Forall_forall. intros k' Hk'. split; [|by apply (proj1 (Forall_forall _ _) Hf)].
  intros ->. apply (Hk k Hk'). left.
Qed.

Lemma mget_obj_set {A} (o : list (jstr * A)) k v k' :
  mget (obj_set o k v) k' = (if decide (k' = k) then Some v else mget o k').
Proof.
  induction o as [|[k0 v0] o IH]; simpl; [done|]. destruct (decide (k = k0)) as [->|Hne]; simpl.
  - by destruct (decide (k' = k0)).
  - destruct (key_before k k0); simpl; [by destruct (decide (k' = k))|]. rewrite IH.
    destruct (decide (k' = k0)), (decide (k' = k)); congruence.
Qed.
