(* ===== verification/JsJsonText.v ===== *)
(** JSON as text: [JSON.parse], and [JSON.stringify] with an indent of two, which a file written by one and read by
    the other goes through.

    The parser recurses on fuel; a text of [n] code units needs at most [2 * n] ([parse_value_fuel]), which is what
    [JSON_parse] gives it. *)
From S2P Require Import Prelude JsNum JsString JsCollections JsValue JsDate JsFormat JsNumText JsJson.
Local Open Scope Z_scope.

(** ** JSON.parse *)

Definition json_space (c : Z) : bool := (c =? 32) || (c =? 9) || (c =? 10) || (c =? 13).

Fixpoint skip_ws (s : jstr) : jstr := match s with c :: r => if json_space c then skip_ws r else s | [] => [] end.

(** The character after a backslash. *)
Definition escaped (c : Z) : option Z :=
  if c =? 34 then Some 34 else if c =? 92 then Some 92 else if c =? 47 then Some 47
  else if c =? 98 then Some 8 else if c =? 102 then Some 12 else if c =? 110 then Some 10
  else if c =? 114 then Some 13 else if c =? 116 then Some 9 else None.

Definition hex4_value (a b c d : Z) : option Z :=
  if forallb is_hex [a; b; c; d]
  then Some (((hex_value a * 16 + hex_value b) * 16 + hex_value c) * 16 + hex_value d) else None.

(** A string after its opening quote: its code units and the text after the closing one. *)
Fixpoint read_string (s : jstr) : option (jstr * jstr) :=
  match s with
  | [] => None
  | c :: r =>
      if c =? 34 then Some ([], r)
      else if c =? 92 then
        match r with
        | e :: r1 =>
            if e =? 117 then
              match r1 with
              | h1 :: h2 :: h3 :: h4 :: r2 =>
                  u ← hex4_value h1 h2 h3 h4; p ← read_string r2; Some (u :: p.1, p.2)
              | _ => None
              end
            else u ← escaped e; p ← read_string r1; Some (u :: p.1, p.2)
        | [] => None
        end
      else if c <? 32 then None
      else p ← read_string r; Some (c :: p.1, p.2)
  end.

(** The fraction of a number, where there is one: at least one digit after the point. *)
Definition read_fraction (s : jstr) : option (jstr * jstr) :=
  match expect 46 s with
  | Some r => match span_digits r with ([], _) => None | p => Some p end
  | None => Some ([], s)
  end.

Definition read_power (s : jstr) : option (Z * jstr) :=
  match s with
  | c :: r =>
      if (c =? 101) || (c =? 69) then
        let '(neg, r) := match r with
                         | x :: r' => if x =? 45 then (true, r') else if x =? 43 then (false, r') else (false, r)
                         | [] => (false, r)
                         end in
        match span_digits r with
        | ([], _) => None
        | (ds, rest) => Some (if neg then - digits_value ds else digits_value ds, rest)
        end
      else Some (0, s)
  | [] => Some (0, s)
  end.

(** A number without its sign: no leading zeros. *)
Definition read_unsigned (s : jstr) : option (number * jstr) :=
  match span_digits s with
  | ([], _) => None
  | ((d :: ds) as ip, r) =>
      if (d =? 48) && bool_decide (ds <> []) then None
      else f ← read_fraction r; e ← read_power f.2;
      Some (round_decimal (digits_value (ip ++ f.1)) (e.1 - Z.of_nat (length f.1)), e.2)
  end.

Definition read_number (s : jstr) : option (number * jstr) :=
  match expect 45 s with
  | Some r => p ← read_unsigned r; Some (nneg p.1, p.2)
  | None => read_unsigned s
  end.

Definition read_word (s : jstr) (word : jstr) (v : value) : option (value * jstr) :=
  if startsWith s word then Some (v, drop (length word) s) else None.

(** A value, the elements of an array after its bracket, the members of an object after its brace; no text starts
    with white space. *)
Fixpoint parse_value (n : nat) (s : jstr) : option (value * jstr) :=
  match n with
  | O => None
  | S n' =>
      match s with
      | [] => None
      | c :: r =>
          if c =? 34 then p ← read_string r; Some (VStr p.1, p.2)
          else if c =? 91 then
            match expect 93 (skip_ws r) with
            | Some r' => Some (VArr [], r')
            | None => parse_elements n' (skip_ws r) []
            end
          else if c =? 123 then
            match expect 125 (skip_ws r) with
            | Some r' => Some (VObj [], r')
            | None => parse_members n' (skip_ws r) []
            end
          else if c =? 116 then read_word s (js "true") (VBool true)
          else if c =? 102 then read_word s (js "false") (VBool false)
          else if c =? 110 then read_word s (js "null") VNull
          else p ← read_number s; Some (VNum p.1, p.2)
      end
  end
with parse_elements (n : nat) (s : jstr) (acc : list value) : option (value * jstr) :=
  match n with
  | O => None
  | S n' =>
      p ← parse_value n' s;
      match expect 44 (skip_ws p.2) with
      | Some r => parse_elements n' (skip_ws r) (acc ++ [p.1])
      | None => r ← expect 93 (skip_ws p.2); Some (VArr (acc ++ [p.1]), r)
      end
  end
with parse_members (n : nat) (s : jstr) (acc : list (jstr * value)) : option (value * jstr) :=
  match n with
  | O => None
  | S n' =>
      r ← expect 34 s;
      k ← read_string r;
      r ← expect 58 (skip_ws k.2);
      p ← parse_value n' (skip_ws r);
      match expect 44 (skip_ws p.2) with
      | Some r => parse_members n' (skip_ws r) (obj_set acc k.1 p.1)
      | None => r ← expect 125 (skip_ws p.2); Some (VObj (obj_set acc k.1 p.1), r)
      end
  end.

(** [JSON.parse(text)]; [None] is the [SyntaxError]. *)
Definition JSON_parse (text : jstr) : option value :=
  p ← parse_value (2 * length text) (skip_ws text);
  match skip_ws p.2 with [] => Some p.1 | _ => None end.

Example parses :
  JSON_parse (js " {") = None /\ JSON_parse [] = None /\ JSON_parse (js "01") = None /\ JSON_parse (js "[1,]") = None /\
  JSON_parse (js "[1, -2.5e1 ,true,null]x") = None /\
  JSON_parse (js " [1, -2.5e1 ,true,null] ") = Some (VArr [VNum (int 1); VNum (int (-25)); VBool true; VNull]) /\
  JSON_parse [123; 34; 97; 34; 58; 123; 125; 44; 34; 97; 34; 58; 34; 92; 117; 48; 48; 52; 49; 34; 125]
    = Some (VObj [(js "a", VStr (js "A"))]).
Proof. split_and!; vm_compute; reflexivity. Qed.

(** ** JSON.stringify(v, null, 2) *)

Definition GAP : jstr := [32; 32].

(** The items on lines of their own between two brackets. *)
Definition block (ind : jstr) (op cl : Z) (items : list jstr) : jstr :=
  match items with
  | [] => [op; cl]
  | _ => [op; 10] ++ ind ++ GAP ++ join ([44; 10] ++ ind ++ GAP) items ++ [10] ++ ind ++ [cl]
  end.

Fixpoint json_pretty (ind : jstr) (v : value) : option jstr :=
  match v with
  | VArr l => Some (block ind 91 93 (map (fun x => default (js "null") (json_pretty (ind ++ GAP) x)) l))
  | VObj fs => Some (block ind 123 125 (omap (fun p => s ← json_pretty (ind ++ GAP) p.2; Some (json_quote p.1 ++ [58; 32] ++ s)) fs))
  | _ => json_stringify v
  end.

Definition JSON_stringify_2 (v : value) : option jstr := json_pretty [] v.

(** ** The fuel is enough *)

Lemma skip_ws_length s : (length (skip_ws s) <= length s)%nat.
Proof. induction s as [|c s IH]; simpl; [lia|]. destruct (json_space c); simpl; lia. Qed.

Lemma read_string_shorter s : forall k r, read_string s = Some (k, r) -> (length r < length s)%nat.
Proof.
  induction s as [s IH] using (induction_ltof1 _ (@length Z)). unfold ltof in IH. intros k r. destruct s as [|c s]; [done|].
  cbn [read_string]. destruct (c =? 34); [intros [= _ <-]; simpl; lia|].
  assert (Hstep : forall s' u, (length s' <= length s)%nat -> (p ← read_string s'; Some (u :: p.1, p.2)) = Some (k, r) -> (length r < S (length s))%nat).
  { intros s' u Hs' H. destruct (read_string s') as [[k' r']|] eqn:E; [|done]. cbn in H. injection H as _ <-. apply IH in E; simpl; lia. }
  destruct (c =? 92).
  - destruct s as [|e s]; [done|]. destruct (e =? 117).
    + destruct s as [|h1 [|h2 [|h3 [|h4 s]]]]; [done..|]. destruct (hex4_value h1 h2 h3 h4) as [u|]; [|done]. cbn [mbind option_bind]. simpl in *. intros H. apply Hstep in H; lia.
    + destruct (escaped e) as [u|]; [|done]. cbn [mbind option_bind]. simpl in *. intros H. apply Hstep in H; lia.
  - destruct (c <? 32); [done|]. simpl. intros H. by apply Hstep in H.
Qed.

Lemma span_digits_length s : (length (span_digits s).1 + length (span_digits s).2 = length s)%nat.
Proof. induction s as [|c s IH]; simpl; [done|]. destruct (is_digit c); [|done]. destruct (span_digits s); simpl in *; lia. Qed.

Lemma expect_length c s r : expect c s = Some r -> length s = S (length r).
Proof. destruct s as [|x s]; [done|]. cbn [expect]. destruct (x =? c); [|done]. by intros [= ->]. Qed.

Lemma read_fraction_length s p : read_fraction s = Some p -> (length p.2 <= length s)%nat.
Proof.
  unfold read_fraction. destruct (expect 46 s) as [r|] eqn:E; [|by intros [= <-]]. apply expect_length in E. pose proof (span_digits_length r).
  destruct (span_digits r) as [[|] ?]; [done|]. intros [= <-]. simpl in *. lia.
Qed.

Lemma read_power_length s p : read_power s = Some p -> (length p.2 <= length s)%nat.
Proof.
  unfold read_power. destruct s as [|c s]; [by intros [= <-]|]. destruct ((c =? 101) || (c =? 69)); [|by intros [= <-]].
  assert (Hr : forall neg r, (length r <= length s)%nat ->
    match span_digits r with ([], _) => None | (ds, rest) => Some (if neg : bool then - digits_value ds else digits_value ds, rest) end = Some p ->
    (length p.2 <= S (length s))%nat).
  { intros neg r Hr. pose proof (span_digits_length r). destruct (span_digits r) as [[|] ?]; [done|]. intros [= <-]. simpl in *. lia. }
  destruct s as [|x s]; [apply (Hr false []); simpl; lia|].
  destruct (x =? 45); [apply (Hr true s)|destruct (x =? 43); [apply (Hr false s)|apply (Hr false (x :: s))]]; simpl; lia.
Qed.

Lemma read_unsigned_shorter s p : read_unsigned s = Some p -> (length p.2 < length s)%nat.
Proof.
  unfold read_unsigned. pose proof (span_digits_length s). destruct (span_digits s) as [[|d ds] r]; [done|]. destruct (_ && _); [done|].
  destruct (read_fraction r) as [f|] eqn:Ef; [|done]. apply read_fraction_length in Ef. cbn [mbind option_bind].
  destruct (read_power f.2) as [e|] eqn:Ee; [|done]. apply read_power_length in Ee. intros [= <-]. simpl in *. lia.
Qed.

Lemma read_number_shorter s p : read_number s = Some p -> (length p.2 < length s)%nat.
Proof.
  unfold read_number. destruct (expect 45 s) as [r|] eqn:E; [|apply read_unsigned_shorter]. apply expect_length in E.
  destruct (read_unsigned r) as [q|] eqn:Eq; [|done]. apply read_unsigned_shorter in Eq. intros [= <-]. simpl. lia.
Qed.

Lemma read_word_shorter s w v p : w <> [] -> read_word s w v = Some p -> s <> [] -> (length p.2 < length s)%nat.
Proof. unfold read_word. destruct (startsWith s w); [|done]. intros Hw [= <-] Hs. simpl. rewrite length_drop. destruct w, s; simpl in *; [done..|lia]. Qed.

Lemma expect_skip_length c s r : expect c (skip_ws s) = Some r -> (S (length r) <= length s)%nat.
Proof. intros E%expect_length. pose proof (skip_ws_length s). lia. Qed.

(** Whatever is read takes at least one code unit. *)
Lemma parse_shorter n :
  (forall s p, parse_value n s = Some p -> (length p.2 < length s)%nat) /\
  (forall s acc p, parse_elements n s acc = Some p -> (length p.2 < length s)%nat) /\
  (forall s acc p, parse_members n s acc = Some p -> (length p.2 < length s)%nat).
Proof.
  induction n as [|n (IHv & IHe & IHm)]; [done|]. split_and!.
  - intros [|c s] p; [done|]. cbn [parse_value]. pose proof (skip_ws_length s) as Hw.
    destruct (c =? 34). { destruct (read_string s) as [[k r]|] eqn:E; [|done]. apply read_string_shorter in E. intros [= <-]. simpl. lia. }
    destruct (c =? 91).
    { destruct (expect 93 (skip_ws s)) as [r|] eqn:E; [apply expect_skip_length in E; intros [= <-]; simpl; lia|]. intros H%IHe. simpl. lia. }
    destruct (c =? 123).
    { destruct (expect 125 (skip_ws s)) as [r|] eqn:E; [apply expect_skip_length in E; intros [= <-]; simpl; lia|]. intros H%IHm. simpl. lia. }
    destruct (c =? 116); [intros H; by apply read_word_shorter in H|]. destruct (c =? 102); [intros H; by apply read_word_shorter in H|].
    destruct (c =? 110); [intros H; by apply read_word_shorter in H|].
    destruct (read_number (c :: s)) as [q|] eqn:E; [|done]. apply read_number_shorter in E. by intros [= <-].
  - intros s acc p. cbn [parse_elements]. destruct (parse_value n s) as [q|] eqn:E; [|done]. apply IHv in E. cbn [mbind option_bind].
    destruct (expect 44 (skip_ws q.2)) as [r|] eqn:Er.
    + apply expect_skip_length in Er. pose proof (skip_ws_length r). intros Hp%IHe. lia.
    + destruct (expect 93 (skip_ws q.2)) as [r|] eqn:Ec; [|done]. apply expect_skip_length in Ec. intros [= <-]. simpl. lia.
  - intros s acc p. cbn [parse_members]. destruct (expect 34 s) as [r0|] eqn:E0; [|done]. apply expect_length in E0. cbn [mbind option_bind].
    destruct (read_string r0) as [[k r1]|] eqn:E1; [|done]. apply read_string_shorter in E1. cbn [mbind option_bind fst snd].
    destruct (expect 58 (skip_ws r1)) as [r2|] eqn:E2; [|done]. apply expect_skip_length in E2. cbn [mbind option_bind].
    pose proof (skip_ws_length r2). destruct (parse_value n (skip_ws r2)) as [q|] eqn:E3; [|done]. apply IHv in E3. cbn [mbind option_bind].
    destruct (expect 44 (skip_ws q.2)) as [r|] eqn:Er.
    + apply expect_skip_length in Er. pose proof (skip_ws_length r). intros Hp%IHm. lia.
    + destruct (expect 125 (skip_ws q.2)) as [r|] eqn:Ec; [|done]. apply expect_skip_length in Ec. intros [= <-]. simpl. lia.
Qed.

(** Fuel of twice the text is as good as any more. *)
Lemma parse_fuel n :
  (forall m s, (2 * length s <= n)%nat -> (2 * length s <= m)%nat -> parse_value n s = parse_value m s) /\
  (forall m s acc, (2 * length s < n)%nat -> (2 * length s < m)%nat -> parse_elements n s acc = parse_elements m s acc) /\
  (forall m s acc, (2 * length s < n)%nat -> (2 * length s < m)%nat -> parse_members n s acc = parse_members m s acc).
Proof.
  induction n as [|n (IHv & IHe & IHm)].
  { split_and!; [|intros; lia..]. intros m [|c s]; [|simpl; lia]. by destruct m. }
  split_and!; intros [|m] s.
  - destruct s; [done|simpl; lia].
  - intros Hn Hm. destruct s as [|c s]; [done|]. cbn [parse_value]. pose proof (skip_ws_length s). simpl in Hn, Hm.
    rewrite (IHe m) by lia. by rewrite (IHm m) by lia.
  - lia.
  - intros acc Hn Hm. cbn [parse_elements]. rewrite (IHv m) by lia. destruct (parse_value m s) as [q|] eqn:E; [|done]. cbn [mbind option_bind].
    apply (proj1 (parse_shorter m)) in E. destruct (expect 44 (skip_ws q.2)) as [r|] eqn:Er; [|done].
    apply expect_skip_length in Er. pose proof (skip_ws_length r). apply IHe; lia.
  - lia.
  - intros acc Hn Hm. cbn [parse_members]. destruct (expect 34 s) as [r0|] eqn:E0; [|done]. apply expect_length in E0. cbn [mbind option_bind].
    destruct (read_string r0) as [[k r1]|] eqn:E1; [|done]. apply read_string_shorter in E1. cbn [mbind option_bind fst snd].
    destruct (expect 58 (skip_ws r1)) as [r2|] eqn:E2; [|done]. apply expect_skip_length in E2. cbn [mbind option_bind].
    pose proof (skip_ws_length r2). rewrite (IHv m) by lia. destruct (parse_value m (skip_ws r2)) as [q|] eqn:E3; [|done]. cbn [mbind option_bind].
    apply (proj1 (parse_shorter m)) in E3. destruct (expect 44 (skip_ws q.2)) as [r|] eqn:Er; [|done].
    apply expect_skip_length in Er. pose proof (skip_ws_length r). apply IHm; lia.
Qed.

Lemma parse_value_fuel n s : (2 * length s <= n)%nat -> parse_value n s = parse_value (2 * length s) s.
Proof. intros Hn. by apply parse_fuel. Qed.

(** ** What was written is read back *)

Definition code_units (s : jstr) : Prop := Forall (fun c => 0 <= c < 65536) s.

Lemma code_units_check s : forallb (fun c => (0 <=? c) && (c <? 65536)) s = true -> code_units s.
Proof. intros H. apply Forall_forall. intros c Hc. rewrite forallb_forall in H. apply list_elem_of_In, H in Hc. lia. Qed.

(** The values a file can carry unchanged: no undefined, numbers that are finite, texts of code units,
    objects whose members are in the order an object lists them. *)
Fixpoint json_ok (v : value) : Prop :=
  match v with
  | VUndef => False
  | VNull | VBool _ => True
  | VNum n => exists z, n = Fin z /\ double z
  | VStr s => code_units s
  | VArr l => foldr (fun x P => json_ok x /\ P) True l
  | VObj fs => own_ordered fs /\ foldr (fun p P => (code_units p.1 /\ json_ok p.2) /\ P) True fs
  end.

Lemma foldr_and {A} (P : A -> Prop) l : foldr (fun x Q => P x /\ Q) True l <-> Forall P l.
Proof. induction l as [|x l IH]; simpl; [by split|]. rewrite IH. by rewrite Forall_cons. Qed.

Lemma value_nested_ind (P : value -> Prop) :
  (forall v, isArray v = false -> isRecord v = false -> P v) ->
  (forall l, Forall P l -> P (VArr l)) -> (forall fs, Forall (fun p => P p.2) fs -> P (VObj fs)) -> forall v, P v.
Proof.
  intros Ha Hl Ho. fix IH 1. intros [| |b|n|s|l|fs]; [by apply Ha..| |].
  - apply Hl. induction l as [|x l IHl]; constructor; [apply IH|exact IHl].
  - apply Ho. induction fs as [|[k x] fs IHl]; constructor; [apply IH|exact IHl].
Qed.

Lemma hex_value_digit d : 0 <= d < 16 -> let c := if d <? 10 then 48 + d else 87 + d in is_hex c = true /\ hex_value c = d.
Proof. intros Hd. unfold is_hex, is_digit, hex_value. destruct (Z.ltb_spec d 10); cbv zeta; split; repeat case_match; lia. Qed.

Lemma hex4_roundtrip c :
  0 <= c < 65536 -> exists a b d e, hex4 c = [a; b; d; e] /\ hex4_value a b d e = Some c.
Proof.
  intros Hc. unfold hex4. cbn [fmap list_fmap]. do 4 eexists. split; [reflexivity|].
  assert (Hd : forall k, 0 <= k -> 0 <= (c / 16 ^ k) mod 16 < 16) by (intros; apply Z.mod_pos_bound; lia).
  unfold hex4_value. cbn [forallb].
  destruct (hex_value_digit _ (Hd 3 ltac:(lia))) as [-> ->], (hex_value_digit _ (Hd 2 ltac:(lia))) as [-> ->],
    (hex_value_digit _ (Hd 1 ltac:(lia))) as [-> ->], (hex_value_digit _ (Hd 0 ltac:(lia))) as [-> ->]. cbn [andb]. f_equal.
  change (16 ^ 3) with 4096. change (16 ^ 2) with 256. change (16 ^ 1) with 16. change (16 ^ 0) with 1. Z.to_euclidean_division_equations. lia.
Qed.

(** Reading one printed code unit. *)
Lemma read_string_unit c r :
  0 <= c < 65536 -> read_string (json_unit c ++ r) = (p ← read_string r; Some (c :: p.1, p.2)).
Proof.
  intros Hc. unfold json_unit.
  destruct (Z.eqb_spec c 8) as [->|]; [reflexivity|]. destruct (Z.eqb_spec c 9) as [->|]; [reflexivity|].
  destruct (Z.eqb_spec c 10) as [->|]; [reflexivity|]. destruct (Z.eqb_spec c 12) as [->|]; [reflexivity|].
  destruct (Z.eqb_spec c 13) as [->|]; [reflexivity|]. destruct (Z.eqb_spec c 34) as [->|]; [reflexivity|].
  destruct (Z.eqb_spec c 92) as [->|]; [reflexivity|].
  destruct (_ || _) eqn:E.
  - unfold unicode_escape. destruct (hex4_roundtrip c Hc) as (h1 & h2 & h3 & h4 & -> & Hv).
    change ((js "\u" ++ [h1; h2; h3; h4]) ++ r) with (92 :: 117 :: h1 :: h2 :: h3 :: h4 :: r). cbn [read_string].
    change (92 =? 34) with false. change (92 =? 92) with true. change (117 =? 117) with true. cbn match. by rewrite Hv.
  - cbn [app read_string]. rewrite (proj2 (Z.eqb_neq c 34)), (proj2 (Z.eqb_neq c 92)) by lia. rewrite (proj2 (Z.ltb_ge c 32)) by lia. done.
Qed.

Lemma read_string_units s r : code_units s -> read_string (json_units s ++ 34 :: r) = Some (s, r).
Proof.
  induction s as [s IH] using (induction_ltof1 _ (@length Z)). unfold ltof in IH. intros Hs. destruct s as [|h s]; [reflexivity|].
  apply Forall_cons in Hs as [Hh Hs]. destruct s as [|l s].
  - cbn [json_units]. by rewrite read_string_unit.
  - cbn [json_units]. destruct (surrogate_pair h l) eqn:E.
    + apply Forall_cons in Hs as [Hl Hs]. unfold surrogate_pair in E. cbn [app read_string].
      rewrite (proj2 (Z.eqb_neq h 34)), (proj2 (Z.eqb_neq h 92)), (proj2 (Z.eqb_neq l 34)), (proj2 (Z.eqb_neq l 92)) by lia.
      rewrite (proj2 (Z.ltb_ge h 32)), (proj2 (Z.ltb_ge l 32)) by lia. rewrite IH; [done|simpl; lia|done].
    + rewrite <- app_assoc, read_string_unit by done. fold json_units. change (match s with | [] => json_unit l | l0 :: r' => if surrogate_pair l l0 then l :: l0 :: json_units r' else json_unit l ++ json_units s end) with (json_units (l :: s)).
      rewrite IH; [done|simpl; lia|done].
Qed.

(** What may follow a number for it to end there. *)
Definition ends_number (r : jstr) : Prop :=
  match r with c :: _ => is_digit c = false /\ c <> 46 /\ c <> 101 /\ c <> 69 | [] => True end.

Lemma ends_no_digit r : ends_number r -> no_digit r.
Proof. destruct r; [done|]. by intros [H _]. Qed.

Lemma read_fraction_none r : (forall c, head r = Some c -> c <> 46) -> read_fraction r = Some ([], r).
Proof. intros H. unfold read_fraction, expect. destruct r as [|c r]; [done|]. by rewrite (proj2 (Z.eqb_neq _ _) (H c eq_refl)). Qed.

Lemma read_power_text e r : ends_number r -> read_power (power_text e ++ r) = Some (default 0 e, r).
Proof.
  intros Hr. destruct e as [e|]; cbn [power_text app from_option].
  - unfold read_power. change ((101 =? 101) || (101 =? 69)) with true. cbn match.
    assert (Hs : span_digits (digits (Z.abs e) ++ r) = (digits (Z.abs e), r)) by (apply span_digits_stop; [apply digits_all_digits; lia|by apply ends_no_digit]).
    pose proof (digits_nonempty (Z.abs e)). pose proof (digits_value_digits (Z.abs e) ltac:(lia)) as Hv.
    destruct (Z.ltb_spec e 0); [change (45 =? 45) with true|change (43 =? 45) with false; change (43 =? 43) with true]; cbn match;
      rewrite Hs; destruct (digits (Z.abs e)); try done; rewrite Hv; unfold id; do 2 f_equal; lia.
  - unfold read_power. destruct r as [|c r]; [done|]. destruct Hr as (_ & _ & H1 & H2). by rewrite (proj2 (Z.eqb_neq _ _) H1), (proj2 (Z.eqb_neq _ _) H2).
Qed.

Lemma read_unsigned_spell ip fp e r :
  spelled ip fp -> ends_number r -> read_unsigned (spell ip fp e ++ r) = Some (spelled_value ip fp e, r).
Proof.
  intros Hs Hr. pose proof (spelled_nonempty _ _ Hs) as Hne. destruct Hs as (Hi & Hf & Hlead). unfold read_unsigned, spell. rewrite <- !app_assoc.
  assert (Htail : no_digit (power_text e ++ r)) by (destruct e; [done|by apply ends_no_digit]).
  rewrite span_digits_stop; [|done|by destruct fp].
  assert (Hzero : forall d ds, ip = d :: ds -> (d =? 48) && bool_decide (ds <> []) = false).
  { intros d ds ->. destruct Hlead as [Hd|[= -> ->]]; [|done]. by rewrite (proj2 (Z.eqb_neq _ _) Hd). }
  assert (Hfrac : read_fraction (match fp with [] => [] | _ => 46 :: fp end ++ power_text e ++ r) = Some (fp, power_text e ++ r)).
  { destruct fp as [|f fp].
    - apply read_fraction_none. destruct e; [by intros c [= <-]|]. destruct r as [|c r]; [done|]. intros c' [= <-]. by destruct Hr as (_ & ? & _).
    - unfold read_fraction. cbn [app expect]. change (46 =? 46) with true. cbn match. change (f :: fp ++ power_text e ++ r) with ((f :: fp) ++ power_text e ++ r).
      by rewrite span_digits_stop. }
  unfold spelled_value. destruct ip as [|d ds]; [done|]. rewrite (Hzero d ds eq_refl), Hfrac. cbn [mbind option_bind fst snd].
  rewrite read_power_text by done. done.
Qed.

(** [JSON.parse] reads a double where [String(x)] wrote it. *)
Lemma read_number_string z r : double z -> ends_number r -> read_number (num_to_string (Fin z) ++ r) = Some (Fin z, r).
Proof.
  intros Hd Hr. destruct (num_to_string_spelled z Hd) as (ip & fp & e & -> & Hs & Hv). unfold read_number, signed.
  pose proof (read_unsigned_spell ip fp e r Hs Hr) as Hread. rewrite Hv in Hread. destruct (Z.ltb_spec z 0).
  - cbn [app expect]. change (45 =? 45) with true. cbn match. rewrite Hread. cbn [mbind option_bind fst snd nneg]. do 3 f_equal. lia.
  - assert (Hh : expect 45 (spell ip fp e ++ r) = None).
    { pose proof (spelled_nonempty _ _ Hs). destruct Hs as (Hi & _). unfold spell. destruct ip as [|d ip]; [done|]. apply Forall_cons in Hi as [Hc _].
      unfold is_digit in Hc. cbn [app expect]. by rewrite (proj2 (Z.eqb_neq d 45)) by lia. }
    rewrite Hh, Hread. do 3 f_equal. lia.
Qed.

Definition spaces (w : jstr) : Prop := Forall (fun c => json_space c = true) w.

Lemma skip_ws_spaces w s : spaces w -> skip_ws (w ++ s) = skip_ws s.
Proof. induction 1 as [|c w Hc Hw IH]; [done|]. simpl. by rewrite Hc. Qed.

(** A text that opens with something, and not with a closing bracket. *)
Definition opens (t : jstr) : Prop := match t with c :: _ => json_space c = false /\ c <> 93 | [] => False end.

Lemma skip_ws_opens t s : opens t -> skip_ws (t ++ s) = t ++ s.
Proof. destruct t as [|c t]; [done|]. intros [Hc _]. simpl. by rewrite Hc. Qed.

(** [t] is read as [v] wherever a value may stand. *)
Definition reads (v : value) (t : jstr) : Prop :=
  opens t /\ forall n rest, (2 * length t <= n)%nat -> ends_number rest -> parse_value n (t ++ rest) = Some (v, rest).

Definition reads_member (p : jstr * value) (t : jstr) : Prop :=
  exists t', t = json_quote p.1 ++ [58; 32] ++ t' /\ code_units p.1 /\ reads p.2 t'.

Section Block.
Context (ind : jstr) (Hind : spaces ind).
Abbreviation sep := ([44; 10] ++ ind ++ GAP).

Lemma spaces_gap : spaces ([10] ++ ind ++ GAP).
Proof. constructor; [reflexivity|]. apply Forall_app. split; [done|by repeat constructor]. Qed.

Lemma join_opens (ts : list jstr) t s : opens t -> skip_ws ([10] ++ ind ++ GAP ++ join sep (t :: ts) ++ s) = join sep (t :: ts) ++ s.
Proof.
  intros Ht. rewrite (app_assoc ind), (app_assoc [10]), skip_ws_spaces by apply spaces_gap.
  destruct ts as [|t' ts]; cbn [join]; [by apply skip_ws_opens|]. rewrite <- !app_assoc. by apply skip_ws_opens.
Qed.

Lemma skip_closing c s : json_space c = false -> skip_ws ([10] ++ ind ++ [c] ++ s) = c :: s.
Proof. intros Hc. rewrite (app_assoc [10]), skip_ws_spaces by (by constructor). simpl. by rewrite Hc. Qed.

Lemma join_cons2 s a b (ts : list jstr) : join s (a :: b :: ts) = a ++ s ++ join s (b :: ts).
Proof. reflexivity. Qed.

Lemma expect_comma s : expect 44 (skip_ws ([44; 10] ++ s)) = Some ([10] ++ s).
Proof. reflexivity. Qed.

Lemma parse_elements_join l ts :
  Forall2 reads l ts -> l <> [] -> forall n acc rest, (2 * length (join sep ts) < n)%nat ->
  parse_elements n (join sep ts ++ [10] ++ ind ++ [93] ++ rest) acc = Some (VArr (acc ++ l), rest).
Proof.
  induction 1 as [|v t l ts Hr Hts IH]; [done|]. intros _ n acc rest Hn. destruct n as [|n]; [lia|]. cbn [parse_elements].
  destruct Hts as [|v' t' l ts Hr' Hts].
  - cbn [join] in *. rewrite (proj2 Hr) by (simpl in *; lia || done). cbn [mbind option_bind fst snd].
    rewrite skip_closing by done. reflexivity.
  - rewrite join_cons2 in *. rewrite !length_app in Hn. rewrite <- !app_assoc.
    rewrite (proj2 Hr) by (simpl in *; lia || done). cbn [mbind option_bind fst snd].
    rewrite expect_comma, join_opens by apply Hr'. rewrite IH; [by rewrite <- app_assoc|done|]. simpl in *. lia.
Qed.

Lemma parse_members_join fs ts :
  Forall2 reads_member fs ts -> fs <> [] -> forall n acc rest, (2 * length (join sep ts) < n)%nat ->
  parse_members n (join sep ts ++ [10] ++ ind ++ [125] ++ rest) acc =
    Some (VObj (fold_left (fun m kv => obj_set m kv.1 kv.2) fs acc), rest).
Proof.
  assert (Hkey : forall n p t acc s, (2 * length t < S n)%nat -> reads_member p t -> ends_number s ->
    parse_members (S n) (t ++ s) acc =
      match expect 44 (skip_ws s) with
      | Some r => parse_members n (skip_ws r) (obj_set acc p.1 p.2)
      | None => r ← expect 125 (skip_ws s); Some (VObj (obj_set acc p.1 p.2), r)
      end).
  { intros n p t acc s Hn (t' & -> & Hk & Ho & Hr) Hs. cbn [parse_members]. unfold json_quote. rewrite <- !app_assoc. cbn [app expect].
    change (34 =? 34) with true. cbn match. cbn [mbind option_bind]. rewrite read_string_units by done. cbn [mbind option_bind fst snd].
    cbn [skip_ws]. change (json_space 58) with false. cbn match. cbn [expect]. change (58 =? 58) with true. cbn match. cbn [mbind option_bind].
    change (32 :: t' ++ s) with ([32] ++ t' ++ s). rewrite skip_ws_spaces by (by repeat constructor). rewrite skip_ws_opens by done.
    rewrite Hr; [done| |done]. rewrite !length_app in Hn. simpl in Hn. lia. }
  induction 1 as [|p t fs ts Hr Hts IH]; [done|]. intros _ n acc rest Hn. destruct n as [|n]; [lia|].
  destruct Hts as [|p' t' fs ts Hr' Hts].
  - cbn [join fold_left] in *. rewrite (Hkey n p t) by (done || lia). rewrite skip_closing by done. reflexivity.
  - rewrite join_cons2 in *. rewrite !length_app in Hn. rewrite <- !app_assoc. rewrite (Hkey n p t) by (done || (simpl in *; lia)).
    rewrite expect_comma, join_opens.
    + rewrite IH; [done|done|]. simpl in *. lia.
    + destruct Hr' as (t1 & -> & _). by split.
Qed.
End Block.

Lemma reads_number z : double z -> reads (VNum (Fin z)) (num_to_string (Fin z)).
Proof.
  intros Hz. assert (Hh : exists c r, num_to_string (Fin z) = c :: r /\ (is_digit c = true \/ c = 45)).
  { destruct (num_to_string_spelled z Hz) as (ip & fp & e & -> & Hs & _). unfold signed. destruct (z <? 0); [by eexists _, _; split; [reflexivity|right]|].
    pose proof (spelled_nonempty _ _ Hs). destruct Hs as (Hi & _). unfold spell. destruct ip as [|d ds]; [done|].
    apply Forall_cons in Hi as [Hd _]. cbn [app]. eauto. }
  destruct Hh as (c & r & E & Hc). assert (Hc' : c = 45 \/ 48 <= c <= 57) by (unfold is_digit in Hc; lia).
  split; [rewrite E; unfold opens, json_space; split; lia|]. intros [|n] rest Hn Hend; [rewrite E in Hn; simpl in Hn; lia|].
  pose proof (read_number_string z rest Hz Hend) as Hread. rewrite E in *. cbn [app parse_value]. cbn [app] in Hread.
  rewrite (proj2 (Z.eqb_neq c 34)), (proj2 (Z.eqb_neq c 91)), (proj2 (Z.eqb_neq c 123)), (proj2 (Z.eqb_neq c 116)),
    (proj2 (Z.eqb_neq c 102)), (proj2 (Z.eqb_neq c 110)) by lia.
  by rewrite Hread.
Qed.

Lemma reads_atom v t : isArray v = false -> isRecord v = false -> json_ok v -> json_stringify v = Some t -> reads v t.
Proof.
  assert (Hword : forall w v, opens w -> (forall n r, parse_value (S n) (w ++ r) = Some (v, r)) -> reads v w).
  { intros w v' Ho H. split; [done|]. intros [|n] rest Hn _; [destruct w; [done|simpl in Hn; lia]|apply H]. }
  intros Ha Hr Hv. destruct v as [| |b|n|s|l|fs]; try done; cbn [json_stringify].
  - intros <-%(inj Some). by apply Hword.
  - intros <-%(inj Some). destruct b; by apply Hword.
  - destruct Hv as (z & -> & Hz). intros <-%(inj Some). cbn [isFinite]. by apply reads_number.
  - intros <-%(inj Some). apply Hword; [done|]. intros n r. unfold json_quote. rewrite <- !app_assoc. cbn [app parse_value].
    change (34 =? 34) with true. cbn match. by rewrite read_string_units.
Qed.

Lemma reads_array ind l ts : spaces ind -> Forall2 reads l ts -> reads (VArr l) (block ind 91 93 ts).
Proof.
  intros Hind Hts. destruct Hts as [|x t l ts Hx Hts]; (split; [done|]; intros [|n] rest Hn _; [simpl in Hn; lia|]); [reflexivity|].
  unfold block in *. rewrite !length_app in Hn. cbn [length] in Hn. rewrite <- !app_assoc. cbn [app parse_value].
  change (91 =? 34) with false. change (91 =? 91) with true. cbn match.
  pose proof (join_opens ind Hind ts t ([10] ++ ind ++ [93] ++ rest) (proj1 Hx)) as Ej. cbn [app] in Ej. rewrite Ej.
  assert (Hexp : expect 93 (join (44 :: 10 :: ind ++ GAP) (t :: ts) ++ 10 :: ind ++ 93 :: rest) = None).
  { destruct Hx as [Ho _]. destruct t as [|c t]; [done|]. destruct Ho as [_ Hc]. destruct ts; cbn; by rewrite (proj2 (Z.eqb_neq c 93)). }
  rewrite Hexp. apply (parse_elements_join ind Hind (x :: l) (t :: ts) ltac:(by constructor) ltac:(done) n [] rest). simpl in *. lia.
Qed.

Lemma reads_object ind fs ts : spaces ind -> own_ordered fs -> Forall2 reads_member fs ts -> reads (VObj fs) (block ind 123 125 ts).
Proof.
  intros Hind Hord Hts. destruct Hts as [|p t fs ts Hx Hts]; (split; [done|]; intros [|n] rest Hn _; [simpl in Hn; lia|]); [reflexivity|].
  unfold block in *. rewrite !length_app in Hn. cbn [length] in Hn. rewrite <- !app_assoc. cbn [app parse_value].
  change (123 =? 34) with false. change (123 =? 91) with false. change (123 =? 123) with true. cbn match.
  assert (Ht : opens t) by (destruct Hx as (t1 & -> & _); by split).
  pose proof (join_opens ind Hind ts t ([10] ++ ind ++ [125] ++ rest) Ht) as Ej. cbn [app] in Ej. rewrite Ej.
  assert (Hexp : expect 125 (join (44 :: 10 :: ind ++ GAP) (t :: ts) ++ 10 :: ind ++ 125 :: rest) = None).
  { destruct Hx as (t1 & -> & _). destruct ts; reflexivity. }
  rewrite Hexp.
  pose proof (parse_members_join ind Hind (p :: fs) (t :: ts) ltac:(by constructor) ltac:(done) n [] rest) as Em.
  rewrite (obj_set_rebuild (p :: fs) Hord) in Em. apply Em. simpl in *. lia.
Qed.

Lemma pretty_reads v : json_ok v -> forall ind, spaces ind -> exists t, json_pretty ind v = Some t /\ reads v t.
Proof.
  induction v as [v Ha Hr|l IH|fs IH] using value_nested_ind; intros Hv ind Hind;
    assert (Hind' : spaces (ind ++ GAP)) by (apply Forall_app; split; [done|by repeat constructor]).
  - assert (Hs : is_Some (json_stringify v)) by (destruct v; done). destruct Hs as [t Ht]. exists t.
    split; [by destruct v|]. by apply reads_atom.
  - cbn [json_ok] in Hv. rewrite foldr_and in Hv. cbn [json_pretty]. eexists. split; [reflexivity|]. apply reads_array; [done|].
    induction l as [|x l IHl]; [constructor|]. apply Forall_cons in IH as [Hx IH]. apply Forall_cons in Hv as [Hox Hv].
    cbn [map]. constructor; [|by apply IHl]. by destruct (Hx Hox _ Hind') as (t & -> & Ht).
  - cbn [json_ok] in Hv. destruct Hv as [Hord Hv]. rewrite (foldr_and (fun p => code_units p.1 /\ json_ok p.2)) in Hv.
    cbn [json_pretty]. eexists. split; [reflexivity|]. apply reads_object; [done..|]. clear Hord.
    induction fs as [|[k x] fs IHl]; [constructor|]. apply Forall_cons in IH as [Hx IH]. apply Forall_cons in Hv as [[Hk Hox] Hv].
    cbn [omap list_omap snd] in *. destruct (Hx Hox _ Hind') as (t & -> & Ht). cbn [mbind option_bind]. constructor; [by exists t|by apply IHl].
Qed.

(** [JSON.parse(JSON.stringify(v, null, 2))] is [v]. *)
Theorem JSON_roundtrip v : json_ok v -> exists t, JSON_stringify_2 v = Some t /\ JSON_parse t = Some v.
Proof.
  intros Hv. destruct (pretty_reads v Hv [] ltac:(constructor)) as (t & Ht & Ho & Hr). exists t. split; [done|].
  unfold JSON_parse. rewrite <- (app_nil_r (skip_ws t)). rewrite <- (app_nil_r t) at 2. rewrite (skip_ws_opens t []) by done. rewrite app_nil_r, Hr by done. done.
Qed.
