(* ===== verification/Pagination.v ===== *)
(** Page arithmetic of every list in the console ([web/src/lib/pagination.ts]) and the pager state
    that mounts it ([usePager] of [web/src/components/ui/pager.tsx]). *)
From S2P Require Import Prelude JsNum JsString JsCollections.
Local Open Scope Z_scope.

Definition PAGE_SIZES : list number := [int 10; int 20; int 50; int 100].
Definition DEFAULT_PAGE_SIZE : number := int 10.

Record PageSlice := {
  page : number;
  pageCount : number;
  start : number;
  end_ : number;
}.

Definition pageSlice (total wish size : number) : PageSlice :=
  let rows := if isFinite total && (total >? int 0)%num then nfloor total else int 0 in
  let per := if isFinite size && (size >=? int 1)%num then nfloor size else DEFAULT_PAGE_SIZE in
  let count := nmax (int 1) (nceil (rows / per)%num) in
  let wanted := if isNaN wish then int 1 else wish in
  let clamped := nmin (nmax (nfloor (nmin wanted count)) (int 1)) count in
  let first := nmin ((clamped - int 1) * per)%num rows in
  {| page := clamped; pageCount := count; start := first;
     end_ := nmin (first + per)%num rows |}.

Definition pageOfIndex (index size : number) : number :=
  if negb (isFinite index) || (index <=? int 0)%num then int 1
  else
    let per := if isFinite size && (size >=? int 1)%num then nfloor size else DEFAULT_PAGE_SIZE in
    (nfloor (index / per) + int 1)%num.

(** The rows a list shows on one page. *)
Definition page_rows {A} (items : list A) (wish size : number) : list A :=
  let s := pageSlice (len items) wish size in
  array_slice items (start s) (end_ s).

(** ** The integer reading *)

(** How many pages [n] rows make at [s] to a page. *)
Definition pages (n s : Z) : Z := Z.max 1 ((n + s - 1) / s).

(** What a wished page number is granted: any number at all, NaN and infinities included. *)
Definition granted (wish : number) (count : Z) : Z :=
  match wish with
  | NaN => 1
  | Inf neg => if neg then 1 else count
  | Fin z => Z.max 1 (Z.min (z / U) count)
  end.

Definition slice_at (n s k : Z) : PageSlice :=
  {| page := int k; pageCount := int (pages n s);
     start := int (Z.min ((k - 1) * s) n); end_ := int (Z.min ((k - 1) * s + s) n) |}.

Lemma pages_pos n s : 1 <= pages n s.
Proof. unfold pages. lia. Qed.

Lemma pages_bound n s : 0 <= n -> 1 <= s -> (pages n s - 1) * s <= n.
Proof.
  intros. unfold pages. pose proof (Z.mul_div_le (n + s - 1) s ltac:(lia)). nia.
Qed.

Lemma pages_cover n s : 0 <= n -> 1 <= s -> n <= pages n s * s.
Proof.
  intros. unfold pages.
  pose proof (Z.div_mod (n + s - 1) s ltac:(lia)).
  pose proof (Z.mod_pos_bound (n + s - 1) s ltac:(lia)). nia.
Qed.

Lemma granted_range wish count : 1 <= count -> 1 <= granted wish count <= count.
Proof. unfold granted. destruct wish as [|[]|]; lia. Qed.

Lemma clamp_granted wish count :
  1 <= count ->
  nmin (nmax (nfloor (nmin (if isNaN wish then int 1 else wish) (int count))) (int 1)) (int count)
  = int (granted wish count).
Proof.
  intros Hc. pose proof U_pos. destruct wish as [|neg|z]; cbn [isNaN].
  - rewrite nmin_int, nfloor_int, nmax_int, nmin_int. f_equal. simpl. lia.
  - destruct neg; [|].
    + change (nmin (Inf true) (int count)) with (Inf true). cbn [nfloor].
      change (nmax (Inf true) (int 1)) with (int 1). rewrite nmin_int. f_equal. simpl. lia.
    + change (nmin (Inf false) (int count)) with (int count).
      rewrite nfloor_int, nmax_int, nmin_int. f_equal. simpl. lia.
  - assert (nfloor (nmin (Fin z) (int count)) = int (Z.min (z / U) count)) as ->.
    { unfold nmin, int. cbn [isNaN orb nltb].
      destruct (Z.ltb_spec (count * U) z); cbn [nfloor]; f_equal.
      - rewrite Z.div_mul by lia. f_equal.
        enough (count <= z / U) by lia. apply Z.div_le_lower_bound; lia.
      - f_equal. enough (z / U <= count) by lia. apply Z.div_le_upper_bound; lia. }
    rewrite nmax_int, nmin_int. f_equal. simpl. lia.
Qed.

Lemma pageSlice_int n s wish :
  0 <= n -> 1 <= s -> n + s <= 2 ^ 51 ->
  pageSlice (int n) wish (int s) = slice_at n s (granted wish (pages n s)).
Proof.
  intros Hn Hs Hb. unfold pageSlice. cbn [isFinite int andb].
  change (Fin (n * U)) with (int n). change (Fin (s * U)) with (int s).
  rewrite nltb_int, nleb_int, !nfloor_int.
  replace (if 0 <? n then int n else int 0) with (int n) by (destruct (Z.ltb_spec 0 n); [done|f_equal; lia]).
  rewrite (proj2 (Z.leb_le 1 s)) by done.
  rewrite nceil_ndiv_safe, nmax_int by lia. fold (pages n s).
  pose proof (pages_pos n s). pose proof (pages_bound n s Hn Hs).
  rewrite clamp_granted by done.
  pose proof (granted_range wish (pages n s) ltac:(lia)).
  set (k := granted wish (pages n s)) in *.
  assert (0 <= (k - 1) * s <= n) by nia.
  rewrite nsub_int, nmul_int by (unfold safe; lia).
  rewrite nmin_int, nadd_int, nmin_int by (unfold safe; lia).
  unfold slice_at. repeat f_equal; lia.
Qed.

Lemma pageOfIndex_int i s :
  0 <= i -> 1 <= s -> i + s <= 2 ^ 51 -> pageOfIndex (int i) (int s) = int (i / s + 1).
Proof.
  intros Hi Hs Hb. unfold pageOfIndex. cbn [isFinite int negb orb andb].
  change (Fin (i * U)) with (int i). change (Fin (s * U)) with (int s).
  rewrite !nleb_int, nfloor_int. destruct (Z.leb_spec i 0).
  - assert (i = 0) as -> by lia. rewrite Z.div_0_l by lia. done.
  - rewrite (proj2 (Z.leb_le 1 s)) by done. rewrite nfloor_ndiv_safe by lia.
    apply nadd_int. unfold safe. pose proof (Z.div_le_upper_bound i s i ltac:(lia) ltac:(nia)).
    pose proof (Z.div_pos i s ltac:(lia) ltac:(lia)). lia.
Qed.

(** The page numbers [1..c]. *)
Definition page_numbers (c : Z) : list number := int <$> seqZ 1 c.

Lemma page_rows_int {A} (items : list A) (s k : Z) :
  let n := Z.of_nat (length items) in
  1 <= s -> n + s <= 2 ^ 51 -> 1 <= k <= pages n s ->
  page_rows items (int k) (int s) =
  take (Z.to_nat s) (drop (Z.to_nat ((k - 1) * s)) items).
Proof.
  intros n Hs Hb Hk. unfold page_rows, len. fold n. rewrite pageSlice_int by lia.
  assert (granted (int k) (pages n s) = k) as ->.
  { unfold granted, int. rewrite Z.div_mul by (pose proof U_pos; lia). lia. }
  unfold slice_at. cbn [start end_].
  pose proof (pages_bound n s ltac:(lia) Hs). assert (0 <= (k - 1) * s <= n) by nia.
  rewrite array_slice_int by lia. rewrite (Z.min_l ((k - 1) * s)) by lia.
  destruct (Z.le_gt_cases ((k - 1) * s + s) n).
  - f_equal. lia.
  - rewrite !take_ge; [done|rewrite length_drop; lia..].
Qed.

Lemma chunks_concat {A} (l : list A) (s m : nat) :
  (length l <= s * m)%nat ->
  concat ((fun k => take s (drop (s * k) l)) <$> seq 0 m) = l.
Proof.
  revert l. induction m as [|m IH]; intros l Hl; simpl.
  - destruct l; [done|simpl in *; lia].
  - rewrite Nat.mul_0_r, drop_0. rewrite <- fmap_S_seq, <- list_fmap_compose.
    transitivity (take s l ++ drop s l); [|apply take_drop].
    f_equal. rewrite <- (IH (drop s l)) at 1; [|rewrite length_drop; lia].
    f_equal. apply list_fmap_ext. intros _ k _. simpl. rewrite drop_drop. do 2 f_equal. lia.
Qed.

(** Pages partition the list: drawing page 1, 2, ... up to the page count one after the other
    gives back exactly the rows of the list, in order, none missing and none twice. *)
Theorem pages_partition {A} (items : list A) (s : Z) :
  1 <= s -> Z.of_nat (length items) + s <= 2 ^ 51 ->
  concat ((fun k => page_rows items k (int s)) <$> page_numbers (pages (Z.of_nat (length items)) s))
  = items.
Proof.
  intros Hs Hb. set (n := Z.of_nat (length items)) in *. set (c := pages n s).
  pose proof (pages_pos n s). pose proof (pages_cover n s ltac:(lia) Hs).
  transitivity (concat ((fun k => take (Z.to_nat s) (drop (Z.to_nat s * k) items)) <$> seq 0 (Z.to_nat c)));
    [|apply chunks_concat; nia].
  f_equal. unfold page_numbers, seqZ. rewrite <- !list_fmap_compose.
  apply list_fmap_ext. intros i k Hk. apply lookup_seq in Hk as [-> ?]. simpl.
  rewrite page_rows_int; [|done|done|fold n; fold c; lia].
  f_equal. f_equal. lia.
Qed.

Lemma pageSlice_bounds n s wish :
  0 <= n -> 1 <= s -> n + s <= 2 ^ 51 ->
  exists k lo hi,
    pageSlice (int n) wish (int s) =
      {| page := int k; pageCount := int (pages n s); start := int lo; end_ := int hi |} /\
    1 <= k <= pages n s /\ lo = (k - 1) * s /\ 0 <= lo <= hi /\ hi <= n /\ hi - lo <= s /\
    (hi = lo <-> n = 0).
Proof.
  intros Hn Hs Hb. rewrite pageSlice_int by done.
  pose proof (pages_bound n s Hn Hs). pose proof (pages_pos n s).
  pose proof (granted_range wish (pages n s) ltac:(lia)).
  set (k := granted wish (pages n s)) in *. assert (0 <= (k - 1) * s <= n) by nia.
  exists k, ((k - 1) * s), (Z.min ((k - 1) * s + s) n). unfold slice_at.
  rewrite (Z.min_l ((k - 1) * s) n) by lia. split_and!; try done; try lia.
  split; [|lia]. intros. assert ((k - 1) * s = n) as E by lia.
  assert (k = pages n s) as Ek by nia. unfold pages in *.
  destruct (Z.eq_dec n 0); [done|].
  pose proof (Z.div_mod (n + s - 1) s ltac:(lia)).
  pose proof (Z.mod_pos_bound (n + s - 1) s ltac:(lia)). nia.
Qed.

(** Whatever page number is stored - a stale one, a fraction, NaN or an infinity - the cut that
    is drawn is a well-formed one: a page between 1 and the page count, which is at least 1, and a
    half-open range of at most [s] rows inside the list, empty only for an empty list. *)
Theorem pageSlice_total n s wish :
  0 <= n -> 1 <= s -> n + s <= 2 ^ 51 ->
  exists k lo hi,
    pageSlice (int n) wish (int s) =
      {| page := int k; pageCount := int (pages n s); start := int lo; end_ := int hi |} /\
    1 <= k <= pages n s /\ lo = (k - 1) * s /\ 0 <= lo <= hi /\ hi <= n /\ hi - lo <= s /\
    (hi = lo <-> n = 0).
Proof. apply pageSlice_bounds. Qed.

Lemma pageSlice_total_witness :
  exists k lo hi,
    pageSlice (int 95) (Inf false) (int 10) =
      {| page := int k; pageCount := int (pages 95 10); start := int lo; end_ := int hi |} /\
    1 <= k <= pages 95 10 /\ lo = (k - 1) * 10 /\ 0 <= lo <= hi /\ hi <= 95 /\ hi - lo <= 10 /\
    (hi = lo <-> 95 = 0).
Proof. apply (pageSlice_total 95 10 (Inf false)); lia. Defined.

Lemma pages_partition_witness :
  concat ((fun k => page_rows [1; 2; 3; 4; 5] k (int 2)) <$> page_numbers (pages 5 2)) = [1; 2; 3; 4; 5].
Proof. apply (pages_partition [1; 2; 3; 4; 5] 2); [lia|vm_compute; discriminate]. Defined.

(** ** The pager *)

Module Pager.
(** The three [useState] cells of [usePager]. *)
Record pager := {
  size : number;
  wish : number;
  seenKey : option jstr;
}.

Record view (A : Type) := {
  slice : PageSlice;
  total : number;
  visible : list A;
}.
Arguments slice {A}.
Arguments total {A}.
Arguments visible {A}.

Definition mount (size0 : option number) (resetKey : option jstr) : pager :=
  {| size := default DEFAULT_PAGE_SIZE size0; wish := int 1; seenKey := resetKey |}.

(** One render: a new identity of the list puts the pager back on page 1. *)
Definition render {A} (st : pager) (items : list A) (resetKey : option jstr) : pager * view A :=
  let st1 := if bool_decide (seenKey st = resetKey) then st
             else {| size := size st; wish := int 1; seenKey := resetKey |} in
  let cut := pageSlice (len items) (wish st1) (size st1) in
  (st1, {| slice := cut; total := len items;
           visible := array_slice items (start cut) (end_ cut) |}).

Definition setPage (st : pager) (p : number) : pager :=
  {| size := size st; wish := p; seenKey := seenKey st |}.

(** The handler closes over the cut of the render that made it. *)
Definition setSize {A} (v : view A) (st : pager) (next : number) : pager :=
  {| size := next; wish := pageOfIndex (start (slice v)) next; seenKey := seenKey st |}.

Lemma PAGE_SIZES_int z : z ∈ PAGE_SIZES -> exists s, z = int s /\ 10 <= s <= 100.
Proof.
  unfold PAGE_SIZES. rewrite !elem_of_cons, elem_of_nil.
  intros [->|[->|[->|[->|[]]]]]; eexists; (split; [reflexivity|lia]).
Qed.

Lemma render_same_key {A} st (items : list A) key st1 v1 :
  render st items key = (st1, v1) -> seenKey st1 = key.
Proof. unfold render. intros [= <- <-]. by case_bool_decide. Qed.

(** Changing the page size anchors, it does not reset: the row at the top of the page before
    the change is among the rows drawn after it, whatever page was wished for before. *)
Theorem setSize_keeps_anchor {A} (st : pager) (items : list A) key next st1 v1 st2 v2 :
  size st ∈ PAGE_SIZES -> next ∈ PAGE_SIZES ->
  items <> [] -> Z.of_nat (length items) <= 2 ^ 50 ->
  render st items key = (st1, v1) ->
  render (setSize v1 st1 next) items key = (st2, v2) ->
  exists lo lo' hi', start (slice v1) = int lo /\ start (slice v2) = int lo' /\
    end_ (slice v2) = int hi' /\ lo' <= lo < hi' /\ hi' <= Z.of_nat (length items).
Proof.
  intros Hsz Hnx Hne Hb H1 H2.
  pose proof (render_same_key _ _ _ _ _ H1) as Hk.
  apply PAGE_SIZES_int in Hnx as (s' & -> & Hs').
  assert (size st1 = size st) as Hsz1 by (unfold render in H1; injection H1 as <- _; by case_bool_decide).
  rewrite <- Hsz1 in Hsz. apply PAGE_SIZES_int in Hsz as (s & Es & Hs).
  set (n := Z.of_nat (length items)) in *.
  assert (0 < n) by (subst n; destruct items; [done|simpl; lia]).
  assert (slice v1 = pageSlice (int n) (wish st1) (int s)) as E1.
  { unfold render in H1. injection H1 as Est <-. cbn [slice]. rewrite Est, Es. done. }
  destruct (pageSlice_bounds n s (wish st1)) as (k & lo & hi & E & Hk1 & Hlo & Hlh & Hhi & _ & Hz); [lia..|].
  rewrite E1, E. cbn [start]. exists lo.
  assert (lo < n) by (destruct (Z.eq_dec lo n); [|lia]; assert (hi = lo) by lia; lia).
  unfold render in H2. rewrite bool_decide_eq_true_2 in H2 by done.
  injection H2 as _ <-. cbn [slice start size wish setSize]. rewrite E1, E. cbn [start].
  change (len items) with (int n).
  rewrite pageOfIndex_int, pageSlice_int by lia.
  pose proof (Z.div_mod lo s' ltac:(lia)). pose proof (Z.mod_pos_bound lo s' ltac:(lia)).
  pose proof (pages_cover n s' ltac:(lia) ltac:(lia)).
  assert (0 <= lo / s') by (apply Z.div_pos; lia).
  assert (granted (int (lo / s' + 1)) (pages n s') = lo / s' + 1) as ->.
  { unfold granted, int. rewrite Z.div_mul by (pose proof U_pos; lia).
    assert (lo / s' + 1 <= pages n s') by nia. lia. }
  unfold slice_at. cbn [start end_].
  eexists _, _. split_and!; [done|done|done|nia..].
Qed.

Lemma setSize_keeps_anchor_witness :
  let items := repeat 0 25 in
  let r1 := render (setPage (mount None None) (int 9)) items None in
  let r2 := render (setSize r1.2 r1.1 (int 20)) items None in
  exists lo lo' hi', start (slice r1.2) = int lo /\ start (slice r2.2) = int lo' /\
    end_ (slice r2.2) = int hi' /\ lo' <= lo < hi' /\ hi' <= 25.
Proof.
  intros items r1 r2.
  apply (setSize_keeps_anchor (setPage (mount None None) (int 9)) items None (int 20) r1.1 r1.2 r2.1 r2.2).
  - repeat constructor.
  - constructor. constructor.
  - discriminate.
  - vm_compute. discriminate.
  - apply surjective_pairing.
  - apply surjective_pairing.
Defined.
End Pager.
