(* ===== verification/Investigation.v ===== *)
(** Investigation Mode ([web/src/lib/investigation.ts]): the merged timeline, the threshold edges
    derived from the scope's own signals, the anomaly onset and the ranking of candidate causes. *)
From S2P Require Import Prelude JsNum JsString JsCollections JsValue JsDate JsFormat.
Local Open Scope Z_scope.

Inductive TimelineKind :=
  | K_event | K_audit | K_annotation | K_path_change | K_run | K_k8s | K_maintenance
  | K_threshold | K_alert.

#[export] Instance TimelineKind_eq_dec : EqDecision TimelineKind.
Proof. solve_decision. Defined.

(** The kinds are string literals in the source, and compare as such. *)
Definition kind_string (k : TimelineKind) : jstr :=
  match k with
  | K_event => js "event" | K_audit => js "audit" | K_annotation => js "annotation"
  | K_path_change => js "path-change" | K_run => js "run" | K_k8s => js "k8s"
  | K_maintenance => js "maintenance" | K_threshold => js "threshold" | K_alert => js "alert"
  end.

Lemma kind_string_inj k k' : kind_string k = kind_string k' -> k = k'.
Proof. destruct k, k'; vm_compute; congruence. Qed.

(** The three levels; [S_other] stands for a value from the wire that is none of them, by its text. *)
Inductive Severity := S_info | S_warn | S_error | S_other (text : jstr).

#[export] Instance Severity_eq_dec : EqDecision Severity.
Proof. solve_decision. Defined.

Record TimelineEntry := {
  at_ : date;
  kind : TimelineKind;
  severity : Severity;
  title : jstr;
  detail : option jstr;
  detailTitle : option jstr;
  ref : option (TimelineKind * jstr);
  readOnly : option bool;
  notACause : option bool;
}.

#[export] Instance TimelineEntry_eq_dec : EqDecision TimelineEntry.
Proof. solve_decision. Defined.

(** [entry.ref?.id ?? ""]. *)
Definition ref_id (e : TimelineEntry) : jstr := match ref e with Some (_, i) => i | None => [] end.

Definition compareEntries (a b : TimelineEntry) : number :=
  let byTime := (getTime (at_ a) - getTime (at_ b))%num in
  if negb (byTime =? int 0)%num then byTime
  else if negb (bool_decide (kind a = kind b)) then
    (if sltb (kind_string (kind a)) (kind_string (kind b)) then int (-1) else int 1)
  else if negb (seqb (ref_id a) (ref_id b)) then
    (if sltb (ref_id a) (ref_id b) then int (-1) else int 1)
  else int 0.

(** One pass over the sorted entries; [seen] is the nested set of refs already emitted. *)
Fixpoint dedupe (seen : list (TimelineKind * list jstr)) (l : list TimelineEntry) : list TimelineEntry :=
  match l with
  | [] => []
  | entry :: l' =>
      match ref entry with
      | Some (k, i) =>
          let ids := default [] (mget seen k) in
          if shas ids i then dedupe seen l'
          else entry :: dedupe (mset seen k (sadd ids i)) l'
      | None => entry :: dedupe seen l'
      end
  end.

Definition mergeTimeline (sources : list (list TimelineEntry)) : list TimelineEntry :=
  dedupe [] (js_sort compareEntries (concat sources)).

Record ThresholdRules := { lossPct : number; rttFactor : number }.
Definition DEFAULT_THRESHOLDS : ThresholdRules := {| lossPct := int 1; rttFactor := int 2 |}.

Record SignalSample := { s_at : date; s_loss : option number; s_rttNs : option number }.

Definition median (values : list number) : option number :=
  if (length values =? 0)%nat then None
  else
    let sorted := js_sort (fun a b => a - b)%num values in
    let mid := Nat.div2 (length sorted) in
    if Nat.odd (length sorted) then sorted !! mid
    else a ← sorted !! (mid - 1)%nat; b ← sorted !! mid; Some ((a + b) / int 2)%num.

Inductive Signal := Sig_loss | Sig_rtt.
Definition signal_string (s : Signal) : jstr := match s with Sig_loss => js "loss" | Sig_rtt => js "rtt" end.

Definition edge_string (isAbove : bool) : jstr := if isAbove then js "above" else js "recovered".

Definition crossing_entry (t : Translate) (signal : Signal) (describe : number -> jstr)
    (instant : Z) (value : number) (isAbove : bool) : TimelineEntry :=
  {| at_ := Some instant; kind := K_threshold;
     severity := if isAbove then S_warn else S_info;
     title := t (js "entry.threshold." ++ signal_string signal ++ js "." ++ edge_string isAbove) [];
     detail := Some (describe value); detailTitle := None;
     ref := Some (K_threshold,
                  signal_string signal ++ js ":" ++ edge_string isAbove ++ js ":" ++ iso_string instant);
     readOnly := None; notACause := None |}.

(** The loop of [crossings]; [above] is its state.  A sample whose instant is unreadable is skipped
    before [toISOString] could throw. *)
Fixpoint crossings (samples : list (date * number)) (threshold : number) (signal : Signal)
    (describe : number -> jstr) (t : Translate) (above : bool) : list TimelineEntry :=
  match samples with
  | [] => []
  | (None, _) :: rest => crossings rest threshold signal describe t above
  | (Some instant, value) :: rest =>
      let isAbove := (value >? threshold)%num in
      if Bool.eqb isAbove above then crossings rest threshold signal describe t above
      else crossing_entry t signal describe instant value isAbove
           :: crossings rest threshold signal describe t isAbove
  end.

Definition formatPct (ratio : number) : jstr := toFixed (ratio * int 100)%num 2 ++ js "%".
Definition formatMs (ns : number) : jstr := toFixed (ns / int 1000000)%num 2 ++ js "ms".

Definition loss_samples (ordered : list SignalSample) : list (date * number) :=
  omap (fun s => v ← s_loss s; Some (s_at s, v)) ordered.
Definition rtt_samples (ordered : list SignalSample) : list (date * number) :=
  omap (fun s => v ← s_rttNs s; Some (s_at s, v)) ordered.

Definition by_at (a b : SignalSample) : number := (getTime (s_at a) - getTime (s_at b))%num.

Definition thresholdCrossings (series : list SignalSample) (rules : ThresholdRules) (t : Translate) :
    list TimelineEntry :=
  let ordered := js_sort by_at series in
  let lossEntries :=
    crossings (loss_samples ordered) (lossPct rules / int 100)%num Sig_loss
      (fun v => t (js "entry.threshold.loss.detail")
                  [(js "value", VStr (formatPct v));
                   (js "threshold", VStr (num_to_string (lossPct rules) ++ js "%"))]) t false in
  let rttSamples := rtt_samples ordered in
  let rttEntries :=
    match median (rttSamples.*2) with
    | None => []
    | Some baseline =>
        if (baseline <=? int 0)%num then []
        else crossings rttSamples (baseline * rttFactor rules)%num Sig_rtt
               (fun v => t (js "entry.threshold.rtt.detail")
                           [(js "value", VStr (formatMs v));
                            (js "threshold", VStr (formatMs (baseline * rttFactor rules)%num));
                            (js "factor", VNum (rttFactor rules));
                            (js "median", VStr (formatMs baseline))]) t false
    end in
  mergeTimeline [lossEntries; rttEntries].

(** The loop of [anomalyOnset], over its one variable. *)
Fixpoint onset_from (onset : option date) (entries : list TimelineEntry) : option date :=
  match entries with
  | [] => onset
  | entry :: rest =>
      if negb (bool_decide (kind entry = K_threshold)) || bool_decide (severity entry = S_info)
      then onset_from onset rest
      else match onset with
           | None => onset_from (Some (at_ entry)) rest
           | Some o =>
               if (getTime (at_ entry) <? getTime o)%num then onset_from (Some (at_ entry)) rest
               else onset_from onset rest
           end
  end.

Definition anomalyOnset (entries : list TimelineEntry) : option date := onset_from None entries.

Definition CAUSE_WEIGHTS (k : TimelineKind) : number :=
  match k with
  | K_path_change => int 3 | K_k8s => int 3 | K_event => int 2 | K_audit => int 2
  | K_maintenance => int 1 | K_annotation => int 0 | K_run => int 0 | K_threshold => int 0
  | K_alert => int 0
  end.

Definition DEFAULT_CAUSE_WINDOW_SECONDS : number := int 300.

Record RankedCause := { entry : TimelineEntry; score : number }.

Definition compareRanked (a b : RankedCause) : number :=
  if negb (score a =? score b)%num then (score b - score a)%num
  else
    let byTime := (getTime (at_ (entry b)) - getTime (at_ (entry a)))%num in
    if negb (byTime =? int 0)%num then byTime
    else if negb (bool_decide (kind (entry a) = kind (entry b))) then
      (if sltb (kind_string (kind (entry a))) (kind_string (kind (entry b))) then int (-1) else int 1)
    else if negb (seqb (ref_id (entry a)) (ref_id (entry b))) then
      (if sltb (ref_id (entry a)) (ref_id (entry b)) then int (-1) else int 1)
    else int 0.

(** The seconds an entry precedes the onset by. *)
Definition delta_seconds (onsetMs : number) (e : TimelineEntry) : number :=
  ((onsetMs - getTime (at_ e)) / int 1000)%num.

(** One iteration of the ranking loop: the candidate it pushes, if any. *)
Definition rank_entry (onsetMs windowSeconds : number) (e : TimelineEntry) : option RankedCause :=
  if bool_decide (readOnly e = Some true) || bool_decide (notACause e = Some true) then None
  else
    let weight := CAUSE_WEIGHTS (kind e) in
    if (weight <=? int 0)%num then None
    else
      let deltaSeconds := delta_seconds onsetMs e in
      if (deltaSeconds <? int 0)%num || (deltaSeconds >? windowSeconds)%num then None
      else Some {| entry := e; score := (weight * (int 1 - deltaSeconds / windowSeconds))%num |}.

Definition rankCauses (entries : list TimelineEntry) (onset : date) (opt_window : option number) :
    list RankedCause :=
  let windowSeconds := default DEFAULT_CAUSE_WINDOW_SECONDS opt_window in
  if negb (isFinite windowSeconds) || (windowSeconds <=? int 0)%num then []
  else js_sort compareRanked (omap (rank_entry (getTime onset) windowSeconds) entries).

(** ** The timeline order *)

(** An entry that can be placed: its instant is readable. *)
Definition placed (e : TimelineEntry) : Prop := is_Some (at_ e).

(** What the comparator looks at. *)
Definition entry_key (e : TimelineEntry) : Z * jstr * jstr :=
  (default 0 (at_ e), kind_string (kind e), ref_id e).

Lemma compareEntries_leb a b :
  placed a -> placed b -> cmp_leb compareEntries a b = key_leb (entry_key a) (entry_key b).
Proof.
  intros [ta Ha] [tb Hb]. unfold cmp_leb, compareEntries, entry_key. rewrite Ha, Hb. cbn [getTime default id].
  rewrite nsub_int_zero. unfold key_leb.
  destruct (Z.eqb_spec ta tb) as [->|Hne]; cbn [negb].
  2:{ rewrite nsub_int_pos. simpl. destruct (Z.ltb_spec ta tb), (Z.ltb_spec tb ta); done || lia. }
  rewrite Z.ltb_irrefl. cbn [orb andb].
  case_bool_decide as Hk; cbn [negb].
  - rewrite Hk, sltb_irrefl, (proj2 (seqb_eq (kind_string _) (kind_string _))) by done. cbn [orb andb].
    destruct (seqb (ref_id a) (ref_id b)) eqn:Hi; cbn [negb].
    + apply seqb_eq in Hi. rewrite Hi, sltb_irrefl, nltb_int. done.
    + apply seqb_neq in Hi. destruct (sltb (ref_id a) (ref_id b)) eqn:F; rewrite nltb_int; simpl.
      * by rewrite (sltb_asym _ _ F).
      * destruct (sltb (ref_id b) (ref_id a)) eqn:G; [done|]. by pose proof (sltb_total _ _ F G).
  - assert (seqb (kind_string (kind a)) (kind_string (kind b)) = false) as ->.
    { apply seqb_neq. intros E. by apply kind_string_inj in E. }
    rewrite orb_false_r. destruct (sltb _ _); by rewrite nltb_int.
Qed.

Lemma timeline_total a b :
  placed a -> placed b -> cmp_leb compareEntries a b = true \/ cmp_leb compareEntries b a = true.
Proof. intros. rewrite !compareEntries_leb by done. apply key_leb_total. Qed.

Lemma timeline_trans a b c :
  placed a -> placed b -> placed c ->
  cmp_leb compareEntries a b = true -> cmp_leb compareEntries b c = true ->
  cmp_leb compareEntries a c = true.
Proof. intros Ha Hb Hc. rewrite !compareEntries_leb by done. apply key_leb_trans. Qed.

(** ** Dedupe *)

(** The refs a seen-set holds. *)
Definition seen_has (seen : list (TimelineKind * list jstr)) (r : TimelineKind * jstr) : bool :=
  shas (default [] (mget seen r.1)) r.2.

Lemma seen_has_add seen k i r :
  seen_has (mset seen k (sadd (default [] (mget seen k)) i)) r = true <->
  seen_has seen r = true \/ r = (k, i).
Proof.
  unfold seen_has. destruct r as [k' i']. cbn [fst snd].
  destruct (decide (k = k')) as [->|Hne].
  - rewrite mget_mset_eq. cbn [default id]. rewrite !shas_spec, elem_of_sadd.
    split; intros [H|H]; [by left|right; congruence|by left|right; congruence].
  - rewrite mget_mset_ne by done. split; [by left|]. intros [H|H]; [done|congruence].
Qed.

Lemma dedupe_sublist seen l : sublist (dedupe seen l) l.
Proof.
  revert seen; induction l as [|e l IH]; intros seen; simpl; [constructor|].
  destruct (ref e) as [[k i]|]; [|by apply sublist_skip].
  case_match; [by apply sublist_cons|by apply sublist_skip].
Qed.

(** Nothing is emitted whose ref was seen, and no ref is emitted twice. *)
Lemma dedupe_refs seen l :
  NoDup (omap ref (dedupe seen l)) /\ Forall (fun r => seen_has seen r = false) (omap ref (dedupe seen l)).
Proof.
  revert seen; induction l as [|e l IH]; intros seen; simpl; [split; constructor|].
  destruct (ref e) as [[k i]|] eqn:Er.
  - destruct (shas (default [] (mget seen k)) i) eqn:Hs; [apply IH|].
    simpl. rewrite Er. specialize (IH (mset seen k (sadd (default [] (mget seen k)) i))) as [H1 H2].
    rewrite Forall_forall in H2.
    assert (Hout : forall r, r ∈ omap ref (dedupe (mset seen k (sadd (default [] (mget seen k)) i)) l) ->
              seen_has seen r = false /\ r <> (k, i)).
    { intros r Hr. specialize (H2 r Hr). pose proof (seen_has_add seen k i r) as Ha. rewrite H2 in Ha.
      split; [destruct (seen_has seen r); [|done]|intros ->];
        [discriminate (proj2 Ha (or_introl eq_refl))|discriminate (proj2 Ha (or_intror eq_refl))]. }
    split.
    + constructor; [|done]. intros Hin. by apply Hout in Hin as [_ ?].
    + constructor; [done|]. rewrite Forall_forall. intros r Hr. by apply Hout.
  - simpl. rewrite Er. apply IH.
Qed.

(** Every entry is represented: by itself, or by an emitted entry of the same ref. *)
Lemma dedupe_covers seen l e :
  e ∈ l -> e ∈ dedupe seen l \/
           exists r, ref e = Some r /\ (seen_has seen r = true \/ exists e', e' ∈ dedupe seen l /\ ref e' = Some r).
Proof.
  revert seen; induction l as [|x l IH]; intros seen Hin; [by apply elem_of_nil in Hin|]. simpl.
  apply elem_of_cons in Hin as [->|Hin].
  - destruct (ref x) as [[k i]|] eqn:Er; [|left; constructor].
    destruct (shas (default [] (mget seen k)) i) eqn:Hs; [right|left; constructor].
    exists (k, i). split; [done|]. left. done.
  - destruct (ref x) as [[k i]|] eqn:Er.
    + destruct (shas (default [] (mget seen k)) i) eqn:Hs; [by apply IH|].
      destruct (IH (mset seen k (sadd (default [] (mget seen k)) i)) Hin) as [H|(r & Hr & [H|(e' & H & He')])].
      * left. by constructor.
      * right. exists r. split; [done|]. apply seen_has_add in H as [H| ->]; [by left|].
        right. exists x. split; [constructor|done].
      * right. exists r. split; [done|]. right. exists e'. split; [by constructor|done].
    + destruct (IH seen Hin) as [H|(r & Hr & [H|(e' & H & He')])].
      * left. by constructor.
      * right. exists r. split; [done|by left].
      * right. exists r. split; [done|]. right. exists e'. split; [by constructor|done].
Qed.

(** The kept representative of a ref comes first among the entries that carry it. *)
Lemma dedupe_first (R : TimelineEntry -> TimelineEntry -> Prop) seen l e e' r :
  (forall x, R x x) -> StronglySorted R l -> e ∈ l -> ref e = Some r ->
  e' ∈ dedupe seen l -> ref e' = Some r -> R e' e.
Proof.
  intros Hrefl. revert seen; induction l as [|x l IH]; intros seen Hs He Hre He' Hre'.
  - by apply elem_of_nil in He.
  - inversion Hs as [|?? Hs' Hf]; subst. rewrite Forall_forall in Hf. simpl in He'.
    destruct (decide (e' = x)) as [->|Hne'].
    { apply elem_of_cons in He as [->|He]; [done|]. by apply Hf. }
    assert (Htail : exists seen', e' ∈ dedupe seen' l /\
              (ref x = Some r -> seen_has seen' r = true)).
    { destruct (ref x) as [[k i]|] eqn:Er.
      - destruct (shas (default [] (mget seen k)) i) eqn:Hsh.
        + exists seen. split; [done|]. by intros [= <-].
        + apply elem_of_cons in He' as [?|He']; [done|].
          eexists. split; [exact He'|]. intros [= <-]. apply seen_has_add. by right.
      - apply elem_of_cons in He' as [?|He']; [done|]. exists seen. split; [done|]. done. }
    destruct Htail as (seen' & Hin' & Hseen).
    apply elem_of_cons in He as [->|He]; [|by eapply IH].
    specialize (Hseen Hre). pose proof (proj2 (dedupe_refs seen' l)) as Hnone.
    rewrite Forall_forall in Hnone. rewrite Hnone in Hseen; [done|].
    apply list_elem_of_omap. eauto.
Qed.

Lemma seen_has_nil r : seen_has [] r = false.
Proof. unfold seen_has. simpl. apply bool_decide_eq_false. apply not_elem_of_nil. Qed.

Lemma merge_sorted sources :
  Forall placed (concat sources) ->
  StronglySorted (fun a b => cmp_leb compareEntries a b = true) (js_sort compareEntries (concat sources)).
Proof. intros H. apply (sort_leb_sorted _ placed timeline_total timeline_trans). done. Qed.

Definition instant (e : TimelineEntry) : Z := default 0 (at_ e).

Lemma compareEntries_instant a b :
  placed a -> placed b -> cmp_leb compareEntries a b = true -> instant a <= instant b.
Proof.
  intros Ha Hb. rewrite compareEntries_leb by done. unfold entry_key. rewrite key_leb_spec.
  unfold instant. lia.
Qed.

Lemma merge_facts sources :
  Forall placed (concat sources) ->
  StronglySorted (fun a b => instant a <= instant b) (mergeTimeline sources) /\
  NoDup (omap ref (mergeTimeline sources)) /\
  (forall e, e ∈ mergeTimeline sources -> e ∈ concat sources) /\
  (forall e, e ∈ concat sources -> ref e = None -> e ∈ mergeTimeline sources) /\
  (forall e r, e ∈ concat sources -> ref e = Some r ->
     exists e', e' ∈ mergeTimeline sources /\ ref e' = Some r /\ instant e' <= instant e).
Proof.
  intros Hp. pose proof (merge_sorted sources Hp) as Hs. unfold mergeTimeline.
  set (l := js_sort compareEntries (concat sources)) in *.
  assert (Hperm : forall e, e ∈ l <-> e ∈ concat sources) by (intros e; apply elem_of_sort_leb).
  assert (Hl : forall e, e ∈ l -> placed e) by (intros e ?%Hperm; rewrite Forall_forall in Hp; auto).
  assert (Htime : StronglySorted (fun a b => instant a <= instant b) l).
  { clear Hperm Hp. induction Hs as [|x l' Hs IH Hf]; constructor.
    - apply IH. intros e He. apply Hl. by constructor.
    - rewrite Forall_forall in *. intros y Hy. apply compareEntries_instant; [apply Hl; constructor| |by apply Hf].
      apply Hl. by constructor. }
  assert (Hin : forall e, e ∈ dedupe [] l -> e ∈ l).
  { intros e He. eapply elem_of_sublist; [exact He|apply dedupe_sublist]. }
  split_and!.
  - eapply StronglySorted_sublist; [apply dedupe_sublist|done].
  - apply dedupe_refs.
  - intros e He. by apply Hperm, Hin.
  - intros e He%Hperm Hr. destruct (dedupe_covers [] l e He) as [?|(r & ? & _)]; congruence.
  - intros e r He%Hperm Hr.
    assert (exists e', e' ∈ dedupe [] l /\ ref e' = Some r) as (e' & He' & Hr').
    { destruct (dedupe_covers [] l e He) as [?|(r' & E & [H|H])]; [eauto|..].
      - by rewrite seen_has_nil in H.
      - assert (r' = r) as -> by congruence. done. }
    exists e'. split_and!; [done|done|].
    eapply (dedupe_first (fun a b => instant a <= instant b)); [intros; lia|exact Htime|..]; done.
Qed.

(** C3: The merged timeline is ascending in time, carries no ref twice, invents nothing, keeps every
    entry without a ref, and keeps for every ref an entry at least as early as each one that was
    handed in with it. *)
Theorem mergeTimeline_spec sources :
  Forall placed (concat sources) ->
  StronglySorted (fun a b => instant a <= instant b) (mergeTimeline sources) /\
  NoDup (omap ref (mergeTimeline sources)) /\
  (forall e, e ∈ mergeTimeline sources -> e ∈ concat sources) /\
  (forall e, e ∈ concat sources -> ref e = None -> e ∈ mergeTimeline sources) /\
  (forall e r, e ∈ concat sources -> ref e = Some r ->
     exists e', e' ∈ mergeTimeline sources /\ ref e' = Some r /\ instant e' <= instant e).
Proof. apply merge_facts. Qed.

(** The page renders the same timeline whichever source answered first: for any two orders of
    the same entries the result is identical, as long as entries that agree on instant, kind and
    ref id are the same fact. *)
Theorem mergeTimeline_deterministic s1 s2 :
  Forall placed (concat s1) -> concat s1 ≡ₚ concat s2 ->
  (forall a b, a ∈ concat s1 -> b ∈ concat s1 -> entry_key a = entry_key b -> a = b) ->
  mergeTimeline s1 = mergeTimeline s2.
Proof.
  intros Hp Hperm Hkey. unfold mergeTimeline. f_equal.
  apply (sort_leb_canonical _ (fun e => placed e /\ e ∈ concat s1)).
  - intros x y [? _] [? _]. by apply timeline_total.
  - intros x y z [? _] [? _] [? _]. by apply timeline_trans.
  - intros x y [Hx ?] [Hy ?]. rewrite !compareEntries_leb by done. intros. apply Hkey; [done|done|].
    by apply key_leb_antisym.
  - rewrite Forall_forall in *. auto.
  - done.
Qed.

(** ** Threshold edges *)

(** The severities an edge-triggered series shows: above, recovered, above, ... *)
Fixpoint alternating (above : bool) (l : list Severity) : Prop :=
  match l with
  | [] => True
  | s :: l' => s = (if above then S_info else S_warn) /\ alternating (negb above) l'
  end.

(** The timeline carries edges, not levels: the entries of one signal alternate between "above"
    and "recovered", beginning with "above". *)
Theorem crossings_alternate samples threshold signal describe t :
  alternating false (severity <$> crossings samples threshold signal describe t false).
Proof.
  enough (G : forall above, alternating above (severity <$> crossings samples threshold signal describe t above))
    by apply G.
  induction samples as [|[[i|] v] rest IH]; intros above; simpl; [done| |apply IH].
  destruct (threshold <? v)%num, above; simpl; try apply IH; (split; [done|]); apply IH.
Qed.

(** The instants at which a series is above its threshold. *)
Definition above_instants (samples : list (date * number)) (threshold : number) : list Z :=
  omap (fun '(d, v) => if (v >? threshold)%num then d else None) samples.

Lemma crossings_sound samples threshold signal describe t above e :
  e ∈ crossings samples threshold signal describe t above ->
  exists i v, (Some i, v) ∈ samples /\ e = crossing_entry t signal describe i v (v >? threshold)%num.
Proof.
  assert (Hstep : forall rest s0 i v,
    (exists i' v', (Some i', v') ∈ rest /\ e = crossing_entry t signal describe i' v' (v' >? threshold)%num) ->
    s0 = (i, v) -> exists i' v', (Some i', v') ∈ s0 :: rest /\
      e = crossing_entry t signal describe i' v' (v' >? threshold)%num).
  { intros rest s0 i v (i' & v' & Hin & ->) _. exists i', v'. split; [by constructor|done]. }
  revert above; induction samples as [|[[i|] v] rest IH]; intros above He; simpl in He; [set_solver|..].
  - destruct (Bool.eqb _ above); [by eapply Hstep; eauto|].
    apply elem_of_cons in He as [->|He]; [exists i, v; split; [constructor|done]|by eapply Hstep; eauto].
  - by eapply Hstep; eauto.
Qed.

(** In time order the first instant above the threshold is an edge. *)
Lemma crossings_first samples threshold signal describe t :
  StronglySorted (fun a b => default 0 a.1 <= default 0 b.1) samples ->
  Forall (fun s => is_Some s.1) samples ->
  above_instants samples threshold <> [] ->
  exists i v, (v >? threshold)%num = true /\
    crossing_entry t signal describe i v true ∈ crossings samples threshold signal describe t false /\
    Forall (fun x => i <= x) (above_instants samples threshold).
Proof.
  induction samples as [|[[i|] v] rest IH]; intros Hs Hp Hne; [done| |by inversion Hp as [|?? [? ?]]].
  inversion Hs as [|?? Hs' Hf]; inversion Hp as [|?? _ Hp']; subst. simpl in Hne |- *.
  destruct (threshold <? v)%num eqn:E; simpl.
  - exists i, v. rewrite E. simpl. split_and!; [done|constructor|]. constructor; [lia|].
    rewrite Forall_forall in Hf. apply Forall_forall. intros x Hx. unfold above_instants in Hx.
    apply list_elem_of_omap in Hx as ([d w] & Hin & Hx). destruct (threshold <? w)%num; [|done]. subst d.
    apply (Hf _ Hin).
  - destruct (IH Hs' Hp' Hne) as (i' & v' & ? & Hin & Hall). exists i', v'. done.
Qed.

Lemma edge_id_inj s b i s' b' i' :
  in_time_range i -> in_time_range i' ->
  signal_string s ++ js ":" ++ edge_string b ++ js ":" ++ iso_string i =
  signal_string s' ++ js ":" ++ edge_string b' ++ js ":" ++ iso_string i' ->
  s = s' /\ b = b' /\ i = i'.
Proof.
  intros Hi Hi'. destruct s, b, s', b'; simpl; intros [= E]; split_and!; try done;
    by apply iso_string_inj.
Qed.

(** An entry the onset counts. *)
Definition counts (e : TimelineEntry) : bool :=
  bool_decide (kind e = K_threshold) && negb (bool_decide (severity e = S_info)).

(** The update of the loop on an entry that counts. *)
Definition earlier (onset : option date) (e : TimelineEntry) : option date :=
  match onset with
  | None => Some (at_ e)
  | Some o => if (getTime (at_ e) <? getTime o)%num then Some (at_ e) else onset
  end.

Lemma onset_from_filter entries onset :
  onset_from onset entries = fold_left earlier (List.filter counts entries) onset.
Proof.
  revert onset; induction entries as [|e rest IH]; intros onset; simpl; [done|].
  unfold counts at 1. destruct (bool_decide (kind e = _)), (bool_decide (severity e = _)); simpl; try apply IH.
  rewrite <- !IH. unfold earlier. by repeat case_match.
Qed.

Lemma fold_earlier l t :
  Forall placed l ->
  fold_left earlier l (Some (Some t)) = Some (Some (fold_left Z.min (instant <$> l) t)).
Proof.
  intros Hl; revert t; induction Hl as [|e l [te He] Hl IH]; intros t; simpl; [done|].
  unfold instant. rewrite He. cbn [getTime default id]. rewrite nltb_int.
  destruct (Z.ltb_spec te t); rewrite IH; do 3 f_equal; lia.
Qed.

Lemma anomalyOnset_spec entries :
  Forall placed entries ->
  match anomalyOnset entries with
  | None => Forall (fun e => counts e = false) entries
  | Some o => exists m, o = Some m /\ (exists e, e ∈ entries /\ counts e = true /\ instant e = m) /\
                Forall (fun e => counts e = true -> m <= instant e) entries
  end.
Proof.
  intros Hp. unfold anomalyOnset. rewrite onset_from_filter.
  assert (Hin : forall e, e ∈ List.filter counts entries <-> e ∈ entries /\ counts e = true)
    by (intros; rewrite !list_elem_of_In; apply filter_In).
  destruct (List.filter counts entries) as [|e l] eqn:E; simpl.
  - rewrite Forall_forall. intros e He. destruct (counts e) eqn:Ce; [|done].
    assert (e ∈ []) as Hn by by apply Hin. by apply elem_of_nil in Hn.
  - assert (Hel : Forall placed (e :: l)).
    { rewrite Forall_forall in *. intros x Hx. apply Hp. by apply Hin in Hx as [? _]. }
    inversion Hel as [|?? [te He] Hl]; subst. rewrite He, fold_earlier by done.
    destruct (fold_min_spec (instant <$> l) te) as [Hm Hle]. eexists. split; [done|]. split.
    + destruct Hm as [->|(x & -> & Hx)%list_elem_of_fmap].
      * exists e. destruct (proj1 (Hin e) ltac:(constructor)). split_and!; [done|done|].
        unfold instant. by rewrite He.
      * exists x. destruct (proj1 (Hin x) ltac:(by constructor)). done.
    + rewrite Forall_forall in *. intros x Hx Cx. assert (x ∈ e :: l) as Hxl by by apply Hin.
      apply elem_of_cons in Hxl as [->|Hxl]; [unfold instant; rewrite He; apply (proj1 Hle)|].
      apply (proj2 Hle). by apply list_elem_of_fmap_2.
Qed.

(** ** The onset of a scope's own signals *)

Definition timed (s : SignalSample) : Prop := exists t, s_at s = Some t /\ in_time_range t.

Lemma by_at_leb a b :
  timed a -> timed b -> cmp_leb by_at a b = (default 0 (s_at a) <=? default 0 (s_at b)).
Proof.
  intros (ta & Ha & _) (tb & Hb & _). unfold cmp_leb, by_at. rewrite Ha, Hb. cbn [getTime default id].
  rewrite nsub_int_pos. lia.
Qed.

Lemma series_sorted series :
  Forall timed series ->
  StronglySorted (fun a b => default 0 (s_at a) <= default 0 (s_at b)) (js_sort by_at series).
Proof.
  intros H. assert (Hs : StronglySorted (fun a b => cmp_leb by_at a b = true) (js_sort by_at series)).
  { apply (sort_leb_sorted _ timed); [| |done]; intros *; repeat intros ?; rewrite !by_at_leb in * by done; lia. }
  assert (Ht : Forall timed (js_sort by_at series)) by (unfold js_sort; by rewrite sort_leb_perm).
  revert Ht. induction Hs as [|x l Hs IH Hf]; intros Ht; constructor; inversion Ht; subst; [auto|].
  rewrite Forall_forall in *. intros y Hy. specialize (Hf y Hy). rewrite by_at_leb in Hf by auto. lia.
Qed.

(** The samples of one signal inherit the order and the readable instants of the series. *)
Lemma signal_samples_ordered (f : SignalSample -> option number) l :
  StronglySorted (fun a b => default 0 (s_at a) <= default 0 (s_at b)) l -> Forall timed l ->
  let samples := omap (fun s => v ← f s; Some (s_at s, v)) l in
  StronglySorted (fun a b : date * number => default 0 a.1 <= default 0 b.1) samples /\
  Forall (fun s : date * number => exists t, s.1 = Some t /\ in_time_range t) samples.
Proof.
  intros Hs Ht. induction Hs as [|x l Hs IH Hf]; simpl; [split; constructor|].
  inversion Ht as [|?? Hx Hl]; subst. destruct (IH Hl) as [H1 H2].
  destruct (f x) as [v|]; simpl; [|done]. split; constructor; try done.
  foralls. intros [d w] Hin.
  apply list_elem_of_omap in Hin as (y & Hy & E). destruct (f y); simpl in E; [|done].
  injection E as <- _. by apply Hf.
Qed.

(** The two signals of an investigation with the thresholds they are held to. *)
Definition loss_above (series : list SignalSample) (rules : ThresholdRules) : list Z :=
  above_instants (loss_samples (js_sort by_at series)) (lossPct rules / int 100)%num.

Definition rtt_above (series : list SignalSample) (rules : ThresholdRules) : list Z :=
  let samples := rtt_samples (js_sort by_at series) in
  match median (samples.*2) with
  | None => []
  | Some baseline => if (baseline <=? int 0)%num then []
                     else above_instants samples (baseline * rttFactor rules)%num
  end.

(** What a list of edges [E] says about the instants [A] above the threshold. *)
Definition edges_of (E : list TimelineEntry) (A : list Z) : Prop :=
  (forall e, e ∈ E -> exists s b i,
     at_ e = Some i /\ in_time_range i /\ counts e = b /\ (b = true -> i ∈ A) /\
     ref e = Some (K_threshold,
                   signal_string s ++ js ":" ++ edge_string b ++ js ":" ++ iso_string i)) /\
  (forall x, x ∈ A -> exists e, e ∈ E /\ counts e = true /\ instant e <= x).

Lemma edges_of_app E1 A1 E2 A2 : edges_of E1 A1 -> edges_of E2 A2 -> edges_of (E1 ++ E2) (A1 ++ A2).
Proof.
  intros [H1 H1'] [H2 H2']. split.
  - intros e [He|He]%elem_of_app; [destruct (H1 e He) as (s & b & i & ? & ? & ? & ? & ?)
                                  |destruct (H2 e He) as (s & b & i & ? & ? & ? & ? & ?)];
      exists s, b, i; split_and!; try done; intros; apply elem_of_app; auto.
  - intros x [Hx|Hx]%elem_of_app; [destruct (H1' x Hx) as (e & ? & ? & ?)|destruct (H2' x Hx) as (e & ? & ? & ?)];
      exists e; (split_and!; [apply elem_of_app|done|done]); auto.
Qed.

Lemma crossings_edges_of samples threshold signal describe t :
  StronglySorted (fun a b : date * number => default 0 a.1 <= default 0 b.1) samples ->
  Forall (fun s : date * number => exists i, s.1 = Some i /\ in_time_range i) samples ->
  edges_of (crossings samples threshold signal describe t false) (above_instants samples threshold).
Proof.
  intros Hs Ht. split.
  - intros e He. destruct (crossings_sound _ _ _ _ _ _ _ He) as (i & v & Hin & ->).
    rewrite Forall_forall in Ht. destruct (Ht _ Hin) as (i' & [= <-] & Hi).
    exists signal, (v >? threshold)%num, i. split_and!; try done.
    + unfold counts. simpl. by destruct (threshold <? v)%num.
    + intros Hv. unfold above_instants. apply list_elem_of_omap. exists (Some i, v). by rewrite Hv.
  - intros x Hx. destruct (crossings_first samples threshold signal describe t Hs) as (i & v & Hv & Hin & Hf).
    + eapply Forall_impl; [exact Ht|]. intros [d w] (i & ? & _). simpl in *. by exists i.
    + intros E. by rewrite E in Hx; apply elem_of_nil in Hx.
    + rewrite Forall_forall in Hf. eexists. split; [exact Hin|]. split; [done|]. by apply Hf.
Qed.

(** The onset of a merged timeline of edges is the earliest instant above a threshold. *)
Lemma onset_of_edges E1 E2 A :
  edges_of (E1 ++ E2) A ->
  match anomalyOnset (mergeTimeline [E1; E2]) with
  | None => A = []
  | Some o => exists m, o = Some m /\ m ∈ A /\ Forall (fun x => m <= x) A
  end.
Proof.
  intros [Hedge Habove].
  assert (Hcat : concat [E1; E2] = E1 ++ E2) by (simpl; by rewrite app_nil_r).
  assert (Hp : Forall placed (concat [E1; E2])).
  { rewrite Hcat. apply Forall_forall. intros e He. destruct (Hedge e He) as (?&?&i&Hi&_). by exists i. }
  destruct (merge_facts _ Hp) as (_ & _ & Hin & _ & Hrep). rewrite Hcat in Hin, Hrep.
  assert (Hrep' : forall x, x ∈ A ->
            exists e, e ∈ mergeTimeline [E1; E2] /\ counts e = true /\ instant e <= x).
  { intros x Hx. destruct (Habove x Hx) as (e & He & Hc & Hle).
    destruct (Hedge e He) as (s & b & i & Hat & Hr & Hb & _ & Href).
    destruct (Hrep e _ He Href) as (e' & He' & Href' & Hle').
    destruct (Hedge e' (Hin _ He')) as (s' & b' & i' & _ & Hr' & Hb' & _ & Href'').
    rewrite Href'' in Href'. injection Href' as Heq.
    apply edge_id_inj in Heq as (_ & -> & _); [|done|done].
    exists e'. split_and!; [done|congruence|lia]. }
  assert (Hpm : Forall placed (mergeTimeline [E1; E2])).
  { apply Forall_forall. intros e He%Hin. destruct (Hedge e He) as (?&?&i&Hi&_). by exists i. }
  pose proof (anomalyOnset_spec _ Hpm) as Hon.
  destruct (anomalyOnset (mergeTimeline [E1; E2])) as [o|].
  - destruct Hon as (m & -> & (e & He & Hc & Hm) & Hf). exists m. split_and!; [done| |].
    + destruct (Hedge e (Hin _ He)) as (_ & b & i & Hat & _ & Hb & HA & _).
      unfold instant in Hm. rewrite Hat in Hm. simpl in Hm. subst i. apply HA. congruence.
    + apply Forall_forall. intros x Hx. rewrite Forall_forall in Hf. destruct (Hrep' x Hx) as (e' & He' & Hc' & Hle).
      specialize (Hf e' He' Hc'). lia.
  - destruct A as [|x l]; [done|]. exfalso.
    destruct (Hrep' x ltac:(constructor)) as (e & He & Hc & _).
    rewrite Forall_forall in Hon. specialize (Hon e He). congruence.
Qed.

(** The onset is what its name says: for readable instants it is the earliest sample, of either
    signal, that lies above its threshold, and there is none exactly when no sample does. *)
Theorem onset_is_first_above series rules t :
  Forall timed series ->
  match anomalyOnset (thresholdCrossings series rules t) with
  | None => loss_above series rules ++ rtt_above series rules = []
  | Some o => exists m, o = Some m /\ m ∈ loss_above series rules ++ rtt_above series rules /\
                Forall (fun x => m <= x) (loss_above series rules ++ rtt_above series rules)
  end.
Proof.
  intros Ht. pose proof (series_sorted series Ht) as Hs.
  assert (Ht' : Forall timed (js_sort by_at series)) by (unfold js_sort; by rewrite sort_leb_perm).
  apply onset_of_edges. unfold loss_above, rtt_above. cbv zeta. apply edges_of_app.
  - destruct (signal_samples_ordered s_loss _ Hs Ht'). by apply crossings_edges_of.
  - destruct (median _) as [b|]; [|by split; set_solver].
    destruct (b <=? int 0)%num; [by split; set_solver|].
    destruct (signal_samples_ordered s_rttNs _ Hs Ht'). by apply crossings_edges_of.
Qed.

(** ** The ranking of candidate causes *)

Definition score_units (c : RankedCause) : Z := match score c with Fin z => z | _ => 0 end.

(** A candidate the comparator orders totally. *)
Definition scored (c : RankedCause) : Prop := (exists z, score c = Fin z) /\ placed (entry c).

Definition cause_key (c : RankedCause) : Z * jstr * jstr :=
  (- instant (entry c), kind_string (kind (entry c)), ref_id (entry c)).

Lemma compareRanked_leb a b :
  scored a -> scored b ->
  cmp_leb compareRanked a b =
    (score_units b <? score_units a) ||
    ((score_units a =? score_units b) && key_leb (cause_key a) (cause_key b)).
Proof.
  intros [[x Ha] Pa] [[y Hb] Pb]. pose proof (compareEntries_leb (entry a) (entry b) Pa Pb) as K.
  destruct Pa as [ta Hta], Pb as [tb Htb].
  unfold cmp_leb, compareRanked, compareEntries, cause_key, entry_key, score_units, instant in *.
  rewrite Ha, Hb, Hta, Htb in *. cbn [getTime default id] in *.
  change (Fin x =? Fin y)%num with (x =? y).
  destruct (Z.eqb_spec x y) as [->|Hne]; cbn [negb].
  - rewrite Z.ltb_irrefl. cbn [orb andb]. rewrite nsub_int_zero in *. unfold key_leb in *.
    destruct (Z.eqb_spec ta tb) as [->|Ht].
    + rewrite !Z.eqb_refl, !Z.ltb_irrefl in *. cbn [negb orb andb] in *. exact K.
    + rewrite (proj2 (Z.eqb_neq tb ta)) by lia. cbn [negb]. rewrite nsub_int_pos.
      destruct (Z.ltb_spec ta tb), (Z.ltb_spec (- ta) (- tb)), (Z.eqb_spec (- ta) (- tb)); done || lia.
  - rewrite (proj1 (nsub_sign y x)). cbn [andb]. rewrite orb_false_r. lia.
Qed.

Lemma ranked_sorted l :
  Forall scored l -> StronglySorted (fun a b => score_units b <= score_units a) (js_sort compareRanked l).
Proof.
  intros H.
  assert (Hs : StronglySorted (fun a b => cmp_leb compareRanked a b = true) (js_sort compareRanked l)).
  { apply (sort_leb_sorted _ scored); [| |done].
    - intros a b Pa Pb. rewrite !compareRanked_leb by done.
      destruct (key_leb_total (cause_key a) (cause_key b)) as [K|K]; rewrite K;
        destruct (Z.ltb_spec (score_units a) (score_units b)), (Z.ltb_spec (score_units b) (score_units a)),
          (Z.eqb_spec (score_units a) (score_units b)), (Z.eqb_spec (score_units b) (score_units a)); auto; lia.
    - intros a b c Pa Pb Pc. rewrite !compareRanked_leb by done.
      rewrite !orb_true_iff, !andb_true_iff, !Z.ltb_lt, !Z.eqb_eq.
      intros [Hab|[Hab Kab]] [Hbc|[Hbc Kbc]]; [left; lia..|]. right. split; [lia|].
      by eapply key_leb_trans. }
  assert (Ht : Forall scored (js_sort compareRanked l)) by (unfold js_sort; by rewrite sort_leb_perm).
  revert Ht. induction Hs as [|x l' Hs IH Hf]; intros Ht; constructor; inversion Ht; subst; [auto|].
  rewrite Forall_forall in *. intros y Hy. specialize (Hf y Hy). rewrite compareRanked_leb in Hf by auto. lia.
Qed.

(** The candidates of a window: what is eligible at all, and how long before the onset. *)
Definition eligible (e : TimelineEntry) : Prop :=
  readOnly e <> Some true /\ notACause e <> Some true /\ CAUSE_WEIGHTS (kind e) <> int 0.

Lemma cause_weight e : exists w, CAUSE_WEIGHTS (kind e) = int w /\ 0 <= w <= 3.
Proof. destruct (kind e); eexists; (split; [reflexivity|lia]). Qed.

(** The window test on the rounded seconds is the test on the exact milliseconds. *)
Lemma delta_window o i w :
  1 <= w <= 2 ^ 32 ->
  let d := ((int o - int i) / int 1000)%num in
  if (0 <=? o - i) && (o - i <=? 1000 * w)
  then exists z, d = Fin z /\ 0 <= z <= w * U
  else (d <? int 0)%num || (d >? int w)%num = true.
Proof.
  intros Hw d. subst d. destruct (Z.leb_spec 0 (o - i)) as [H0|H0]; cbn [andb].
  - destruct (Z.leb_spec (o - i) (1000 * w)) as [H1|H1].
    + rewrite nsub_int by (unfold safe; lia). change (int (o - i)) with (Fin ((o - i) * U)).
      destruct (ndiv_int_between ((o - i) * U) 1000 0 w) as (z & -> & Hz); try (unfold safe; lia).
      { pose proof U_pos. nia. }
      exists z. split; [done|lia].
    + apply orb_true_intro. right. apply ndiv_gt; [lia..|].
      apply nsub_int_ge; [unfold safe; lia|lia].
  - apply orb_true_intro. left. apply ndiv_lt_0; [lia|]. apply nsub_int_le; [unfold safe; lia|lia].
Qed.

(** What the loop decides about one entry, in exact arithmetic. *)
Lemma rank_entry_spec o w e :
  placed e -> 1 <= w <= 2 ^ 32 ->
  match rank_entry (int o) (int w) e with
  | Some c => entry c = e /\ eligible e /\ 0 <= o - instant e <= 1000 * w /\
              exists z k, score c = Fin z /\ CAUSE_WEIGHTS (kind e) = int k /\ 0 <= z <= k * U
  | None => ~ (eligible e /\ 0 <= o - instant e <= 1000 * w)
  end.
Proof.
  intros [i Hi] Hw. unfold rank_entry, eligible, instant, delta_seconds. rewrite Hi. cbn [default id getTime].
  destruct (cause_weight e) as (k & Hk & Hk3). rewrite Hk.
  case_bool_decide as H1; cbn [orb]; [by intros [(? & _) _]|].
  case_bool_decide as H2; [by intros [(_ & ? & _) _]|].
  rewrite nleb_int. destruct (Z.leb_spec k 0).
  { intros [(_ & _ & H3) _]. apply H3. f_equal. lia. }
  pose proof (delta_window o i w Hw) as Hd. cbv zeta in Hd.
  destruct ((0 <=? o - i) && (o - i <=? 1000 * w)) eqn:Hin.
  2:{ rewrite Hd. intros [_ ?]. lia. }
  destruct Hd as (z & -> & Hz). pose proof U_pos.
  change (int 0) with (Fin 0). unfold int at 1. cbn [nltb].
  rewrite (proj2 (Z.ltb_ge z 0)), (proj2 (Z.ltb_ge (w * U) z)) by lia. cbn [orb entry score].
  split_and!; try done; [intros [= ?]; nia|lia|lia|].
  destruct (ndiv_int_between z w 0 1) as (q & -> & Hq); [lia|unfold safe; lia..|].
  destruct (nsub_between (1 * U) q 0 1) as (r & Er & Hr); [unfold safe; lia..|].
  change (int 1) with (Fin (1 * U)). rewrite Er.
  destruct (nmul_int_between k r 0 k) as (s & -> & Hs); [unfold safe; lia..|nia|].
  exists s, k. split_and!; [done|done|lia|lia].
Qed.

(** C34: The candidate list is exactly the eligible entries (no reads, no self-inflicted rows, a
    positive weight) that precede the onset by at most the window, to the millisecond; every score
    lies between 0 and the weight of the entry's kind, and the list descends by score. *)
Theorem rankCauses_spec entries o w :
  Forall placed entries -> 1 <= w <= 2 ^ 32 ->
  let ranked := rankCauses entries (Some o) (Some (int w)) in
  (forall e, e ∈ (entry <$> ranked) <->
     e ∈ entries /\ eligible e /\ o - 1000 * w <= instant e <= o) /\
  Forall (fun c => exists k, CAUSE_WEIGHTS (kind (entry c)) = int k /\
            score c = Fin (score_units c) /\ 0 <= score_units c <= k * U) ranked /\
  StronglySorted (fun a b => score_units b <= score_units a) ranked.
Proof.
  intros Hp Hw ranked. subst ranked. unfold rankCauses. cbn [default id getTime].
  change (isFinite (int w)) with true. rewrite nleb_int, (proj2 (Z.leb_gt w 0)) by lia. cbn [negb orb].
  set (l := omap (rank_entry (int o) (int w)) entries).
  assert (Hl : forall c, c ∈ l -> entry c ∈ entries /\ rank_entry (int o) (int w) (entry c) = Some c).
  { intros c (e & He & Hr)%list_elem_of_omap. pose proof (rank_entry_spec o w e) as S. rewrite Hr in S.
    rewrite Forall_forall in Hp. destruct (S (Hp e He) Hw) as (-> & _). done. }
  assert (Hspec : forall c, c ∈ l -> _) by
    (intros c Hc; destruct (Hl c Hc) as [He Hr]; rewrite Forall_forall in Hp;
     pose proof (rank_entry_spec o w _ (Hp _ He) Hw) as S; rewrite Hr in S; exact S).
  split_and!.
  - intros e. rewrite list_elem_of_fmap. split.
    + intros (c & -> & Hc). apply elem_of_sort_leb in Hc. destruct (Hl c Hc) as [He _].
      destruct (Hspec c Hc) as (_ & Hel & Ht & _). split_and!; try done; lia.
    + intros (He & Hel & Ht). rewrite Forall_forall in Hp.
      pose proof (rank_entry_spec o w e (Hp e He) Hw) as S.
      destruct (rank_entry (int o) (int w) e) as [c|] eqn:Hr; [|destruct S; split; [done|lia]].
      exists c. split; [symmetry; apply S|]. apply elem_of_sort_leb, list_elem_of_omap. eauto.
  - apply Forall_forall. intros c Hc. apply elem_of_sort_leb in Hc.
    destruct (Hspec c Hc) as (_ & _ & _ & z & k & Hz & Hk & Hb). exists k. unfold score_units. rewrite Hz.
    split_and!; [done|done|lia|lia].
  - apply ranked_sorted, Forall_forall. intros c Hc. destruct (Hl c Hc) as [He _].
    destruct (Hspec c Hc) as (_ & _ & _ & z & _ & Hz & _). split; [by exists z|].
    rewrite Forall_forall in Hp. by apply Hp.
Qed.

(** ** Witnesses *)

(** Two sources that report the same audit fact, and an event between them. *)
Definition sample_entry (t : Z) (k : TimelineKind) (i : jstr) : TimelineEntry :=
  {| at_ := Some t; kind := k; severity := S_warn; title := []; detail := None; detailTitle := None;
     ref := Some (k, i); readOnly := None; notACause := None |}.

Definition sample_sources : list (list TimelineEntry) :=
  [[sample_entry 2000 K_audit (js "a"); sample_entry 1000 K_event (js "b")];
   [sample_entry 2000 K_audit (js "a"); sample_entry 3000 K_k8s (js "c")]].

Definition sample_series : list SignalSample :=
  (fun p : Z * number => {| s_at := Some p.1; s_loss := Some p.2; s_rttNs := None |}) <$>
    [(3000, int 1); (1000, int 0); (2000, int 1)].

Lemma sample_placed : Forall placed (concat sample_sources).
Proof. repeat constructor; eexists; reflexivity. Qed.

Lemma mergeTimeline_spec_witness :
  length (mergeTimeline sample_sources) = 3%nat /\
  StronglySorted (fun a b => instant a <= instant b) (mergeTimeline sample_sources).
Proof. split; [vm_compute; reflexivity|]. apply (mergeTimeline_spec sample_sources). apply sample_placed. Defined.

Lemma mergeTimeline_deterministic_witness :
  mergeTimeline sample_sources = mergeTimeline (reverse sample_sources).
Proof.
  apply (mergeTimeline_deterministic sample_sources (reverse sample_sources)).
  - apply sample_placed.
  - apply (Permutation_app_comm [_; _] [_; _]).
  - intros a b Ha Hb. simpl in Ha, Hb.
    repeat (apply elem_of_cons in Ha as [->|Ha]); [..|by apply elem_of_nil in Ha].
    all: repeat (apply elem_of_cons in Hb as [->|Hb]); [..|by apply elem_of_nil in Hb]; done.
Defined.

Lemma onset_is_first_above_witness :
  anomalyOnset (thresholdCrossings sample_series DEFAULT_THRESHOLDS (fun k _ => k)) = Some (Some 2000) /\
  Forall (fun x => 2000 <= x)
    (loss_above sample_series DEFAULT_THRESHOLDS ++ rtt_above sample_series DEFAULT_THRESHOLDS).
Proof.
  assert (E : anomalyOnset (thresholdCrossings sample_series DEFAULT_THRESHOLDS (fun k _ => k))
              = Some (Some 2000)) by (vm_compute; reflexivity).
  split; [exact E|].
  pose proof (onset_is_first_above sample_series DEFAULT_THRESHOLDS (fun k _ => k)) as H.
  rewrite E in H. destruct H as (m & [= <-] & _ & H); [|exact H]. unfold sample_series. simpl.
  repeat (apply List.Forall_cons; [eexists; split; [reflexivity|unfold in_time_range, MAX_TIME_MS; simpl; lia]|]).
  apply List.Forall_nil.
Defined.

Lemma rankCauses_spec_witness :
  StronglySorted (fun a b => score_units b <= score_units a)
    (rankCauses (concat sample_sources) (Some 2500) (Some (int 1))).
Proof.
  apply (rankCauses_spec (concat sample_sources) 2500 1); [apply sample_placed|lia].
Defined.
