(* ===== verification/Utils.v ===== *)
(** Shared text rules of the console ([web/src/lib/utils.ts]): label escaping, the pair arrow, run
    instants, sentence endings and the ad-hoc address grammar. *)
From S2P Require Import Prelude JsNum JsString JsCollections JsValue JsDate JsFormat.
Local Open Scope Z_scope.

(** [v.replace(/\\/g, "\\\\").replace(/"/g, '\\"')]: two passes, as in the source. *)
Definition escapeLabelValue (v : jstr) : jstr :=
  let pass1 := concat ((fun c => if c =? 92 then [92; 92] else [c]) <$> v) in
  concat ((fun c => if c =? 34 then [92; 34] else [c]) <$> pass1).

Definition plural (n : number) (singular pluralForm : jstr) : jstr :=
  num_to_string n ++ js " " ++ (if (n =? int 1)%num then singular else pluralForm).

Definition ends_sentence (s : jstr) : bool :=
  match last s with
  | Some c => bool_decide (c ∈ js ".!?:;")
  | None => false
  end.

Definition endSentence (text : jstr) : jstr :=
  let trimmed := trim text in
  if seqb trimmed [] then []
  else if ends_sentence trimmed then trimmed else trimmed ++ js ".".

(** ** Runs in time *)

Section Runs.
Context `{DateHost}.

Record RunInstant := { createdAt : jstr; startedAt : option jstr }.

Definition runInstant (run : RunInstant) : number :=
  let parsed := parse_ms (default (createdAt run) (startedAt run)) in
  if isNaN parsed then Inf false else parsed.

(** [T extends RunInstant]: a row carries its two stamps, found by [stamps]. *)
Definition runsAtOrBefore {T} (stamps : T -> RunInstant) (runs : list T) (at_ : option date) : list T :=
  match at_ with
  | None => runs
  | Some d => List.filter (fun r => (runInstant (stamps r) <=? getTime d)%num) runs
  end.
End Runs.

(** ** The pair arrow *)

Definition ARROW : Z := 0x2192.
Definition PAIR_ARROW : jstr := js "→".

Fixpoint skip_spaces (s : jstr) : jstr :=
  match s with
  | c :: s' => if is_space c then skip_spaces s' else s
  | [] => []
  end.

(** [c+>] after the first [c] was read. *)
Fixpoint skip_run (c : Z) (s : jstr) : option jstr :=
  match s with
  | x :: s' => if x =? 62 then Some s' else if x =? c then skip_run c s' else None
  | [] => None
  end.

(** The group of TYPEABLE_SEPARATOR: the arrow, [-+>], [=+>] or [>]; answers what follows it. *)
Definition separator_core (s : jstr) : option jstr :=
  match s with
  | x :: s' =>
      if x =? ARROW then Some s'
      else if x =? 45 then skip_run 45 s'
      else if x =? 61 then skip_run 61 s'
      else if x =? 62 then Some s'
      else None
  | [] => None
  end.

(** A match of TYPEABLE_SEPARATOR at the head of [s].  The white space around the group and the
    group itself share no character, so the greedy reading is the only one. *)
Definition separator_match (s : jstr) : option jstr :=
  skip_spaces <$> separator_core (skip_spaces s).

(** The global replacement: leftmost match first, each match replaced by the arrow.  Every round
    consumes a character, so the length of the text is fuel enough. *)
Fixpoint replace_separators (fuel : nat) (s : jstr) : jstr :=
  match fuel with
  | O => s
  | S fuel' =>
      match s with
      | [] => []
      | c :: s' =>
          match separator_match s with
          | Some rest => PAIR_ARROW ++ replace_separators fuel' rest
          | None => c :: replace_separators fuel' s'
          end
      end
  end.

Definition normalizePairInput (raw : jstr) : jstr :=
  let t := trim raw in replace_separators (length t) t.

(** ** The ad-hoc address grammar *)

Definition HOSTNAME_MAX : Z := 253.
Definition HOST_LABEL_MAX : Z := 63.
Definition slen (s : jstr) : Z := Z.of_nat (length s).

Definition is_label_char (c : Z) : bool := is_alpha c || is_digit c || (c =? 95).

(** [/^[A-Za-z0-9_]([A-Za-z0-9_-]*[A-Za-z0-9_])?$/]: label characters or hyphens, with a label
    character at both ends. *)
Definition HOST_LABEL (l : jstr) : bool :=
  match l, last l with
  | c :: _, Some d =>
      is_label_char c && is_label_char d && forallb (fun x => is_label_char x || (x =? 45)) l
  | _, _ => false
  end.

(** [/^\d{1,3}$/]. *)
Definition is_octet_text (p : jstr) : bool :=
  (1 <=? slen p) && (slen p <=? 3) && forallb is_digit p.

Definition isIPv4Dotted (s : jstr) : bool :=
  let parts := split_unit 46 s in
  (length parts =? 4)%nat &&
  forallb (fun p => is_octet_text p && (number_of_string p <=? int 255)%num) parts.

(** [/^[0-9A-Fa-f]{1,4}$/]. *)
Definition is_hex_group (g : jstr) : bool :=
  (1 <=? slen g) && (slen g <=? 4) && forallb is_hex g.

(** Everything after the zone: [s] is the literal without it. *)
Definition isIPv6_unzoned (s : jstr) : bool :=
  if negb (includes s (js ":")) then false
  else
    let dc := indexOf s (js "::") in
    if negb (bool_decide (dc = lastIndexOf s (js "::"))) then false
    else
      let '(head, tail) :=
        match dc with
        | None => (split_unit 58 s, [])
        | Some i =>
            let before := slice s 0 i in
            let after := slice_from s (i + 2) in
            (if seqb before [] then [] else split_unit 58 before,
             if seqb after [] then [] else split_unit 58 after)
        end in
      if existsb (seqb []) head || existsb (seqb []) tail then false
      else
        let groups := head ++ tail in
        let total := Z.of_nat (length groups) in
        let finish (hexGroups : list jstr) (total : Z) :=
          if negb (forallb is_hex_group hexGroups) then false
          else match dc with None => total =? 8 | Some _ => total <? 8 end in
        match last groups with
        | Some l =>
            if includes l (js ".") then
              if negb (isIPv4Dotted l) then false
              else finish (take (length groups - 1) groups) (total + 1)
            else finish groups total
        | None => finish groups total
        end.

Definition isIPv6Literal (host : jstr) : bool :=
  match indexOf host (js "%") with
  | Some zone =>
      if (zone =? length host - 1)%nat then false else isIPv6_unzoned (slice host 0 zone)
  | None => isIPv6_unzoned host
  end.

Definition isIPLiteral (host : jstr) : bool :=
  let bare := if (1 <? slen host) && startsWith host (js "[") && endsWith host (js "]")
              then slice host 1 (length host - 1) else host in
  if seqb bare [] then false else isIPv4Dotted bare || isIPv6Literal bare.

Definition isHostname (host : jstr) : bool :=
  if seqb host [] || (HOSTNAME_MAX <? slen host) then false
  else
    let labels := split_unit 46 (if endsWith host (js ".") then slice_to_last host else host) in
    forallb (fun l => (0 <? slen l) && (slen l <=? HOST_LABEL_MAX) && HOST_LABEL l) labels.

Definition splitHostPort (hostport : jstr) : option (jstr * jstr) :=
  match lastIndexOf hostport (js ":") with
  | None => None
  | Some i =>
      if startsWith hostport (js "[") then
        match indexOf hostport (js "]") with
        | None => None
        | Some end_ =>
            if (end_ + 1 =? length hostport)%nat then None
            else if negb (end_ + 1 =? i)%nat then None
            else if includes (slice_from hostport 1) (js "[") then None
            else if includes (slice_from hostport (end_ + 1)) (js "]") then None
            else Some (slice hostport 1 end_, slice_from hostport (i + 1))
        end
      else
        let host := slice hostport 0 i in
        if includes host (js ":") then None
        else if includes hostport (js "[") || includes hostport (js "]") then None
        else Some (host, slice_from hostport (i + 1))
  end.

Definition isDecimalPort (p : jstr) : bool :=
  if negb (bool_decide (p <> []) && forallb is_digit p) then false
  else let n := number_of_string p in (n >=? int 1)%num && (n <=? int 65535)%num.

(** [new URL(value).hostname], [None] where the constructor throws. *)
Section Address.
Context (URL_hostname : jstr -> option jstr).

Definition isValidAdhocAddress (raw : jstr) : bool :=
  let value := trim raw in
  if seqb value [] then false
  else
    let lower := ascii_lower value in
    if startsWith lower (js "http://") || startsWith lower (js "https://") then
      match URL_hostname value with
      | Some hostname => negb (seqb hostname [])
      | None => false
      end
    else
      match splitHostPort value with
      | Some (host, port) => if negb (isDecimalPort port) then false else isIPLiteral host || isHostname host
      | None => isIPLiteral value || isHostname value
      end.
End Address.

Example address_examples :
  let ok := isValidAdhocAddress (fun _ => Some (js "h")) in
  (ok <$> [js "node-1"; js "10.0.0.1:80"; js "[::1]:443"; js " a.b. "; js "fe80::1%eth0"; js "https://x"])
    = [true; true; true; true; true; true] /\
  (ok <$> [js "a:0x50"; js "::::"; js ":"; js "a b"; js "a:0"; js "1::2::3"; js "a..b"; js "[::1"])
    = [false; false; false; false; false; false; false; false].
Proof. split; vm_compute; reflexivity. Qed.

(** ** Escaping is what the PromQL reader undoes *)

(** The reference reader of a double-quoted PromQL string, from after the opening quote: the value
    and what follows the closing one. *)
Fixpoint read_quoted (s : jstr) : option (jstr * jstr) :=
  match s with
  | [] => None
  | c :: s' =>
      if c =? 34 then Some ([], s')
      else if c =? 92 then
        match s' with
        | d :: s'' => if (d =? 92) || (d =? 34) then r ← read_quoted s''; Some (d :: r.1, r.2) else None
        | [] => None
        end
      else r ← read_quoted s'; Some (c :: r.1, r.2)
  end.

Lemma escape_cons c v :
  escapeLabelValue (c :: v) =
    (if c =? 92 then [92; 92] else if c =? 34 then [92; 34] else [c]) ++ escapeLabelValue v.
Proof.
  unfold escapeLabelValue. simpl. rewrite fmap_app, concat_app. f_equal.
  destruct (Z.eqb_spec c 92) as [->|]; [done|]. simpl. by rewrite app_nil_r.
Qed.

(** A name pasted into a selector cannot leave its quotes: reading the escaped text back gives
    the name itself and stops at the closing quote the console wrote, whatever the name holds. *)
Theorem escapeLabelValue_contained v rest :
  read_quoted (escapeLabelValue v ++ 34 :: rest) = Some (v, rest).
Proof.
  induction v as [|c v IH]; [done|]. rewrite escape_cons.
  destruct (Z.eqb_spec c 92) as [->|H92]; [simpl; by rewrite IH|].
  destruct (Z.eqb_spec c 34) as [->|H34]; [simpl; by rewrite IH|].
  simpl. rewrite (proj2 (Z.eqb_neq c 34)), (proj2 (Z.eqb_neq c 92)) by done. by rewrite IH.
Qed.

(** ** Host and port *)

Lemma slice_prefix (a b : jstr) : slice (a ++ b) 0 (length a) = a.
Proof. unfold slice. by rewrite Nat.sub_0_r, drop_0, take_app_length. Qed.

Lemma slice_from_past (a : jstr) c b : slice_from (a ++ c :: b) (length a + 1) = b.
Proof. unfold slice_from. rewrite drop_app_add'; done. Qed.

Lemma splitHostPort_plain h p :
  58 ∉ h -> 58 ∉ p -> 91 ∉ h ++ 58 :: p -> 93 ∉ h ++ 58 :: p ->
  splitHostPort (h ++ 58 :: p) = Some (h, p).
Proof.
  intros Hh Hp H1 H2. unfold splitHostPort. change (js ":") with [58]. change (js "[") with [91].
  change (js "]") with [93].
  rewrite (proj2 (lastIndexOf_unit 58 (h ++ 58 :: p) (length h))) by eauto.
  destruct (startsWith (h ++ 58 :: p) [91]) eqn:Es.
  { apply startsWith_spec in Es as [r Er]. rewrite Er in H1. set_solver. }
  rewrite slice_prefix, slice_from_past.
  rewrite (proj2 (includes_unit_false _ _) Hh), (proj2 (includes_unit_false _ _) H1),
    (proj2 (includes_unit_false _ _) H2). done.
Qed.

(** The slices of a bracketed address. *)
Lemma bracket_slices h p :
  let s := 91 :: h ++ 93 :: 58 :: p in
  slice s 1 (length (91 :: h)) = h /\ slice_from s 1 = h ++ 93 :: 58 :: p /\
  slice_from s (length (91 :: h) + 1) = 58 :: p /\ slice_from s (length ((91 :: h) ++ [93]) + 1) = p.
Proof.
  intros s. split_and!.
  - unfold slice. cbn [length drop Nat.sub]. rewrite Nat.sub_0_r. apply take_app_length.
  - done.
  - apply (slice_from_past (91 :: h) 93).
  - subst s. replace (91 :: h ++ 93 :: 58 :: p) with (((91 :: h) ++ [93]) ++ 58 :: p);
      [apply slice_from_past|by rewrite <- app_assoc].
Qed.

Lemma splitHostPort_bracket h p :
  91 ∉ h -> 93 ∉ h -> 58 ∉ p -> 91 ∉ p -> 93 ∉ p ->
  splitHostPort (91 :: h ++ 93 :: 58 :: p) = Some (h, p).
Proof.
  intros H1 H2 H3 H4 H5. unfold splitHostPort. change (js ":") with [58]. change (js "[") with [91].
  change (js "]") with [93]. destruct (bracket_slices h p) as (S1 & S2 & S3 & S4). cbv zeta in S1, S2, S3, S4.
  rewrite (proj2 (lastIndexOf_unit 58 (91 :: h ++ 93 :: 58 :: p) (length ((91 :: h) ++ [93])))).
  2:{ exists ((91 :: h) ++ [93]), p. split_and!; [by rewrite <- app_assoc|done|done]. }
  rewrite (proj2 (indexOf_unit 93 (91 :: h ++ 93 :: 58 :: p) (length (91 :: h)))).
  2:{ exists (91 :: h), (58 :: p). split_and!; [done|set_solver|done]. }
  cbn [startsWith]. rewrite Z.eqb_refl. cbn [andb].
  rewrite (proj2 (Nat.eqb_neq (length (91 :: h) + 1) _)) by (simpl; rewrite length_app; simpl; lia).
  rewrite (proj2 (Nat.eqb_eq (length (91 :: h) + 1) _)) by (rewrite length_app; simpl; lia). cbn [negb].
  rewrite S1, S2, S3, S4, !(proj2 (includes_unit_false _ _)); [done|set_solver|set_solver].
Qed.

Lemma splitHostPort_sound s h p :
  splitHostPort s = Some (h, p) ->
  (s = h ++ 58 :: p /\ 58 ∉ h /\ 58 ∉ p /\ 91 ∉ s /\ 93 ∉ s) \/
  (s = 91 :: h ++ 93 :: 58 :: p /\ 91 ∉ h /\ 93 ∉ h /\ 58 ∉ p /\ 91 ∉ p /\ 93 ∉ p).
Proof.
  unfold splitHostPort. change (js ":") with [58]. change (js "[") with [91]. change (js "]") with [93].
  destruct (lastIndexOf s [58]) as [i|] eqn:Ei; [|done].
  apply lastIndexOf_unit in Ei as (a & b & -> & Hb & <-).
  destruct (startsWith (a ++ 58 :: b) [91]) eqn:Es.
  - destruct (indexOf (a ++ 58 :: b) [93]) as [e|] eqn:Ee; [|done].
    apply indexOf_unit in Ee as (x & y & Exy & Hx & <-).
    destruct (length x + 1 =? _)%nat; [done|].
    destruct (Nat.eqb_spec (length x + 1) (length a)) as [Hl|]; [|done]. cbn [negb].
    assert (a = x ++ [93] /\ y = 58 :: b) as [-> ->].
    { replace (x ++ 93 :: y) with ((x ++ [93]) ++ y) in Exy by by rewrite <- app_assoc.
      apply app_inj_1 in Exy as [-> <-]; [done|]. rewrite length_app. simpl. lia. }
    destruct x as [|q x]; [done|]. simpl in Es. rewrite andb_true_r in Es. apply Z.eqb_eq in Es as ->.
    rewrite <- app_assoc. cbn [app]. destruct (bracket_slices x b) as (S1 & S2 & S3 & S4). cbv zeta in *.
    cbn [app] in S4. rewrite S1, S2, S3, S4.
    destruct (includes (x ++ _) [91]) eqn:E1; [done|]. destruct (includes (58 :: b) [93]) eqn:E2; [done|].
    apply includes_unit_false in E1, E2. intros [= <- <-]. right. set_solver.
  - rewrite slice_prefix, slice_from_past. destruct (includes a [58]) eqn:E0; [done|].
    destruct (includes (a ++ 58 :: b) [91]) eqn:E1; [done|]. destruct (includes (a ++ 58 :: b) [93]) eqn:E2; [done|].
    apply includes_unit_false in E0, E1, E2. intros [= <- <-]. left. done.
Qed.

(** The split of an address is Go's: exactly the texts [host:port] with one colon and no bracket,
    and [[host]:port] with one pair of brackets and no colon in the port, are split, at that colon;
    every other text stays whole. *)
Theorem splitHostPort_spec s h p :
  splitHostPort s = Some (h, p) <->
  (s = h ++ js ":" ++ p /\ 58 ∉ h /\ 58 ∉ p /\ 91 ∉ s /\ 93 ∉ s) \/
  (s = js "[" ++ h ++ js "]:" ++ p /\ 91 ∉ h /\ 93 ∉ h /\ 58 ∉ p /\ 91 ∉ p /\ 93 ∉ p).
Proof.
  split; [apply splitHostPort_sound|].
  intros [(-> & ? & ? & ? & ?)|(-> & ? & ? & ? & ? & ?)];
    [by apply splitHostPort_plain|by apply splitHostPort_bracket].
Qed.

(** ** Ports and whole addresses *)

Lemma isDecimalPort_digits p :
  p <> [] -> Forall (fun c => is_digit c = true) p ->
  isDecimalPort p = (1 <=? digits_value p) && (digits_value p <=? 65535).
Proof.
  intros Hne Hp. unfold isDecimalPort. rewrite bool_decide_eq_true_2 by done.
  rewrite (proj2 (forallb_Forall _ _) Hp). cbn [andb negb]. rewrite number_of_digits by done.
  rewrite round_decimal_leb, round_decimal_geb by (unfold safe; lia). done.
Qed.

Lemma isDecimalPort_text p :
  isDecimalPort p = true -> p <> [] /\ Forall (fun c => is_digit c = true) p.
Proof.
  unfold isDecimalPort. case_bool_decide as Hne; [|done]. cbn [andb].
  destruct (forallb is_digit p) eqn:E; [|done]. intros _. split; [done|]. by apply forallb_Forall.
Qed.

(** The characters of a hostname. *)
Definition hostname_char (c : Z) : bool := is_label_char c || (c =? 45) || (c =? 46).

Lemma HOST_LABEL_chars l : HOST_LABEL l = true -> Forall (fun c => hostname_char c = true) l.
Proof.
  unfold HOST_LABEL. destruct l as [|c l]; [done|]. destruct (last (c :: l)); [|done].
  rewrite !andb_true_iff. intros [_ H]. apply forallb_Forall in H.
  eapply Forall_impl; [exact H|]. intros x Hx. unfold hostname_char. by rewrite Hx.
Qed.

Lemma Forall_join (P : Z -> Prop) c ws : P c -> Forall (Forall P) ws -> Forall P (join [c] ws).
Proof.
  intros Hc H. induction H as [|w ws Hw Hws IH]; [constructor|].
  destruct ws; [done|]. apply Forall_app. split; [done|]. by constructor.
Qed.

Lemma isHostname_chars host :
  isHostname host = true -> host <> [] /\ Forall (fun c => hostname_char c = true) host.
Proof.
  unfold isHostname. destruct (seqb host []) eqn:E0; [done|]. destruct (_ <? _); [done|]. cbn [orb].
  apply seqb_neq in E0. intros H. split; [done|]. apply forallb_Forall in H.
  assert (Hl : Forall (Forall (fun c => hostname_char c = true))
            (split_unit 46 (if endsWith host (js ".") then slice_to_last host else host))).
  { eapply Forall_impl; [exact H|]. intros l Hl. apply andb_true_iff in Hl as [_ Hl].
    by apply HOST_LABEL_chars. }
  apply (Forall_join _ 46) in Hl; [|done]. rewrite join_split_unit in Hl.
  destruct (endsWith host (js ".")) eqn:Ee; [|done].
  unfold endsWith in Ee. apply startsWith_spec in Ee as [r Er]. apply (f_equal (@rev Z)) in Er.
  rewrite rev_involutive, rev_app_distr in Er. simpl in Er. rewrite Er in Hl |- *.
  unfold slice_to_last in Hl. rewrite length_app, Nat.add_sub, take_app_length in Hl.
  apply Forall_app. split; [done|]. by repeat constructor.
Qed.

Lemma chars_exclude (P : Z -> bool) s c : Forall (fun x => P x = true) s -> P c = false -> c ∉ s.
Proof. intros H Hc Hin. rewrite Forall_forall in H. rewrite (H c Hin) in Hc. done. Qed.

Lemma hostname_char_not_space c : hostname_char c = true -> is_space c = false.
Proof.
  unfold hostname_char, is_label_char, is_alpha, is_digit, is_space. intros H.
  rewrite bool_decide_eq_false_2; [lia|]. intros Hin.
  repeat (apply elem_of_cons in Hin as [->|Hin]; [done|]). by apply elem_of_nil in Hin.
Qed.

(** A text is no URL unless it has a slash. *)
Lemma no_scheme s : 47 ∉ s -> startsWith (ascii_lower s) (js "http://") = false /\
  startsWith (ascii_lower s) (js "https://") = false.
Proof.
  intros H. assert (Hl : 47 ∉ ascii_lower s).
  { unfold ascii_lower. intros (c & Hc & Hin)%list_elem_of_fmap. destruct ((65 <=? c) && (c <=? 90)) eqn:E; [lia|].
    by subst c. }
  split; apply not_true_iff_false; intros [r Er]%startsWith_spec; rewrite Er in Hl; apply Hl; apply elem_of_app; left;
    vm_compute; repeat constructor.
Qed.

(** A hostname with a port is accepted exactly for the decimal ports 1 to 65535, whatever digits
    spell the port, and the bare hostname is accepted too. *)
Theorem isValidAdhocAddress_host_port URL_hostname host port :
  isHostname host = true -> port <> [] -> Forall (fun c => is_digit c = true) port ->
  isValidAdhocAddress URL_hostname host = true /\
  isValidAdhocAddress URL_hostname (host ++ js ":" ++ port)
    = (1 <=? digits_value port) && (digits_value port <=? 65535).
Proof.
  intros Hh Hne Hp. destruct (isHostname_chars host Hh) as [Hh0 Hc]. change (js ":" ++ port) with (58 :: port).
  assert (Hspace : forall c, c ∈ host -> is_space c = false).
  { intros c Hin. rewrite Forall_forall in Hc. by apply hostname_char_not_space, Hc. }
  assert (Hhead : forall s c, head (host ++ s) = Some c -> is_space c = false).
  { intros s c E. destruct host as [|x h]; [done|]. injection E as ->. apply Hspace. constructor. }
  split; unfold isValidAdhocAddress.
  - rewrite trim_id; [|rewrite <- (app_nil_r host); apply Hhead|intros c E; by apply Hspace, last_Some_elem_of].
    rewrite (proj2 (seqb_neq _ _) Hh0). destruct (no_scheme host) as [-> ->]; [by eapply chars_exclude|].
    cbn [orb]. destruct (splitHostPort host) as [[h p]|] eqn:E; [|by rewrite Hh, orb_true_r].
    apply splitHostPort_sound in E as [(-> & _)|(-> & _)]; exfalso; eapply (chars_exclude _ _ 58); try done; set_solver.
  - rewrite trim_id; [|apply Hhead|].
    2:{ intros c E. rewrite last_app in E. destruct port as [|d l]; [done|].
        change (last (58 :: d :: l)) with (last (d :: l)) in E.
        destruct (last (d :: l)) eqn:El; [|by apply last_None in El]. injection E as ->. apply digit_not_space.
        rewrite Forall_forall in Hp. by apply Hp, last_Some_elem_of. }
    assert (H47 : 47 ∉ host ++ 58 :: port).
    { rewrite not_elem_of_app, not_elem_of_cons. split_and!; [by eapply chars_exclude|done|by eapply chars_exclude]. }
    rewrite (proj2 (seqb_neq _ _)) by (destruct host; done). destruct (no_scheme _ H47) as [-> ->]. cbn [orb].
    rewrite splitHostPort_plain; try (rewrite ?not_elem_of_app, ?not_elem_of_cons; split_and!);
      try done; try by eapply chars_exclude.
    rewrite <- isDecimalPort_digits by done. rewrite Hh, orb_true_r. by destruct (isDecimalPort port).
Qed.

Lemma isValidAdhocAddress_host_port_witness :
  isValidAdhocAddress (fun _ => None) (js "edge-gw-01.example") = true /\
  isValidAdhocAddress (fun _ => None) (js "edge-gw-01.example" ++ js ":" ++ js "065536")
    = (1 <=? digits_value (js "065536")) && (digits_value (js "065536") <=? 65535).
Proof.
  apply (isValidAdhocAddress_host_port (fun _ => None) (js "edge-gw-01.example") (js "065536"));
    [vm_compute; reflexivity|discriminate|repeat constructor].
Defined.

(** ** The pair arrow, continued *)

Lemma skip_spaces_head s c : head (skip_spaces s) = Some c -> is_space c = false.
Proof. induction s as [|x s IH]; simpl; [done|]. destruct (is_space x) eqn:E; [done|]. by intros [= <-]. Qed.

Lemma skip_spaces_suffix s : suffix (skip_spaces s) s.
Proof. induction s as [|x s IH]; simpl; [done|]. destruct (is_space x); [by apply suffix_cons_r|done]. Qed.

Lemma skip_run_suffix c s r : skip_run c s = Some r -> suffix r s.
Proof.
  induction s as [|x s IH]; simpl; [done|]. destruct (x =? 62); [intros [= <-]; by apply suffix_cons_r|].
  destruct (x =? c); [|done]. intros H. by apply suffix_cons_r, IH.
Qed.

Lemma skip_run_no_gt c s : 62 ∉ s -> skip_run c s = None.
Proof.
  induction s as [|x s IH]; intros H; simpl; [done|]. apply not_elem_of_cons in H as [Hx Hs].
  rewrite (proj2 (Z.eqb_neq x 62)) by congruence. destruct (x =? c); [by apply IH|done].
Qed.

Lemma separator_core_suffix s r : separator_core s = Some r -> exists x s', s = x :: s' /\ suffix r s'.
Proof.
  destruct s as [|x s]; simpl; [done|]. intros H. exists x, s. split; [done|]. revert H.
  repeat (case_match; [solve [by intros [= <-]|apply skip_run_suffix]|]). done.
Qed.

Lemma separator_match_suffix s r : separator_match s = Some r -> suffix r s /\ (length r < length s)%nat.
Proof.
  unfold separator_match. destruct (separator_core (skip_spaces s)) as [q|] eqn:E; [|done]. intros [= <-].
  apply separator_core_suffix in E as (x & s' & Es & Hq).
  pose proof (skip_spaces_suffix s) as Hs. rewrite Es in Hs. pose proof (skip_spaces_suffix q) as Hr.
  split; [etrans; [exact Hr|]; etrans; [exact Hq|]; etrans; [|exact Hs]; by apply suffix_cons_r|].
  apply suffix_length in Hs, Hq, Hr. simpl in Hs. lia.
Qed.

Lemma replace_separators_nil n : replace_separators n [] = [].
Proof. by destruct n. Qed.

(** What the rewriting leaves: no [>] and no white space beside an arrow. *)
Fixpoint tight (s : jstr) : Prop :=
  match s with
  | [] => True
  | c :: s' => c <> 62 /\ (c = ARROW -> forall d, head s' = Some d -> is_space d = false) /\
               (is_space c = true -> head s' <> Some ARROW) /\ tight s'
  end.

Lemma ARROW_not_space : is_space ARROW = false.
Proof. reflexivity. Qed.

Lemma separator_match_space c s : is_space c = true -> separator_match (c :: s) = separator_match s.
Proof. intros H. unfold separator_match. simpl. by rewrite H. Qed.

(** The head of the rewritten text is the head of the text, or an arrow put in its place. *)
Lemma replace_head n s d :
  (length s <= n)%nat -> head (replace_separators n s) = Some d ->
  (separator_match s = None /\ head s = Some d) \/ (d = ARROW /\ is_Some (separator_match s)).
Proof.
  destruct n, s as [|c s]; simpl; try done; [lia|]. intros _. destruct (separator_match (c :: s)) eqn:E.
  - intros [= <-]. right. eauto.
  - intros [= <-]. left. done.
Qed.

Lemma replace_tight n s : (length s <= n)%nat -> tight (replace_separators n s).
Proof.
  revert s; induction n as [|n IH]; intros [|c s] Hn; simpl in *; try done; [lia|].
  destruct (separator_match (c :: s)) as [r|] eqn:E.
  - apply separator_match_suffix in E as Hr. simpl in Hr.
    change (PAIR_ARROW ++ replace_separators n r) with (ARROW :: replace_separators n r). simpl.
    split_and!; [done| |done|apply IH; lia].
    intros _ d Hd. apply replace_head in Hd as [[_ Hd]|[-> _]]; [|done|lia].
    unfold separator_match in E. destruct (separator_core _) as [q|]; [|done]. injection E as <-.
    by eapply skip_spaces_head.
  - simpl. split_and!; [| | |apply IH; lia].
    + intros ->. discriminate E.
    + intros ->. discriminate E.
    + intros Hc Hd. rewrite separator_match_space in E by done.
      apply replace_head in Hd as [[_ Hd]|[_ Hd]]; [|rewrite E in Hd; by destruct Hd|lia].
      destruct s; [done|]. injection Hd as ->. discriminate E.
Qed.

Lemma tight_no_gt s : tight s -> 62 ∉ s.
Proof. induction s as [|c s IH]; simpl; [set_solver|]. intros (? & _ & _ & ?). set_solver. Qed.

(** A tight text offers no separator but its own arrows. *)
Lemma tight_no_match c s : tight (c :: s) -> c <> ARROW -> separator_match (c :: s) = None.
Proof.
  revert c. induction s as [|d s IH]; intros c Ht Hc.
  - destruct Ht as (Hgt & _). unfold separator_match. simpl. destruct (is_space c); [done|]. simpl.
    rewrite (proj2 (Z.eqb_neq c ARROW)), (proj2 (Z.eqb_neq c 62)) by done. by repeat case_match.
  - destruct (is_space c) eqn:Es.
    + rewrite separator_match_space by done. destruct Ht as (_ & _ & Hd & Ht). apply IH; [done|].
      intros ->. by apply Hd.
    + apply tight_no_gt in Ht. unfold separator_match. cbn [skip_spaces]. rewrite Es. cbn [separator_core].
      apply not_elem_of_cons in Ht as [Hgt Ht]. rewrite (proj2 (Z.eqb_neq c ARROW)), (proj2 (Z.eqb_neq c 62)) by congruence.
      rewrite !skip_run_no_gt by done. by repeat case_match.
Qed.

Lemma replace_tight_id n s : (length s <= n)%nat -> tight s -> replace_separators n s = s.
Proof.
  revert s; induction n as [|n IH]; intros [|c s] Hn Ht; simpl in Hn |- *; [done|lia|done|].
  destruct (Z.eq_dec c ARROW) as [->|Hc].
  - unfold separator_match. rewrite (eq_refl : skip_spaces (ARROW :: s) = ARROW :: s).
    change (separator_core (ARROW :: s)) with (Some s). simpl. destruct Ht as (_ & Hs & _ & Ht).
    assert (skip_spaces s = s) as ->.
    { destruct s as [|d s]; [done|]. simpl. by rewrite (Hs eq_refl d eq_refl). }
    f_equal. apply IH; [lia|done].
  - rewrite (tight_no_match c s) by done. f_equal. apply IH; [lia|apply Ht].
Qed.

Lemma last_suffix {A} (r s : list A) : r <> [] -> suffix r s -> last s = last r.
Proof. intros Hr [k ->]. rewrite last_app. destruct (last r) eqn:E; [done|]. by apply last_None in E. Qed.

Lemma replace_last n s d :
  (length s <= n)%nat -> last (replace_separators n s) = Some d -> d = ARROW \/ last s = Some d.
Proof.
  revert s; induction n as [|n IH]; intros [|c s] Hn; simpl in Hn; try done; [lia|]. cbn [replace_separators].
  destruct (separator_match (c :: s)) as [r|] eqn:E.
  - apply separator_match_suffix in E as [Hsuf Hlen]. simpl in Hlen.
    destruct r as [|x r]; [rewrite replace_separators_nil; intros [= <-]; by left|].
    rewrite last_app. destruct (last (replace_separators n (x :: r))) eqn:El.
    + intros [= <-]. apply IH in El as [?|?]; [by left| |simpl in *; lia]. right. by rewrite (last_suffix (x :: r) (c :: s)).
    + intros [= <-]. by left.
  - destruct s as [|x s]; [rewrite replace_separators_nil; intros [= <-]; by right|].
    rewrite last_cons. destruct (last (replace_separators n (x :: s))) eqn:El.
    + intros [= <-]. apply IH in El as [?|?]; [by left|by right|simpl in *; lia].
    + intros [= <-]. apply last_None in El. destruct n; [done|]. simpl in El. by case_match.
Qed.

Lemma normalize_trimmed raw : trim (normalizePairInput raw) = normalizePairInput raw.
Proof.
  unfold normalizePairInput. apply trim_id.
  - intros c Hc. apply replace_head in Hc as [[_ Hc]|[-> _]]; [by apply (trim_head raw)|done|lia].
  - intros c Hc. apply replace_last in Hc as [->|Hc]; [done|by apply (trim_last raw)|lia].
Qed.

(** Normalising a scope is idempotent, and its result never holds a typed arrow head or white
    space beside an arrow: a scope the console wrote itself passes through unchanged. *)
Theorem normalizePairInput_idempotent raw :
  normalizePairInput (normalizePairInput raw) = normalizePairInput raw /\ tight (normalizePairInput raw).
Proof.
  assert (Ht : tight (normalizePairInput raw)) by (apply replace_tight; lia). split; [|done].
  unfold normalizePairInput at 1. rewrite normalize_trimmed. by apply replace_tight_id.
Qed.

(** The separators a keyboard produces, and the arrow itself. *)
Definition typed_separator (core : jstr) : Prop :=
  core = PAIR_ARROW \/ core = [62] \/
  exists n, core = replicate (S n) 45 ++ [62] \/ core = replicate (S n) 61 ++ [62].

(** One end of a pair: no arrow of its own. *)
Definition endpoint (a : jstr) : Prop := a <> [] /\ 62 ∉ a /\ ARROW ∉ a /\ trim a = a.

Definition spaces (w : jstr) : Prop := Forall (fun c => is_space c = true) w.

Lemma skip_spaces_app w s : spaces w -> skip_spaces (w ++ s) = skip_spaces s.
Proof. induction 1 as [|c w Hc Hw IH]; simpl; [done|]. by rewrite Hc. Qed.

Lemma trimmed_ends a c : trim a = a -> head a = Some c \/ last a = Some c -> is_space c = false.
Proof. intros <- [H|H]; [by eapply trim_head|by eapply trim_last]. Qed.

Lemma skip_run_replicate c n s : c <> 62 -> skip_run c (replicate n c ++ 62 :: s) = Some s.
Proof.
  intros Hc. induction n as [|n IH]; simpl; [done|].
  rewrite (proj2 (Z.eqb_neq c 62)), Z.eqb_refl by done. done.
Qed.

Lemma separator_core_typed core s : typed_separator core -> separator_core (core ++ s) = Some s.
Proof.
  intros [->|[->|(n & [->| ->])]]; [done|done|..];
    rewrite <- app_assoc; cbn [replicate app separator_core]; by apply skip_run_replicate.
Qed.

Lemma typed_separator_head core c : typed_separator core -> head core = Some c -> is_space c = false.
Proof. intros [->|[->|(n & [->| ->])]] [= <-]; reflexivity. Qed.

Lemma separator_match_typed w core w' b :
  spaces w -> spaces w' -> typed_separator core -> skip_spaces b = b ->
  separator_match (w ++ core ++ w' ++ b) = Some b.
Proof.
  intros Hw Hw' Hc Hb. unfold separator_match. rewrite skip_spaces_app by done.
  assert (skip_spaces (core ++ w' ++ b) = core ++ w' ++ b) as ->.
  { destruct core as [|c core]; [by destruct Hc as [|[|(n & [|])]]|].
    simpl. by rewrite (typed_separator_head (c :: core) c). }
  rewrite separator_core_typed by done. simpl. by rewrite skip_spaces_app, Hb.
Qed.

(** Inside a name that ends in neither white space nor a dash nor an equals sign nothing matches. *)
Lemma skip_run_stops c a d s : 62 ∉ a -> last a = Some d -> d <> c -> skip_run c (a ++ s) = None.
Proof.
  induction a as [|x a IH]; intros Hgt Hl Hd; [done|]. apply not_elem_of_cons in Hgt as [Hx Ha]. simpl.
  rewrite (proj2 (Z.eqb_neq x 62)) by congruence. destruct (Z.eqb_spec x c) as [->|]; [|done].
  destruct a as [|y a]; [simpl in Hl; congruence|]. by apply IH.
Qed.

Lemma name_no_match a d s :
  62 ∉ a -> ARROW ∉ a -> last a = Some d -> is_space d = false -> d <> 45 -> d <> 61 ->
  separator_match (a ++ s) = None.
Proof.
  induction a as [|x a IH]; intros Hgt Har Hl Hs H45 H61; [done|].
  apply not_elem_of_cons in Hgt as [Hx Ha], Har as [Hx' Ha']. destruct (is_space x) eqn:Ex.
  - cbn [app]. rewrite separator_match_space by done. destruct a as [|y a]; [simpl in Hl; congruence|]. by apply IH.
  - unfold separator_match. cbn [app skip_spaces]. rewrite Ex. cbn [separator_core].
    rewrite (proj2 (Z.eqb_neq x ARROW)), (proj2 (Z.eqb_neq x 62)) by congruence.
    destruct a as [|y a].
    + simpl in Hl. injection Hl as ->. by rewrite (proj2 (Z.eqb_neq d 45)), (proj2 (Z.eqb_neq d 61)).
    + rewrite !(skip_run_stops _ (y :: a) d) by done. by repeat case_match.
Qed.

Lemma replace_name a d s n :
  62 ∉ a -> ARROW ∉ a -> last a = Some d -> is_space d = false -> d <> 45 -> d <> 61 ->
  (length (a ++ s) <= n)%nat ->
  replace_separators n (a ++ s) = a ++ replace_separators (n - length a) s.
Proof.
  revert n; induction a as [|x a IH]; intros n Hgt Har Hl Hs H45 H61 Hn; [simpl; by rewrite Nat.sub_0_r|].
  destruct n as [|n]; [simpl in Hn; lia|]. cbn [app replace_separators].
  change (x :: a ++ s) with ((x :: a) ++ s). rewrite (name_no_match (x :: a) d s) by done. cbn [length Nat.sub].
  f_equal. destruct a as [|y a]; [simpl; by rewrite Nat.sub_0_r|].
  apply not_elem_of_cons in Hgt as [_ ?], Har as [_ ?]. apply IH; try done. simpl in *. lia.
Qed.

Lemma endpoint_tight b : 62 ∉ b -> ARROW ∉ b -> tight b.
Proof.
  induction b as [|c b IH]; intros Hgt Har; [done|].
  apply not_elem_of_cons in Hgt as [? ?], Har as [? ?]. simpl. split_and!; [congruence|congruence| |by apply IH].
  intros _ Hh. destruct b; [done|]. injection Hh as ->. set_solver.
Qed.

(** However a pair is typed - the arrow, [->], [-->], [=>], [>], with or without white space
    around it or around the whole - it becomes the canonical pair of its two ends. *)
Theorem normalizePairInput_pair a b core w w' p q d :
  endpoint a -> endpoint b -> last a = Some d -> d <> 45 -> d <> 61 ->
  typed_separator core -> spaces w -> spaces w' -> spaces p -> spaces q ->
  normalizePairInput (p ++ (a ++ w ++ core ++ w' ++ b) ++ q) = a ++ PAIR_ARROW ++ b.
Proof.
  intros (Ha & Ha1 & Ha2 & Ha3) (Hb & Hb1 & Hb2 & Hb3) Hd H45 H61 Hc Hw Hw' Hp Hq. unfold normalizePairInput.
  rewrite trim_around; try done; [|by destruct a|..].
  2:{ intros c Hh. destruct a; [done|]. apply (trimmed_ends _ c Ha3). by left. }
  2:{ intros c Hl. apply (trimmed_ends _ c Hb3). right. rewrite !app_assoc, last_app in Hl.
      destruct (last b) eqn:El; [done|]. by apply last_None in El. }
  assert (Hsb : skip_spaces b = b).
  { destruct b as [|x b]; [done|]. simpl. rewrite (trimmed_ends _ x Hb3); [done|by left]. }
  assert (Hsd : is_space d = false) by (apply (trimmed_ends _ d Ha3); by right).
  rewrite (replace_name a d) by done. f_equal. rewrite length_app, Nat.add_comm, Nat.add_sub.
  set (rest := w ++ core ++ w' ++ b). pose proof (separator_match_typed w core w' b Hw Hw' Hc Hsb) as Hm.
  fold rest in Hm. apply separator_match_suffix in Hm as Hl. destruct rest as [|x r]; [done|].
  cbn [length replace_separators]. rewrite Hm. f_equal. apply replace_tight_id; [simpl in Hl; lia|].
  by apply endpoint_tight.
Qed.

Lemma normalizePairInput_pair_witness :
  normalizePairInput (js "  " ++ (js "node-a" ++ js " " ++ js "-->" ++ js " " ++ js "ns/pod b") ++ js " ")
    = js "node-a" ++ PAIR_ARROW ++ js "ns/pod b".
Proof.
  apply (normalizePairInput_pair (js "node-a") (js "ns/pod b") (js "-->") (js " ") (js " ") (js "  ") (js " ") 97);
    try discriminate; try (repeat constructor; fail).
  - split_and!; [discriminate|apply (bool_decide_unpack _); vm_compute; exact I..|reflexivity].
  - split_and!; [discriminate|apply (bool_decide_unpack _); vm_compute; exact I..|reflexivity].
  - right. right. exists 1%nat. by left.
Defined.
