(* ===== verification/LiveEvents.v ===== *)
(** The live event ring ([web/src/lib/live-events.ts]) and the store of the Live page
    ([web/src/pages/live.tsx]): the bounded newest-first feed, its queues, the pause and the loss
    detector. *)
From S2P Require Import Prelude JsNum JsString JsCollections JsValue JsDate JsFormat Utils.
Local Open Scope Z_scope.

Record LiveEvent := {
  id : option jstr;
  seqno : number;
  type_ : jstr;
  severity : jstr;
  scope : jstr;
  timestamp : jstr;
  summary : jstr;
  details : value;
  filteredHistory : bool;
}.

Definition LIVE_RING_CAP : nat := 2000.

(** [typeof e.id === "string" && e.id !== ""]. *)
Definition identified (e : LiveEvent) : bool :=
  match id e with Some i => negb (seqb i []) | None => false end.

Section Ring.
Context `{DateHost}.

(** The memo of the source is transparent: an event's timestamp never changes. *)
Definition timeOf (e : LiveEvent) : number :=
  let parsed := parse_ms (timestamp e) in
  if isNaN parsed then Inf true else parsed.

Definition compareDesc (a b : LiveEvent) : number :=
  let ta := timeOf a in
  let tb := timeOf b in
  if negb (ta =? tb)%num then (if (ta >? tb)%num then int (-1) else int 1)
  else if negb (seqno a =? seqno b)%num then (if (seqno a >? seqno b)%num then int (-1) else int 1)
  else int 0.

Definition isAbove (a b : LiveEvent) : bool := (compareDesc a b <? int 0)%num.

(** The first loop of [pushEvents]: the arrivals not held yet. *)
Fixpoint fresh_of (seen : list (option jstr)) (incoming : list LiveEvent) : list LiveEvent :=
  match incoming with
  | [] => []
  | e :: rest =>
      if identified e then
        if shas seen (id e) then fresh_of seen rest
        else e :: fresh_of (sadd seen (id e)) rest
      else e :: fresh_of seen rest
  end.

(** The three merge loops; [room] is what the cap leaves of [next]. *)
Fixpoint merge_ring (room : nat) (prev fresh : list LiveEvent) : list LiveEvent :=
  match room with
  | O => []
  | S room' =>
      match prev, fresh with
      | p :: prev', f :: fresh' =>
          if isAbove f p then f :: merge_ring room' prev fresh' else p :: merge_ring room' prev' fresh
      | p :: prev', [] => p :: merge_ring room' prev' []
      | [], f :: fresh' => f :: merge_ring room' [] fresh'
      | [], [] => []
      end
  end.

Definition pushEvents (prev incoming : list LiveEvent) : list LiveEvent :=
  if (length incoming =? 0)%nat then prev
  else
    let fresh := fresh_of (set_of_list (id <$> prev)) incoming in
    if (length fresh =? 0)%nat then prev
    else merge_ring LIVE_RING_CAP prev (js_sort compareDesc fresh).

(** ** The order of the feed *)

(** An event the feed can order: its number is a finite one. *)
Definition numbered (e : LiveEvent) : Prop := exists z, seqno e = Fin z.

(** The instant of an event, with every unreadable one below all others. *)
Definition time_key (e : LiveEvent) : Z := default (- MAX_TIME_MS - 1) (Date_parse (timestamp e)).
Definition seq_key (e : LiveEvent) : Z := match seqno e with Fin z => z | _ => 0 end.

Definition newer_eq (a b : LiveEvent) : bool :=
  (time_key b <? time_key a) || ((time_key a =? time_key b) && (seq_key b <=? seq_key a)).

Lemma timeOf_cases e :
  (exists t, Date_parse (timestamp e) = Some t /\ timeOf e = int t /\ - MAX_TIME_MS <= t) \/
  (Date_parse (timestamp e) = None /\ timeOf e = Inf true).
Proof.
  unfold timeOf, parse_ms. destruct (Date_parse (timestamp e)) as [t|] eqn:E; [left|by right].
  exists t. split_and!; [done|done|]. apply Date_parse_range in E. unfold in_time_range in E. lia.
Qed.

Lemma timeOf_order a b :
  (timeOf a =? timeOf b)%num = (time_key a =? time_key b) /\
  (timeOf b <? timeOf a)%num = (time_key b <? time_key a).
Proof.
  unfold time_key. destruct (timeOf_cases a) as [(t & -> & -> & Ht)|[-> ->]],
    (timeOf_cases b) as [(u & -> & -> & Hu)|[-> ->]]; cbn [default from_option Datatypes.id];
    rewrite ?neqb_int, ?nltb_int; [done|..]; cbn [nltb neqb int negb]; split; lia.
Qed.

Lemma compareDesc_cases a b :
  numbered a -> numbered b ->
  compareDesc a b = if newer_eq a b then (if newer_eq b a then int 0 else int (-1)) else int 1.
Proof.
  intros [x Hx] [y Hy]. unfold compareDesc, newer_eq, seq_key. rewrite Hx, Hy.
  destruct (timeOf_order a b) as [-> ->]. cbn [nltb neqb].
  destruct (Z.eqb_spec (time_key a) (time_key b)), (Z.eqb_spec (time_key b) (time_key a)),
    (Z.ltb_spec (time_key b) (time_key a)), (Z.ltb_spec (time_key a) (time_key b)),
    (Z.eqb_spec x y), (Z.ltb_spec y x), (Z.leb_spec x y), (Z.leb_spec y x); simpl; done || lia.
Qed.

Lemma compareDesc_leb a b : numbered a -> numbered b -> cmp_leb compareDesc a b = newer_eq a b.
Proof.
  intros. unfold cmp_leb. rewrite compareDesc_cases by done.
  destruct (newer_eq a b), (newer_eq b a); rewrite nltb_int; done.
Qed.

Lemma newer_eq_total a b : newer_eq a b = true \/ newer_eq b a = true.
Proof. unfold newer_eq. lia. Qed.

Lemma newer_eq_trans a b c : newer_eq a b = true -> newer_eq b c = true -> newer_eq a c = true.
Proof. unfold newer_eq. lia. Qed.

Lemma isAbove_spec a b : numbered a -> numbered b -> isAbove a b = negb (newer_eq b a).
Proof.
  intros. unfold isAbove. rewrite compareDesc_cases by done. pose proof (newer_eq_total a b).
  destruct (newer_eq a b), (newer_eq b a); rewrite nltb_int; naive_solver.
Qed.

Abbreviation newest_first := (StronglySorted (fun a b => newer_eq a b = true)).

Lemma sort_newest_first l : Forall numbered l -> newest_first (js_sort compareDesc l).
Proof.
  intros Hl. apply (StronglySorted_weaken numbered (fun a b => cmp_leb compareDesc a b = true)).
  - intros a b Ha Hb. by rewrite compareDesc_leb.
  - unfold js_sort. by rewrite sort_leb_perm.
  - apply (sort_leb_sorted _ numbered); [| |done].
    + intros. rewrite !compareDesc_leb by done. apply newer_eq_total.
    + intros a b c ? ? ?. rewrite !compareDesc_leb by done. apply newer_eq_trans.
Qed.

(** ** The merge *)

Lemma merge_ring_take n m prev fresh :
  (length prev + length fresh <= m)%nat -> merge_ring n prev fresh = take n (merge_ring m prev fresh).
Proof.
  revert m prev fresh; induction n as [|n IH]; intros m prev fresh Hm; [done|].
  destruct m as [|m]; [destruct prev, fresh; simpl in *; done || lia|].
  destruct prev as [|p prev], fresh as [|f fresh]; simpl in *; try done; try case_match;
    simpl; f_equal; apply IH; simpl; lia.
Qed.

Lemma merge_ring_perm m prev fresh :
  (length prev + length fresh <= m)%nat -> merge_ring m prev fresh ≡ₚ prev ++ fresh.
Proof.
  revert prev fresh; induction m as [|m IH]; intros prev fresh Hm; [destruct prev, fresh; simpl in *; done || lia|].
  destruct prev as [|p prev], fresh as [|f fresh]; simpl in *; [done|..].
  - rewrite IH by (simpl; lia). done.
  - rewrite IH by (simpl; lia). done.
  - case_match; rewrite IH by (simpl; lia); [|done]. simpl. by rewrite <- (Permutation_middle prev fresh f), perm_swap.
Qed.

Lemma merge_ring_sorted m prev fresh :
  (length prev + length fresh <= m)%nat -> Forall numbered prev -> Forall numbered fresh ->
  newest_first prev -> newest_first fresh -> newest_first (merge_ring m prev fresh).
Proof.
  revert prev fresh; induction m as [|m IH]; intros prev fresh Hm Np Nf Sp Sf; [constructor|].
  destruct prev as [|p prev], fresh as [|f fresh]; simpl in *; [constructor|..].
  - inversion Nf; inversion Sf as [|?? Sf' Hf]; subst. constructor; [apply IH; simpl; done || lia|].
    by rewrite merge_ring_perm by (simpl; lia).
  - inversion Np; inversion Sp as [|?? Sp' Hp]; subst. constructor; [apply IH; simpl; done || lia|].
    rewrite merge_ring_perm by (simpl; lia). by rewrite app_nil_r.
  - inversion Np as [|?? Np1 Np2]; inversion Nf as [|?? Nf1 Nf2]; subst.
    inversion Sp as [|?? Sp' Hp]; inversion Sf as [|?? Sf' Hf]; subst.
    rewrite isAbove_spec by done. pose proof (newer_eq_total f p) as Htot.
    destruct (newer_eq p f) eqn:E; cbn [negb]; (constructor; [apply IH; simpl; done || lia|]);
      rewrite merge_ring_perm by (simpl; lia); apply Forall_app; split.
    + done.
    + constructor; [done|]. eapply Forall_impl; [exact Hf|]. intros x Hx. by eapply newer_eq_trans.
    + destruct Htot as [Hfp|]; [|done]. constructor; [done|]. eapply Forall_impl; [exact Hp|].
      intros x Hx. by eapply newer_eq_trans.
    + done.
Qed.

(** ** Duplicates *)

(** The id an arrival is recognised by. *)
Definition real_id (e : LiveEvent) : option jstr := if identified e then id e else None.

Lemma real_id_Some e i : real_id e = Some i <-> identified e = true /\ id e = Some i.
Proof. unfold real_id. destruct (identified e); naive_solver. Qed.

Lemma fresh_of_sublist seen l : sublist (fresh_of seen l) l.
Proof.
  revert seen; induction l as [|e l IH]; intros seen; simpl; [done|].
  repeat case_match; by apply sublist_skip || apply sublist_cons.
Qed.

Lemma fresh_of_ids seen l :
  NoDup (omap real_id (fresh_of seen l)) /\
  Forall (fun i => Some i ∉ seen) (omap real_id (fresh_of seen l)).
Proof.
  revert seen; induction l as [|e l IH]; intros seen; simpl; [split; constructor|].
  destruct (identified e) eqn:Ei.
  - destruct (shas seen (id e)) eqn:Es; [apply IH|]. destruct (IH (sadd seen (id e))) as [H1 H2].
    unfold identified in Ei. destruct (id e) as [i|] eqn:Eid; [|done]. simpl.
    assert (real_id e = Some i) as -> by (apply real_id_Some; unfold identified; by rewrite Eid).
    assert (Some i ∉ seen) by (intros Hin; apply shas_spec in Hin; congruence).
    rewrite Forall_forall in H2. split; constructor; try done.
    + intros Hin. apply (H2 i Hin). apply elem_of_sadd. by right.
    + apply Forall_forall. intros j Hj Hs. apply (H2 j Hj). apply elem_of_sadd. by left.
  - simpl. assert (real_id e = None) as -> by (unfold real_id; by rewrite Ei). apply IH.
Qed.

Lemma fresh_of_covers seen l e :
  e ∈ l -> e ∈ fresh_of seen l \/
           (identified e = true /\ (id e ∈ seen \/ exists e', e' ∈ fresh_of seen l /\ id e' = id e)).
Proof.
  revert seen; induction l as [|x l IH]; intros seen Hin; [by apply elem_of_nil in Hin|]. simpl.
  apply elem_of_cons in Hin as [->|Hin].
  - destruct (identified x) eqn:Ei; [|left; constructor].
    destruct (shas seen (id x)) eqn:Es; [right|left; constructor]. apply shas_spec in Es. auto.
  - destruct (identified x) eqn:Ei.
    + destruct (shas seen (id x)) eqn:Es; [by apply IH|].
      destruct (IH (sadd seen (id x)) Hin) as [?|(? & [Hs|(e' & ? & ?)])].
      * left. by constructor.
      * right. split; [done|]. apply elem_of_sadd in Hs as [?|?]; [by left|]. right. exists x. split; [constructor|done].
      * right. split; [done|]. right. exists e'. split; [by constructor|done].
    + destruct (IH seen Hin) as [?|(? & [Hs|(e' & ? & ?)])]; [left; by constructor|right; split; [done|]; by left|].
      right. split; [done|]. right. exists e'. split; [by constructor|done].
Qed.

(** The arrivals [pushEvents] files. *)
Definition arrivals (prev incoming : list LiveEvent) : list LiveEvent :=
  fresh_of (set_of_list (id <$> prev)) incoming.

Lemma take_all_ring (l : list LiveEvent) : (length l <= LIVE_RING_CAP)%nat -> take LIVE_RING_CAP l = l.
Proof. apply take_ge. Qed.

#[local] Opaque LIVE_RING_CAP.

(** The ring is the newest part of one merged, ordered feed. *)
Lemma pushEvents_take prev incoming :
  Forall numbered prev -> Forall numbered incoming -> newest_first prev ->
  (length prev <= LIVE_RING_CAP)%nat ->
  exists full, pushEvents prev incoming = take LIVE_RING_CAP full /\
    full ≡ₚ prev ++ arrivals prev incoming /\ newest_first full.
Proof.
  intros Np Ni Sp Hlen. unfold pushEvents. fold (arrivals prev incoming).
  assert (Nf : Forall numbered (arrivals prev incoming)).
  { rewrite Forall_forall in *. intros e He. apply Ni. eapply elem_of_sublist; [exact He|apply fresh_of_sublist]. }
  assert (Hnil : arrivals prev incoming = [] -> exists full, prev = take LIVE_RING_CAP full /\
            full ≡ₚ prev ++ arrivals prev incoming /\ newest_first full).
  { intros ->. exists prev. rewrite take_all_ring, app_nil_r by done. done. }
  destruct (length incoming =? 0)%nat eqn:E0.
  { apply Hnil. apply Nat.eqb_eq, length_zero_iff_nil in E0. by rewrite E0. }
  destruct (length (arrivals prev incoming) =? 0)%nat eqn:E1; [by apply Hnil, length_zero_iff_nil, Nat.eqb_eq|].
  set (f := js_sort compareDesc (arrivals prev incoming)).
  assert (Hf : f ≡ₚ arrivals prev incoming) by apply sort_leb_perm.
  exists (merge_ring (length prev + length f) prev f). split_and!.
  - by apply merge_ring_take.
  - by rewrite merge_ring_perm, Hf by done.
  - apply merge_ring_sorted; [done|done|by rewrite Hf|done|by apply sort_newest_first].
Qed.
End Ring.

Section Feed.
Context `{DateHost}.

Lemma arrivals_ids_NoDup prev incoming :
  NoDup (omap real_id prev) -> NoDup (omap real_id (prev ++ arrivals prev incoming)).
Proof.
  intros Hp. rewrite omap_app. destruct (fresh_of_ids (set_of_list (id <$> prev)) incoming) as [H1 H2].
  apply NoDup_app. split_and!; [done| |done].
  intros i Hi Hf. rewrite Forall_forall in H2. apply (H2 i Hf), elem_of_set_of_list.
  apply list_elem_of_omap in Hi as (e & He & Hid). apply real_id_Some in Hid as [_ <-].
  by apply list_elem_of_fmap_2.
Qed.

Lemma sublist_omap {A B} (f : A -> option B) l k : sublist l k -> sublist (omap f l) (omap f k).
Proof.
  induction 1 as [|x l k Hs IH|x l k Hs IH]; simpl; [done|..]; destruct (f x); simpl; try done;
    by constructor.
Qed.

(** One push: the ring stays newest-first, never exceeds its cap and never holds an id twice;
    nothing is invented, no arrival is dropped for coming late, and what falls off the end is what
    a full ring has no room for, older than everything kept. *)
Theorem pushEvents_spec prev incoming :
  Forall numbered prev -> Forall numbered incoming ->
  StronglySorted (fun a b => newer_eq a b = true) prev ->
  (length prev <= LIVE_RING_CAP)%nat -> NoDup (omap real_id prev) ->
  let ring := pushEvents prev incoming in
  exists dropped,
    ring ++ dropped ≡ₚ prev ++ arrivals prev incoming /\
    StronglySorted (fun a b => newer_eq a b = true) (ring ++ dropped) /\
    (length ring <= LIVE_RING_CAP)%nat /\ (dropped = [] \/ length ring = LIVE_RING_CAP) /\
    NoDup (omap real_id ring) /\
    (forall e, e ∈ incoming -> e ∈ ring \/ e ∈ dropped \/
       (identified e = true /\ exists e', e' ∈ prev ++ incoming /\ id e' = id e)).
Proof.
  intros Np Ni Sp Hlen Hnd ring.
  destruct (pushEvents_take prev incoming Np Ni Sp Hlen) as (full & Hring & Hperm & Hs). subst ring. rewrite Hring.
  exists (drop LIVE_RING_CAP full). rewrite take_drop. split_and!; try done.
  - rewrite length_take. lia.
  - rewrite length_take. destruct (Nat.le_gt_cases (length full) LIVE_RING_CAP); [left; by apply drop_ge|right; lia].
  - assert (Hf : NoDup (omap real_id full)) by (rewrite Hperm; by apply arrivals_ids_NoDup).
    eapply sublist_NoDup; [exact Hf|]. apply sublist_omap. rewrite <- (take_drop LIVE_RING_CAP full) at 2. by apply sublist_inserts_r.
  - intros e He. assert (Hfull : forall x, x ∈ arrivals prev incoming -> x ∈ take LIVE_RING_CAP full \/ x ∈ drop LIVE_RING_CAP full).
    { intros x Hx. rewrite <- elem_of_app, take_drop, Hperm. apply elem_of_app. by right. }
    destruct (fresh_of_covers (set_of_list (id <$> prev)) incoming e He) as [Hf|(Hi & [Hin|(e' & He' & Eid)])].
    + apply Hfull in Hf. naive_solver.
    + apply elem_of_set_of_list, list_elem_of_fmap in Hin as (e' & Eid & He'). right. right. split; [done|].
      exists e'. split; [|done]. apply elem_of_app. by left.
    + right. right. split; [done|]. exists e'. split; [|done]. apply elem_of_app. right.
      eapply elem_of_sublist; [exact He'|apply fresh_of_sublist].
Qed.

(** ** Replays and batching do not matter *)

(** The events of one session: numbered by the controller, with an id of their own, and no two of
    them at the same place of the feed. *)
Context (session : LiveEvent -> Prop).
Hypothesis session_numbered : forall e, session e -> numbered e.
Hypothesis session_identified : forall e, session e -> identified e = true.
Hypothesis session_ids : forall a b, session a -> session b -> id a = id b -> a = b.
Hypothesis session_keys :
  forall a b, session a -> session b -> newer_eq a b = true -> newer_eq b a = true -> a = b.

Definition held (l : list LiveEvent) (e : LiveEvent) : bool := bool_decide (id e ∈ (id <$> l)).

Lemma held_spec l e : Forall session l -> session e -> held l e = true <-> e ∈ l.
Proof.
  intros Hl He. unfold held. rewrite bool_decide_eq_true, list_elem_of_fmap. split.
  - intros (y & E & Hy). rewrite Forall_forall in Hl. by rewrite (session_ids e y He (Hl y Hy) E).
  - eauto.
Qed.

Lemma session_sort_filter f l :
  Forall session l -> List.filter f (sort_leb newer_eq l) = sort_leb newer_eq (List.filter f l).
Proof.
  intros Hl. apply (sort_leb_filter _ session); [|by intros ??? _ _ _; apply newer_eq_trans|done].
  intros ?? _ _. apply newer_eq_total.
Qed.

Lemma session_sorted_unique l l' :
  Forall session l -> StronglySorted (fun a b => newer_eq a b = true) l -> l ≡ₚ l' -> l = sort_leb newer_eq l'.
Proof.
  apply (sorted_sort_leb newer_eq session); [| |done].
  - intros ?? _ _. apply newer_eq_total.
  - intros ??? _ _ _. apply newer_eq_trans.
Qed.

Lemma session_sort_newest l : StronglySorted (fun a b => newer_eq a b = true) (sort_leb newer_eq l).
Proof.
  apply (sort_leb_sorted _ (fun _ => True)); [intros; apply newer_eq_total|intros ??? _ _ _; apply newer_eq_trans|].
  by apply Forall_forall.
Qed.

Lemma session_NoDup_ids l : Forall session l -> NoDup (omap real_id l) -> NoDup l.
Proof.
  induction 1 as [|e l He Hl IH]; simpl; [constructor|].
  pose proof (session_identified e He) as Hi. unfold real_id at 1. rewrite Hi.
  unfold identified in Hi. destruct (id e) as [i|] eqn:Eid; [|done]. intros [Hn Hr]%NoDup_cons.
  constructor; [|by apply IH]. intros Hin. apply Hn. apply list_elem_of_omap. exists e. split; [done|].
  apply real_id_Some. unfold identified. rewrite Eid. done.
Qed.

Lemma pushed_members ring batch e :
  Forall session ring -> Forall session batch ->
  e ∈ ring ++ arrivals ring batch <-> e ∈ ring \/ e ∈ batch.
Proof.
  intros HsR Hbatch. rewrite elem_of_app. split; [intros [Hr|Hf]|intros [Hr|Hb]]; auto.
  - right. eapply elem_of_sublist; [exact Hf|apply fresh_of_sublist].
  - destruct (fresh_of_covers (set_of_list (id <$> ring)) batch e Hb) as [?|(_ & [Hin|(e' & He' & Eid)])]; auto.
    + apply elem_of_set_of_list, list_elem_of_fmap in Hin as (x & Eid & Hx). rewrite Forall_forall in HsR, Hbatch.
      left. by rewrite (session_ids e x (Hbatch e Hb) (HsR x Hx) Eid).
    + right. assert (e' ∈ batch) by (eapply elem_of_sublist; [exact He'|apply fresh_of_sublist]).
      rewrite Forall_forall in Hbatch. by rewrite <- (session_ids e' e) by auto.
Qed.

Lemma NoDup_filter_b {A} (f : A -> bool) (l : list A) : NoDup l -> NoDup (List.filter f l).
Proof. rewrite !NoDup_ListNoDup. apply List.NoDup_filter. Qed.

(** One more batch: from the newest events of [D] to the newest of [D] and the batch. *)
Lemma push_newest seen batch D D' ring :
  Forall session seen -> Forall session batch ->
  (forall e, e ∈ D <-> e ∈ seen) -> (forall e, e ∈ D' <-> e ∈ seen \/ e ∈ batch) ->
  NoDup D' -> D = List.filter (held seen) D' ->
  ring = take LIVE_RING_CAP (sort_leb newer_eq D) -> NoDup (omap real_id ring) ->
  pushEvents ring batch = take LIVE_RING_CAP (sort_leb newer_eq D').
Proof.
  intros Hseen Hbatch HD HD' Hnd ED Ering Hids.
  assert (HsD' : Forall session D') by (rewrite Forall_forall in *; intros e [?|?]%HD'; auto).
  assert (Hring : forall e, e ∈ ring -> e ∈ seen).
  { intros e He. rewrite Ering in He. apply elem_of_take in He as (k & Hk & _).
    apply list_elem_of_lookup_2, elem_of_sort_leb in Hk. by apply HD. }
  assert (HsR : Forall session ring) by (rewrite Forall_forall in *; auto).
  assert (Nr : Forall numbered ring) by (eapply Forall_impl; eauto).
  assert (Nb : Forall numbered batch) by (eapply Forall_impl; eauto).
  assert (Sr : StronglySorted (fun a b => newer_eq a b = true) ring).
  { rewrite Ering. eapply StronglySorted_sublist; [|apply (session_sort_newest D)].
    rewrite <- (take_drop LIVE_RING_CAP (sort_leb newer_eq D)) at 2. by apply sublist_inserts_r. }
  assert (Lr : (length ring <= LIVE_RING_CAP)%nat) by (rewrite Ering, length_take; lia).
  destruct (pushEvents_take ring batch Nr Nb Sr Lr) as (full & -> & Hperm & Hs).
  assert (Hfull : forall e, e ∈ full <-> e ∈ ring \/ e ∈ batch).
  { intros e. rewrite Hperm. by apply pushed_members. }
  assert (HsF : Forall session full).
  { rewrite Forall_forall in *. intros e [?|?]%Hfull; auto. }
  assert (NF : NoDup full).
  { apply session_NoDup_ids; [done|]. rewrite Hperm. by apply arrivals_ids_NoDup. }
  assert (full = List.filter (held full) (sort_leb newer_eq D')) as ->.
  { rewrite session_sort_filter by done. apply session_sorted_unique; [done|done|].
    apply NoDup_Permutation; [done|by apply NoDup_filter_b|].
    intros e. rewrite elem_of_filter_b. rewrite Forall_forall in Hseen, Hbatch. split.
    - intros He. assert (e ∈ D') by (apply HD'; apply Hfull in He as [?|?]; auto). split; [done|].
      apply held_spec; [done| |done]. rewrite Forall_forall in HsD'. auto.
    - intros [He Hh]. apply held_spec in Hh; [done|done|]. rewrite Forall_forall in HsD'. auto. }
  apply take_filter_all. intros x Hx.
  assert (HxD : x ∈ D') by (apply elem_of_take in Hx as (k & Hk & _); by apply list_elem_of_lookup_2, elem_of_sort_leb in Hk).
  assert (Hsx : session x) by (rewrite Forall_forall in HsD'; auto).
  apply held_spec; [done|done|]. apply Hfull. apply HD' in HxD as [Hold|?]; [left|by right].
  rewrite Ering, ED, <- session_sort_filter by done. apply elem_of_take_filter; [done|]. by apply held_spec.
Qed.

Lemma session_ids_NoDup l : Forall session l -> NoDup l -> NoDup (omap real_id l).
Proof.
  induction 1 as [|e l He Hl IH]; simpl; [constructor|]. intros [Hn Hnd]%NoDup_cons.
  destruct (real_id e) as [i|] eqn:Ei; [|by apply IH]. constructor; [|by apply IH].
  intros (x & Hx & Exi)%list_elem_of_omap. apply real_id_Some in Ei as [_ Ei], Exi as [_ Exi].
  apply Hn. rewrite Forall_forall in Hl. rewrite (session_ids e x); [done|done|by apply Hl|congruence].
Qed.

(** C2: However the events of a session arrive - in whatever order, split into whatever batches,
    replayed any number of times, even after they had fallen off the end - the feed holds the
    newest of all distinct events received, in order, up to its cap. *)
Theorem feed_is_newest batches D :
  Forall session (concat batches) -> NoDup D -> (forall e, e ∈ D <-> e ∈ concat batches) ->
  fold_left pushEvents batches [] = take LIVE_RING_CAP (sort_leb newer_eq D).
Proof.
  revert D. induction batches as [|batch batches IH] using rev_ind; intros D' Hs Hnd HD'.
  - destruct D' as [|e D']; [by destruct LIVE_RING_CAP|]. exfalso. apply (not_elem_of_nil e), HD'. constructor.
  - rewrite concat_app in Hs, HD'. simpl in Hs, HD'. rewrite app_nil_r in Hs.
    apply Forall_app in Hs as [Hseen Hbatch]. rewrite fold_left_app. simpl.
    assert (HD2 : forall e, e ∈ D' <-> e ∈ concat batches \/ e ∈ batch).
    { intros e. rewrite HD', app_nil_r, elem_of_app. done. }
    assert (HsD : forall e, e ∈ D' -> session e) by (rewrite Forall_forall in *; intros e [?|?]%HD2; auto).
    set (D := List.filter (held (concat batches)) D').
    assert (HD : forall e, e ∈ D <-> e ∈ concat batches).
    { intros e. unfold D. rewrite elem_of_filter_b. split.
      - intros [He Hh]. apply held_spec in Hh; auto.
      - intros He. assert (e ∈ D') by (apply HD2; auto). split; [done|]. apply held_spec; auto. }
    assert (ND : NoDup D) by (by apply NoDup_filter_b).
    apply (push_newest (concat batches) batch D D'); try done; [by apply IH|].
    rewrite (IH D) by done. apply session_ids_NoDup.
    + apply Forall_take. rewrite sort_leb_perm. apply Forall_forall. intros e He%HD. rewrite Forall_forall in Hseen. auto.
    + eapply sublist_NoDup; [|apply sublist_take]. by rewrite sort_leb_perm.
Qed.
End Feed.

(** ** Witnesses *)

Definition sample_event (i : jstr) (t n : Z) : LiveEvent :=
  {| id := Some i; seqno := int n; type_ := js "check_observed"; severity := js "info"; scope := [];
     timestamp := iso_string t; summary := []; details := VNull; filteredHistory := false |}.

Definition sample_feed : list LiveEvent :=
  [sample_event (js "c") 3000 3; sample_event (js "b") 2000 2; sample_event (js "a") 1000 1].

(** Members of the sample that a test ties are the same, when it ties only equal positions. *)
Lemma sample_feed_by a b (test : LiveEvent -> LiveEvent -> bool) :
  a ∈ sample_feed -> b ∈ sample_feed ->
  (fun p => test p.1 p.2) <$> [(sample_event (js "c") 3000 3, sample_event (js "b") 2000 2);
                               (sample_event (js "c") 3000 3, sample_event (js "a") 1000 1);
                               (sample_event (js "b") 2000 2, sample_event (js "c") 3000 3);
                               (sample_event (js "b") 2000 2, sample_event (js "a") 1000 1);
                               (sample_event (js "a") 1000 1, sample_event (js "c") 3000 3);
                               (sample_event (js "a") 1000 1, sample_event (js "b") 2000 2)]
    = [false; false; false; false; false; false] ->
  test a b = true -> a = b.
Proof.
  unfold sample_feed. generalize (sample_event (js "c") 3000 3) (sample_event (js "b") 2000 2)
    (sample_event (js "a") 1000 1). intros x y z Ha Hb [= E1 E2 E3 E4 E5 E6].
  rewrite !elem_of_cons, elem_of_nil in Ha, Hb.
  destruct Ha as [->|[->|[->|[]]]], Hb as [->|[->|[->|[]]]]; congruence.
Qed.

Lemma pushEvents_spec_witness :
  exists dropped,
    pushEvents (H := iso_host) (drop 1 sample_feed) (rev sample_feed) ++ dropped ≡ₚ
      drop 1 sample_feed ++ arrivals (drop 1 sample_feed) (rev sample_feed) /\
    (length (pushEvents (H := iso_host) (drop 1 sample_feed) (rev sample_feed)) <= LIVE_RING_CAP)%nat.
Proof.
  destruct (pushEvents_spec (H := iso_host) (drop 1 sample_feed) (rev sample_feed)) as (dropped & H1 & _ & H2 & _).
  - repeat (apply List.Forall_cons; [eexists; reflexivity|]). apply List.Forall_nil.
  - repeat (apply List.Forall_cons; [eexists; reflexivity|]). apply List.Forall_nil.
  - repeat constructor; vm_compute; reflexivity.
  - vm_compute. lia.
  - apply (bool_decide_unpack _). vm_compute. exact I.
  - exists dropped. split; [exact H1|exact H2].
Defined.

Lemma feed_is_newest_witness :
  fold_left (pushEvents (H := iso_host)) [rev sample_feed; drop 2 sample_feed; take 2 sample_feed] []
  = take LIVE_RING_CAP (sort_leb (newer_eq (H := iso_host)) (rev sample_feed)).
Proof.
  apply (feed_is_newest (H := iso_host) (fun e => e ∈ sample_feed)).
  - intros e He. repeat (apply elem_of_cons in He as [->|He]; [eexists; reflexivity|]). by apply elem_of_nil in He.
  - intros e He. repeat (apply elem_of_cons in He as [->|He]; [reflexivity|]). by apply elem_of_nil in He.
  - intros a b Ha Hb E. apply (sample_feed_by a b (fun x y => bool_decide (id x = id y))); [done|done| |].
    + vm_compute. reflexivity.
    + by apply bool_decide_eq_true_2.
  - intros a b Ha Hb E1 E2.
    apply (sample_feed_by a b (fun x y => newer_eq (H := iso_host) x y && newer_eq (H := iso_host) y x)); [done|done| |].
    + vm_compute. reflexivity.
    + by rewrite E1, E2.
  - apply Forall_forall. intros e He. unfold sample_feed in *. simpl in He. set_solver.
  - unfold sample_feed. simpl. repeat (apply NoDup_cons; split; [set_solver|]). apply NoDup_nil. exact I.
  - intros e. unfold sample_feed. simpl. set_solver.
Defined.
