(* ===== verification/ChartTheme.v ===== *)
(** Chart colours ([web/src/lib/chart-theme.ts]): the documented token values, the reading of the
    live ones and the assignment of a colour to a series. *)
From S2P Require Import Prelude JsNum JsString.
Local Open Scope Z_scope.

Record TooltipColors := { background : jstr; border : jstr; tooltip_text : jstr }.

Record ChartColors := {
  series : list jstr;
  other : jstr;
  axis : jstr;
  grid : jstr;
  surface : jstr;
  tooltip : TooltipColors;
}.

Definition CHART_FALLBACK (dark : bool) : ChartColors :=
  if dark then
    {| series := [js "hsl(210, 68%, 59%)"; js "hsl(166, 57%, 42%)"; js "hsl(265, 64%, 66%)";
                  js "hsl(25, 63%, 52%)"; js "hsl(328, 61%, 62%)"];
       other := js "hsl(224, 12%, 64%)"; axis := js "hsl(224, 12%, 64%)";
       grid := js "hsl(230, 11%, 15%)"; surface := js "hsl(231, 14%, 9.5%)";
       tooltip := {| background := js "hsl(230, 12%, 13%)"; border := js "hsl(230, 11%, 17%)";
                     tooltip_text := js "hsl(220, 25%, 96%)" |} |}
  else
    {| series := [js "hsl(216, 63%, 50%)"; js "hsl(165, 81%, 31%)"; js "hsl(258, 63%, 59%)";
                  js "hsl(29, 85%, 39%)"; js "hsl(328, 48%, 52%)"];
       other := js "hsl(226, 11%, 46%)"; axis := js "hsl(226, 11%, 46%)";
       grid := js "hsl(222, 22%, 93%)"; surface := js "hsl(0, 0%, 100%)";
       tooltip := {| background := js "hsl(0, 0%, 100%)"; border := js "hsl(222, 22%, 91%)";
                     tooltip_text := js "hsl(228, 22%, 15%)" |} |}.

(** [s.split(/\s+/)] of a trimmed text: its words.  [word] is the word being read. *)
Fixpoint split_spaces (word : jstr) (s : jstr) : list jstr :=
  match s with
  | [] => [rev word]
  | c :: s' =>
      if is_space c then
        match s' with
        | d :: _ => if is_space d then split_spaces word s' else rev word :: split_spaces [] s'
        | [] => [rev word; []]
        end
      else split_spaces (c :: word) s'
  end.

(** [getPropertyValue] of the root's computed style. *)
Definition readVar (styles : jstr -> jstr) (name : jstr) : option jstr :=
  let raw := trim (styles name) in
  if seqb raw [] then None else Some (js "hsl(" ++ join (js ", ") (split_spaces [] raw) ++ js ")").

(** The page as [chartColors] sees it: absent outside a browser, else the classes and the computed
    style of its root element. *)
Record RootElement := { classList : list jstr; getPropertyValue : jstr -> jstr }.

Definition chartColors (document : option RootElement) (dark : bool) : ChartColors :=
  let fallback := CHART_FALLBACK dark in
  match document with
  | None => fallback
  | Some root =>
      if bool_decide ((if dark then js "light" else js "dark") ∈ classList root) then fallback
      else
        let var name dflt := default dflt (readVar (getPropertyValue root) name) in
        {| series := imap (fun i dflt => var (js "--chart-" ++ string_of_Z (Z.of_nat i + 1)) dflt) (series fallback);
           other := var (js "--chart-axis") (other fallback);
           axis := var (js "--chart-axis") (axis fallback);
           grid := var (js "--chart-grid") (grid fallback);
           surface := var (js "--surface") (surface fallback);
           tooltip := {| background := var (js "--popover") (background (tooltip fallback));
                         border := var (js "--border") (border (tooltip fallback));
                         tooltip_text := var (js "--popover-foreground") (tooltip_text (tooltip fallback)) |} |}
  end.

Definition seriesColor (colors : ChartColors) (index : nat) : jstr :=
  default (other colors) (series colors !! index).

Example readVar_token :
  readVar (fun _ => js " 210  68% 59% ") (js "--chart-1") = Some (js "hsl(210, 68%, 59%)").
Proof. vm_compute. reflexivity. Qed.
