(* ===== verification/Annotations.v ===== *)
(** Annotations and maintenance windows on charts ([web/src/lib/annotations.ts]): the overlays, the
    union of overlapping windows, the merge of per-scope listings and the defaults of the create
    forms. *)
From S2P Require Import Prelude JsNum JsString JsCollections JsValue JsDate JsFormat ChartTheme.
Local Open Scope Z_scope.

Definition GLOBAL_SCOPE : jstr := [].
Definition ANNOTATION_TEXT_MAX : number := int 1024.
Definition ANNOTATION_SERIES_NAME : jstr := js "Annotations".
Definition MAINTENANCE_REASON_MAX : number := int 512.
Definition MAINTENANCE_SERIES_NAME : jstr := js "Maintenance".

Record Annotation := {
  a_id : jstr;
  a_startAt : jstr;
  a_endAt : option jstr;
  a_scope : jstr;
  a_text : jstr;
  a_createdBy : jstr;
  a_createdAt : jstr;
}.

Record MaintenanceWindow := {
  w_id : jstr;
  w_scope : jstr;
  w_startAt : jstr;
  w_endAt : jstr;
  w_reason : jstr;
  w_createdBy : jstr;
  w_createdAt : jstr;
}.

(** An ECharts series is the plain object the library is handed. *)
Abbreviation Series := value.

(** [EChartsOption]: the fields a page already built, and its series. *)
Record EChartsOption := { rest : list (jstr * value); opt_series : value }.

Definition obj (fs : list (string * value)) : value := VObj ((fun p => (js p.1, p.2)) <$> fs).
Definition text (s : string) : value := VStr (js s).

(** A point or a band of a marker: its name and its place on the time axis. *)
Definition mark_point (name : jstr) (x : number) : value := obj [("name", VStr name); ("xAxis", VNum x)].
Definition mark_band (name : jstr) (x y : number) : value :=
  VArr [mark_point name x; obj [("xAxis", VNum y)]].

(** The two overlays list these properties in a different order, which no reader of an option sees. *)
Definition emphasis_label (colors : ChartColors) (position : string) : value :=
  obj [("label",
        obj [("show", VBool true); ("formatter", text "{b}"); ("color", VStr (axis colors));
             ("fontSize", VNum (int 11)); ("width", VNum (int 220)); ("overflow", text "truncate");
             ("position", text position)])].

Section Overlays.
Context `{DateHost} (document : option RootElement).

Definition isInstant (a : Annotation) : bool :=
  match a_endAt a with
  | None => true
  | Some e => seqb e [] || isNaN (parse_ms e)
  end.

(** The two loops' results: the instant marks and the ranges, in the order of the annotations. *)
Definition overlay_instants (annotations : list Annotation) : list value :=
  omap (fun a => let start := parse_ms (a_startAt a) in
                 if isNaN start then None
                 else if isInstant a then Some (mark_point (a_text a) start) else None) annotations.

Definition overlay_ranges (annotations : list Annotation) : list value :=
  omap (fun a => let start := parse_ms (a_startAt a) in
                 if isNaN start then None
                 else if isInstant a then None
                 else Some (mark_band (a_text a) start (parse_ms (default [] (a_endAt a))))) annotations.

Definition annotationOverlaySeries (annotations : list Annotation) (dark : bool) : option Series :=
  let colors := chartColors document dark in
  let instants := overlay_instants annotations in
  let ranges := overlay_ranges annotations in
  if (length instants =? 0)%nat && (length ranges =? 0)%nat then None
  else
    let label := obj [("show", VBool false)] in
    let color := obj [("color", VStr (other colors))] in
    Some (VObj (
      [(js "name", VStr ANNOTATION_SERIES_NAME); (js "type", text "line"); (js "data", VArr []);
       (js "itemStyle", color); (js "lineStyle", color)]
      ++ (if (0 <? length instants)%nat then
            [(js "markLine",
              obj [("symbol", text "none"); ("label", label);
                   ("emphasis", emphasis_label colors "insideEndTop");
                   ("lineStyle", obj [("color", VStr (other colors)); ("type", text "dashed");
                                      ("width", VNum (int 1)); ("opacity", VNum (dec 9 1))]);
                   ("data", VArr instants)])]
          else [])
      ++ (if (0 <? length ranges)%nat then
            [(js "markArea",
              obj [("label", label); ("emphasis", emphasis_label colors "insideTop");
                   ("itemStyle", obj [("color", VStr (other colors)); ("opacity", VNum (dec 14 2))]);
                   ("data", VArr ranges)])]
          else []))).

(** [Array.isArray(option.series) ? option.series : option.series ? [option.series] : []]. *)
Definition existing_series (option : EChartsOption) : list value :=
  match opt_series option with
  | VArr l => l
  | VUndef | VNull | VBool false => []
  | VNum n => if (n =? int 0)%num || isNaN n then [] else [VNum n]
  | VStr s => if seqb s [] then [] else [VStr s]
  | v => [v]
  end.

Definition with_overlay (option : EChartsOption) (overlay : value) : EChartsOption :=
  {| rest := rest option; opt_series := VArr (existing_series option ++ [overlay]) |}.

Definition withAnnotations (option : EChartsOption) (annotations : list Annotation) (dark : bool) :
    EChartsOption :=
  match annotationOverlaySeries annotations dark with
  | None => option
  | Some overlay => with_overlay option overlay
  end.

(** ** Maintenance bands *)

Record Span := { span_start : number; span_end : number; reasons : list jstr }.

Definition parsed_windows (windows : list MaintenanceWindow) : list (number * number * jstr) :=
  js_sort (fun a b => a.1.1 - b.1.1)%num
    (List.filter (fun w => negb (isNaN w.1.1) && negb (isNaN w.1.2))
       ((fun w => (parse_ms (w_startAt w), parse_ms (w_endAt w), w_reason w)) <$> windows)).

(** The loop; [out] is held with its last span first. *)
Definition extend_span (last : Span) (w_end : number) (reason : jstr) : Span :=
  {| span_start := span_start last; span_end := nmax (span_end last) w_end;
     reasons := if negb (seqb reason []) && negb (bool_decide (reason ∈ reasons last))
                then reasons last ++ [reason] else reasons last |}.

Definition new_span (w : number * number * jstr) : Span :=
  {| span_start := w.1.1; span_end := w.1.2; reasons := if seqb w.2 [] then [] else [w.2] |}.

Fixpoint fold_spans (out : list Span) (ws : list (number * number * jstr)) : list Span :=
  match ws with
  | [] => out
  | w :: ws' =>
      match out with
      | last :: before =>
          if (w.1.1 <=? span_end last)%num
          then fold_spans (extend_span last w.1.2 w.2 :: before) ws'
          else fold_spans (new_span w :: out) ws'
      | [] => fold_spans [new_span w] ws'
      end
  end.

Definition mergeWindowSpans (windows : list MaintenanceWindow) : list Span :=
  rev (fold_spans [] (parsed_windows windows)).

Definition maintenanceOverlaySeries (windows : list MaintenanceWindow) (dark : bool) : option Series :=
  let colors := chartColors document dark in
  let data := (fun s => mark_band (join (js " · ") (reasons s)) (span_start s) (span_end s))
                <$> mergeWindowSpans windows in
  if (length data =? 0)%nat then None
  else
    let color := obj [("color", VStr (axis colors))] in
    Some (obj [("name", VStr MAINTENANCE_SERIES_NAME); ("type", text "line"); ("data", VArr []);
               ("itemStyle", color); ("lineStyle", color);
               ("markArea",
                obj [("label", obj [("show", VBool false)]);
                     ("emphasis", emphasis_label colors "insideTop");
                     ("itemStyle", obj [("color", VStr (axis colors)); ("opacity", VNum (dec 8 2));
                                        ("borderColor", VStr (axis colors)); ("borderWidth", VNum (int 1));
                                        ("borderType", text "dashed")]);
                     ("data", VArr data)])]).

Definition withMaintenance (option : EChartsOption) (windows : list MaintenanceWindow) (dark : bool) :
    EChartsOption :=
  match maintenanceOverlaySeries windows dark with
  | None => option
  | Some overlay => with_overlay option overlay
  end.

(** ** Listings of several scopes *)

Context `{LocaleHost}.

(** [byId.set(a.id, a)] over all lists, then the values in order. *)
Definition by_id {A} (id : A -> jstr) (lists : list (list A)) : list (jstr * A) :=
  fold_left (fun m a => mset m (id a) a) (concat lists) [].

Definition compare_start {A} (id startAt : A -> jstr) (a b : A) : number :=
  let delta := (parse_ms (startAt a) - parse_ms (startAt b))%num in
  if negb (delta =? int 0)%num && negb (isNaN delta) then delta else localeCompare (id a) (id b).

Definition mergeAnnotations (lists : list (list Annotation)) : list Annotation :=
  js_sort (compare_start a_id a_startAt) (mvalues (by_id a_id lists)).

Definition mergeMaintenanceWindows (lists : list (list MaintenanceWindow)) : list MaintenanceWindow :=
  js_sort (compare_start w_id w_startAt) (mvalues (by_id w_id lists)).
End Overlays.

(** ** The create forms *)

Record FrozenWindow := { from : date; to : date }.

Definition outsideWindowNote (start : date) (end_ : option date) (frozen : option FrozenWindow)
    (t : Translate) (stampShort : date -> jstr) : option jstr :=
  match frozen with
  | None => None
  | Some w =>
      let from_ := getTime (from w) in
      let to_ := getTime (to w) in
      if negb (isFinite from_) || negb (isFinite to_) then None
      else
        let startMs := getTime start in
        let endMs := match end_ with None => startMs | Some e => getTime e end in
        if isNaN startMs || isNaN endMs then None
        else if (startMs <=? to_)%num && (endMs >=? from_)%num then None
        else Some (t (js "created.outsideWindow") [(js "ends", VStr (stampShort (to w)))])
  end.

Definition defaultStartIn (now : date) (frozen : option FrozenWindow) (spanSeconds : number) : date :=
  match frozen with
  | None => now
  | Some w =>
      let from_ := getTime (from w) in
      let to_ := getTime (to w) in
      if negb (isFinite from_) || negb (isFinite to_) || (from_ >? to_)%num then now
      else
        let nowMs := getTime now in
        if (nowMs >=? from_)%num && (nowMs <=? to_)%num then now
        else date_of_number (nmax from_ (to_ - spanSeconds * int 1000)%num)
  end.

(** ** Maintenance bands over the integers *)

(** A readable window and a span, in milliseconds. *)
Definition interval : Type := Z * Z * jstr.
Definition zspan : Type := Z * Z * list jstr.

Definition number_interval (w : interval) : number * number * jstr := (int w.1.1, int w.1.2, w.2).
Definition number_span (s : zspan) : Span :=
  {| span_start := int s.1.1; span_end := int s.1.2; reasons := s.2 |}.

Definition zextend (l : zspan) (e : Z) (r : jstr) : zspan :=
  (l.1.1, Z.max l.1.2 e, reasons (extend_span (number_span l) (int e) r)).

Definition znew (w : interval) : zspan := (w.1.1, w.1.2, reasons (new_span (number_interval w))).

Definition zstep (out : list zspan) (w : interval) : list zspan :=
  match out with
  | l :: before => if w.1.1 <=? l.1.2 then zextend l w.1.2 w.2 :: before else znew w :: out
  | [] => [znew w]
  end.

Lemma fold_spans_int out ws :
  fold_spans (number_span <$> out) (number_interval <$> ws) = number_span <$> fold_left zstep ws out.
Proof.
  revert out; induction ws as [|w ws IH]; intros out; [done|].
  destruct out as [|l before]; cbn [fmap list_fmap fold_spans fold_left zstep]; [apply (IH [znew w])|].
  cbn [number_interval number_span span_end fst snd]. rewrite nleb_int.
  destruct (w.1.1 <=? l.1.2); [|apply (IH (znew w :: l :: before))].
  rewrite <- (IH (zextend l w.1.2 w.2 :: before)). f_equal. f_equal.
  unfold number_span, zextend, extend_span. cbn [span_start span_end reasons fst snd]. by rewrite nmax_int.
Qed.

Definition covers {R} (t : Z) (s : Z * Z * R) : Prop := s.1.1 <= t <= s.1.2.

(** Latest first: separate bands, each a proper interval with every reason named once. *)
Definition bands (out : list zspan) : Prop :=
  StronglySorted (fun a b : zspan => b.1.2 < a.1.1) out /\
  Forall (fun s : zspan => s.1.1 <= s.1.2 /\ NoDup s.2 /\ [] ∉ s.2) out.

Lemma extend_reasons l e r :
  NoDup (reasons l) -> [] ∉ reasons l ->
  NoDup (reasons (extend_span l e r)) /\ [] ∉ reasons (extend_span l e r) /\
  (forall x, x ∈ reasons (extend_span l e r) <-> x ∈ reasons l \/ (x = r /\ r <> [])).
Proof.
  intros Hnd Hne. unfold extend_span. cbn [reasons]. destruct (seqb r []) eqn:Er; cbn [negb andb].
  - apply seqb_eq in Er as ->. split_and!; [done|done|]. intros x. naive_solver.
  - apply seqb_neq in Er. case_bool_decide as Hin; cbn [negb].
    + split_and!; [done|done|]. intros x. naive_solver.
    + split_and!.
      * apply NoDup_app. split_and!; [done| |repeat constructor; set_solver]. set_solver.
      * set_solver.
      * intros x. rewrite elem_of_app, list_elem_of_singleton. naive_solver.
Qed.

(** What is known of the spans [out'] that replace [out] once the windows [ws] were folded in. *)
Definition folded (out out' : list zspan) (ws : list interval) : Prop :=
  bands out' /\
  (forall t, Exists (covers t) out' <-> Exists (covers t) out \/ Exists (covers t) ws) /\
  (forall s, s ∈ out -> exists s', s' ∈ out' /\ s'.1.1 <= s.1.1 /\ s.1.2 <= s'.1.2 /\ s.2 ⊆ s'.2) /\
  (forall w, w ∈ ws -> exists s', s' ∈ out' /\ s'.1.1 <= w.1.1 /\ w.1.2 <= s'.1.2 /\ (w.2 <> [] -> w.2 ∈ s'.2)).

Lemma new_reasons w : NoDup (znew w).2 /\ [] ∉ (znew w).2 /\ (w.2 <> [] -> w.2 ∈ (znew w).2).
Proof.
  unfold znew, new_span. cbn [reasons snd number_interval]. destruct (seqb w.2 []) eqn:E.
  - apply seqb_eq in E. split_and!; [constructor|set_solver|done].
  - apply seqb_neq in E. split_and!; [repeat constructor; set_solver|set_solver|set_solver].
Qed.

Lemma zstep_new out w :
  bands out -> w.1.1 <= w.1.2 -> Forall (fun s : zspan => s.1.2 < w.1.1) out -> folded out (znew w :: out) [w].
Proof.
  intros [Hs Hf] Hw Hlt. destruct (new_reasons w) as (R1 & R2 & R3). split_and!.
  - split; constructor; try done.
  - intros t. rewrite !Exists_cons, Exists_nil. unfold covers, znew. cbn [fst snd]. tauto.
  - intros s Hin. exists s. split_and!; [by constructor|lia|lia|done].
  - intros w' ->%list_elem_of_singleton. exists (znew w). split_and!; [constructor|done|done|done].
Qed.

Lemma zstep_extend l before w :
  bands (l :: before) -> w.1.1 <= w.1.2 -> l.1.1 <= w.1.1 <= l.1.2 ->
  folded (l :: before) (zextend l w.1.2 w.2 :: before) [w].
Proof.
  intros [Hs Hf] Hw Hin. inversion Hs as [|?? Hs' Hlt]; inversion Hf as [|?? (Hl & Hnd & Hne) Hf']; subst.
  destruct (extend_reasons (number_span l) (int w.1.2) w.2 Hnd Hne) as (R1 & R2 & R3).
  cbn [number_span reasons] in R3. split_and!.
  - split; constructor; try done. split_and!; [cbn [zextend fst snd]; lia|done|done].
  - intros t. rewrite !Exists_cons, Exists_nil. unfold covers, zextend. cbn [fst snd].
    enough (l.1.1 <= t <= Z.max l.1.2 w.1.2 <-> l.1.1 <= t <= l.1.2 \/ w.1.1 <= t <= w.1.2) by tauto. lia.
  - intros s Hs0. apply elem_of_cons in Hs0 as [->|Hs0].
    + exists (zextend l w.1.2 w.2). cbn [zextend fst snd]. split_and!; [constructor|lia|lia|].
      intros x Hx. apply R3. by left.
    + exists s. split_and!; [by constructor|lia|lia|done].
  - intros w' ->%list_elem_of_singleton. exists (zextend l w.1.2 w.2). cbn [zextend fst snd].
    split_and!; [constructor|lia|lia|]. intros Hr. apply R3. by right.
Qed.

Lemma zstep_folded out w :
  bands out -> w.1.1 <= w.1.2 -> Forall (fun s : zspan => s.1.1 <= w.1.1) out ->
  folded out (zstep out w) [w] /\ Forall (fun s : zspan => s.1.1 <= w.1.1) (zstep out w).
Proof.
  intros Hb Hw Hle. destruct out as [|l before]; simpl.
  - split; [by apply zstep_new|]. repeat constructor. simpl. lia.
  - inversion Hle as [|?? Hl Hle']; subst. destruct (Z.leb_spec w.1.1 l.1.2).
    + split; [by apply zstep_extend; [|lia|lia]|]. by constructor.
    + split; [|constructor; [simpl; lia|done]]. apply zstep_new; [done|done|].
      destruct Hb as [Hs Hf]. inversion Hs as [|?? _ Hlt]; inversion Hf as [|?? (? & _) _]; subst. constructor; [lia|].
      eapply Forall_impl; [exact Hlt|]. intros s Hs0. simpl in Hs0. lia.
Qed.

Lemma folded_trans out1 out2 out3 ws1 ws2 :
  folded out1 out2 ws1 -> folded out2 out3 ws2 -> folded out1 out3 (ws1 ++ ws2).
Proof.
  intros (_ & C1 & S1 & W1) (B2 & C2 & S2 & W2). split_and!; [done|..].
  - intros t. rewrite C2, C1, Exists_app. tauto.
  - intros s (s' & Hs' & ? & ? & ?)%S1. destruct (S2 s' Hs') as (s'' & ? & ? & ? & ?).
    exists s''. split_and!; [done|lia|lia|set_solver].
  - intros w [Hw|Hw]%elem_of_app; [|by apply W2]. destruct (W1 w Hw) as (s' & Hs' & ? & ? & Hr).
    destruct (S2 s' Hs') as (s'' & ? & ? & ? & Hsub). exists s''. split_and!; [done|lia|lia|auto].
Qed.

Lemma zfold_folded out ws :
  bands out -> StronglySorted (fun a b : interval => a.1.1 <= b.1.1) ws ->
  Forall (fun w : interval => w.1.1 <= w.1.2) ws ->
  Forall (fun w : interval => Forall (fun s : zspan => s.1.1 <= w.1.1) out) ws ->
  folded out (fold_left zstep ws out) ws.
Proof.
  intros Hb Hs. revert out Hb; induction Hs as [|w ws Hs IH Hle]; intros out Hb Hw Ho; simpl.
  - split_and!; [done|intros; rewrite Exists_nil; tauto|intros s Hin; by exists s|set_solver].
  - inversion Hw as [|?? Hw1 Hw2]; inversion Ho as [|?? Ho1 Ho2]; subst.
    destruct (zstep_folded out w Hb Hw1 Ho1) as [Hf Hn].
    apply (folded_trans _ (zstep out w) _ [w]); [done|]. apply IH; [by destruct Hf|done|].
    eapply Forall_impl; [exact Hle|]. intros w' Hw'. eapply Forall_impl; [exact Hn|]. intros s Hs0. simpl in *. lia.
Qed.

Section Windows.
Context `{DateHost}.

(** The windows whose two edges are readable, in the order they were listed. *)
Definition intervals (windows : list MaintenanceWindow) : list interval :=
  omap (fun w => s ← Date_parse (w_startAt w); e ← Date_parse (w_endAt w); Some (s, e, w_reason w)) windows.

Lemma readable_windows windows :
  List.filter (fun w : number * number * jstr => negb (isNaN w.1.1) && negb (isNaN w.1.2))
    ((fun w => (parse_ms (w_startAt w), parse_ms (w_endAt w), w_reason w)) <$> windows)
  = number_interval <$> intervals windows.
Proof.
  induction windows as [|w ws IH]; [done|]. cbn [fmap list_fmap List.filter fst snd]. rewrite IH.
  unfold intervals. cbn [omap list_omap]. unfold parse_ms.
  destruct (Date_parse (w_startAt w)), (Date_parse (w_endAt w)); done.
Qed.

Definition start_leb (a b : interval) : bool := a.1.1 <=? b.1.1.

Lemma parsed_windows_int windows :
  parsed_windows windows = number_interval <$> sort_leb start_leb (intervals windows).
Proof.
  unfold parsed_windows, js_sort. rewrite readable_windows. apply sort_leb_fmap. intros x y.
  unfold cmp_leb, start_leb. cbn [number_interval fst snd]. rewrite nsub_int_pos. lia.
Qed.

Lemma intervals_sorted windows :
  StronglySorted (fun a b : interval => a.1.1 <= b.1.1) (sort_leb start_leb (intervals windows)).
Proof.
  apply (StronglySorted_weaken (fun _ => True) (fun a b => start_leb a b = true)).
  - intros a b _ _. unfold start_leb. lia.
  - by apply Forall_forall.
  - apply (sort_leb_sorted _ (fun _ => True)); [| |by apply Forall_forall]; unfold start_leb; intros; lia.
Qed.

(** C8: Maintenance bands are the union of the windows: the spans are proper, strictly separated and
    ascending, an instant lies in a band exactly when it lies in a readable window, and the band a
    window went into names its reason, each reason once. *)
Theorem mergeWindowSpans_union windows :
  Forall (fun w : interval => w.1.1 <= w.1.2) (intervals windows) ->
  exists spans : list zspan,
    mergeWindowSpans windows = number_span <$> spans /\
    StronglySorted (fun a b : zspan => a.1.2 < b.1.1) spans /\
    Forall (fun s : zspan => s.1.1 <= s.1.2 /\ NoDup s.2 /\ [] ∉ s.2) spans /\
    (forall t, Exists (covers t) spans <-> Exists (covers t) (intervals windows)) /\
    (forall w, w ∈ intervals windows ->
       exists s, s ∈ spans /\ s.1.1 <= w.1.1 /\ w.1.2 <= s.1.2 /\ (w.2 <> [] -> w.2 ∈ s.2)).
Proof.
  intros Hw. set (ws := sort_leb start_leb (intervals windows)).
  assert (Hp : ws ≡ₚ intervals windows) by apply sort_leb_perm.
  assert (Hf : folded [] (fold_left zstep ws []) ws).
  { apply zfold_folded; [split; constructor|apply intervals_sorted|by rewrite Hp|].
    apply Forall_forall. intros. constructor. }
  destruct Hf as ([Hs Hb] & Hc & _ & Hin). exists (rev (fold_left zstep ws [])). split_and!.
  - unfold mergeWindowSpans. rewrite parsed_windows_int. fold ws.
    rewrite (fold_spans_int [] ws : fold_spans [] _ = _). by rewrite !rev_reverse, fmap_reverse.
  - rewrite rev_reverse. by eapply StronglySorted_reverse; [|exact Hs].
  - rewrite rev_reverse. by apply Forall_reverse.
  - intros t. rewrite rev_reverse, Exists_reverse, Hc, Exists_nil, Hp. tauto.
  - intros w. rewrite <- Hp. intros (s & ? & ?)%Hin. exists s. rewrite rev_reverse, elem_of_reverse. done.
Qed.
End Windows.

(** ** Listings of several scopes *)

Section Listings.
Context {A : Type} (ident : A -> jstr).

Lemma by_id_keys lists : NoDup (mkeys (by_id ident lists)).
Proof.
  unfold by_id. assert (H : NoDup (mkeys (@nil (jstr * A)))) by constructor. revert H.
  generalize (@nil (jstr * A)) as m. induction (concat lists) as [|a l IH]; intros m Hm; simpl; [done|].
  apply IH. by apply NoDup_mkeys_mset.
Qed.

(** The listing that answered last has the last word on an id. *)
Lemma fold_mset_get l m k :
  mget (fold_left (fun m a => mset m (ident a) a) l m) k =
    match List.find (fun a => bool_decide (ident a = k)) (rev l) with Some a => Some a | None => mget m k end.
Proof.
  revert m; induction l as [|a l IH]; intros m; simpl; [done|]. rewrite IH, find_app_b. simpl.
  destruct (List.find _ (rev l)); [done|]. case_bool_decide as E; [subst; apply mget_mset_eq|by apply mget_mset_ne].
Qed.

Lemma by_id_consistent lists :
  Forall (fun p => ident p.2 = p.1) (by_id ident lists).
Proof.
  apply Forall_forall. intros [k a] Hin. apply mget_elem_of in Hin; [|apply by_id_keys].
  unfold by_id in Hin. rewrite fold_mset_get in Hin. destruct (List.find _ _) eqn:E; [|done]. injection Hin as ->.
  apply find_some in E as [_ E]. by apply bool_decide_eq_true in E.
Qed.

(** The rows of a merged listing: one per id, the last one listed. *)
Lemma by_id_values lists a :
  a ∈ mvalues (by_id ident lists) <->
  List.find (fun x => bool_decide (ident x = ident a)) (rev (concat lists)) = Some a.
Proof.
  pose proof (by_id_consistent lists) as Hc. rewrite Forall_forall in Hc. unfold mvalues. rewrite list_elem_of_fmap. split.
  - intros ([k x] & -> & Hin). pose proof (Hc _ Hin) as Hk. simpl in Hk. subst k. apply mget_elem_of in Hin; [|apply by_id_keys].
    unfold by_id in Hin. rewrite fold_mset_get in Hin. simpl. by destruct (List.find _ _).
  - intros Hf. exists (ident a, a). split; [done|]. apply elem_of_mget. unfold by_id. rewrite fold_mset_get, Hf. done.
Qed.

Lemma by_id_NoDup lists : NoDup (ident <$> mvalues (by_id ident lists)).
Proof.
  assert (ident <$> mvalues (by_id ident lists) = mkeys (by_id ident lists)) as ->; [|apply by_id_keys].
  pose proof (by_id_consistent lists) as Hc. unfold mvalues, mkeys. rewrite <- list_fmap_compose.
  apply list_fmap_ext. intros i p Hp. rewrite Forall_forall in Hc. apply Hc. by eapply list_elem_of_lookup_2.
Qed.
End Listings.

Section MergeListings.
Context `{DateHost} `{LocaleHost} {A : Type} (ident startAt : A -> jstr).

Definition readable (a : A) : Prop := is_Some (Date_parse (startAt a)).
Definition start_ms (a : A) : Z := default 0 (Date_parse (startAt a)).

Lemma compare_start_leb a b :
  readable a -> readable b ->
  cmp_leb (compare_start ident startAt) a b =
    (start_ms a <? start_ms b) || ((start_ms a =? start_ms b) && negb (int 0 <? localeCompare (ident a) (ident b))%num).
Proof.
  intros [x Hx] [y Hy]. unfold cmp_leb, compare_start, start_ms, parse_ms. rewrite Hx, Hy. cbn [getTime default from_option id].
  rewrite nsub_int_zero. destruct (Z.eqb_spec x y) as [->|Hne]; cbn [negb andb].
  - by rewrite Z.ltb_irrefl.
  - assert (isNaN (int x - int y)%num = false) as ->.
    { unfold nsub, int, nneg, nadd, round64. by case_match. }
    cbn [negb]. rewrite nsub_int_pos, orb_false_r. lia.
Qed.

Lemma start_total a b :
  readable a -> readable b -> cmp_leb (compare_start ident startAt) a b = true \/ cmp_leb (compare_start ident startAt) b a = true.
Proof.
  intros Ha Hb. rewrite !compare_start_leb by done.
  destruct (localeCompare_total (ident a) (ident b)) as [E|E]; rewrite E; cbn [negb]; lia.
Qed.

Lemma start_trans a b c :
  readable a -> readable b -> readable c ->
  cmp_leb (compare_start ident startAt) a b = true -> cmp_leb (compare_start ident startAt) b c = true ->
  cmp_leb (compare_start ident startAt) a c = true.
Proof.
  intros Ha Hb Hc. rewrite !compare_start_leb by done.
  rewrite !orb_true_iff, !andb_true_iff, !negb_true_iff, !Z.ltb_lt, !Z.eqb_eq.
  intros [?|[? E1]] [?|[? E2]]; [left; lia..|]. right. split; [lia|]. by eapply localeCompare_trans.
Qed.

Lemma merged_listing lists :
  Forall readable (concat lists) ->
  let out := js_sort (compare_start ident startAt) (mvalues (by_id ident lists)) in
  StronglySorted (fun a b => start_ms a <= start_ms b) out /\ NoDup (ident <$> out) /\
  (forall a, a ∈ out <-> List.find (fun x => bool_decide (ident x = ident a)) (rev (concat lists)) = Some a).
Proof.
  intros Hr out. assert (Hp : out ≡ₚ mvalues (by_id ident lists)) by apply sort_leb_perm.
  assert (Hv : Forall readable (mvalues (by_id ident lists))).
  { apply Forall_forall. intros a Ha%by_id_values. apply find_some in Ha as [Ha _].
    rewrite Forall_forall in Hr. apply Hr. by apply list_elem_of_In, in_rev. }
  split_and!.
  - apply (StronglySorted_weaken readable (fun a b => cmp_leb (compare_start ident startAt) a b = true)).
    + intros a b Ha Hb. rewrite compare_start_leb by done. lia.
    + by rewrite Hp.
    + apply (sort_leb_sorted _ readable start_total start_trans). done.
  - rewrite Hp. apply by_id_NoDup.
  - intros a. rewrite Hp. apply by_id_values.
Qed.
End MergeListings.

(** A merged listing of annotations is oldest first, names no annotation twice, and shows for
    every id handed in the version that was listed last. *)
Theorem mergeAnnotations_spec `{DateHost} `{LocaleHost} (lists : list (list Annotation)) :
  Forall (readable a_startAt) (concat lists) ->
  let out := mergeAnnotations lists in
  StronglySorted (fun a b => start_ms a_startAt a <= start_ms a_startAt b) out /\ NoDup (a_id <$> out) /\
  (forall a, a ∈ out <->
     List.find (fun x => bool_decide (a_id x = a_id a)) (rev (concat lists)) = Some a).
Proof. apply merged_listing. Qed.

(** ** The form opens inside its window *)

Lemma getTime_finite d : isFinite (getTime d) = true <-> is_Some d.
Proof. destruct d; simpl; [split; eauto|split; [done|intros [? ?]; done]]. Qed.

Lemma safe_time t : in_time_range t -> safe t.
Proof. unfold in_time_range, MAX_TIME_MS, safe. lia. Qed.

(** A create form opens on an instant its list will show: for a window that ends no earlier than
    it starts and a span of 0 to a million seconds, the default start lies inside the window, the
    current time is kept when it does, and the note about a row outside the window stays silent. *)
Theorem defaultStartIn_inside now f e spanSeconds t stamp :
  in_time_range now -> in_time_range f -> in_time_range e -> f <= e -> 0 <= spanSeconds <= 10 ^ 6 ->
  let frozen := Some {| from := Some f; to := Some e |} in
  exists d, defaultStartIn (Some now) frozen (int spanSeconds) = Some d /\ f <= d <= e /\
    (f <= now <= e -> d = now) /\
    outsideWindowNote (defaultStartIn (Some now) frozen (int spanSeconds)) None frozen t stamp = None.
Proof.
  intros Hn Hf He Hle Hs frozen. set (d := if (f <=? now) && (now <=? e) then now else Z.max f (e - spanSeconds * 1000)).
  assert (Hd : defaultStartIn (Some now) frozen (int spanSeconds) = Some d).
  { subst frozen d. unfold defaultStartIn. cbn [from to getTime isFinite int negb orb].
    fold (int f) (int e) (int now). rewrite nltb_int, !nleb_int, (proj2 (Z.ltb_ge e f)) by lia.
    destruct ((f <=? now) && (now <=? e)); [done|].
    pose proof (safe_time e He) as Se. unfold safe, in_time_range, MAX_TIME_MS in *.
    rewrite nmul_int by (unfold safe; lia). rewrite nsub_int by (unfold safe; lia). rewrite nmax_int.
    apply date_of_number_int. unfold in_time_range, MAX_TIME_MS. lia. }
  exists d. assert (f <= d <= e) by (subst d; destruct (Z.leb_spec f now), (Z.leb_spec now e); simpl; lia).
  split_and!; try lia; [done| |].
  - intros. subst d. by rewrite (proj2 (Z.leb_le f now)), (proj2 (Z.leb_le now e)) by lia.
  - rewrite Hd. unfold outsideWindowNote. subst frozen. cbn [from to getTime].
    change (isFinite (int f)) with true. change (isFinite (int e)) with true. change (isNaN (int d)) with false.
    cbn [negb orb]. rewrite !nleb_int, (proj2 (Z.leb_le d e)), (proj2 (Z.leb_le f d)) by lia. done.
Qed.

(** ** Witnesses *)

Definition sample_window (s e : Z) (reason : jstr) : MaintenanceWindow :=
  {| w_id := js "w"; w_scope := []; w_startAt := iso_string s; w_endAt := iso_string e; w_reason := reason;
     w_createdBy := []; w_createdAt := [] |}.

Definition sample_windows : list MaintenanceWindow :=
  [sample_window 5000 9000 (js "b"); sample_window 1000 5000 (js "a"); sample_window 20000 21000 (js "a")].

Lemma mergeWindowSpans_union_witness :
  intervals (H := iso_host) sample_windows = [(5000, 9000, js "b"); (1000, 5000, js "a"); (20000, 21000, js "a")] /\
  exists spans : list zspan,
    mergeWindowSpans (H := iso_host) sample_windows = number_span <$> spans /\
    forall t, Exists (covers t) spans <-> Exists (covers t) (intervals (H := iso_host) sample_windows).
Proof.
  assert (E : intervals (H := iso_host) sample_windows
              = [(5000, 9000, js "b"); (1000, 5000, js "a"); (20000, 21000, js "a")]) by (vm_compute; reflexivity).
  split; [exact E|].
  destruct (mergeWindowSpans_union (H := iso_host) sample_windows) as (spans & H1 & _ & _ & H2 & _).
  - rewrite E. repeat constructor; simpl; lia.
  - exists spans. split; [exact H1|exact H2].
Defined.

Definition sample_annotation (i : jstr) (s : Z) (note : jstr) : Annotation :=
  {| a_id := i; a_startAt := iso_string s; a_endAt := None; a_scope := []; a_text := note;
     a_createdBy := []; a_createdAt := [] |}.

Lemma mergeAnnotations_spec_witness :
  let lists := [[sample_annotation (js "x") 2000 (js "old"); sample_annotation (js "y") 1000 []];
                [sample_annotation (js "x") 2000 (js "new")]] in
  a_text <$> mergeAnnotations (H := iso_host) (H0 := unit_locale) lists = [[]; js "new"] /\
  NoDup (a_id <$> mergeAnnotations (H := iso_host) (H0 := unit_locale) lists).
Proof.
  intros lists. split; [vm_compute; reflexivity|].
  apply (mergeAnnotations_spec (H := iso_host) (H0 := unit_locale) lists).
  repeat (apply List.Forall_cons; [vm_compute; eexists; reflexivity|]). apply List.Forall_nil.
Defined.

Lemma defaultStartIn_inside_witness :
  exists d, defaultStartIn (Some 90000) (Some {| from := Some 1000; to := Some 8000 |}) (int 5) = Some d /\
    1000 <= d <= 8000.
Proof.
  destruct (defaultStartIn_inside 90000 1000 8000 5 (fun k _ => k) (fun _ => [])) as (d & H1 & H2 & _);
    [unfold in_time_range, MAX_TIME_MS; lia..|].
  exists d. split; [exact H1|exact H2].
Defined.
