(* ===== verification/LiveFeed.v ===== *)
(** The Live page ([web/src/pages/live.tsx]): its filters, the loss detector, the rows it draws and
    the store that takes arrivals from the socket, holds them while paused and merges them once per
    animation frame. *)
From S2P Require Import Prelude JsNum JsString JsCollections JsValue JsDate JsFormat Utils LiveEvents Annotations.
Local Open Scope Z_scope.

Record LiveFilters := { f_type : jstr; f_severity : jstr; f_scope : jstr }.

Definition EMPTY_FILTERS : LiveFilters := {| f_type := js "all"; f_severity := js "all"; f_scope := [] |}.

Definition SCOPE_MAX : nat := 512.

Definition sanitizeScope (raw : jstr) : jstr :=
  take SCOPE_MAX (List.filter (fun c => negb (((0 <=? c) && (c <=? 31)) || (c =? 127))) raw).

Definition LIVE_EVENT_TYPES : list jstr :=
  [js "topology_changed"; js "check_observed"; js "mtr_triggered"; js "mtr_completed"; js "diagnostic_progress"].
Definition LIVE_EVENT_SEVERITIES : list jstr := [js "info"; js "warn"; js "error"].
Definition isKnownType (v : jstr) : bool := existsb (seqb v) LIVE_EVENT_TYPES.
Definition isKnownSeverity (v : jstr) : bool := existsb (seqb v) LIVE_EVENT_SEVERITIES.

Section Filters.
Context (toLowerCase : jstr -> jstr).

Definition filterEvents (events : list LiveEvent) (filters : LiveFilters) : list LiveEvent :=
  let scope_ := toLowerCase (normalizePairInput (f_scope filters)) in
  List.filter (fun e =>
    (seqb (f_type filters) (js "all") || seqb (type_ e) (f_type filters)) &&
    (seqb (f_severity filters) (js "all") || seqb (severity e) (f_severity filters)) &&
    (seqb scope_ [] || includes (toLowerCase (scope e)) scope_)) events.

Definition annotationMatchesFilters (annotation : Annotation) (filters : LiveFilters) : bool :=
  if negb (seqb (f_type filters) (js "all")) || negb (seqb (f_severity filters) (js "all")) then false
  else
    let scope_ := toLowerCase (normalizePairInput (f_scope filters)) in
    if seqb scope_ [] then true
    else negb (seqb (a_scope annotation) []) && includes (toLowerCase (a_scope annotation)) scope_.
End Filters.

(** ** The loss detector *)

Section Missed.
Context `{DateHost}.

(** The scan over neighbours of the sequence order. *)
Fixpoint missed_from (missed : number) (bySeq : list LiveEvent) : number :=
  match bySeq with
  | lower :: ((higher :: _) as tail) =>
      let delta := (seqno higher - seqno lower)%num in
      if (delta <=? int 1)%num then missed_from missed tail
      else if (timeOf lower >? timeOf higher)%num then missed_from missed tail
      else missed_from (missed + (delta - int 1))%num tail
  | _ => missed
  end.

Definition countMissedEvents (events : list LiveEvent) : number :=
  let numbered := List.filter (fun e => isFinite (seqno e) && negb (filteredHistory e)) events in
  if (length numbered <? 2)%nat then int 0
  else missed_from (int 0) (js_sort (fun a b => seqno a - seqno b)%num numbered).

(** ** The rows of the page *)

Inductive FeedRow :=
  | EventRow (key : jstr) (at_ : number) (event : LiveEvent)
  | AnnotationRow (key : jstr) (at_ : number) (annotation : Annotation).

Definition row_at (r : FeedRow) : number := match r with EventRow _ t _ | AnnotationRow _ t _ => t end.

Definition event_key (i : nat) (e : LiveEvent) : jstr :=
  if identified e then default [] (id e) else js "row:" ++ string_of_Z (Z.of_nat i).

Definition annotation_at (a : Annotation) : number :=
  let parsed := parse_ms (a_startAt a) in if isNaN parsed then Inf true else parsed.

Definition mergeFeedRows (toLowerCase : jstr -> jstr) (events : list LiveEvent) (annotations : list Annotation)
    (filters : LiveFilters) : list FeedRow :=
  let rows := imap (fun i e => EventRow (event_key i e) (timeOf e) e) events in
  let notes := (fun a => AnnotationRow (js "annotation:" ++ a_id a) (annotation_at a) a)
                 <$> List.filter (fun a => annotationMatchesFilters toLowerCase a filters) annotations in
  js_sort (fun a b => row_at b - row_at a)%num (rows ++ notes).

(** ** The store *)

(** What the page keeps in state and in refs; [frame] says an animation frame is requested. *)
Record store := {
  events : list LiveEvent;
  inbox : list LiveEvent;
  pending : list LiveEvent;
  bufferedRef : Z;
  buffered : Z;
  discardedRef : Z;
  discarded : Z;
  pausedRef : bool;
  paused : bool;
  frame : bool;
  generation : Z;
  nextCursor : option jstr;
  loading : bool;
  notice : option jstr;
}.

Definition mounted : store :=
  {| events := []; inbox := []; pending := []; bufferedRef := 0; buffered := 0; discardedRef := 0;
     discarded := 0; pausedRef := false; paused := false; frame := false; generation := 0;
     nextCursor := Some []; loading := false; notice := None |}.

Definition flush (st : store) : store :=
  {| events := if (length (inbox st) =? 0)%nat then events st else pushEvents (events st) (inbox st);
     inbox := []; pending := pending st; bufferedRef := bufferedRef st; buffered := bufferedRef st;
     discardedRef := discardedRef st; discarded := discardedRef st; pausedRef := pausedRef st;
     paused := paused st; frame := false; generation := generation st; nextCursor := nextCursor st;
     loading := loading st; notice := notice st |}.

(** [q.push(e)], then the slab trim: the queue kept and how many it lost. *)
Definition enqueue (q : list LiveEvent) (e : LiveEvent) : list LiveEvent * Z :=
  let q := q ++ [e] in
  if (LIVE_RING_CAP * 2 <? length q)%nat
  then (drop (length q - LIVE_RING_CAP) q, Z.of_nat (length q) - Z.of_nat LIVE_RING_CAP)
  else (q, 0).

(** An envelope of type "event" on the live topic. *)
Definition arrive (e : LiveEvent) (st : store) : store :=
  if pausedRef st then
    let '(q, lost) := enqueue (pending st) e in
    {| events := events st; inbox := inbox st; pending := q; bufferedRef := bufferedRef st + 1;
       buffered := buffered st; discardedRef := discardedRef st + lost; discarded := discarded st;
       pausedRef := true; paused := paused st; frame := true; generation := generation st;
       nextCursor := nextCursor st; loading := loading st; notice := notice st |}
  else
    let '(q, lost) := enqueue (inbox st) e in
    {| events := events st; inbox := q; pending := pending st; bufferedRef := bufferedRef st;
       buffered := buffered st; discardedRef := discardedRef st + lost; discarded := discarded st;
       pausedRef := false; paused := paused st; frame := true; generation := generation st;
       nextCursor := nextCursor st; loading := loading st; notice := notice st |}.

Definition togglePause (st0 : store) : store :=
  let st := flush st0 in
  if negb (paused st0) then
    {| events := events st; inbox := inbox st; pending := pending st; bufferedRef := bufferedRef st;
       buffered := buffered st; discardedRef := discardedRef st; discarded := discarded st;
       pausedRef := true; paused := true; frame := frame st; generation := generation st;
       nextCursor := nextCursor st; loading := loading st; notice := notice st |}
  else
    {| events := if (0 <? length (pending st))%nat then pushEvents (events st) (pending st) else events st;
       inbox := inbox st; pending := []; bufferedRef := 0; buffered := 0;
       discardedRef := discardedRef st; discarded := discarded st; pausedRef := false; paused := false;
       frame := frame st; generation := generation st; nextCursor := nextCursor st;
       loading := loading st; notice := notice st |}.

(** The effect on a change of the Time Machine's instant: another stream, an empty store. *)
Definition atChanged (st : store) : store :=
  {| events := []; inbox := []; pending := []; bufferedRef := 0; buffered := 0; discardedRef := 0;
     discarded := 0; pausedRef := false; paused := false; frame := frame st; generation := generation st;
     nextCursor := nextCursor st; loading := loading st; notice := notice st |}.

(** [loadHistory]: its start, and its answer for the load of generation [g]. *)
Definition historyStart (st : store) : store :=
  {| events := events st; inbox := inbox st; pending := pending st; bufferedRef := bufferedRef st;
     buffered := buffered st; discardedRef := discardedRef st; discarded := discarded st;
     pausedRef := pausedRef st; paused := paused st; frame := frame st; generation := generation st + 1;
     nextCursor := nextCursor st; loading := true; notice := notice st |}.

Definition mark_filtered (e : LiveEvent) : LiveEvent :=
  {| id := id e; seqno := seqno e; type_ := type_ e; severity := severity e; scope := scope e;
     timestamp := timestamp e; summary := summary e; details := details e; filteredHistory := true |}.

Inductive history_answer :=
  | Page (rows : list LiveEvent) (next : jstr)
  | Failed (cursor : option jstr) (message : jstr).

Definition historyAnswer (g : Z) (filtered : bool) (answer : history_answer) (st : store) : store :=
  if negb (g =? generation st) then st
  else
    match answer with
    | Page rows next =>
        {| events := pushEvents (events st) (if filtered then mark_filtered <$> rows else rows);
           inbox := inbox st; pending := pending st; bufferedRef := bufferedRef st; buffered := buffered st;
           discardedRef := discardedRef st; discarded := discarded st; pausedRef := pausedRef st;
           paused := paused st; frame := frame st; generation := generation st; nextCursor := Some next;
           loading := false; notice := None |}
    | Failed cursor message =>
        {| events := events st; inbox := inbox st; pending := pending st; bufferedRef := bufferedRef st;
           buffered := buffered st; discardedRef := discardedRef st; discarded := discarded st;
           pausedRef := pausedRef st; paused := paused st; frame := frame st; generation := generation st;
           nextCursor := cursor; loading := false; notice := Some message |}
    end.

(** The inputs of the page, in the order they happen. *)
Inductive input :=
  | Arrive (e : LiveEvent)
  | FrameFires
  | TogglePause
  | AtChanged
  | HistoryStart
  | HistoryAnswer (g : Z) (filtered : bool) (answer : history_answer).

Definition step (st : store) (i : input) : store :=
  match i with
  | Arrive e => arrive e st
  | FrameFires => if frame st then flush st else st
  | TogglePause => togglePause st
  | AtChanged => atChanged st
  | HistoryStart => historyStart st
  | HistoryAnswer g filtered answer => historyAnswer g filtered answer st
  end.
End Missed.

(** ** Every arrival is accounted for *)

Section Accounts.
Context `{DateHost}.

#[local] Opaque LIVE_RING_CAP.

(** What came in since the stream was last chosen, read off the inputs alone: the arrivals in order, and the history
    pages whose load was still the newest one when they were answered, as they are filed. *)
Record ledger := { arrived : list LiveEvent; answered : list (list LiveEvent) }.

Definition opened : ledger := {| arrived := []; answered := [] |}.

Definition post (st : store) (l : ledger) (i : input) : ledger :=
  match i with
  | AtChanged => opened
  | Arrive e => {| arrived := arrived l ++ [e]; answered := answered l |}
  | HistoryAnswer g filtered (Page rows _) =>
      if g =? generation st
      then {| arrived := arrived l; answered := answered l ++ [if filtered then mark_filtered <$> rows else rows] |}
      else l
  | _ => l
  end.

Definition run (inputs : list input) : store * ledger :=
  fold_left (fun s i => (step s.1 i, post s.1 s.2 i)) inputs (mounted, opened).

(** What was pushed into the ring, batch by batch: arrivals taken from a queue, or a page of history. *)
Inductive batch := FromQueue (es : list LiveEvent) | FromHistory (es : list LiveEvent).

Definition pushed (b : batch) : list LiveEvent := match b with FromQueue es | FromHistory es => es end.
Definition from_queue (b : batch) : list LiveEvent := match b with FromQueue es => es | FromHistory _ => [] end.
Definition from_history (b : batch) : option (list LiveEvent) := match b with FromHistory es => Some es | FromQueue _ => None end.

(** The ring holds exactly what pushing these batches leaves; the arrivals are those of the batches, those queued and
    those lost, which are as many as the page says. *)
Definition accounted (st : store) (l : ledger) (batches : list batch) (lost : list LiveEvent) : Prop :=
  events st = fold_left pushEvents (pushed <$> batches) [] /\
  arrived l ≡ₚ (batches ≫= from_queue) ++ inbox st ++ pending st ++ lost /\
  omap from_history batches = answered l /\
  Z.of_nat (length lost) = discardedRef st.

Definition sound (st : store) (l : ledger) : Prop :=
  (exists batches lost, accounted st l batches lost) /\
  (length (inbox st) <= LIVE_RING_CAP * 2)%nat /\ (length (pending st) <= LIVE_RING_CAP * 2)%nat /\
  (length (events st) <= LIVE_RING_CAP)%nat /\
  paused st = pausedRef st /\ (paused st = false -> pending st = [] /\ bufferedRef st = 0) /\
  Z.of_nat (length (pending st)) <= bufferedRef st /\
  (inbox st <> [] -> frame st = true).

Lemma enqueue_spec q e q' n :
  (length q <= LIVE_RING_CAP * 2)%nat -> enqueue q e = (q', n) ->
  (length q' <= LIVE_RING_CAP * 2)%nat /\ (length q' <= length q + 1)%nat /\
  exists lost, q ++ [e] = lost ++ q' /\ Z.of_nat (length lost) = n.
Proof.
  intros Hq. unfold enqueue. rewrite length_app. simpl. destruct (Nat.ltb_spec (LIVE_RING_CAP * 2) (length q + 1)).
  - intros [= <- <-]. rewrite length_drop, length_app. simpl. split_and!; [lia|lia|].
    exists (take (length q + 1 - LIVE_RING_CAP) (q ++ [e])). rewrite take_drop, length_take, length_app. simpl. split; [done|lia].
  - intros [= <- <-]. rewrite length_app. simpl. split_and!; [lia|lia|]. by exists [].
Qed.

Lemma merge_ring_length n prev fresh : (length (merge_ring n prev fresh) <= n)%nat.
Proof.
  revert prev fresh; induction n as [|n IH]; intros [|p prev] [|f fresh]; simpl; try lia;
    try case_match; simpl; apply le_n_S, IH.
Qed.

Lemma pushEvents_length prev incoming :
  (length prev <= LIVE_RING_CAP)%nat -> (length (pushEvents prev incoming) <= LIVE_RING_CAP)%nat.
Proof. intros Hp. unfold pushEvents. repeat case_match; try done. apply merge_ring_length. Qed.

(** A batch put into the ring. *)
Lemma push_batch batches b : fold_left pushEvents (pushed <$> (batches ++ [b])) [] = pushEvents (fold_left pushEvents (pushed <$> batches) []) (pushed b).
Proof. by rewrite fmap_app, fold_left_app. Qed.

Lemma accounted_queue st l batches lost q st' rest :
  accounted st l batches lost -> inbox st ++ pending st ≡ₚ q ++ rest -> inbox st' ++ pending st' = rest ->
  events st' = (if (length q =? 0)%nat then events st else pushEvents (events st) q) -> discardedRef st' = discardedRef st ->
  exists batches', accounted st' l batches' lost.
Proof.
  intros (He & Ha & Hh & Hd) Hq Hr He' Hd'. exists (if (length q =? 0)%nat then batches else batches ++ [FromQueue q]).
  rewrite (app_assoc (inbox st)), Hq in Ha. split_and!.
  - rewrite He'. destruct (Nat.eqb_spec (length q) 0); [done|]. by rewrite push_batch, <- He.
  - rewrite (app_assoc (inbox st')), Hr, Ha. destruct (Nat.eqb_spec (length q) 0) as [->%nil_length_inv|]; [done|].
    rewrite bind_app. csimpl. rewrite app_nil_r. by rewrite <- !app_assoc.
  - destruct (_ =? 0)%nat; [done|]. rewrite omap_app. simpl. by rewrite app_nil_r.
  - by rewrite Hd'.
Qed.

Lemma flush_sound st l : sound st l -> sound (flush st) l.
Proof.
  intros ((batches & lost & H1) & H2 & H3 & H4 & H5 & H6 & H7 & H8). split.
  - destruct (accounted_queue st l batches lost (inbox st) (flush st) (pending st)) as [batches' ?]; [done..|by exists batches', lost].
  - unfold flush. cbn [events inbox pending bufferedRef discardedRef pausedRef paused frame length].
    split_and!; try done; try lia; [|by destruct (H6 _)..]. case_match; [done|by apply pushEvents_length].
Qed.

(** An arrival joins one of the queues, which may lose its oldest. *)
Lemma arrive_accounted st l batches lost e :
  accounted st l batches lost -> (length (inbox st) <= LIVE_RING_CAP * 2)%nat -> (length (pending st) <= LIVE_RING_CAP * 2)%nat ->
  exists lost', accounted (arrive e st) (post st l (Arrive e)) batches lost'.
Proof.
  intros (He & Ha & Hh & Hd) Hi Hp. unfold arrive. destruct (pausedRef st).
  - destruct (enqueue (pending st) e) as [q n] eqn:Eq. apply enqueue_spec in Eq as (_ & _ & more & Eq & En); [|done].
    exists (lost ++ more). split_and!; try done; simpl; [|rewrite length_app; lia].
    rewrite Ha. transitivity ((batches ≫= from_queue) ++ inbox st ++ (pending st ++ [e]) ++ lost); [solve_Permutation|].
    rewrite Eq. solve_Permutation.
  - destruct (enqueue (inbox st) e) as [q n] eqn:Eq. apply enqueue_spec in Eq as (_ & _ & more & Eq & En); [|done].
    exists (lost ++ more). split_and!; try done; simpl; [|rewrite length_app; lia].
    rewrite Ha. transitivity ((batches ≫= from_queue) ++ (inbox st ++ [e]) ++ pending st ++ lost); [solve_Permutation|].
    rewrite Eq. solve_Permutation.
Qed.

Lemma arrive_sound st l e : sound st l -> sound (arrive e st) (post st l (Arrive e)).
Proof.
  intros ((batches & lost & H1) & H2 & H3 & H4 & H5 & H6 & H7 & H8). split.
  { destruct (arrive_accounted st l batches lost e H1 H2 H3) as [lost' ?]. by exists batches, lost'. }
  unfold arrive. destruct (pausedRef st) eqn:Ep.
  - destruct (enqueue (pending st) e) as [q n] eqn:Eq. apply enqueue_spec in Eq as (? & ? & _); [|done].
    simpl. split_and!; try done; try lia. congruence.
  - destruct (enqueue (inbox st) e) as [q n] eqn:Eq. apply enqueue_spec in Eq as (? & ? & _); [|done].
    simpl. split_and!; try done; lia.
Qed.

Lemma togglePause_sound st l : sound st l -> sound (togglePause st) l.
Proof.
  intros Hs. pose proof (flush_sound st l Hs) as ((batches & lost & F1) & F2 & F3 & F4 & F5 & F6 & F7 & F8).
  unfold togglePause. destruct (paused st) eqn:Ep; cbn [negb].
  - split.
    + match goal with |- exists _ _, accounted ?s _ _ _ => destruct (accounted_queue (flush st) l batches lost (pending (flush st)) s []) as [batches' ?] end;
        [exact F1|by rewrite app_nil_r|reflexivity| |reflexivity|by exists batches', lost]. simpl. by destruct (pending st).
    + simpl in *. split_and!; try done; try lia. destruct (0 <? length (pending st))%nat; [by apply pushEvents_length|done].
  - split; [by exists batches, lost|]. simpl in *. split_and!; try done; lia.
Qed.

Lemma historyAnswer_sound st l g filtered a :
  sound st l -> sound (historyAnswer g filtered a st) (post st l (HistoryAnswer g filtered a)).
Proof.
  intros Hs. unfold historyAnswer. cbn [post]. destruct (g =? generation st) eqn:Eg; cbn [negb]; [|by destruct a].
  destruct Hs as ((batches & lost & He & Ha & Hh & Hd) & H2 & H3 & H4 & H5 & H6 & H7 & H8). destruct a as [rows next|cursor message].
  - split; [|simpl; split_and!; try done; by apply pushEvents_length].
    exists (batches ++ [FromHistory (if filtered then mark_filtered <$> rows else rows)]), lost. split_and!; simpl.
    + by rewrite push_batch, <- He.
    + rewrite bind_app. csimpl. by rewrite app_nil_r.
    + rewrite omap_app. simpl. by rewrite Hh.
    + done.
  - split; [by exists batches, lost|done].
Qed.

Lemma step_sound st l i : sound st l -> sound (step st i) (post st l i).
Proof.
  intros Hs. destruct i as [e| | | | |g f a]; cbn [step].
  - by apply arrive_sound.
  - destruct (frame st); [by apply flush_sound|done].
  - by apply togglePause_sound.
  - split; [by exists [], []|]. simpl. split_and!; try done; lia.
  - by destruct Hs as ((batches & lost & ?) & ?); split; [exists batches, lost|].
  - by apply historyAnswer_sound.
Qed.

(** C7: No event is lost silently: after any sequence of arrivals, frames, pauses, history answers and changes of stream,
    the ring is what pushing a sequence of batches into an empty one leaves; those batches hold, together, exactly the
    history pages that were answered in time, as pages, and arrivals taken from the queues; and the arrivals since the
    stream was chosen are, each exactly once, those of the batches, those that wait in one of the two queues, and those
    counted as discarded.  The ring and the queues are bounded, nothing waits behind a pause that is not on, and an
    event that waits for a frame has one requested. *)
Theorem live_store_accounts inputs : sound (run inputs).1 (run inputs).2.
Proof.
  unfold run. set (s := (mounted, opened)). assert (Hs : sound s.1 s.2).
  { split; [by exists [], []|]. simpl. split_and!; try done; lia. }
  clearbody s. revert s Hs. induction inputs as [|i inputs IH]; intros s Hs; [done|].
  cbn [fold_left]. apply IH. by apply step_sound.
Qed.
End Accounts.

(** ** The loss detector counts the holes *)

Section Holes.
Context `{DateHost}.

(** The controller's number of an event, in the range its counter can reach. *)
Definition seq_of (e : LiveEvent) : Z := match seqno e with Fin z => z / U | _ => 0 end.
Definition counted (e : LiveEvent) : Prop := seqno e = int (seq_of e) /\ 0 <= seq_of e <= 2 ^ 51.

(** The events the detector looks at. *)
Definition considered (l : list LiveEvent) : list LiveEvent :=
  List.filter (fun e => isFinite (seqno e) && negb (filteredHistory e)) l.

Lemma seq_leb a b :
  counted a -> counted b -> cmp_leb (fun a b => seqno a - seqno b)%num a b = (seq_of a <=? seq_of b).
Proof. intros [Ha _] [Hb _]. unfold cmp_leb. rewrite Ha, Hb, nsub_int_pos. lia. Qed.

Lemma by_seq_sorted l :
  Forall counted l -> NoDup (seq_of <$> l) ->
  StronglySorted (fun a b => seq_of a < seq_of b) (js_sort (fun a b => seqno a - seqno b)%num l).
Proof.
  intros Hl Hnd. set (s := js_sort _ l). assert (Hp : s ≡ₚ l) by apply sort_leb_perm.
  assert (Hs : StronglySorted (fun a b => seq_of a <= seq_of b) s).
  { apply (StronglySorted_weaken counted (fun a b => cmp_leb (fun a b => seqno a - seqno b)%num a b = true)).
    - intros a b Ha Hb. rewrite seq_leb by done. lia.
    - by rewrite Hp.
    - apply (sort_leb_sorted _ counted); [| |done]; intros *; repeat intros ?; rewrite !seq_leb in * by done; lia. }
  assert (Hn : NoDup (seq_of <$> s)) by by rewrite Hp.
  clearbody s. clear Hp. induction Hs as [|x k Hs IH Hf]; constructor; apply NoDup_cons in Hn as [Hx Hn]; [auto|].
  rewrite Forall_forall in *. intros y Hy. specialize (Hf y Hy).
  assert (seq_of x <> seq_of y) by (intros E; apply Hx; rewrite E; by apply list_elem_of_fmap_2). lia.
Qed.

Lemma missed_cons m lower higher l :
  missed_from m (lower :: higher :: l) =
    let delta := (seqno higher - seqno lower)%num in
    if (delta <=? int 1)%num then missed_from m (higher :: l)
    else if (timeOf higher <? timeOf lower)%num then missed_from m (higher :: l)
    else missed_from (m + (delta - int 1))%num (higher :: l).
Proof. reflexivity. Qed.

Lemma missed_telescopes c e l :
  Forall counted (e :: l) -> StronglySorted (fun a b => seq_of a < seq_of b) (e :: l) ->
  StronglySorted (fun a b => (timeOf b <? timeOf a)%num = false) (e :: l) ->
  0 <= c -> c + (2 ^ 51 - seq_of e) <= 2 ^ 52 ->
  exists top, last (e :: l) = Some top /\
    missed_from (int c) (e :: l) = int (c + (seq_of top - seq_of e) - Z.of_nat (length l)).
Proof.
  revert c e; induction l as [|h l IH]; intros c e Hc Hs Ht Hc0 Hcb.
  - exists e. split; [done|]. simpl. f_equal. lia.
  - inversion Hc as [|?? [He He'] Hc']; subst. inversion Hc' as [|?? [Hh Hh'] _]; subst.
    inversion Hs as [|?? Hs' Hlt]; subst. inversion Ht as [|?? Ht' Hle]; subst.
    inversion Hlt as [|?? Heh _]; inversion Hle as [|?? Hteh _]; subst.
    rewrite missed_cons. cbv zeta. rewrite Hteh, He, Hh.
    rewrite nsub_int, nleb_int by (unfold safe; lia).
    destruct (Z.leb_spec (seq_of h - seq_of e) 1).
    + destruct (IH c h) as (top & Hl & ->); try done; [lia|]. exists top. split; [done|]. f_equal. cbn [length]. lia.
    + rewrite nsub_int, nadd_int by (unfold safe; lia).
      destruct (IH (c + (seq_of h - seq_of e - 1)) h) as (top & Hl & ->); try done; [lia|lia|].
      exists top. split; [done|]. f_equal. cbn [length]. lia.
Qed.

(** The loss warning counts exactly the holes: when the controller's numbers are distinct and
    never run against the clock, the count is the number of numbers between the lowest and the
    highest received that were not received; rows of a filtered history page do not take part. *)
Theorem countMissedEvents_holes l :
  considered l <> [] -> Forall counted (considered l) -> NoDup (seq_of <$> considered l) ->
  (forall a b, a ∈ considered l -> b ∈ considered l -> seq_of a < seq_of b ->
     (timeOf b <? timeOf a)%num = false) ->
  exists lo hi, lo ∈ considered l /\ hi ∈ considered l /\
    Forall (fun e => seq_of lo <= seq_of e <= seq_of hi) (considered l) /\
    countMissedEvents l = int (seq_of hi - seq_of lo + 1 - Z.of_nat (length (considered l))).
Proof.
  intros Hne Hc Hnd Ht. pose proof (by_seq_sorted _ Hc Hnd) as Hs. unfold countMissedEvents. fold (considered l).
  set (s := js_sort _ (considered l)) in *. assert (Hp : s ≡ₚ considered l) by apply sort_leb_perm.
  destruct s as [|e k] eqn:Es; [by apply Permutation_nil in Hp|]. rewrite <- Es in *.
  assert (Hts : StronglySorted (fun a b => (timeOf b <? timeOf a)%num = false) s).
  { apply (StronglySorted_weaken (fun x => x ∈ considered l) (fun a b => seq_of a < seq_of b)); [by auto| |done].
    apply Forall_forall. intros x Hx. by rewrite <- Hp. }
  destruct (missed_telescopes 0 e k) as (top & Htop & Hm); rewrite <- ?Es; try done; [by rewrite Hp| |].
  { assert (counted e) as [_ ?]; [|lia]. rewrite Forall_forall in Hc. apply Hc. rewrite <- Hp, Es. constructor. }
  rewrite <- Es in Hm. exists e, top.
  assert (He : e ∈ considered l) by (rewrite <- Hp, Es; constructor).
  assert (Hto : top ∈ considered l) by (rewrite <- Hp, Es; by apply last_Some_elem_of).
  split_and!; [done|done| |].
  - apply Forall_forall. intros y Hy. rewrite <- Hp in Hy. rewrite Es in Hs, Hy.
    assert (seq_of y <= seq_of top).
    { destruct (StronglySorted_last _ _ top y Hs Htop Hy) as [->|?]; lia. }
    inversion Hs as [|?? _ Hf]; subst. rewrite Forall_forall in Hf.
    apply elem_of_cons in Hy as [->|Hy]; [lia|]. specialize (Hf y Hy). lia.
  - rewrite Hm. rewrite <- Hp, Es. cbn [length]. destruct (Nat.ltb_spec (S (length k)) 2).
    + destruct k; [|simpl in *; lia]. injection Htop as <-. f_equal. simpl. lia.
    + f_equal. lia.
Qed.
End Holes.

(** ** Rows *)

Section Rows.
Context `{DateHost} (toLowerCase : jstr -> jstr).

Definition event_of (r : FeedRow) : option LiveEvent := match r with EventRow _ _ e => Some e | _ => None end.
Definition note_of (r : FeedRow) : option Annotation := match r with AnnotationRow _ _ a => Some a | _ => None end.
Definition is_event (r : FeedRow) : bool := match r with EventRow _ _ _ => true | _ => false end.

(** A row has a readable instant or sits at the bottom. *)
Definition placed_row (r : FeedRow) : Prop := row_at r = Inf true \/ exists t, row_at r = int t /\ - MAX_TIME_MS <= t.
Definition rank (r : FeedRow) : Z := match row_at r with Fin z => z / U | _ => - MAX_TIME_MS - 1 end.

Lemma rank_int r t : row_at r = int t -> rank r = t.
Proof. unfold rank, int. intros ->. apply Z.div_mul. pose proof U_pos. lia. Qed.

Lemma row_leb a b :
  placed_row a -> placed_row b -> cmp_leb (fun a b => row_at b - row_at a)%num a b = (rank b <=? rank a).
Proof.
  intros [Ha|(t & Ha & Ht)] [Hb|(u & Hb & Hu)]; unfold cmp_leb; rewrite Ha, Hb.
  - unfold rank. rewrite Ha, Hb, Z.leb_refl. done.
  - rewrite (rank_int b u Hb). unfold rank. rewrite Ha. rewrite (proj2 (Z.leb_gt u _)) by lia. done.
  - rewrite (rank_int a t Ha). unfold rank. rewrite Hb. rewrite (proj2 (Z.leb_le _ t)) by lia. done.
  - rewrite nsub_int_pos, (rank_int a t Ha), (rank_int b u Hb). lia.
Qed.

Lemma sort_rows_sorted l :
  Forall placed_row l ->
  StronglySorted (fun a b => cmp_leb (fun a b => row_at b - row_at a)%num a b = true)
    (js_sort (fun a b => row_at b - row_at a)%num l).
Proof.
  intros Hl. apply (sort_leb_sorted _ placed_row); [| |done]; intros *; repeat intros ?;
    rewrite !row_leb in * by done; lia.
Qed.

Lemma omap_filter_events l : omap event_of l = omap event_of (List.filter is_event l).
Proof. induction l as [|[] l IH]; [done|cbn; f_equal; exact IH|exact IH]. Qed.

Lemma filter_event_rows es notes :
  List.filter is_event (imap (fun i e => EventRow (event_key i e) (timeOf e) e) es ++
                        ((fun a => AnnotationRow (js "annotation:" ++ a_id a) (annotation_at a) a) <$> notes))
  = imap (fun i e => EventRow (event_key i e) (timeOf e) e) es.
Proof.
  rewrite List.filter_app. assert (forall l, List.filter is_event
    ((fun a => AnnotationRow (js "annotation:" ++ a_id a) (annotation_at a) a) <$> l) = []) as -> by (by induction l).
  rewrite app_nil_r. generalize event_key as f. induction es as [|e es IH]; intros f; [done|].
  rewrite imap_cons. simpl. f_equal. apply (IH (f ∘ S)).
Qed.

Lemma event_row_placed k e : placed_row (EventRow k (timeOf e) e).
Proof. destruct (timeOf_cases e) as [(t & _ & -> & ?)|[_ ->]]; [right; eauto|by left]. Qed.

Lemma rank_event k e : rank (EventRow k (timeOf e) e) = time_key e.
Proof.
  unfold rank, time_key. cbn [row_at]. destruct (timeOf_cases e) as [(t & -> & -> & ?)|[-> ->]]; [|done].
  unfold int. by rewrite Z.div_mul by (pose proof U_pos; lia).
Qed.

Lemma note_row_placed k a : placed_row (AnnotationRow k (annotation_at a) a).
Proof.
  unfold placed_row, annotation_at, parse_ms. simpl. destruct (Date_parse (a_startAt a)) eqn:E; [right|by left].
  eexists. split; [done|]. apply Date_parse_range in E. unfold in_time_range in E. lia.
Qed.

Lemma event_rows_sorted es f :
  StronglySorted (fun a b => newer_eq a b = true) es ->
  StronglySorted (fun a b => cmp_leb (fun a b => row_at b - row_at a)%num a b = true)
    (imap (fun i e => EventRow (f i e) (timeOf e) e) es).
Proof.
  intros Hs. revert f. induction Hs as [|e es Hs IH Hf]; intros f; simpl; [constructor|].
  constructor; [apply (IH (fun i => f (S i)))|]. apply Forall_forall. intros r Hr.
  apply elem_of_lookup_imap in Hr as (i & x & -> & Hx). rewrite row_leb by apply event_row_placed.
  rewrite Forall_forall in Hf. specialize (Hf x (list_elem_of_lookup_2 _ _ _ Hx)).
  unfold compose. rewrite !rank_event. unfold newer_eq in Hf. lia.
Qed.

(** The page draws a feed in time order: newest row first, the events in the order the ring keeps
    them, and exactly the notes the filters let through, each once. *)
Theorem mergeFeedRows_spec es notes filters :
  StronglySorted (fun a b => newer_eq a b = true) es ->
  let rows := mergeFeedRows toLowerCase es notes filters in
  StronglySorted (fun a b => rank b <= rank a) rows /\
  omap event_of rows = es /\
  omap note_of rows ≡ₚ List.filter (fun a => annotationMatchesFilters toLowerCase a filters) notes.
Proof.
  intros Hs rows. unfold rows, mergeFeedRows. set (matching := List.filter _ notes).
  set (l := imap _ es ++ _). assert (Hl : Forall placed_row l).
  { apply Forall_app. split.
    - apply Forall_forall. intros r Hr. apply elem_of_lookup_imap in Hr as (i & x & -> & _). apply event_row_placed.
    - apply Forall_fmap, Forall_forall. intros a _. apply note_row_placed. }
  split_and!.
  - apply (StronglySorted_weaken placed_row (fun a b => cmp_leb (fun a b => row_at b - row_at a)%num a b = true)).
    + intros a b Ha Hb. rewrite row_leb by done. lia.
    + unfold js_sort. by rewrite sort_leb_perm.
    + by apply sort_rows_sorted.
  - rewrite omap_filter_events. unfold js_sort. rewrite (sort_leb_filter _ placed_row); [| | |done].
    + unfold l. rewrite filter_event_rows, sort_leb_id by by apply event_rows_sorted.
      generalize event_key as f. clear. induction es as [|e es IH]; intros f; [done|]. simpl. f_equal. apply (IH (f ∘ S)).
    + intros a b Ha Hb. rewrite !row_leb by done. lia.
    + intros a b c Ha Hb Hc. rewrite !row_leb by done. lia.
  - unfold js_sort. rewrite sort_leb_perm. unfold l. rewrite omap_app.
    assert (forall f, omap note_of (imap (fun i e => EventRow (f i e) (timeOf e) e) es) = []) as ->.
    { clear. induction es as [|e es IH]; intros f; [done|]. simpl. apply (IH (f ∘ S)). }
    simpl. clear. induction matching as [|a k IH]; [done|]. simpl. by rewrite IH.
Qed.
End Rows.

(** ** Witnesses *)

Lemma live_store_accounts_witness :
  let inputs := [Arrive (sample_event (js "a") 1000 1); FrameFires; TogglePause;
                 Arrive (sample_event (js "b") 2000 2); TogglePause; HistoryStart;
                 HistoryAnswer 1 true (Page [sample_event (js "z") 500 0] []); Arrive (sample_event (js "c") 3000 3)] in
  let s := run (H := iso_host) inputs in
  length (events s.1) = 3%nat /\ length (arrived s.2) = 3%nat /\ length (answered s.2) = 1%nat /\
  exists batches lost, accounted (H := iso_host) s.1 s.2 batches lost.
Proof.
  intros inputs s. split; [vm_compute; reflexivity|]. split; [vm_compute; reflexivity|]. split; [vm_compute; reflexivity|].
  apply (live_store_accounts (H := iso_host) inputs).
Defined.

Definition sample_gap : list LiveEvent :=
  [sample_event (js "c") 3000 7; sample_event (js "b") 2000 2; sample_event (js "a") 1000 1].

Lemma countMissedEvents_holes_witness :
  exists lo hi, countMissedEvents (H := iso_host) sample_gap
    = int (seq_of hi - seq_of lo + 1 - Z.of_nat (length (considered sample_gap))).
Proof.
  assert (E : considered sample_gap = sample_gap) by reflexivity.
  destruct (countMissedEvents_holes (H := iso_host) sample_gap) as (lo & hi & _ & _ & _ & Hm).
  - rewrite E. discriminate.
  - rewrite E. repeat (apply List.Forall_cons; [split; [vm_compute; reflexivity|vm_compute; split; discriminate]|]).
    apply List.Forall_nil.
  - apply (bool_decide_unpack _). vm_compute. exact I.
  - rewrite E. unfold sample_gap. intros a b Ha Hb Hlt. rewrite !elem_of_cons, elem_of_nil in Ha, Hb.
    destruct Ha as [->|[->|[->|[]]]], Hb as [->|[->|[->|[]]]]; vm_compute in Hlt |- *; try reflexivity; discriminate.
  - exists lo, hi. exact Hm.
Defined.

Lemma mergeFeedRows_spec_witness :
  let rows := mergeFeedRows (H := iso_host) (fun s => s) sample_gap
                [sample_annotation (js "n") 2500 (js "deploy")] EMPTY_FILTERS in
  rank <$> rows = [3000; 2500; 2000; 1000] /\ omap event_of rows = sample_gap.
Proof.
  intros rows. split; [vm_compute; reflexivity|].
  apply (mergeFeedRows_spec (H := iso_host) (fun s => s) sample_gap [sample_annotation (js "n") 2500 (js "deploy")]
           EMPTY_FILTERS).
  repeat constructor; vm_compute; reflexivity.
Defined.
