(* ===== verification/Ws.v ===== *)
(** The multiplexed WebSocket client ([web/src/lib/ws.ts]): one socket per client, reconnection with
    backoff, resume cursors per topic, the staleness rule of snapshot topics and the idle close.

    A method of [WsClient] is a step on the client's fields that also lists, in order, what it does to
    the outside: dials, closes, frames sent, envelopes delivered and listeners told of a state.  A
    handler or listener is a number; what it does when called is not part of the client.  The events
    of the outside (the socket opens, a frame arrives, a timer fires) are inputs of the machine. *)
From S2P Require Import Prelude JsNum JsString JsCollections JsValue.
Local Open Scope Z_scope.

Record WsEnvelope := {
  topic : option jstr;
  type_ : jstr;
  seqno : option number;
  epoch_ : option jstr;
  data : value;
}.

Inductive WsState := Connecting | Open | Closed.

#[export] Instance WsState_eq_dec : EqDecision WsState.
Proof. solve_decision. Defined.

Definition TOPIC_LIVE : jstr := js "live".
Definition TOPIC_TOPOLOGY : jstr := js "topology".
Definition RECONNECT_MIN_MS : Z := 1000.
Definition RECONNECT_MAX_MS : Z := 15000.
Definition CLOSE_TRY_AGAIN_LATER : Z := 1013.
Definition WS_IDLE_CLOSE_MS : Z := 30000.

(** [ClientMessage]. *)
Inductive ClientMessage :=
  | MSubscribe (topic : jstr) (lastSeq : option number) (epoch : option jstr)
  | MUnsubscribe (topic : jstr).

Definition isSnapshotTopic (t : jstr) : bool := seqb t TOPIC_TOPOLOGY || startsWith t (js "matrix:").

Definition wsUrl (protocol host : jstr) : jstr :=
  (if seqb protocol (js "https:") then js "wss:" else js "ws:") ++ js "//" ++ host ++ js "/ws".

(** The fields of [WsClient].  A socket is the number of its dial; [retryTimer] and [idleTimer] hold
    the delay they were armed with; [released] are the subscriptions already given up. *)
Record client := {
  handlers : list (jstr * list nat);
  resumeSeq : list (jstr * number);
  epoch : jstr;
  deliveredSeq : list (jstr * number);
  snapshotCache : list (jstr * WsEnvelope);
  stateListeners : list nat;
  socket : option nat;
  dials : nat;
  currentState : WsState;
  backoffMs : Z;
  backoffBeforeOpenMs : Z;
  retryTimer : option Z;
  idleTimer : option Z;
  disposed : bool;
  released : list nat;
}.

Definition new_client : client :=
  {| handlers := []; resumeSeq := []; epoch := []; deliveredSeq := []; snapshotCache := [];
     stateListeners := []; socket := None; dials := 0; currentState := Closed;
     backoffMs := RECONNECT_MIN_MS; backoffBeforeOpenMs := RECONNECT_MIN_MS; retryTimer := None;
     idleTimer := None; disposed := false; released := [] |}.

Inductive effect :=
  | Dialled (socket : nat)
  | CloseSocket (socket : nat)
  | Sent (socket : nat) (message : ClientMessage)
  | Delivered (handler : nat) (envelope : WsEnvelope)
  | Notified (listener : nat) (state : WsState).

(** ** Methods as steps *)

Definition step : Type := client -> client * list effect.

Definition skip : step := fun c => (c, []).
Definition emit (l : list effect) : step := fun c => (c, l).
Definition modify (f : client -> client) : step := fun c => (f c, []).
Definition andThen (a b : step) : step :=
  fun c => let '(c1, l1) := a c in let '(c2, l2) := b c1 in (c2, l1 ++ l2).
Definition reads (f : client -> step) : step := fun c => f c c.
Definition each {A} (f : A -> step) (l : list A) : step := fold_right (fun x s => andThen (f x) s) skip l.

Declare Scope ws_scope.
Delimit Scope ws_scope with ws.
Notation "a ;; b" := (andThen a b) : ws_scope.
Notation "'when' b 'do' a" := (if b then a else skip) (at level 95, b at level 90, a at level 95) : ws_scope.
Local Open Scope ws_scope.

(** Assignments to one field. *)
Definition set_subscriptions (h : list (jstr * list nat)) (r d : list (jstr * number))
    (s : list (jstr * WsEnvelope)) (c : client) : client :=
  {| handlers := h; resumeSeq := r; epoch := epoch c; deliveredSeq := d; snapshotCache := s;
     stateListeners := stateListeners c; socket := socket c; dials := dials c;
     currentState := currentState c; backoffMs := backoffMs c;
     backoffBeforeOpenMs := backoffBeforeOpenMs c; retryTimer := retryTimer c; idleTimer := idleTimer c;
     disposed := disposed c; released := released c |}.
Definition set_handlers (h : list (jstr * list nat)) (c : client) : client :=
  set_subscriptions h (resumeSeq c) (deliveredSeq c) (snapshotCache c) c.
Definition set_epoch (e : jstr) (c : client) : client :=
  {| handlers := handlers c; resumeSeq := []; epoch := e; deliveredSeq := []; snapshotCache := snapshotCache c;
     stateListeners := stateListeners c; socket := socket c; dials := dials c;
     currentState := currentState c; backoffMs := backoffMs c;
     backoffBeforeOpenMs := backoffBeforeOpenMs c; retryTimer := retryTimer c; idleTimer := idleTimer c;
     disposed := disposed c; released := released c |}.
Definition set_listeners (l : list nat) (c : client) : client :=
  {| handlers := handlers c; resumeSeq := resumeSeq c; epoch := epoch c; deliveredSeq := deliveredSeq c;
     snapshotCache := snapshotCache c; stateListeners := l; socket := socket c; dials := dials c;
     currentState := currentState c; backoffMs := backoffMs c;
     backoffBeforeOpenMs := backoffBeforeOpenMs c; retryTimer := retryTimer c; idleTimer := idleTimer c;
     disposed := disposed c; released := released c |}.
Definition set_released (l : list nat) (c : client) : client :=
  {| handlers := handlers c; resumeSeq := resumeSeq c; epoch := epoch c; deliveredSeq := deliveredSeq c;
     snapshotCache := snapshotCache c; stateListeners := stateListeners c; socket := socket c; dials := dials c;
     currentState := currentState c; backoffMs := backoffMs c;
     backoffBeforeOpenMs := backoffBeforeOpenMs c; retryTimer := retryTimer c; idleTimer := idleTimer c;
     disposed := disposed c; released := l |}.
Definition set_socket (s : option nat) (n : nat) (d : list (jstr * number)) (c : client) : client :=
  {| handlers := handlers c; resumeSeq := resumeSeq c; epoch := epoch c; deliveredSeq := d;
     snapshotCache := snapshotCache c; stateListeners := stateListeners c; socket := s; dials := n;
     currentState := currentState c; backoffMs := backoffMs c;
     backoffBeforeOpenMs := backoffBeforeOpenMs c; retryTimer := retryTimer c; idleTimer := idleTimer c;
     disposed := disposed c; released := released c |}.
Definition set_state (s : WsState) (c : client) : client :=
  {| handlers := handlers c; resumeSeq := resumeSeq c; epoch := epoch c; deliveredSeq := deliveredSeq c;
     snapshotCache := snapshotCache c; stateListeners := stateListeners c; socket := socket c; dials := dials c;
     currentState := s; backoffMs := backoffMs c;
     backoffBeforeOpenMs := backoffBeforeOpenMs c; retryTimer := retryTimer c; idleTimer := idleTimer c;
     disposed := disposed c; released := released c |}.
Definition set_backoff (b before : Z) (c : client) : client :=
  {| handlers := handlers c; resumeSeq := resumeSeq c; epoch := epoch c; deliveredSeq := deliveredSeq c;
     snapshotCache := snapshotCache c; stateListeners := stateListeners c; socket := socket c; dials := dials c;
     currentState := currentState c; backoffMs := b;
     backoffBeforeOpenMs := before; retryTimer := retryTimer c; idleTimer := idleTimer c;
     disposed := disposed c; released := released c |}.
Definition set_timers (retry idle : option Z) (c : client) : client :=
  {| handlers := handlers c; resumeSeq := resumeSeq c; epoch := epoch c; deliveredSeq := deliveredSeq c;
     snapshotCache := snapshotCache c; stateListeners := stateListeners c; socket := socket c; dials := dials c;
     currentState := currentState c; backoffMs := backoffMs c;
     backoffBeforeOpenMs := backoffBeforeOpenMs c; retryTimer := retry; idleTimer := idle;
     disposed := disposed c; released := released c |}.
Definition set_disposed (c : client) : client :=
  {| handlers := handlers c; resumeSeq := resumeSeq c; epoch := epoch c; deliveredSeq := deliveredSeq c;
     snapshotCache := snapshotCache c; stateListeners := stateListeners c; socket := socket c; dials := dials c;
     currentState := currentState c; backoffMs := backoffMs c;
     backoffBeforeOpenMs := backoffBeforeOpenMs c; retryTimer := retryTimer c; idleTimer := idleTimer c;
     disposed := true; released := released c |}.

Definition setState (next : WsState) : step := reads (fun c =>
  if bool_decide (currentState c = next) then skip
  else modify (set_state next) ;; emit ((fun l => Notified l next) <$> stateListeners c)).

Definition send (msg : ClientMessage) : step := reads (fun c =>
  match socket c with Some s => emit [Sent s msg] | None => skip end).

Definition lastSeqFor (t : jstr) (c : client) : number := default (int 0) (mget (resumeSeq c) t).

Definition sendSubscribe (t : jstr) : step := reads (fun c =>
  let lastSeq := if isSnapshotTopic t then int 0 else lastSeqFor t c in
  if (lastSeq <=? int 0)%num then send (MSubscribe t None None)
  else send (MSubscribe t (Some lastSeq) (if seqb (epoch c) [] then None else Some (epoch c)))).

Definition dropSocket : step := reads (fun c =>
  modify (set_socket None (dials c) (deliveredSeq c)) ;;
  emit (match socket c with Some s => [CloseSocket s] | None => [] end) ;;
  setState Closed).

Definition cancelIdleClose : step := modify (fun c => set_timers (retryTimer c) None c).

Definition scheduleIdleClose : step := reads (fun c =>
  if disposed c || bool_decide (idleTimer c <> None) then skip
  else modify (set_timers (retryTimer c) (Some WS_IDLE_CLOSE_MS))).

Definition scheduleReconnect : step := reads (fun c =>
  if disposed c || (length (handlers c) =? 0)%nat || bool_decide (retryTimer c <> None) then skip
  else
    modify (set_backoff (Z.min (backoffMs c * 2) RECONNECT_MAX_MS) (backoffBeforeOpenMs c)) ;;
    modify (set_timers (Some (backoffMs c)) (idleTimer c))).

(** [dial] says whether the WebSocket constructor returns or throws. *)
Definition connect (dial : bool) : step := reads (fun c =>
  if disposed c || bool_decide (socket c <> None) || bool_decide (retryTimer c <> None) then skip
  else if negb dial then setState Closed ;; scheduleReconnect
  else
    modify (set_socket (Some (dials c)) (S (dials c)) []) ;;
    emit [Dialled (dials c)] ;;
    setState Connecting).

Definition subscribe (t : jstr) (handler : nat) (dial : bool) : step := reads (fun c =>
  let listeners := sadd (default [] (mget (handlers c) t)) handler in
  modify (set_handlers (mset (handlers c) t listeners)) ;;
  cancelIdleClose ;;
  connect dial ;;
  if (length listeners =? 1)%nat then
    reads (fun c => when bool_decide (currentState c = Open) do sendSubscribe t)
  else
    reads (fun c => match mget (snapshotCache c) t with
                    | Some cached => emit [Delivered handler cached]
                    | None => skip
                    end)).

(** The function [subscribe] returned for the subscription [handle]. *)
Definition unsubscribe (handle : nat) (t : jstr) (handler : nat) : step := reads (fun c =>
  if bool_decide (handle ∈ released c) then skip
  else
    modify (set_released (handle :: released c)) ;;
    match mget (handlers c) t with
    | None => skip
    | Some current =>
        let current := sdelete current handler in
        if (0 <? length current)%nat then modify (set_handlers (mset (handlers c) t current))
        else
          modify (set_subscriptions (mdelete (handlers c) t) (mdelete (resumeSeq c) t)
                    (mdelete (deliveredSeq c) t) (mdelete (snapshotCache c) t)) ;;
          (when bool_decide (currentState c = Open) do send (MUnsubscribe t)) ;;
          (when (length (mdelete (handlers c) t) =? 0)%nat do scheduleIdleClose)
    end).

Definition onStateChange (listener : nat) : step := reads (fun c =>
  modify (set_listeners (sadd (stateListeners c) listener))).
Definition offStateChange (listener : nat) : step := reads (fun c =>
  modify (set_listeners (sdelete (stateListeners c) listener))).

Definition close : step :=
  modify set_disposed ;; modify (fun c => set_timers None (idleTimer c) c) ;; cancelIdleClose ;; dropSocket.

(** ** Events of a socket and of the timers *)

Definition onopen (s : nat) : step := reads (fun c =>
  if negb (bool_decide (socket c = Some s)) then skip
  else
    modify (set_backoff RECONNECT_MIN_MS (backoffMs c)) ;;
    setState Open ;;
    each sendSubscribe (mkeys (handlers c))).

Definition onclose (s : nat) (code : option Z) : step := reads (fun c =>
  if negb (bool_decide (socket c = Some s)) then skip
  else
    modify (set_socket None (dials c) (deliveredSeq c)) ;;
    (when bool_decide (code = Some CLOSE_TRY_AGAIN_LATER) do
       modify (set_backoff (backoffBeforeOpenMs c) (backoffBeforeOpenMs c))) ;;
    setState Closed ;;
    scheduleReconnect).

(** A frame: no text, text that does not parse, or the parsed envelope. *)
Inductive frame := NotText | Unparseable | Parsed (env : WsEnvelope).

(** The cursors after an envelope with a position, and whether it is delivered. *)
Definition advance (t : jstr) (env : WsEnvelope) (n : number) (c0 : client) : client * bool :=
  let snapshot := isSnapshotTopic t in
  let e := default [] (epoch_ env) in
  let c := if negb (seqb e []) && negb (seqb e (epoch c0)) then set_epoch e c0 else c0 in
  let delivered := default (int 0) (mget (deliveredSeq c) t) in
  if snapshot && (n <=? delivered)%num then (c, false)
  else
    (set_subscriptions (handlers c)
       (mset (resumeSeq c) t (nmax (default (int 0) (mget (resumeSeq c) t)) n))
       (mset (deliveredSeq c) t (nmax delivered n))
       (if snapshot then mset (snapshotCache c) t env else snapshotCache c) c, true).

Definition dispatch (raw : frame) : step := reads (fun c =>
  match raw with
  | NotText | Unparseable => skip
  | Parsed env =>
      match topic env with
      | None => skip
      | Some t =>
          match mget (handlers c) t with
          | None => skip
          | Some listeners =>
              let deliver := emit ((fun h => Delivered h env) <$> listeners) in
              match (if seqb (type_ env) (js "error") then None else seqno env) with
              | None => deliver
              | Some n =>
                  let '(c1, fresh) := advance t env n c in
                  modify (fun _ => c1) ;; when fresh do deliver
              end
          end
      end
  end).

Definition onmessage (s : nat) (raw : frame) : step := reads (fun c =>
  if negb (bool_decide (socket c = Some s)) then skip else dispatch raw).

Definition retryFires (dial : bool) : step := reads (fun c =>
  if bool_decide (retryTimer c = None) then skip
  else
    modify (set_timers None (idleTimer c)) ;;
    if (length (handlers c) =? 0)%nat then skip else connect dial).

Definition idleFires : step := reads (fun c =>
  if bool_decide (idleTimer c = None) then skip
  else
    modify (set_timers (retryTimer c) None) ;;
    when (length (handlers c) =? 0)%nat do dropSocket).

Inductive input :=
  | Subscribe (t : jstr) (handler : nat) (dial : bool)
  | Unsubscribe (handle : nat) (t : jstr) (handler : nat)
  | OnStateChange (listener : nat)
  | OffStateChange (listener : nat)
  | Close
  | SocketOpens (s : nat)
  | SocketCloses (s : nat) (code : option Z)
  | FrameArrives (s : nat) (raw : frame)
  | RetryFires (dial : bool)
  | IdleFires.

Definition react (i : input) : step :=
  match i with
  | Subscribe t h d => subscribe t h d
  | Unsubscribe k t h => unsubscribe k t h
  | OnStateChange l => onStateChange l
  | OffStateChange l => offStateChange l
  | Close => close
  | SocketOpens s => onopen s
  | SocketCloses s code => onclose s code
  | FrameArrives s raw => onmessage s raw
  | RetryFires d => retryFires d
  | IdleFires => idleFires
  end.

Definition run (inputs : list input) : client * list effect := each react inputs new_client.

(** ** What a step does to the fields *)

Lemma andThen_fst a b c : ((a ;; b) c).1 = (b (a c).1).1.
Proof. unfold andThen. destruct (a c) as [c1 l1]. simpl. by destruct (b c1). Qed.

Lemma andThen_snd a b c : ((a ;; b) c).2 = (a c).2 ++ (b (a c).1).2.
Proof. unfold andThen. destruct (a c) as [c1 l1]. simpl. by destruct (b c1). Qed.

Lemma modify_fst f c : (modify f c).1 = f c. Proof. done. Qed.
Lemma emit_fst l c : (emit l c).1 = c. Proof. done. Qed.
Lemma skip_fst c : (skip c).1 = c. Proof. done. Qed.
Lemma reads_eq f c : reads f c = f c c. Proof. done. Qed.

Lemma setState_fst s c : (setState s c).1 = set_state s c.
Proof.
  unfold setState. rewrite reads_eq. case_bool_decide as E; [|done]. rewrite skip_fst, <- E. by destruct c.
Qed.

Lemma send_fst m c : (send m c).1 = c.
Proof. unfold send. rewrite reads_eq. by destruct (socket c). Qed.

Lemma sendSubscribe_fst t c : (sendSubscribe t c).1 = c.
Proof. unfold sendSubscribe. rewrite reads_eq. case_match; apply send_fst. Qed.

Lemma each_fst {A} (f : A -> step) l c : (forall x d, (f x d).1 = d) -> (each f l c).1 = c.
Proof. intros Hf. induction l as [|x l IH]; simpl; [done|]. by rewrite andThen_fst, Hf. Qed.

Create Rewrite HintDb ws.
#[export] Hint Rewrite andThen_fst modify_fst emit_fst skip_fst reads_eq setState_fst send_fst sendSubscribe_fst : ws.

(** ** The invariant of a client *)

Record core (c : client) : Prop := {
  c_backoff : RECONNECT_MIN_MS <= backoffMs c <= RECONNECT_MAX_MS;
  c_before : RECONNECT_MIN_MS <= backoffBeforeOpenMs c <= RECONNECT_MAX_MS;
  c_delay : forall d, retryTimer c = Some d -> RECONNECT_MIN_MS <= d <= RECONNECT_MAX_MS;
  c_state : socket c = None <-> currentState c = Closed;
  c_retry : retryTimer c <> None -> socket c = None;
  c_disposed : disposed c = true -> socket c = None /\ retryTimer c = None /\ idleTimer c = None;
  c_idle : idleTimer c <> None -> handlers c = [];
  c_parked : disposed c = false -> handlers c = [] -> socket c <> None -> idleTimer c <> None;
  c_resume : mkeys (resumeSeq c) ⊆ mkeys (handlers c);
  c_delivered : mkeys (deliveredSeq c) ⊆ mkeys (handlers c);
  c_cache : mkeys (snapshotCache c) ⊆ mkeys (handlers c);
  c_topics : NoDup (mkeys (handlers c));
  c_listeners : Forall (fun p => p.2 <> []) (handlers c);
}.

(** A client with a topic is connected, connecting, or waiting out a backoff. *)
Definition alive (c : client) : Prop :=
  disposed c = false -> handlers c <> [] -> socket c <> None \/ retryTimer c <> None.

Definition wf (c : client) : Prop := core c /\ alive c.

(** Fields that a step left alone carry their part of the invariant over. *)
Ltac core_fields :=
  match goal with H : core ?c |- core _ => destruct H end;
  constructor; simpl; try done; try (unfold RECONNECT_MAX_MS, RECONNECT_MIN_MS in *; lia); try congruence;
  try (by split); try apply list_subseteq_nil.

Lemma wf_new : wf new_client.
Proof.
  split; [|by intros _ ?]. constructor; simpl; unfold RECONNECT_MIN_MS, RECONNECT_MAX_MS; try done; try lia; constructor.
Qed.

Lemma handlers_nil (c : client) : (length (handlers c) =? 0)%nat = true <-> handlers c = [].
Proof. rewrite Nat.eqb_eq, length_zero_iff_nil. done. Qed.

Lemma scheduleReconnect_wf c : core c -> socket c = None -> wf (scheduleReconnect c).1.
Proof.
  intros W Hs. unfold scheduleReconnect. rewrite reads_eq.
  destruct (disposed c) eqn:Hd; [split; [done|intros E; simpl in E; congruence]|].
  destruct (length (handlers c) =? 0)%nat eqn:E0.
  { apply handlers_nil in E0. split; [done|]. intros _ Hn. done. }
  case_bool_decide as Hr; simpl; [split; [done|]; intros _ _; by right|]. split; [|intros _ _; by right].
  core_fields.
Qed.

Lemma connect_wf dial c : core c -> handlers c <> [] -> wf (connect dial c).1.
Proof.
  intros W Hne. unfold connect. rewrite reads_eq.
  destruct (disposed c) eqn:Hd; [split; [done|intros E; simpl in E; congruence]|].
  case_bool_decide as Hs; simpl; [split; [done|]; intros _ _; by left|].
  case_bool_decide as Hr; simpl; [split; [done|]; intros _ _; by right|].
  destruct dial; simpl; autorewrite with ws.
  - split; [|intros _ _; by left]. core_fields.
  - apply scheduleReconnect_wf; [|done]. core_fields.
Qed.

Lemma dropSocket_fst c : (dropSocket c).1 = set_state Closed (set_socket None (dials c) (deliveredSeq c) c).
Proof. unfold dropSocket. by autorewrite with ws. Qed.

Lemma mkeys_mset_ne {A} (m : list (jstr * A)) k v : mset m k v <> [].
Proof. destruct m as [|[k' v'] m]; simpl; [done|]. by case_match. Qed.

Lemma mkeys_mset_sub {A} (m : list (jstr * A)) k v : mkeys m ⊆ mkeys (mset m k v).
Proof. rewrite mkeys_mset. case_match; set_solver. Qed.

Lemma Forall_mset {A} (P : jstr * A -> Prop) m k v : Forall P m -> P (k, v) -> Forall P (mset m k v).
Proof.
  intros H Hv. induction H as [|[k' v'] m Hx Hm IH]; simpl; [by repeat constructor|].
  case_match; constructor; try done. by simplify_eq/=.
Qed.

Lemma sadd_ne (s : list nat) x : sadd s x <> [].
Proof. unfold sadd. case_decide as Hx; [|by destruct s]. intros ->. by apply elem_of_nil in Hx. Qed.

(** The fields after the bookkeeping of [subscribe]. *)
Lemma subscribe_core t h c :
  core c -> core (set_timers (retryTimer c) None
                    (set_handlers (mset (handlers c) t (sadd (default [] (mget (handlers c) t)) h)) c)).
Proof.
  intros W. pose proof (mkeys_mset_sub (handlers c) t (sadd (default [] (mget (handlers c) t)) h)) as Hsub.
  core_fields.
  - naive_solver.
  - intros _ E. by destruct (mkeys_mset_ne _ _ _ E).
  - by etrans.
  - by etrans.
  - by etrans.
  - by apply NoDup_mkeys_mset.
  - apply Forall_mset; [done|]. apply sadd_ne.
Qed.

Lemma subscribe_wf t h dial c : wf c -> wf (subscribe t h dial c).1.
Proof.
  intros [W _]. unfold subscribe. rewrite reads_eq, !andThen_fst. unfold cancelIdleClose.
  rewrite !modify_fst.
  pose proof (connect_wf dial _ (subscribe_core t h c W) (mkeys_mset_ne _ _ _)) as Hc.
  cbn [retryTimer set_handlers set_subscriptions] in *.
  case_match; rewrite reads_eq.
  - case_bool_decide; [by rewrite sendSubscribe_fst|done].
  - case_match; done.
Qed.

(** ** The other inputs *)

Lemma elem_of_mkeys_mdelete {A} (m : list (jstr * A)) k x : x ∈ mkeys (mdelete m k) <-> x ∈ mkeys m /\ x <> k.
Proof.
  unfold mkeys, mdelete. rewrite !list_elem_of_fmap. setoid_rewrite elem_of_filter_b.
  split.
  - intros ([k' v] & -> & Hin & Hne). apply negb_true_iff, bool_decide_eq_false in Hne. split; [by exists (k', v)|done].
  - intros [([k' v] & -> & Hin) Hne]. exists (k', v). split_and!; [done|done|].
    apply negb_true_iff, bool_decide_eq_false. done.
Qed.

Lemma mdelete_sub {A B} (m : list (jstr * A)) (h : list (jstr * B)) k :
  mkeys m ⊆ mkeys h -> mkeys (mdelete m k) ⊆ mkeys (mdelete h k).
Proof. intros H x. rewrite !elem_of_mkeys_mdelete. intros [? ?]. auto. Qed.

Lemma scheduleIdleClose_fst c :
  (scheduleIdleClose c).1 = if disposed c || bool_decide (idleTimer c <> None) then c
                            else set_timers (retryTimer c) (Some WS_IDLE_CLOSE_MS) c.
Proof. unfold scheduleIdleClose. rewrite reads_eq. by case_match. Qed.

Lemma sdelete_length_sub t h c current :
  wf c -> mget (handlers c) t = Some current -> (0 <? length (sdelete current h))%nat = true ->
  forall r, wf (set_handlers (mset (handlers c) t (sdelete current h)) (set_released r c)).
Proof.
  intros [W A] Hg Hl r. apply Nat.ltb_lt in Hl.
  assert (Hk : mkeys (mset (handlers c) t (sdelete current h)) = mkeys (handlers c)).
  { rewrite mkeys_mset, decide_True; [done|]. apply mhas_spec. unfold mhas. rewrite Hg. by apply bool_decide_eq_true. }
  assert (Hne : handlers c <> []) by (intros E; rewrite E in Hg; discriminate).
  split; [|intros Hd _; by apply A]. core_fields; rewrite ?Hk; try done.
  - intros Hi. destruct Hne. auto.
  - intros _ E. by destruct (mkeys_mset_ne _ _ _ E).
  - apply Forall_mset; [done|]. simpl. intros E. rewrite E in Hl. simpl in Hl. lia.
Qed.

Lemma unsubscribe_last_wf t c r :
  wf c -> is_Some (mget (handlers c) t) ->
  let c' := set_subscriptions (mdelete (handlers c) t) (mdelete (resumeSeq c) t)
              (mdelete (deliveredSeq c) t) (mdelete (snapshotCache c) t) (set_released r c) in
  wf (if (length (mdelete (handlers c) t) =? 0)%nat then (scheduleIdleClose c').1 else c').
Proof.
  intros [W A] [l Hl] c'. assert (Hne : handlers c <> []) by (intros E; rewrite E in Hl; discriminate).
  assert (Hidle : idleTimer c = None).
  { destruct (idleTimer c) eqn:E; [|done]. destruct Hne. apply (c_idle c W). by rewrite E. }
  assert (Hc : disposed c = true \/ mdelete (handlers c) t <> [] -> wf c').
  { intros Hor. split; [core_fields|].
    - naive_solver.
    - by apply mdelete_sub.
    - by apply mdelete_sub.
    - by apply mdelete_sub.
    - by apply NoDup_mkeys_mdelete.
    - apply Forall_forall. intros p Hp. unfold mdelete in Hp. apply elem_of_filter_b in Hp as [Hp _].
      rewrite Forall_forall in c_listeners0. auto.
    - intros Hd _. by apply A. }
  destruct (length (mdelete (handlers c) t) =? 0)%nat eqn:E0.
  - rewrite scheduleIdleClose_fst. simpl. rewrite Hidle. apply Nat.eqb_eq, length_zero_iff_nil in E0.
    destruct (disposed c) eqn:Hd; [apply Hc; by left|]. rewrite bool_decide_eq_false_2 by auto. cbn [orb].
    split; [|intros _ Hn; simpl in Hn; congruence]. core_fields.
    + by apply mdelete_sub.
    + by apply mdelete_sub.
    + by apply mdelete_sub.
    + by apply NoDup_mkeys_mdelete.
    + rewrite E0. constructor.
  - apply Hc. right. intros E. by rewrite E in E0.
Qed.

Lemma unsubscribe_wf k t h c : wf c -> wf (unsubscribe k t h c).1.
Proof.
  intros W. unfold unsubscribe. rewrite reads_eq. case_bool_decide; [done|]. rewrite andThen_fst, modify_fst.
  assert (Hr : wf (set_released (k :: released c) c)) by (destruct W as [W A]; split; [core_fields|exact A]).
  destruct (mget (handlers c) t) as [current|] eqn:Hg; [|done].
  destruct (0 <? length (sdelete current h))%nat eqn:Hl; [by apply sdelete_length_sub|].
  rewrite andThen_fst, modify_fst, andThen_fst.
  assert (Hsend : forall d, ((when bool_decide (currentState c = Open) do send (MUnsubscribe t)) d).1 = d).
  { intros d. case_bool_decide; [apply send_fst|done]. }
  rewrite Hsend. pose proof (unsubscribe_last_wf t c (k :: released c) W ltac:(eauto)) as H'. cbv zeta in H'.
  by destruct (length (mdelete (handlers c) t) =? 0)%nat.
Qed.

Lemma set_listeners_wf l c : wf c -> wf (set_listeners l c).
Proof. intros [W A]. split; [core_fields|exact A]. Qed.

Lemma close_wf c : wf c -> wf (close c).1.
Proof.
  intros [W _]. unfold close, cancelIdleClose. rewrite !andThen_fst, !modify_fst, dropSocket_fst. simpl.
  split; [core_fields|]. intros E. discriminate E.
Qed.

Lemma onopen_wf s c : wf c -> wf (onopen s c).1.
Proof.
  intros [W A]. unfold onopen. rewrite reads_eq. case_bool_decide as Hs; simpl; [|by split].
  autorewrite with ws. rewrite each_fst by apply sendSubscribe_fst. split; [core_fields|exact A].
  by rewrite Hs.
Qed.

Lemma onclose_wf s code c : wf c -> wf (onclose s code c).1.
Proof.
  intros [W A]. unfold onclose. rewrite reads_eq. case_bool_decide as Hs; simpl; [|by split].
  assert (Hd : disposed c = false).
  { destruct (disposed c) eqn:Hd; [|done]. destruct (c_disposed c W Hd) as [E _]. congruence. }
  assert (Hr : retryTimer c = None).
  { destruct (retryTimer c) eqn:Hr; [|done]. assert (socket c = None); [|congruence]. apply (c_retry c W). by rewrite Hr. }
  rewrite !andThen_fst, setState_fst, modify_fst.
  apply scheduleReconnect_wf; [|by case_bool_decide]. case_bool_decide; simpl; core_fields.
Qed.

Lemma advance_wf t env n c l :
  wf c -> mget (handlers c) t = Some l -> wf (advance t env n c).1.
Proof.
  intros W Hl. assert (Ht : t ∈ mkeys (handlers c)) by (apply mhas_spec; unfold mhas; rewrite Hl; by apply bool_decide_eq_true).
  unfold advance. set (c0 := if _ && _ then _ else c).
  assert (wf c0 /\ handlers c0 = handlers c) as [[W0 A0] Hh].
  { subst c0. case_match; [|done]. split; [|done]. destruct W as [W A]. split; [core_fields|exact A]. }
  assert (Hsub : forall (m : list (jstr * number)) v, mkeys m ⊆ mkeys (handlers c0) -> mkeys (mset m t v) ⊆ mkeys (handlers c0)).
  { intros m v Hm x Hx. rewrite mkeys_mset in Hx. case_match; [by apply Hm|].
    apply elem_of_app in Hx as [Hx|Hx%list_elem_of_singleton]; [by apply Hm|]. subst. by rewrite Hh. }
  case_match; [by split|]. simpl. split; [|exact A0]. core_fields; [by apply Hsub|by apply Hsub|].
  case_match; [|done]. intros x Hx. rewrite mkeys_mset in Hx. case_match; [by apply c_cache0|].
  apply elem_of_app in Hx as [Hx|Hx%list_elem_of_singleton]; [by apply c_cache0|]. subst. by rewrite Hh.
Qed.

Lemma onmessage_wf s raw c : wf c -> wf (onmessage s raw c).1.
Proof.
  intros W. unfold onmessage. rewrite reads_eq. case_bool_decide; simpl; [|done].
  unfold dispatch. rewrite reads_eq. destruct raw as [| |env]; [done..|].
  destruct (topic env) as [t|]; [|done]. destruct (mget (handlers c) t) as [l|] eqn:Hl; [|done].
  case_match; [|done]. pose proof (advance_wf t env n c l W Hl) as Wa.
  destruct (advance t env n c) as [c1 fresh]. rewrite andThen_fst, modify_fst. by destruct fresh.
Qed.

Lemma retryFires_wf dial c : wf c -> wf (retryFires dial c).1.
Proof.
  intros [W A]. unfold retryFires. rewrite reads_eq. case_bool_decide as Hr; [by split|]. rewrite andThen_fst, modify_fst.
  assert (Wt : core (set_timers None (idleTimer c) c)) by (core_fields; naive_solver).
  destruct (length (handlers c) =? 0)%nat eqn:E0.
  - apply handlers_nil in E0. split; [done|]. intros _ Hn. by destruct Hn.
  - apply connect_wf; [done|]. intros E. apply handlers_nil in E. simpl in E. congruence.
Qed.

Lemma idleFires_wf c : wf c -> wf (idleFires c).1.
Proof.
  intros [W A]. unfold idleFires. rewrite reads_eq. case_bool_decide as Hi; [by split|]. rewrite andThen_fst, modify_fst.
  assert (Hh : handlers c = []) by (by apply (c_idle c W)).
  rewrite (proj2 (handlers_nil c) Hh), dropSocket_fst. simpl. split; [core_fields; naive_solver|]. intros _ Hn. by destruct Hn.
Qed.

Lemma react_wf i c : wf c -> wf (react i c).1.
Proof.
  intros W. destruct i; simpl; auto using subscribe_wf, unsubscribe_wf, close_wf, onopen_wf, onclose_wf,
    onmessage_wf, retryFires_wf, idleFires_wf, set_listeners_wf.
Qed.

(** C1: In every state the client can reach: it has a socket exactly when its state is not "closed";
    a retry is pending only without a socket, with a delay between 1 and 15 seconds; a client with a
    topic is connected, connecting or waiting out a backoff, so it is never stuck; a socket nobody
    listens to has its idle close armed; a disposed client has no socket and no timer; and no cursor
    or cached snapshot survives the last listener of its topic. *)
Theorem ws_invariant inputs : wf (run inputs).1.
Proof.
  unfold run. generalize wf_new. generalize new_client. induction inputs as [|i l IH]; intros c W; [done|].
  cbn [each fold_right]. rewrite andThen_fst. apply IH. by apply react_wf.
Qed.

(** ** Silence after disposal *)

(** Neither a dial nor a frame. *)
Definition quiet (l : list effect) : Prop :=
  Forall (fun e => match e with Dialled _ | Sent _ _ => False | _ => True end) l.

Definition gone (c : client) : Prop := disposed c = true /\ socket c = None.

(** A step that neither revives a gone client nor reaches out. *)
Definition mute (s : step) : Prop := forall c, gone c -> gone (s c).1 /\ quiet (s c).2.

Lemma mute_andThen a b : mute a -> mute b -> mute (a ;; b).
Proof.
  intros Ha Hb c Hc. rewrite andThen_fst, andThen_snd. destruct (Ha c Hc) as [H1 H2]. destruct (Hb _ H1) as [H3 H4].
  split; [done|]. by apply Forall_app.
Qed.

Lemma mute_reads f : (forall c, gone c -> gone (f c c).1 /\ quiet (f c c).2) -> mute (reads f).
Proof. intros H c Hc. rewrite reads_eq. by apply H. Qed.

Lemma mute_modify f : (forall c, gone c -> gone (f c)) -> mute (modify f).
Proof. intros H c Hc. split; [by apply H|constructor]. Qed.

Lemma mute_skip : mute skip.
Proof. intros c Hc. split; [done|constructor]. Qed.

Lemma mute_emit l : quiet l -> mute (emit l).
Proof. intros Hl c Hc. by split. Qed.

Lemma mute_setState s : mute (setState s).
Proof.
  apply mute_reads. intros c Hc. case_bool_decide; [by apply mute_skip|].
  apply mute_andThen; [by apply mute_modify| |done]. apply mute_emit. apply Forall_fmap, Forall_forall. done.
Qed.

Lemma mute_send m : mute (send m).
Proof. apply mute_reads. intros c [Hd Hs]. rewrite Hs. by apply mute_skip. Qed.

Lemma mute_sendSubscribe t : mute (sendSubscribe t).
Proof. apply mute_reads. intros c Hc. cbv zeta. destruct (_ <=? _)%num; by apply mute_send. Qed.

Lemma mute_connect dial : mute (connect dial).
Proof. apply mute_reads. intros c [Hd Hs]. rewrite Hd. by apply mute_skip. Qed.

Lemma mute_scheduleReconnect : mute scheduleReconnect.
Proof. apply mute_reads. intros c [Hd Hs]. rewrite Hd. by apply mute_skip. Qed.

Lemma mute_scheduleIdleClose : mute scheduleIdleClose.
Proof. apply mute_reads. intros c [Hd Hs]. rewrite Hd. by apply mute_skip. Qed.

Lemma mute_dropSocket : mute dropSocket.
Proof.
  apply mute_reads. intros c [Hd Hs]. rewrite Hs.
  apply mute_andThen; [apply mute_modify; intros d [Hd' _]; by split| |done].
  apply mute_andThen; [apply mute_emit; constructor|apply mute_setState].
Qed.

Lemma mute_dispatch raw : mute (dispatch raw).
Proof.
  apply mute_reads. intros c Hc. destruct raw as [| |env]; try by apply mute_skip.
  destruct (topic env) as [t|]; [|by apply mute_skip]. destruct (mget (handlers c) t) as [l|]; [|by apply mute_skip].
  assert (Hm : mute (emit ((fun h => Delivered h env) <$> l))).
  { apply mute_emit. apply Forall_fmap, Forall_forall. done. }
  destruct (if seqb _ _ then None else seqno env) as [n|]; [|by apply Hm].
  destruct (advance t env n c) as [c1 fresh] eqn:E. apply mute_andThen; [|by destruct fresh; [|apply mute_skip]|done].
  intros d _. split; [|constructor]. simpl. unfold advance in E.
  repeat case_match; injection E as <- _; exact Hc.
Qed.

Lemma react_mute i : mute (react i).
Proof.
  destruct i as [t h dial|k t h|l|l| |s|s code|s raw|dial|]; simpl.
  - apply mute_reads. intros c Hc. apply mute_andThen; [by apply mute_modify| |done].
    apply mute_andThen; [by apply mute_modify|]. apply mute_andThen; [apply mute_connect|].
    case_match; apply mute_reads; intros d Hd; [case_match; [by apply mute_sendSubscribe|by apply mute_skip]|].
    case_match; [|by apply mute_skip]. apply mute_emit; [|done]. by repeat constructor.
  - apply mute_reads. intros c Hc. case_match; [by apply mute_skip|].
    apply mute_andThen; [by apply mute_modify| |done]. case_match; [|apply mute_skip].
    cbv zeta. destruct (0 <? _)%nat; [by apply mute_modify|]. apply mute_andThen; [by apply mute_modify|].
    apply mute_andThen; case_match; auto using mute_send, mute_skip, mute_scheduleIdleClose.
  - apply mute_reads. intros c Hc. by apply mute_modify.
  - apply mute_reads. intros c Hc. by apply mute_modify.
  - repeat apply mute_andThen; try (apply mute_modify; by intros c [? ?]). apply mute_dropSocket.
  - apply mute_reads. intros c [Hd Hs]. rewrite Hs. by apply mute_skip.
  - apply mute_reads. intros c [Hd Hs]. rewrite Hs. by apply mute_skip.
  - apply mute_reads. intros c [Hd Hs]. rewrite Hs. by apply mute_skip.
  - apply mute_reads. intros c Hc. case_match; [by apply mute_skip|].
    apply mute_andThen; [by apply mute_modify| |done]. case_match; [apply mute_skip|apply mute_connect].
  - apply mute_reads. intros c Hc. case_match; [by apply mute_skip|].
    apply mute_andThen; [by apply mute_modify| |done]. case_match; [apply mute_dropSocket|apply mute_skip].
Qed.

(** Disposal is final: once a client is closed, no later input - a subscribe, a timer that was
    already armed, a late event of the old socket - makes it dial or send again. *)
Theorem ws_close_final before after :
  quiet (each react after (each react (before ++ [Close]) new_client).1).2.
Proof.
  set (c := (each react (before ++ [Close]) new_client).1).
  assert (Hc : gone c).
  { subst c. generalize new_client. induction before as [|i l IH]; intros c0.
    - simpl. rewrite andThen_fst. simpl. unfold close. rewrite !andThen_fst, dropSocket_fst. done.
    - cbn [app each fold_right]. rewrite andThen_fst. apply IH. }
  clearbody c. revert c Hc. induction after as [|i l IH]; intros c Hc; [constructor|].
  cbn [each fold_right]. rewrite andThen_snd. destruct (react_mute i c Hc) as [H1 H2].
  apply Forall_app. split; [done|]. by apply IH.
Qed.

(** ** Backoff *)

(** A client that waits to redial, the next failure to be followed by a delay of [b]. *)
Definition waiting (d b : Z) (c : client) : Prop :=
  disposed c = false /\ handlers c <> [] /\ socket c = None /\ currentState c = Closed /\
  retryTimer c = Some d /\ backoffMs c = b.

(** One attempt during an outage: the constructor throws, or the socket opens and is refused at once
    with the close code of a connection cap. *)
Definition attempt (refused_at_cap : bool) (s : nat) : list input :=
  if refused_at_cap then [RetryFires true; SocketOpens s; SocketCloses s (Some CLOSE_TRY_AGAIN_LATER)]
  else [RetryFires false].

(** The socket numbers of the attempts follow the dials. *)
Fixpoint outage (s : nat) (attempts : list bool) : list input :=
  match attempts with
  | [] => []
  | a :: rest => attempt a s ++ outage (if a then S s else s) rest
  end.

Lemma each_app {A} (f : A -> step) l k c : (each f (l ++ k) c).1 = (each f k (each f l c).1).1.
Proof. revert c; induction l as [|x l IH]; intros c; simpl; [done|]. by rewrite !andThen_fst, IH. Qed.

Lemma reconnect_waiting c d b :
  disposed c = false -> handlers c <> [] -> socket c = None -> currentState c = Closed ->
  retryTimer c = None -> backoffMs c = b -> d = b ->
  waiting d (Z.min (b * 2) RECONNECT_MAX_MS) (scheduleReconnect c).1 /\
  dials (scheduleReconnect c).1 = dials c.
Proof.
  intros Hd Hh Hs Hst Hr Hb ->. unfold scheduleReconnect. rewrite reads_eq, Hd, Hr.
  destruct (length (handlers c) =? 0)%nat eqn:E0; [by apply handlers_nil in E0|]. cbn [orb].
  rewrite bool_decide_eq_false_2 by auto. autorewrite with ws. simpl. by rewrite Hb.
Qed.

(** An attempt ends in the plan of the next one. *)
Lemma attempt_plans a c d b :
  waiting d b c -> exists x,
    (each react (attempt a (dials c)) c).1 = (scheduleReconnect x).1 /\
    disposed x = false /\ handlers x <> [] /\ socket x = None /\ currentState x = Closed /\
    retryTimer x = None /\ backoffMs x = b /\ dials x = (if a then S (dials c) else dials c).
Proof.
  intros (Hd & Hh & Hs & Hst & Hr & Hb). assert ((length (handlers c) =? 0)%nat = false) as E0.
  { apply not_true_iff_false. rewrite handlers_nil. done. }
  assert (Hconn : forall dial, (retryFires dial c).1 = (connect dial (set_timers None (idleTimer c) c)).1).
  { intros dial. unfold retryFires. rewrite reads_eq, Hr, bool_decide_eq_false_2 by done.
    rewrite andThen_fst, modify_fst. simpl. by rewrite E0. }
  destruct a; cbn [attempt each fold_right react]; rewrite !andThen_fst, skip_fst, Hconn;
    unfold connect; rewrite reads_eq; simpl; rewrite Hd, Hs; rewrite !bool_decide_eq_false_2 by auto; cbn [orb negb].
  - autorewrite with ws. unfold onopen. rewrite reads_eq. simpl. rewrite bool_decide_eq_true_2 by done. cbn [negb].
    rewrite !andThen_fst, modify_fst, setState_fst, each_fst by apply sendSubscribe_fst.
    unfold onclose. rewrite reads_eq. simpl. rewrite !bool_decide_eq_true_2 by done. cbn [negb].
    rewrite !andThen_fst, !modify_fst, setState_fst. eexists. split; [reflexivity|]. simpl. by split_and!.
  - rewrite andThen_fst, setState_fst. eexists. split; [reflexivity|]. simpl. by split_and!.
Qed.

Lemma attempt_waiting a c d b :
  waiting d b c ->
  let c' := (each react (attempt a (dials c)) c).1 in
  waiting b (Z.min (b * 2) RECONNECT_MAX_MS) c' /\ dials c' = (if a then S (dials c) else dials c).
Proof.
  intros Hw. destruct (attempt_plans a c d b Hw) as (x & -> & ? & ? & ? & ? & ? & ? & <-).
  by apply reconnect_waiting.
Qed.

(** The delays of an outage double from one second and stop at fifteen, whether the dials fail or
    the sockets open only to be refused at a connection cap: after [n] attempts the pending delay is
    [min(1000 * 2^n, 15000)] milliseconds. *)
Theorem ws_backoff t h attempts :
  retryTimer (run (Subscribe t h false :: outage 0 attempts)).1
  = Some (Z.min (RECONNECT_MIN_MS * 2 ^ Z.of_nat (length attempts)) RECONNECT_MAX_MS).
Proof.
  unfold run. cbn [each fold_right react]. rewrite andThen_fst. set (c := (subscribe t h false new_client).1).
  assert (Hc : waiting RECONNECT_MIN_MS (Z.min (RECONNECT_MIN_MS * 2) RECONNECT_MAX_MS) c /\ dials c = 0%nat)
    by (split; [split_and!|]; reflexivity || done).
  clearbody c. destruct Hc as [Hw Hz].
  assert (Hgen : forall n, 0 <= n ->
    waiting (Z.min (RECONNECT_MIN_MS * 2 ^ n) RECONNECT_MAX_MS) (Z.min (RECONNECT_MIN_MS * 2 ^ n * 2) RECONNECT_MAX_MS) c ->
    retryTimer (each react (outage (dials c) attempts) c).1
    = Some (Z.min (RECONNECT_MIN_MS * 2 ^ (n + Z.of_nat (length attempts))) RECONNECT_MAX_MS)).
  { clear Hw Hz. revert c. induction attempts as [|a l IH]; intros c n Hn Hw.
    - simpl. rewrite Z.add_0_r. apply Hw.
    - cbn [outage length]. rewrite each_app. destruct (attempt_waiting a c _ _ Hw) as [Hw' Hdials].
      rewrite <- Hdials. replace (n + Z.of_nat (S (length l))) with (n + 1 + Z.of_nat (length l)) by lia.
      apply IH; [lia|]. rewrite Z.pow_add_r, Z.pow_1_r by lia.
      pose proof (Z.pow_pos_nonneg 2 n ltac:(lia) Hn). unfold RECONNECT_MIN_MS, RECONNECT_MAX_MS in *.
      replace (Z.min (1000 * (2 ^ n * 2)) 15000) with (Z.min (1000 * 2 ^ n * 2) 15000) by (f_equal; lia).
      replace (Z.min (1000 * (2 ^ n * 2) * 2) 15000) with (Z.min (Z.min (1000 * 2 ^ n * 2) 15000 * 2) 15000) by lia.
      exact Hw'. }
  specialize (Hgen 0 ltac:(lia)). rewrite Z.pow_0_r, Z.add_0_l, Hz in Hgen. apply Hgen. exact Hw.
Qed.

(** ** Cursors *)

(** A frame of topic [t] at position [z] that starts no numbering other than [e]. *)
Definition positioned (t e : jstr) (p : Z * WsEnvelope) : Prop :=
  topic p.2 = Some t /\ type_ p.2 <> js "error" /\ seqno p.2 = Some (int p.1) /\
  (default [] (epoch_ p.2) = [] \/ default [] (epoch_ p.2) = e).

Definition frames (s : nat) (envs : list (Z * WsEnvelope)) : list input :=
  (fun p => FrameArrives s (Parsed p.2)) <$> envs.

(** A cursor of [m] at integer position. *)
Definition cursor (m : list (jstr * number)) (t : jstr) (z : Z) : Prop := default (int 0) (mget m t) = int z.

Lemma advance_same_epoch t e p c :
  positioned t e p -> epoch c = e ->
  advance t p.2 (int p.1) c =
    (let delivered := default (int 0) (mget (deliveredSeq c) t) in
     if isSnapshotTopic t && (int p.1 <=? delivered)%num then (c, false)
     else (set_subscriptions (handlers c)
             (mset (resumeSeq c) t (nmax (default (int 0) (mget (resumeSeq c) t)) (int p.1)))
             (mset (deliveredSeq c) t (nmax delivered (int p.1)))
             (if isSnapshotTopic t then mset (snapshotCache c) t p.2 else snapshotCache c) c, true)).
Proof.
  intros (_ & _ & _ & He) Hc. unfold advance.
  assert (negb (seqb (default [] (epoch_ p.2)) []) && negb (seqb (default [] (epoch_ p.2)) (epoch c)) = false) as ->; [|done].
  rewrite Hc. destruct He as [-> | ->]; [done|]. by rewrite (proj2 (seqb_eq e e)), andb_false_r.
Qed.

(** The arrival of one such frame. *)
Lemma frame_step t e p s c l :
  positioned t e p -> socket c = Some s -> epoch c = e -> mget (handlers c) t = Some l ->
  react (FrameArrives s (Parsed p.2)) c =
    (let '(c1, fresh) := advance t p.2 (int p.1) c in
     (c1, if fresh then (fun h => Delivered h p.2) <$> l else [])).
Proof.
  intros (Ht & Hty & Hs & _) Hsock He Hl. simpl. unfold onmessage. rewrite reads_eq, Hsock, bool_decide_eq_true_2 by done.
  cbn [negb]. unfold dispatch. rewrite reads_eq, Ht, Hl, (proj2 (seqb_neq _ _) Hty), Hs.
  destruct (advance t p.2 (int p.1) c) as [c1 []]; done.
Qed.

Lemma each_frames_cons t e p s c l envs :
  positioned t e p -> socket c = Some s -> epoch c = e -> mget (handlers c) t = Some l ->
  each react (frames s (p :: envs)) c =
    (let '(c1, fresh) := advance t p.2 (int p.1) c in
     let '(c2, out) := each react (frames s envs) c1 in
     (c2, (if fresh then (fun h => Delivered h p.2) <$> l else []) ++ out)).
Proof.
  intros Hp Hs He Hl. unfold frames. rewrite fmap_cons. cbn [each fold_right]. unfold andThen at 1.
  rewrite (frame_step t e p s c l) by done. by destruct (advance t p.2 (int p.1) c) as [c1 []].
Qed.

(** The positions delivered to one handler. *)
Definition delivered_to (h : nat) (out : list effect) : list number :=
  omap (fun e => match e with Delivered h' env => if bool_decide (h = h') then seqno env else None | _ => None end) out.

Lemma delivered_to_fmap h l env :
  NoDup l -> h ∈ l -> delivered_to h ((fun h' => Delivered h' env) <$> l) = option_list (seqno env).
Proof.
  intros Hnd. induction Hnd as [|x l Hx Hl IH]; intros Hin; [by apply elem_of_nil in Hin|].
  rewrite fmap_cons. unfold delivered_to in *. cbn [omap list_omap]. case_bool_decide as E.
  - subst x. assert (omap (fun e => match e with Delivered h' env => if bool_decide (h = h') then seqno env else None | _ => None end)
        ((fun h' => Delivered h' env) <$> l) = []) as ->.
    { clear IH Hl Hin. induction l as [|y l IH]; [done|]. rewrite fmap_cons. cbn [omap list_omap].
      apply not_elem_of_cons in Hx as [Hy Hl]. rewrite bool_decide_eq_false_2 by done. by apply IH. }
    by destruct (seqno env).
  - apply elem_of_cons in Hin as [?|Hin]; [done|]. by apply IH.
Qed.

(** A snapshot never goes back in time: within one connection and one numbering the positions a
    listener is handed on a snapshot topic strictly increase, whatever order the frames arrive in,
    and they end at the highest position that arrived. *)
Theorem snapshot_never_rewinds t e s c l h d envs :
  isSnapshotTopic t = true -> Forall (positioned t e) envs -> socket c = Some s -> epoch c = e ->
  mget (handlers c) t = Some l -> NoDup l -> h ∈ l -> cursor (deliveredSeq c) t d ->
  let '(c', out) := each react (frames s envs) c in
  exists zs, delivered_to h out = int <$> zs /\ StronglySorted Z.lt (d :: zs) /\
    cursor (deliveredSeq c') t (fold_left Z.max (fst <$> envs) d).
Proof.
  intros Hsnap Henvs. revert c d; induction Henvs as [|p envs Hp Hall IH]; intros c d Hs He Hl Hnd Hin Hd.
  - exists []. split_and!; [done|repeat constructor|done].
  - rewrite (each_frames_cons t e p s c l envs Hp Hs He Hl), (advance_same_epoch t e p c Hp He). cbv zeta.
    unfold cursor in Hd. rewrite Hd, Hsnap, nleb_int, nmax_int. cbn [andb].
    destruct (Z.leb_spec p.1 d).
    + specialize (IH c d Hs He Hl Hnd Hin Hd). destruct (each react (frames s envs) c) as [c2 out].
      destruct IH as (zs & H1 & H2 & H3). exists zs. rewrite fmap_cons. cbn [fold_left]. rewrite Z.max_l by lia. done.
    + match goal with |- context [each react (frames s envs) ?c1] => set (c1' := c1) end.
      specialize (IH c1' p.1 Hs He Hl Hnd Hin). destruct (each react (frames s envs) c1') as [c2 out].
      destruct IH as (zs & H1 & H2 & H3).
      { unfold cursor, c1'. simpl. rewrite mget_mset_eq. cbn [default from_option id]. f_equal. lia. }
      exists (p.1 :: zs). rewrite !fmap_cons. cbn [fold_left]. rewrite Z.max_r by lia. split_and!; [| |done].
      * unfold delivered_to in *. rewrite omap_app, H1. fold (delivered_to h ((fun h' => Delivered h' p.2) <$> l)).
        rewrite delivered_to_fmap by done. destruct Hp as (_ & _ & -> & _). done.
      * constructor; [done|]. inversion H2 as [|?? _ Hf]; subst. constructor; [lia|].
        eapply Forall_impl; [exact Hf|]. intros x Hx. simpl in Hx. lia.
Qed.

(** The cursor of an event topic is the highest position seen. *)
Lemma resume_is_max t e s c l d envs :
  isSnapshotTopic t = false -> Forall (positioned t e) envs -> socket c = Some s -> epoch c = e ->
  mget (handlers c) t = Some l -> cursor (resumeSeq c) t d ->
  let c' := (each react (frames s envs) c).1 in
  cursor (resumeSeq c') t (fold_left Z.max (fst <$> envs) d) /\ socket c' = Some s /\ epoch c' = e /\
  handlers c' = handlers c /\ disposed c' = disposed c /\ dials c' = dials c /\ retryTimer c' = retryTimer c.
Proof.
  intros Hsnap Henvs. revert c d; induction Henvs as [|p envs Hp Hall IH]; intros c d Hs He Hl Hd; [done|].
  rewrite (each_frames_cons t e p s c l envs Hp Hs He Hl), (advance_same_epoch t e p c Hp He). cbv zeta.
  unfold cursor in Hd. rewrite Hsnap, Hd, nmax_int. cbn [andb].
  match goal with |- context [each react (frames s envs) ?c1] => set (c1' := c1) end.
  specialize (IH c1' (Z.max d p.1) Hs He Hl). cbv zeta in IH.
  destruct (each react (frames s envs) c1') as [c2 out]. simpl fst in *. rewrite fmap_cons. cbn [fold_left].
  destruct IH as (H1 & H2 & H3 & H4 & H5 & H6 & H7); [|by split_and!].
  unfold cursor, c1'. simpl. by rewrite mget_mset_eq.
Qed.

Lemma each_app_snd {A} (f : A -> step) l k c :
  (each f (l ++ k) c).2 = (each f l c).2 ++ (each f k (each f l c).1).2.
Proof.
  revert c; induction l as [|x l IH]; intros c; simpl; [done|].
  by rewrite !andThen_snd, !andThen_fst, IH, app_assoc.
Qed.

Lemma each_sendSubscribe_in t keys c x :
  t ∈ keys -> x ∈ (sendSubscribe t c).2 -> x ∈ (each sendSubscribe keys c).2.
Proof.
  intros Hin Hx. induction keys as [|k keys IH]; [by apply elem_of_nil in Hin|].
  cbn [each fold_right]. rewrite andThen_snd, sendSubscribe_fst. apply elem_of_app.
  apply elem_of_cons in Hin as [->|Hin]; [by left|]. right. by apply IH.
Qed.

(** The fields that a reconnect reads, after the close that precedes it. *)
Lemma onclose_fields s code c :
  socket c = Some s -> disposed c = false -> retryTimer c = None -> handlers c <> [] ->
  let c' := (onclose s code c).1 in
  socket c' = None /\ disposed c' = false /\ retryTimer c' <> None /\ handlers c' = handlers c /\
  resumeSeq c' = resumeSeq c /\ epoch c' = epoch c /\ dials c' = dials c.
Proof.
  intros Hs Hd Hr Hh. unfold onclose. rewrite reads_eq, Hs, bool_decide_eq_true_2 by done. cbn [negb].
  rewrite !andThen_fst, setState_fst, modify_fst. set (c1 := set_socket None _ _ c).
  assert (H : forall x, disposed x = false -> handlers x = handlers c -> retryTimer x = None ->
            (scheduleReconnect x).1 = set_timers (Some (backoffMs x)) (idleTimer x)
              (set_backoff (Z.min (backoffMs x * 2) RECONNECT_MAX_MS) (backoffBeforeOpenMs x) x)).
  { intros x H1 H2 H3. unfold scheduleReconnect. rewrite reads_eq, H1, H3.
    destruct (length (handlers x) =? 0)%nat eqn:E0; [apply handlers_nil in E0; congruence|].
    rewrite bool_decide_eq_false_2 by auto. done. }
  case_bool_decide; rewrite ?modify_fst, ?skip_fst, H; simpl; by try split_and!.
Qed.

(** C6: A dropped connection loses no event position: after any frames of an event topic, whatever
    their order, a close and a reconnect, the client asks the hub to replay from the highest
    position it has seen, under the numbering that position belongs to. *)
Theorem resume_after_drop t e s c l d envs code :
  wf c -> isSnapshotTopic t = false -> Forall (positioned t e) envs -> socket c = Some s -> epoch c = e ->
  mget (handlers c) t = Some l -> cursor (resumeSeq c) t d -> 1 <= fold_left Z.max (fst <$> envs) d ->
  Sent (dials c) (MSubscribe t (Some (int (fold_left Z.max (fst <$> envs) d)))
                    (if seqb e [] then None else Some e))
  ∈ (each react (frames s envs ++ [SocketCloses s code; RetryFires true; SocketOpens (dials c)]) c).2.
Proof.
  intros [W _] Hsnap Henvs Hs He Hl Hd Hmax. set (z := fold_left Z.max _ d) in *.
  assert (Hdis : disposed c = false).
  { destruct (disposed c) eqn:E; [|done]. destruct (c_disposed c W E) as [? _]. congruence. }
  assert (Hrt : retryTimer c = None).
  { destruct (retryTimer c) eqn:E; [|done]. assert (socket c = None); [|congruence]. apply (c_retry c W). by rewrite E. }
  destruct (resume_is_max t e s c l d envs Hsnap Henvs Hs He Hl Hd) as (H1 & H2 & H3 & H4 & H5 & H6 & H7).
  rewrite each_app_snd. apply elem_of_app. right. set (c1 := (each react (frames s envs) c).1) in *.
  cbn [each fold_right react]. rewrite !andThen_snd. apply elem_of_app. right. apply elem_of_app. right.
  rewrite app_nil_r.
  assert (Hne : handlers c1 <> []) by (rewrite H4; intros E; rewrite E in Hl; discriminate).
  destruct (onclose_fields s code c1) as (F1 & F2 & F3 & F4 & F5 & F6 & F7); [done|congruence|congruence|done|].
  set (c2 := (onclose s code c1).1) in *.
  assert (E3 : (retryFires true c2).1 =
    set_state Connecting (set_socket (Some (dials c2)) (S (dials c2)) [] (set_timers None (idleTimer c2) c2))).
  { unfold retryFires. rewrite reads_eq. case_bool_decide as Hn; [done|]. rewrite andThen_fst, modify_fst.
    destruct (length (handlers c2) =? 0)%nat eqn:E0; [apply handlers_nil in E0; congruence|].
    unfold connect. rewrite reads_eq. simpl. rewrite F1, F2. rewrite !bool_decide_eq_false_2 by auto. cbn [orb negb].
    by autorewrite with ws. }
  rewrite E3. unfold onopen. rewrite reads_eq. cbn [set_state set_socket socket]. rewrite F7, H6.
  rewrite bool_decide_eq_true_2 by done. cbn [negb]. rewrite !andThen_snd. apply elem_of_app. right.
  apply elem_of_app. right. rewrite setState_fst, modify_fst. apply (each_sendSubscribe_in t).
  - cbn [handlers set_state set_socket set_timers]. rewrite F4, H4. apply mhas_spec. unfold mhas. rewrite Hl.
    by apply bool_decide_eq_true.
  - unfold sendSubscribe. rewrite reads_eq, Hsnap. unfold lastSeqFor. cbn [resumeSeq set_state set_socket set_timers set_backoff].
    rewrite F5. unfold cursor in H1. fold z in H1. rewrite H1, nleb_int, (proj2 (Z.leb_gt z 0)) by lia.
    cbn [epoch set_state set_socket set_timers set_backoff]. rewrite F6, H3. constructor.
Qed.

(** ** Witnesses *)

Definition sample_frame (t : jstr) (z : Z) : Z * WsEnvelope :=
  (z, {| topic := Some t; type_ := js "event"; seqno := Some (int z); epoch_ := None; data := VNull |}).

(** A client with one listener on [t] and an open socket. *)
Definition open_client (t : jstr) : client := (each react [Subscribe t 7%nat true; SocketOpens 0%nat] new_client).1.

Lemma open_client_wf t : wf (open_client t).
Proof. unfold open_client. cbn [each fold_right]. rewrite !andThen_fst, skip_fst. apply react_wf, react_wf, wf_new. Qed.

Definition sample_frames : list (Z * WsEnvelope) := sample_frame TOPIC_TOPOLOGY <$> [3; 1; 5; 4].

Example sample_deliveries :
  delivered_to 7 (each react (frames 0 sample_frames) (open_client TOPIC_TOPOLOGY)).2 = int <$> [3; 5].
Proof. vm_compute. reflexivity. Qed.

Lemma snapshot_never_rewinds_witness :
  let '(c', out) := each react (frames 0 sample_frames) (open_client TOPIC_TOPOLOGY) in
  exists zs, delivered_to 7 out = int <$> zs /\ StronglySorted Z.lt (0 :: zs) /\
    cursor (deliveredSeq c') TOPIC_TOPOLOGY (fold_left Z.max (fst <$> sample_frames) 0).
Proof.
  apply (snapshot_never_rewinds TOPIC_TOPOLOGY [] 0 (open_client TOPIC_TOPOLOGY) [7%nat] 7 0 sample_frames).
  - reflexivity.
  - repeat (apply List.Forall_cons; [split_and!; [reflexivity|discriminate|reflexivity|by left]|]). apply List.Forall_nil.
  - reflexivity.
  - reflexivity.
  - reflexivity.
  - apply NoDup_singleton.
  - constructor.
  - reflexivity.
Defined.

Lemma resume_after_drop_witness :
  dials (open_client TOPIC_LIVE) = 1%nat /\
  Sent (dials (open_client TOPIC_LIVE))
    (MSubscribe TOPIC_LIVE (Some (int (fold_left Z.max (fst <$> (sample_frame TOPIC_LIVE <$> [8; 9; 4])) 0)))
       (if seqb [] [] then None else Some []))
  ∈ (each react (frames 0 (sample_frame TOPIC_LIVE <$> [8; 9; 4]) ++
                 [SocketCloses 0 None; RetryFires true; SocketOpens (dials (open_client TOPIC_LIVE))])
       (open_client TOPIC_LIVE)).2.
Proof.
  split; [reflexivity|].
  apply (resume_after_drop TOPIC_LIVE [] 0 (open_client TOPIC_LIVE) [7%nat] 0 (sample_frame TOPIC_LIVE <$> [8; 9; 4]) None);
    try (vm_compute; reflexivity).
  - apply open_client_wf.
  - repeat (apply List.Forall_cons; [split_and!; [reflexivity|discriminate|reflexivity|by left]|]). apply List.Forall_nil.
  - vm_compute. discriminate.
Defined.
