(* ===== verification/RunSamples.v ===== *)
(** The arithmetic of interval runs ([web/src/lib/run-samples.ts]): grouping the flat result list per
    pair, the latency aggregate, the planned, effective and observed cadences, the spellings of
    durations, and the stored routes a probe may have walked. *)
From S2P Require Import Prelude JsNum JsString JsCollections JsValue JsDate JsFormat.
Local Open Scope Z_scope.

Record RunResult := {
  sourceNode : option jstr;
  destinationNode : option jstr;
  success : bool;
  durationNs : value;
  recordedAt : option jstr;
}.

(** What the page reads of a run: its spec snapshot, its check type and its pair total. *)
Record RunDetail := { spec : value; run_type : option jstr; pairTotal : value }.

Record PairSamples := { source : jstr; destination : jstr; samples : list RunResult }.

Record SampleAggregate := {
  sent : number;
  failed : number;
  failRatio : number;
  minNs : option number;
  avgNs : option number;
  maxNs : option number;
  p95Ns : option number;
}.

(** ** Reading a run *)

Definition runDurationNs (run : option RunDetail) : number :=
  match run with
  | Some r =>
      match spec r with
      | VObj _ | VArr _ =>
          match vget (spec r) (js "Duration") with
          | VNum d => if isFinite d && (d >? int 0)%num then d else int 0
          | _ => int 0
          end
      | _ => int 0
      end
  | None => int 0
  end.

Definition isIntervalRun (run : option RunDetail) : bool := (runDurationNs run >? int 0)%num.

(** ** Grouping *)

Definition result_pair (r : RunResult) : jstr * jstr :=
  (default [] (sourceNode r), default [] (destinationNode r)).

Definition sample_key (p : jstr * jstr) : jstr := num_to_string (len p.1) ++ [0] ++ p.1 ++ p.2.

Definition group_step (byPair : list (jstr * PairSamples)) (r : RunResult) : list (jstr * PairSamples) :=
  let '(src, dst) := result_pair r in
  let key := sample_key (src, dst) in
  match mget byPair key with
  | Some existing =>
      mset byPair key {| source := source existing; destination := destination existing;
                         samples := samples existing ++ [r] |}
  | None => mset byPair key {| source := src; destination := dst; samples := [r] |}
  end.

Definition groupSamplesByPair (results : list RunResult) : list PairSamples :=
  mvalues (fold_left group_step results []).

(** ** The aggregate *)

Definition percentileNs (sortedAsc : list number) (p : number) : option number :=
  if bool_decide (sortedAsc = []) then None
  else
    let rank := nceil (p / int 100 * len sortedAsc)%num in
    let idx := nmin (nmax (rank - int 1)%num (int 0)) (len sortedAsc - int 1)%num in
    nth_number sortedAsc idx.

Definition isLatency (ns : value) : option number :=
  match ns with
  | VNum n => if isFinite n && (n >=? int 0)%num then Some n else None
  | _ => None
  end.

Definition aggregate_step (acc : number * list number) (r : RunResult) : number * list number :=
  let '(failed, ok) := acc in
  if success r then (failed, match isLatency (durationNs r) with Some n => ok ++ [n] | None => ok end)
  else ((failed + int 1)%num, ok).

Definition nsum (l : list number) : number := fold_left (fun sum v => (sum + v)%num) l (int 0).

Definition aggregateSamples (results : list RunResult) : SampleAggregate :=
  let sent := len results in
  let '(failed, okLatencies) := fold_left aggregate_step results (int 0, []) in
  let failRatio := if (sent =? int 0)%num then int 0 else (failed / sent)%num in
  if bool_decide (okLatencies = []) then
    {| sent := sent; failed := failed; failRatio := failRatio;
       minNs := None; avgNs := None; maxNs := None; p95Ns := None |}
  else
    let okLatencies := js_sort (fun a b => a - b)%num okLatencies in
    {| sent := sent; failed := failed; failRatio := failRatio;
       minNs := okLatencies !! 0%nat;
       maxNs := okLatencies !! (length okLatencies - 1)%nat;
       avgNs := Some (nsum okLatencies / len okLatencies)%num;
       p95Ns := percentileNs okLatencies (int 95) |}.

(** ** The planned cadence *)

Definition MAX_SAMPLES_PER_PAIR : Z := 500.
Definition MIN_SAMPLE_INTERVAL_NS : Z := 5000000000.

Definition sampleIntervalNs (durationNs : number) : number :=
  if negb (durationNs >? int 0)%num || negb (isFinite durationNs) then int 0
  else nmax (nfloor (durationNs / int MAX_SAMPLES_PER_PAIR)%num) (int MIN_SAMPLE_INTERVAL_NS).

Definition plannedSamplesPerPair (durationNs : number) : number :=
  let interval := sampleIntervalNs durationNs in
  if (interval <=? int 0)%num then int 1
  else nmin (nmax (nfloor (durationNs / interval)%num) (int 1)) (int MAX_SAMPLES_PER_PAIR).

Record Cadence := { intervalNs : number; samplesPerPair : number }.

Record PairProgress := {
  planned : number;
  expected : number;
  arrived : number;
  remaining : number;
  remainingNs : number;
  framed : bool;
}.

Definition pairProgress (durationNs arrived : number) (cadence : option Cadence) : PairProgress :=
  let planned :=
    match cadence with
    | Some c => if isFinite (samplesPerPair c) && (samplesPerPair c >=? int 1)%num
                then nfloor (samplesPerPair c) else plannedSamplesPerPair durationNs
    | None => plannedSamplesPerPair durationNs
    end in
  let intervalNs :=
    match cadence with
    | Some c => if isFinite (intervalNs c) && (intervalNs c >? int 0)%num
                then intervalNs c else sampleIntervalNs durationNs
    | None => sampleIntervalNs durationNs
    end in
  let count := if isFinite arrived && (arrived >? int 0)%num then nfloor arrived else int 0 in
  let expected := nmax planned count in
  let remaining := nmax (expected - count)%num (int 0) in
  {| planned := planned; expected := expected; arrived := count;
     remainingNs := (remaining * intervalNs)%num; remaining := remaining;
     framed := (expected >? int 1)%num |}.

(** ** Spelling a latency and a duration *)

Definition MICROSECOND_FLOOR_NS : Z := 100000.

Definition LATENCY_UNITS (locale : jstr) : jstr * jstr * jstr :=
  if seqb locale (js "ru") then (js " мкс", js " мс", js ",") else (js "µs", js "ms", js ".").

Definition fmtMicrosNs (ns : number) (locale : jstr) : option jstr :=
  let abs := nabs ns in
  let '(micro, _, _) := LATENCY_UNITS locale in
  if (abs >? int 0)%num && (abs <? int MICROSECOND_FLOOR_NS)%num
  then Some (num_to_string (nround (ns / int 1000)%num) ++ micro) else None.

(** [s.replace(".", mark)]: the first occurrence. *)
Definition replace_point (s mark : jstr) : jstr :=
  match indexOf s (js ".") with
  | Some i => take i s ++ mark ++ drop (S i) s
  | None => s
  end.

Definition fmtNsCompact (ns : option number) (locale : jstr) : jstr :=
  match ns with
  | Some ns =>
      if isFinite ns then
        match fmtMicrosNs ns locale with
        | Some micros => micros
        | None =>
            let '(_, milli, mark) := LATENCY_UNITS locale in
            let ms := (ns / int 1000000)%num in
            replace_point (if (ms <? int 10)%num then toFixed ms 1 else toFixed ms 0) mark ++ milli
        end
      else js "—"
  | None => js "—"
  end.

Definition DURATION_UNITS (locale : jstr) : jstr * jstr * jstr :=
  if seqb locale (js "ru") then (js " с", js " мин", js " ч") else (js "s", js "m", js "h").

Definition whole_seconds (ns : number) : number :=
  if isFinite ns then nround (ns / int 1000000000)%num else int 0.

Definition formatDurationNs (ns : number) (locale : jstr) : jstr :=
  let '(sec, min, hour) := DURATION_UNITS locale in
  let s := whole_seconds ns in
  if (s <? int 60)%num then num_to_string s ++ sec
  else
    let m := nround (s / int 60)%num in
    if (m <? int 60)%num then num_to_string m ++ min
    else
      let rest := (m mod int 60)%num in
      if (rest =? int 0)%num then num_to_string (m / int 60)%num ++ hour
      else num_to_string (nfloor (m / int 60)%num) ++ hour ++ js " " ++ num_to_string rest ++ min.

Inductive DurationUnitName := second | minute | hour.

Definition cadenceParts (ns : number) : number * DurationUnitName :=
  let s := whole_seconds ns in
  if (s <? int 60)%num || negb (s mod int 60 =? int 0)%num then (s, second)
  else if (s <? int 3600)%num || negb (s mod int 3600 =? int 0)%num then ((s / int 60)%num, minute)
  else ((s / int 3600)%num, hour).

Definition formatCadenceNs (ns : number) (locale : jstr) : jstr :=
  let '(value, unit) := cadenceParts ns in
  let '(s, m, h) := DURATION_UNITS locale in
  num_to_string value ++ match unit with second => s | minute => m | hour => h end.

Definition CADENCE_WORDS_RU (u : DurationUnitName) : jstr * jstr * jstr :=
  match u with
  | second => (js "секунду", js "секунды", js "секунд")
  | minute => (js "минуту", js "минуты", js "минут")
  | hour => (js "час", js "часа", js "часов")
  end.

Definition ruForm (n : number) : nat :=
  let teen := (nabs n mod int 100)%num in
  if (teen >=? int 11)%num && (teen <=? int 14)%num then 2%nat
  else
    let last := (nabs n mod int 10)%num in
    if (last =? int 1)%num then 0%nat
    else if (last >=? int 2)%num && (last <=? int 4)%num then 1%nat
    else 2%nat.

Definition formatCadenceProse (ns : number) (locale : jstr) : jstr :=
  if negb (seqb locale (js "ru")) then formatCadenceNs ns locale
  else
    let '(value, unit) := cadenceParts ns in
    let '(f0, f1, f2) := CADENCE_WORDS_RU unit in
    if (value =? int 1)%num then f0
    else num_to_string value ++ js " " ++ match ruForm value with 0%nat => f0 | 1%nat => f1 | _ => f2 end.

(** ** The effective cadence *)

Definition MTR_PER_PAIR_BUDGET_NS : Z := 90000000000.
Definition PMTU_PER_PAIR_BUDGET_NS : Z := 15000000000.
Definition MAX_CONCURRENCY : Z := 8.
Definition MAX_PER_SOURCE_CONCURRENCY : Z := 2.

Definition perPairBudgetNs (checkType : jstr) : number :=
  if seqb checkType (js "mtr") then int MTR_PER_PAIR_BUDGET_NS
  else if seqb checkType (js "pmtu") then int PMTU_PER_PAIR_BUDGET_NS
  else int 0.

Definition ceilDiv (a b : number) : number :=
  if (b <=? int 0)%num then a else nmax (nceil (a / b)%num) (int 1).

Definition asCount (n : value) : number :=
  let v := match n with VNum x => x | _ => number_of_value n end in
  if isFinite v && (v >? int 0)%num then nfloor v else int 0.

Definition baseSampleIntervalNs (durationNs requestedNs : number) : number :=
  let derived := sampleIntervalNs durationNs in
  if (derived <=? int 0)%num then int 0
  else if negb (requestedNs >? int 0)%num || negb (isFinite requestedNs) then derived
  else nmax requestedNs (nfloor (durationNs / int MAX_SAMPLES_PER_PAIR)%num).

Inductive CadenceAdjustment := unadjusted | cap | round.

Record PlannedCadence := {
  plan_requestedNs : number;
  plan_baseNs : number;
  plan_intervalNs : number;
  plan_samplesPerPair : number;
  plan_adjusted : CadenceAdjustment;
}.

Definition planCadenceFor (durationNs : number) (checkType : jstr) (pairCount sourceCount : value)
    (requestedNs : number) : PlannedCadence :=
  let requested := if isFinite requestedNs && (requestedNs >? int 0)%num then requestedNs else int 0 in
  let baseNs := baseSampleIntervalNs durationNs requested in
  if (baseNs <=? int 0)%num then
    {| plan_requestedNs := requested; plan_baseNs := baseNs; plan_intervalNs := baseNs;
       plan_samplesPerPair := int 1; plan_adjusted := unadjusted |}
  else
    let budget := perPairBudgetNs checkType in
    let pairs := asCount pairCount in
    let sources := asCount sourceCount in
    let '(interval, adjusted) :=
      if (budget >? int 0)%num && (pairs >? int 0)%num then
        let perSource := if (sources >? int 0)%num then ceilDiv pairs sources else pairs in
        let batches := nmax (ceilDiv pairs (int MAX_CONCURRENCY))
                            (ceilDiv perSource (int MAX_PER_SOURCE_CONCURRENCY)) in
        let floor := (batches * budget)%num in
        if (floor >? baseNs)%num then (floor, round) else (baseNs, unadjusted)
      else (baseNs, unadjusted) in
    let adjusted := match adjusted with
                    | unadjusted => if (requested >? int 0)%num && (baseNs >? requested)%num then cap
                                    else unadjusted
                    | a => a
                    end in
    {| plan_requestedNs := requested; plan_baseNs := baseNs; plan_intervalNs := interval;
       plan_samplesPerPair := nmin (nmax (nfloor (durationNs / interval)%num) (int 1))
                                   (int MAX_SAMPLES_PER_PAIR);
       plan_adjusted := adjusted |}.

Definition effectiveSampleIntervalNs durationNs checkType pairCount sourceCount requestedNs : number :=
  plan_intervalNs (planCadenceFor durationNs checkType pairCount sourceCount requestedNs).

Definition effectivePlannedSamplesPerPair durationNs checkType pairCount sourceCount requestedNs : number :=
  plan_samplesPerPair (planCadenceFor durationNs checkType pairCount sourceCount requestedNs).

Definition plannedCadenceFromSpec (run : option RunDetail) : option Cadence :=
  match run with
  | Some r =>
      match vget (spec r) (js "PlannedSampleIntervalNs"), vget (spec r) (js "PlannedSamplesPerPair") with
      | VNum i, VNum n =>
          if negb (isFinite i) || (i <=? int 0)%num then None
          else if negb (isFinite n) || (n <? int 1)%num then None
          else Some {| intervalNs := i; samplesPerPair := n |}
      | _, _ => None
      end
  | None => None
  end.

Record RunCadence := { cadence : Cadence; fromSpec : bool }.

(** [pairTotal ?? 0]. *)
Definition nullish_or (v d : value) : value := match v with VUndef | VNull => d | _ => v end.

Definition runCadence (run : option RunDetail) (sourceCount : value) : option RunCadence :=
  let durationNs := runDurationNs run in
  if (durationNs <=? int 0)%num then None
  else
    match plannedCadenceFromSpec run with
    | Some snapshot => Some {| cadence := snapshot; fromSpec := true |}
    | None =>
        let checkType := default [] (run ≫= run_type) in
        let pairCount := default (VNum (int 0)) ((fun r => nullish_or (pairTotal r) (VNum (int 0))) <$> run) in
        Some {| cadence := {|
                  intervalNs := effectiveSampleIntervalNs durationNs checkType pairCount sourceCount (int 0);
                  samplesPerPair :=
                    effectivePlannedSamplesPerPair durationNs checkType pairCount sourceCount (int 0) |};
                fromSpec := false |}
    end.

(** ** The observed cadence and the routes of a probe *)

Record ObservedCadence := { obs_intervalNs : number; obs_samplesPerPair : number; obs_pairs : number }.

Section Observed.
Context `{DateHost}.

Definition sample_stamps (g : PairSamples) : list number :=
  List.filter isFinite ((fun s => parse_ms (default [] (recordedAt s))) <$> samples g).

Definition pair_spacing (g : PairSamples) : option number :=
  let stamps := sample_stamps g in
  if (length stamps <? 2)%nat then None
  else
    let span := (nmaximum stamps - nminimum stamps)%num in
    if negb (span >? int 0)%num then None
    else Some (span * int 1000000 / (len stamps - int 1))%num.

Definition observedCadence (groups : list PairSamples) : option ObservedCadence :=
  let intervals := omap pair_spacing groups in
  let minCount := fold_left (fun m g => nmin m (len (samples g))) groups (Inf false) in
  if bool_decide (intervals = []) then None
  else
    let intervals := js_sort (fun a b => a - b)%num intervals in
    let mid := (length intervals / 2)%nat in
    let at_ i := default NaN (intervals !! i) in
    let median := if (length intervals mod 2 =? 1)%nat then at_ mid
                  else ((at_ (mid - 1)%nat + at_ mid) / int 2)%num in
    Some {| obs_intervalNs := median;
            obs_samplesPerPair := if isFinite minCount then minCount else int 0;
            obs_pairs := len intervals |}.

Definition SNAPSHOT_START_GRACE_MS : Z := 5000.

Definition covers {S} (firstSeen lastSeen : S -> jstr) (at_ grace : number) (s : S) : bool :=
  let from := parse_ms (firstSeen s) in
  let to := parse_ms (lastSeen s) in
  isFinite from && isFinite to && (at_ >=? from - grace)%num && (at_ <=? to)%num.

Definition coveringSnapshots {S} (firstSeen lastSeen : S -> jstr) (snapshots : list S)
    (recordedAt : option jstr) : list S :=
  match recordedAt with
  | None => []
  | Some r =>
      if seqb r [] then []
      else
        let at_ := parse_ms r in
        if isNaN at_ then []
        else
          let strict := List.filter (covers firstSeen lastSeen at_ (int 0)) snapshots in
          if (0 <? length strict)%nat then strict
          else List.filter (covers firstSeen lastSeen at_ (int SNAPSHOT_START_GRACE_MS)) snapshots
  end.
End Observed.

(** ** Grouping is exact *)

(** Strings are shorter than [2^53] units, as the language bounds them. *)
Definition nameable (r : RunResult) : Prop := safe (Z.of_nat (length (result_pair r).1)).

Lemma digits_no_nul z : 0 <= z -> 0 ∉ digits z.
Proof.
  intros Hz Hin. pose proof (digits_all_digits z Hz) as H. rewrite Forall_forall in H.
  specialize (H 0 Hin). done.
Qed.

Lemma sample_key_inj p q :
  safe (Z.of_nat (length p.1)) -> safe (Z.of_nat (length q.1)) -> sample_key p = sample_key q -> p = q.
Proof.
  unfold sample_key, len. intros Hp Hq. rewrite !num_to_string_int by done. unfold string_of_Z.
  rewrite !(proj2 (Z.ltb_ge _ 0)) by lia. intros E.
  apply app_cons_inj in E as [E1 E2]; [|apply digits_no_nul; lia..].
  apply digits_inj in E1; [|lia..]. apply app_inj_1 in E2 as [? ?]; [|lia].
  destruct p, q; simpl in *; by subst.
Qed.

Definition group_entry (o : option PairSamples) (r : RunResult) : PairSamples :=
  match o with
  | Some e => {| source := source e; destination := destination e; samples := samples e ++ [r] |}
  | None => {| source := (result_pair r).1; destination := (result_pair r).2; samples := [r] |}
  end.

Lemma group_step_file m r :
  group_step m r = file_step (fun r => sample_key (result_pair r)) group_entry m r.
Proof.
  unfold group_step, file_step, group_entry. destruct (result_pair r) as [s d].
  by destruct (mget m (sample_key (s, d))).
Qed.

Lemma group_entries rs p :
  rs <> [] -> Forall (fun r => result_pair r = p) rs ->
  fold_left (fun o r => Some (group_entry o r)) rs None =
  Some {| source := p.1; destination := p.2; samples := rs |}.
Proof.
  induction rs as [|r rs IH] using rev_ind; [done|]. intros _ [Hrs Hr]%Forall_app.
  inversion Hr as [|?? Hr' _]; subst. rewrite fold_left_app. cbn [fold_left].
  destruct (decide (rs = [])) as [->|Hne]; [done|]. by rewrite IH.
Qed.

Lemma groups_eq rs :
  Forall nameable rs ->
  groupSamplesByPair rs =
  (fun p => {| source := p.1; destination := p.2;
               samples := List.filter (fun r => bool_decide (result_pair r = p)) rs |})
  <$> set_of_list (result_pair <$> rs).
Proof.
  intros Hn. pose proof Hn as Hn'. rewrite Forall_forall in Hn'. unfold groupSamplesByPair.
  rewrite (fold_left_ext _ _ rs [] group_step_file), file_values.
  rewrite (list_fmap_compose result_pair sample_key).
  rewrite (set_of_list_fmap (fun p => safe (Z.of_nat (length p.1))));
    [|intros; by apply sample_key_inj|by apply Forall_fmap].
  apply omap_fmap_Some. intros p Hp. apply elem_of_set_of_list, list_elem_of_fmap in Hp as (r0 & -> & Hr0).
  unfold entry_of.
  rewrite (filter_ext_in_b _ (fun r => bool_decide (result_pair r = result_pair r0))).
  2:{ intros r Hr. apply bool_decide_ext. split; [|by intros ->]. apply sample_key_inj; by apply Hn'. }
  apply group_entries.
  - intros E. eapply not_elem_of_nil. rewrite <- E. apply elem_of_filter_b. split; [exact Hr0|].
    by apply bool_decide_eq_true.
  - apply Forall_forall. intros r [_ Hr]%elem_of_filter_b. by apply bool_decide_eq_true in Hr.
Qed.

(** Grouping a run's results by pair loses and invents nothing: the groups are the pairs of the
    results in first-seen order, each exactly once, and a group holds exactly its pair's results in
    completion order. Two different pairs never share a group, whatever characters their names
    hold. *)
Theorem groupSamplesByPair_partition rs (Hn : Forall nameable rs) :
  (fun g => (source g, destination g)) <$> groupSamplesByPair rs = set_of_list (result_pair <$> rs) /\
  Forall (fun g => samples g =
            List.filter (fun r => bool_decide (result_pair r = (source g, destination g))) rs)
         (groupSamplesByPair rs).
Proof.
  rewrite groups_eq by done. split.
  - rewrite <- list_fmap_compose. rewrite <- (list_fmap_id (set_of_list _)) at 2.
    by apply list_fmap_ext; intros ? [] _.
  - apply Forall_fmap, Forall_forall. intros [] _. done.
Qed.

Definition sample (src dst : string) : RunResult :=
  {| sourceNode := Some (js src); destinationNode := Some (js dst); success := true;
     durationNs := VNum (int 1); recordedAt := None |}.

Lemma groupSamplesByPair_partition_witness :
  let rs := [sample "a" "bc"; sample "ab" "c"; sample "a" "bc"] in
  (fun g => (source g, destination g)) <$> groupSamplesByPair rs = set_of_list (result_pair <$> rs).
Proof.
  intros rs. apply (groupSamplesByPair_partition rs).
  unfold nameable, safe. repeat constructor; vm_compute; discriminate.
Defined.

(** ** The aggregate is the nearest-rank summary *)

Abbreviation num_le := (fun x y : number => (x <=? y)%num = true).

Lemma cmp_leb_sub x y : isFinite x = true -> isFinite y = true -> cmp_leb (fun a b => a - b)%num x y = (x <=? y)%num.
Proof.
  destruct x as [| |x], y as [| |y]; try done. intros _ _. unfold cmp_leb.
  rewrite (proj1 (nsub_sign x y)), nleb_fin. lia.
Qed.

Lemma js_sort_numbers l :
  Forall (fun x => isFinite x = true) l ->
  StronglySorted num_le (js_sort (fun a b => a - b)%num l) /\ js_sort (fun a b => a - b)%num l ≡ₚ l.
Proof.
  intros Hl. pose proof (sort_leb_perm (cmp_leb (fun a b => a - b)%num) l) as Hp. split; [|done].
  apply (StronglySorted_weaken (fun x => isFinite x = true) (fun x y => cmp_leb (fun a b => a - b)%num x y = true)).
  - intros x y Hx Hy. by rewrite cmp_leb_sub.
  - unfold js_sort. by rewrite Hp.
  - apply (sort_leb_sorted _ (fun x => isFinite x = true)); [| |done].
    + intros x y Hx Hy. rewrite !cmp_leb_sub by done. destruct x, y; try done. rewrite !nleb_fin. lia.
    + intros x y z Hx Hy Hz. rewrite !cmp_leb_sub by done. destruct x, y, z; try done. rewrite !nleb_fin. lia.
Qed.

(** In a sorted list the element at index [i] has at least [i + 1] elements at or below it and at most
    [i] strictly below it. *)
Lemma sorted_rank (l : list number) i x :
  Forall (fun x => isFinite x = true) l -> StronglySorted num_le l -> l !! i = Some x ->
  (S i <= length (List.filter (fun y => (y <=? x)%num) l))%nat /\
  (length (List.filter (fun y => (y <? x)%num) l) <= i)%nat.
Proof.
  intros Hl Hs. revert i. induction Hs as [|y l Hs IH Hf]; intros i; [done|].
  inversion Hl as [|?? Hy Hl']; subst. destruct i as [|i]; simpl.
  - intros [= <-]. rewrite Forall_forall in Hf, Hl'.
    assert ((y <=? y)%num = true /\ (y <? y)%num = false) as [-> ->].
    { destruct y; try done. rewrite nleb_fin. cbn. lia. }
    simpl. split; [lia|]. rewrite (filter_ext_in_b _ (fun _ => false)).
    + clear. induction l; simpl; auto.
    + intros z Hz. specialize (Hf z Hz). specialize (Hl' z Hz). destruct y, z; try done.
      rewrite nleb_fin in Hf. cbn. lia.
  - intros Hx. destruct (IH Hl' i Hx) as [H1 H2].
    assert ((y <=? x)%num = true) as ->.
    { rewrite Forall_forall in Hf. apply Hf. by eapply list_elem_of_lookup_2. }
    simpl. split; [lia|]. destruct (y <? x)%num; simpl; lia.
Qed.

Definition p95_index (n : Z) : number :=
  nmin (nmax (nceil (int 95 / int 100 * int n) - int 1) (int 0)) (int n - int 1)%num.

Lemma ratio95 :
  exists C, (int 95 / int 100)%num = Fin C /\ 100 * C <= 95 * U /\ 95 * U - 2 ^ 1028 <= 100 * C.
Proof. eexists. split; [vm_compute; reflexivity|]. split; vm_compute; discriminate. Qed.

(** The arithmetic of the rank, with the units of the doubles abstract. *)
Lemma rank_between u v w c n k :
  0 < w -> 0 < v -> u = 32 * w -> v * 2 ^ 40 <= w -> 100 * c <= 95 * u -> 95 * u - v <= 100 * c ->
  1 <= n <= 2 ^ 40 -> 95 * n <= 100 * k -> 100 * (k - 1) + 5 <= 95 * n ->
  (32 * (k - 1) + 1) * w <= c * n <= k * u.
Proof. intros. assert (v * n <= v * 2 ^ 40) by nia. nia. Qed.

Lemma ceil_units u w z k :
  0 < w -> u = 32 * w -> (32 * (k - 1) + 1) * w <= z <= k * u -> - z / u = - k.
Proof. intros. symmetry. apply (Z.div_unique_pos _ _ _ (k * u - z)); nia. Qed.

Lemma U_split : exists W, U = 32 * W /\ 0 < W /\ 2 ^ 1028 * 2 ^ 40 <= W /\ forall m, Z.abs m <= 2 ^ 53 -> repr (m * W).
Proof.
  exists (2 ^ 1069). split_and!; [done|done|vm_compute; discriminate|].
  intros m Hm. exists m, 1069. split_and!; [lia|lia|done].
Qed.

(** 0.95 is not a double, but the rank is the exact one all the same. *)
Lemma p95_rank n :
  1 <= n <= 2 ^ 40 -> nceil (int 95 / int 100 * int n)%num = int ((95 * n + 99) / 100).
Proof.
  intros Hn. destruct ratio95 as (C & -> & Hhi & Hlo).
  assert (H0 : 0 < 2 ^ 1028) by done. destruct U_split as (W & HW & HW0 & HV & Hrepr).
  generalize dependent (2 ^ 1028). intros V Hlo H0 HV.
  set (k := (95 * n + 99) / 100). assert (95 * n <= 100 * k /\ 100 * (k - 1) + 5 <= 95 * n) as [Hk1 Hk2].
  { unfold k. clear. pose proof (Z.div_mod (95 * n + 99) 100). pose proof (Z.mod_pos_bound (95 * n + 99) 100). lia. }
  clearbody k. assert (safe k) as Hsk by (unfold safe; clear -Hn Hk1 Hk2; lia).
  pose proof (rank_between U V W C n k HW0 H0 HW HV Hhi Hlo Hn Hk1 Hk2) as [Hl Hr].
  pose proof (safe_lt_OVERFLOW k Hsk) as Ho. pose proof U_pos as HU.
  destruct (round64_between (C * (n * U)) U ((32 * (k - 1) + 1) * W) (k * U)) as (z & Hz & Hb).
  - exact HU.
  - apply Hrepr. clear -Hn Hk1 Hk2. lia.
  - by apply repr_int.
  - clear -Ho HW HW0 Hk1 Hn. generalize dependent U. generalize dependent OVERFLOW. intros. nia.
  - exact Ho.
  - clear -Hl Hr HU. generalize dependent U. intros. nia.
  - unfold nmul, int. rewrite Hz. unfold nceil. f_equal. rewrite (ceil_units U W z k HW0 HW Hb). lia.
Qed.

Lemma percentile95 l :
  l <> [] -> Z.of_nat (length l) <= 2 ^ 40 ->
  percentileNs l (int 95) = l !! Z.to_nat ((95 * Z.of_nat (length l) + 99) / 100 - 1).
Proof.
  intros Hne Hl. unfold percentileNs, len. rewrite bool_decide_eq_false_2 by done.
  assert (1 <= Z.of_nat (length l)) by (destruct l; [done|simpl; lia]).
  set (n := Z.of_nat (length l)) in *. rewrite (p95_rank n (conj H Hl)).
  set (k := (95 * n + 99) / 100). assert (1 <= k <= n) as Hk.
  { unfold k. pose proof (Z.div_mod (95 * n + 99) 100). pose proof (Z.mod_pos_bound (95 * n + 99) 100). lia. }
  rewrite !nsub_int by (unfold safe; lia). rewrite nmax_int, nmin_int.
  replace (Z.min (Z.max (k - 1) 0) (n - 1)) with (k - 1) by lia.
  pose proof U_pos. unfold nth_number, int. rewrite Z.mod_mul, Z.div_mul by lia.
  rewrite (proj2 (Z.leb_le 0 _)) by nia. done.
Qed.

#[local] Arguments nadd : simpl never.
#[local] Arguments int : simpl never.

(** The latencies that count: those of the successful samples that carry one. *)
Definition latencies (rs : list RunResult) : list number :=
  omap (fun r => if success r then isLatency (durationNs r) else None) rs.

Definition failures (rs : list RunResult) : Z :=
  Z.of_nat (length (List.filter (fun r => negb (success r)) rs)).

Lemma latencies_finite rs : Forall (fun x => isFinite x = true) (latencies rs).
Proof.
  apply Forall_forall. intros x Hx. unfold latencies in Hx. apply list_elem_of_omap in Hx as (r & _ & Hr).
  destruct (success r); [|done]. unfold isLatency in Hr. destruct (durationNs r); try done.
  destruct (isFinite n) eqn:E; [|done]. simpl in Hr. case_match; by simplify_eq.
Qed.

Lemma failures_le rs : 0 <= failures rs <= Z.of_nat (length rs).
Proof. unfold failures. pose proof (List.filter_length_le (fun r => negb (success r)) rs). lia. Qed.

Lemma aggregate_fold rs :
  safe (Z.of_nat (length rs)) ->
  fold_left aggregate_step rs (int 0, []) = (int (failures rs), latencies rs).
Proof.
  unfold safe. induction rs as [|r rs IH] using rev_ind; [done|]. rewrite length_app. simpl. intros Hs.
  rewrite fold_left_app. rewrite IH by (unfold safe; lia). unfold latencies, failures.
  rewrite omap_app, List.filter_app, length_app. cbn. destruct (success r); simpl.
  - rewrite Nat.add_0_r. destruct (isLatency _); simpl; by rewrite ?app_nil_r.
  - rewrite app_nil_r. fold (failures rs). pose proof (failures_le rs).
    rewrite nadd_int by (unfold safe; lia). f_equal. f_equal. unfold failures. lia.
Qed.

Lemma sorted_first (l : list number) x :
  Forall (fun x => isFinite x = true) l -> StronglySorted num_le l -> l !! 0%nat = Some x -> Forall (num_le x) l.
Proof.
  intros Hl Hs. destruct Hs as [|y k Hs Hf]; [done|]. intros [= <-]. constructor; [|done].
  apply nleb_refl. by inversion Hl.
Qed.

Lemma sorted_final (l : list number) x :
  Forall (fun x => isFinite x = true) l -> StronglySorted num_le l -> l !! (length l - 1)%nat = Some x ->
  Forall (fun y => num_le y x) l.
Proof.
  intros Hl Hs Hx. apply Forall_forall. intros y Hy.
  replace (length l - 1)%nat with (pred (length l)) in Hx by lia. rewrite <- last_lookup in Hx.
  destruct (sorted_rank l (pred (length l)) x Hl Hs) as [H _]; [by rewrite <- last_lookup|].
  pose proof (List.filter_length_le (fun y => (y <=? x)%num) l) as Hle.
  assert (length (List.filter (fun y => (y <=? x)%num) l) = length l) as E
    by (destruct l; [by apply elem_of_nil in Hy|simpl in *; lia]).
  apply List.filter_length_forallb in E. rewrite forallb_Forall, Forall_forall in E. by apply E.
Qed.

(** An array of integer latencies sums exactly. *)
Lemma nsum_int zs a :
  Forall (fun z => 0 <= z) zs -> 0 <= a -> safe (fold_right Z.add a zs) ->
  fold_left (fun sum v => (sum + v)%num) (int <$> zs) (int a) = int (fold_right Z.add a zs).
Proof.
  intros Hz. revert a. induction Hz as [|z zs Hz Hzs IH]; intros a Ha Hs; [done|]. csimpl in *.
  assert (Hge : forall b, 0 <= b -> b <= fold_right Z.add b zs).
  { intros b Hb. clear -Hzs. induction Hzs; simpl; lia. }
  assert (Hc : forall b, fold_right Z.add (b + z) zs = z + fold_right Z.add b zs).
  { intros b. clear. induction zs; simpl; lia. }
  rewrite nadd_int by (specialize (Hge a Ha); unfold safe in *; lia).
  rewrite IH; rewrite ?Hc; [done|lia|done].
Qed.

Lemma fold_right_add_perm zs zs' a : zs ≡ₚ zs' -> fold_right Z.add a zs = fold_right Z.add a zs'.
Proof. induction 1; simpl; lia. Qed.

Lemma sum_between zs lo hi :
  Forall (fun z => lo <= z <= hi) zs ->
  lo * Z.of_nat (length zs) <= fold_right Z.add 0 zs <= hi * Z.of_nat (length zs).
Proof. induction 1; cbn [fold_right length]; lia. Qed.

Lemma average_between zs lo hi :
  zs <> [] -> Forall (fun z => lo <= z <= hi) zs -> 0 <= lo -> lo ∈ zs -> hi ∈ zs ->
  safe (fold_right Z.add 0 zs) ->
  (int lo <=? nsum (int <$> zs) / len (int <$> zs))%num = true /\
  (nsum (int <$> zs) / len (int <$> zs) <=? int hi)%num = true.
Proof.
  intros Hne Hb H0 Hlo Hhi Hs.
  assert (Hnn : Forall (fun z => 0 <= z) zs) by (eapply Forall_impl; [exact Hb|simpl; lia]).
  unfold nsum, len. rewrite nsum_int by done. rewrite length_fmap.
  assert (0 < Z.of_nat (length zs)) by (destruct zs; [done|simpl; lia]).
  pose proof (sum_between zs lo hi Hb) as Hsum. pose proof U_pos.
  assert (forall z, z ∈ zs -> safe z) as Hsafe.
  { intros z Hz. unfold safe in *. clear -Hz Hs Hnn.
    assert (0 <= z <= fold_right Z.add 0 zs); [|lia].
    induction Hnn as [|y l Hy Hl IH]; [by apply elem_of_nil in Hz|]. simpl in *.
    assert (0 <= fold_right Z.add 0 l) by (clear -Hl; induction Hl; simpl; lia).
    apply elem_of_cons in Hz as [->|Hz]; [lia|]. specialize (IH ltac:(lia) Hz). lia. }
  destruct (ndiv_int_between (fold_right Z.add 0 zs * U) (Z.of_nat (length zs)) lo hi) as (q & Hq & Hq');
    [done|by apply Hsafe..|nia|].
  fold (int (fold_right Z.add 0 zs)) in Hq. rewrite Hq. unfold int. rewrite !nleb_fin. lia.
Qed.

Lemma sorted_p95 s p :
  Forall (fun x => isFinite x = true) s -> StronglySorted num_le s -> s <> [] ->
  s !! Z.to_nat ((95 * Z.of_nat (length s) + 99) / 100 - 1) = Some p ->
  (95 * length s <= 100 * length (List.filter (fun x => x <=? p)%num s))%nat /\
  (100 * length (List.filter (fun x => x <? p)%num s) < 95 * length s)%nat.
Proof.
  intros Hf Hs Hne Hp. destruct (sorted_rank s _ p Hf Hs Hp) as [H1 H2].
  assert (0 < length s)%nat by (destruct s; [done|simpl; lia]).
  pose proof (Z.div_mod (95 * Z.of_nat (length s) + 99) 100).
  pose proof (Z.mod_pos_bound (95 * Z.of_nat (length s) + 99) 100). lia.
Qed.

Lemma latencies_nonneg rs zs : latencies rs = int <$> zs -> Forall (fun z => 0 <= z) zs.
Proof.
  intros E. apply Forall_forall. intros z Hz.
  assert (Hin : int z ∈ latencies rs) by (rewrite E; by apply list_elem_of_fmap_2).
  unfold latencies in Hin. apply list_elem_of_omap in Hin as (r & _ & Hr). destruct (success r); [|done].
  unfold isLatency in Hr. destruct (durationNs r); try done. destruct (isFinite n); [|done]. simpl in Hr.
  case_match eqn:En; [|done]. injection Hr as ->. rewrite nleb_int in En. lia.
Qed.

Lemma sorted_average s zs lo hi :
  s ≡ₚ int <$> zs -> Forall (fun z => 0 <= z) zs -> s <> [] -> lo ∈ s -> hi ∈ s ->
  Forall (num_le lo) s -> Forall (fun y => num_le y hi) s -> safe (fold_right Z.add 0 zs) ->
  (lo <=? nsum s / len s)%num = true /\ (nsum s / len s <=? hi)%num = true.
Proof.
  intros Hp Hnn Hne Hlo Hhi Hl Hh Hs.
  destruct (Permutation_map_inv int zs Hp) as (zs' & -> & Hz).
  change (map int zs') with (int <$> zs') in *.
  apply list_elem_of_fmap in Hlo as (l & -> & Hlz), Hhi as (h & -> & Hhz).
  rewrite Forall_fmap in Hl, Hh. unfold compose in Hl, Hh.
  apply average_between; [by intros ->| | |done|done|].
  - rewrite Forall_forall in *. intros z Hin. specialize (Hl z Hin). specialize (Hh z Hin).
    cbn beta in Hl, Hh. rewrite nleb_int in Hl, Hh. lia.
  - rewrite Forall_forall in Hnn. apply Hnn. by rewrite Hz.
  - by rewrite <- (fold_right_add_perm _ _ 0 Hz).
Qed.

(** The headline of a run is the honest summary of its samples: every sample is counted as sent,
    the failures are those that did not succeed, latencies are shown only when a successful sample
    carries one, the minimum and the maximum bound them all, the average of whole-nanosecond readings
    lies between the two, and the 95th percentile is nearest-rank: a latency that was measured, with
    at least 95% of them at or below it and fewer than 95% strictly below. *)
Theorem aggregateSamples_spec rs (Hn : Z.of_nat (length rs) <= 2 ^ 40) :
  let agg := aggregateSamples rs in
  let lats := latencies rs in
  sent agg = len rs /\ failed agg = int (failures rs) /\
  (lats = [] -> (minNs agg, avgNs agg, maxNs agg, p95Ns agg) = (None, None, None, None)) /\
  (lats <> [] -> exists lo avg hi p,
     (minNs agg, avgNs agg, maxNs agg, p95Ns agg) = (Some lo, Some avg, Some hi, Some p) /\
     lo ∈ lats /\ hi ∈ lats /\ p ∈ lats /\
     Forall (fun x => (lo <=? x)%num = true /\ (x <=? hi)%num = true) lats /\
     (95 * length lats <= 100 * length (List.filter (fun x => x <=? p)%num lats))%nat /\
     (100 * length (List.filter (fun x => x <? p)%num lats) < 95 * length lats)%nat /\
     (forall zs, lats = int <$> zs -> safe (fold_right Z.add 0 zs) ->
        (lo <=? avg)%num = true /\ (avg <=? hi)%num = true)).
Proof.
  intros agg lats. unfold agg, aggregateSamples. rewrite aggregate_fold by (unfold safe; lia).
  fold lats. split; [by case_bool_decide|]. split; [by case_bool_decide|].
  split; [intros E; by rewrite bool_decide_eq_true_2|].
  intros Hne. rewrite bool_decide_eq_false_2 by done. cbn [minNs avgNs maxNs p95Ns].
  pose proof (latencies_finite rs) as Hfin. fold lats in Hfin.
  destruct (js_sort_numbers lats Hfin) as [Hs Hp]. set (s := js_sort _ lats) in *.
  assert (Hfs : Forall (fun x => isFinite x = true) s) by (by rewrite Hp).
  assert (Hns : s <> []) by (intros E; rewrite E in Hp; by apply Permutation_nil_l in Hp).
  assert (Hlen : Z.of_nat (length s) <= Z.of_nat (length rs)).
  { rewrite Hp. unfold lats, latencies. clear. induction rs; csimpl; [lia|]. repeat case_match; simpl; lia. }
  assert (0 < length s)%nat by (destruct s; [done|simpl; lia]).
  rewrite (percentile95 s Hns ltac:(lia)).
  destruct (lookup_lt_is_Some_2 s 0 ltac:(lia)) as [lo Hlo].
  destruct (lookup_lt_is_Some_2 s (length s - 1) ltac:(lia)) as [hi Hhi].
  destruct (lookup_lt_is_Some_2 s (Z.to_nat ((95 * Z.of_nat (length s) + 99) / 100 - 1))) as [p Hp95].
  { pose proof (Z.div_mod (95 * Z.of_nat (length s) + 99) 100).
    pose proof (Z.mod_pos_bound (95 * Z.of_nat (length s) + 99) 100). lia. }
  rewrite Hlo, Hhi, Hp95. exists lo, (nsum s / len s)%num, hi, p. split; [done|].
  pose proof (sorted_first s lo Hfs Hs Hlo) as Hf. pose proof (sorted_final s hi Hfs Hs Hhi) as Hl.
  apply list_elem_of_lookup_2 in Hlo, Hhi. pose proof (list_elem_of_lookup_2 _ _ _ Hp95) as Hpin.
  destruct (sorted_p95 s p Hfs Hs Hns Hp95) as [H1 H2].
  rewrite (length_filter_perm _ s lats Hp), (Permutation_length Hp) in H1.
  rewrite (length_filter_perm _ s lats Hp), (Permutation_length Hp) in H2.
  split; [by rewrite <- Hp|]. split; [by rewrite <- Hp|]. split; [by rewrite <- Hp|].
  split; [rewrite <- Hp; by apply Forall_and|]. split; [exact H1|]. split; [exact H2|].
  intros zs Hz Hsafe. apply (sorted_average s zs); try assumption; [by rewrite Hp, Hz|].
  by apply (latencies_nonneg rs).
Qed.

Lemma aggregateSamples_spec_witness :
  sent (aggregateSamples [sample "a" "b"; sample "a" "c"]) = len [sample "a" "b"; sample "a" "c"].
Proof. apply (aggregateSamples_spec [sample "a" "b"; sample "a" "c"]). vm_compute. discriminate. Defined.

(** ** The cadence plan is exact *)

(** The plan in integer arithmetic, as the server computes it. *)
Module Plan.

Definition budget (ty : jstr) : Z :=
  if seqb ty (js "mtr") then MTR_PER_PAIR_BUDGET_NS
  else if seqb ty (js "pmtu") then PMTU_PER_PAIR_BUDGET_NS else 0.

Definition cdiv (a b : Z) : Z := Z.max 1 ((a + b - 1) / b).

Definition base (d req : Z) : Z :=
  if 0 <? req then Z.max req (d / MAX_SAMPLES_PER_PAIR)
  else Z.max (d / MAX_SAMPLES_PER_PAIR) MIN_SAMPLE_INTERVAL_NS.

(** The worst case of one round: both concurrency gates drain before it ends. *)
Definition round_floor (ty : jstr) (pairs sources : Z) : Z :=
  let perSource := if 0 <? sources then cdiv pairs sources else pairs in
  Z.max (cdiv pairs MAX_CONCURRENCY) (cdiv perSource MAX_PER_SOURCE_CONCURRENCY) * budget ty.

Definition interval (d : Z) (ty : jstr) (pairs sources req : Z) : Z :=
  if (0 <? budget ty) && (0 <? pairs) then Z.max (base d req) (round_floor ty pairs sources) else base d req.

Definition samples (d : Z) (ty : jstr) (pairs sources req : Z) : Z :=
  Z.min (Z.max (d / interval d ty pairs sources req) 1) MAX_SAMPLES_PER_PAIR.

Definition adjusted (d : Z) (ty : jstr) (pairs sources req : Z) : CadenceAdjustment :=
  if base d req <? interval d ty pairs sources req then round
  else if (0 <? req) && (req <? base d req) then cap else unadjusted.

End Plan.

Lemma perPairBudgetNs_int ty : perPairBudgetNs ty = int (Plan.budget ty).
Proof. unfold perPairBudgetNs, Plan.budget. by repeat case_match. Qed.

Lemma asCount_int z : 0 <= z -> asCount (VNum (int z)) = int z.
Proof.
  intros Hz. unfold asCount. rewrite nltb_int. change (isFinite (int z)) with true. simpl.
  destruct (Z.ltb_spec 0 z); [apply nfloor_int|]. f_equal. lia.
Qed.

Lemma ceilDiv_int a b : 0 < a <= 2 ^ 50 -> 0 < b <= 2 ^ 50 -> ceilDiv (int a) (int b) = int (Plan.cdiv a b).
Proof.
  intros Ha Hb. unfold ceilDiv, Plan.cdiv. rewrite nleb_int, (proj2 (Z.leb_gt b 0)) by lia.
  rewrite nceil_ndiv_safe, nmax_int by lia. f_equal. lia.
Qed.

Lemma cdiv_bound a b : 0 < a -> 0 < b -> 1 <= Plan.cdiv a b <= a.
Proof.
  intros Ha Hb. unfold Plan.cdiv. assert ((a + b - 1) / b <= a) by (apply Z.div_le_upper_bound; nia). lia.
Qed.

Lemma base_bounds d req :
  0 < d <= 2 ^ 50 -> 0 <= req <= 2 ^ 50 -> 0 < Plan.base d req <= 2 ^ 50 /\ req <= Plan.base d req.
Proof.
  intros Hd Hr. unfold Plan.base, MAX_SAMPLES_PER_PAIR, MIN_SAMPLE_INTERVAL_NS.
  pose proof (Z.div_pos d 500). pose proof (Z.div_le_upper_bound d 500 (2 ^ 50)).
  destruct (Z.ltb_spec 0 req); lia.
Qed.

Lemma baseSampleIntervalNs_int d req :
  0 < d <= 2 ^ 50 -> 0 <= req <= 2 ^ 50 -> baseSampleIntervalNs (int d) (int req) = int (Plan.base d req).
Proof.
  intros Hd Hr. unfold baseSampleIntervalNs, sampleIntervalNs, Plan.base.
  rewrite nltb_int, (proj2 (Z.ltb_lt 0 d)) by lia. change (isFinite (int ?x)) with true. cbn [negb orb].
  unfold MAX_SAMPLES_PER_PAIR, MIN_SAMPLE_INTERVAL_NS.
  rewrite nfloor_ndiv_safe, nmax_int, nleb_int by lia.
  rewrite (proj2 (Z.leb_gt _ 0)) by lia. rewrite nltb_int.
  destruct (Z.ltb_spec 0 req); cbn [negb orb]; by rewrite ?nmax_int.
Qed.

(** The stretch of one round, as the code computes it. *)
Lemma round_floor_int ty pairs sources :
  0 < pairs <= 2 ^ 40 -> 0 <= sources <= 2 ^ 40 -> Plan.round_floor ty pairs sources <= 2 ^ 50 ->
  (nmax (ceilDiv (int pairs) (int MAX_CONCURRENCY))
        (ceilDiv (if (int sources >? int 0)%num then ceilDiv (int pairs) (int sources) else int pairs)
                 (int MAX_PER_SOURCE_CONCURRENCY)) * perPairBudgetNs ty)%num
  = int (Plan.round_floor ty pairs sources).
Proof.
  intros Hp Hs Hf. rewrite perPairBudgetNs_int, nltb_int. unfold Plan.round_floor in *.
  set (per := if 0 <? sources then _ else _) in *.
  assert ((if 0 <? sources then ceilDiv (int pairs) (int sources) else int pairs) = int per) as ->.
  { unfold per. destruct (Z.ltb_spec 0 sources); [|done]. apply ceilDiv_int; lia. }
  assert (1 <= per <= pairs).
  { unfold per. destruct (Z.ltb_spec 0 sources); [by apply cdiv_bound; lia|lia]. }
  unfold MAX_CONCURRENCY, MAX_PER_SOURCE_CONCURRENCY in *.
  rewrite !ceilDiv_int, nmax_int by lia. apply nmul_int. unfold safe.
  assert (0 <= Plan.budget ty) by (unfold Plan.budget; repeat case_match; done).
  pose proof (cdiv_bound pairs 8). rewrite Z.abs_eq; [lia|nia].
Qed.

Lemma plan_interval_bounds d ty pairs sources req :
  0 < d <= 2 ^ 50 -> 0 <= req <= 2 ^ 50 -> Plan.round_floor ty pairs sources <= 2 ^ 50 ->
  Plan.base d req <= Plan.interval d ty pairs sources req <= 2 ^ 50.
Proof.
  intros Hd Hr Hf. pose proof (base_bounds d req Hd Hr). unfold Plan.interval. case_match; lia.
Qed.

Definition plan_int (d : Z) (ty : jstr) (pairs sources req : Z) : PlannedCadence := {|
  plan_requestedNs := int req;
  plan_baseNs := int (Plan.base d req);
  plan_intervalNs := int (Plan.interval d ty pairs sources req);
  plan_samplesPerPair := int (Plan.samples d ty pairs sources req);
  plan_adjusted := Plan.adjusted d ty pairs sources req;
|}.

Lemma planCadenceFor_int d ty pairs sources req :
  0 < d <= 2 ^ 50 -> 0 <= req <= 2 ^ 50 -> 0 <= pairs <= 2 ^ 40 -> 0 <= sources <= 2 ^ 40 ->
  Plan.round_floor ty pairs sources <= 2 ^ 50 ->
  planCadenceFor (int d) ty (VNum (int pairs)) (VNum (int sources)) (int req) = plan_int d ty pairs sources req.
Proof.
  intros Hd Hr Hp Hs Hf. unfold planCadenceFor. change (isFinite (int req)) with true. cbn [andb].
  assert ((if (int req >? int 0)%num then int req else int 0) = int req) as ->.
  { rewrite nltb_int. destruct (Z.ltb_spec 0 req); [done|f_equal; lia]. }
  rewrite baseSampleIntervalNs_int by done. pose proof (base_bounds d req Hd Hr) as [Hb Hrb].
  pose proof (plan_interval_bounds d ty pairs sources req Hd Hr Hf) as Hi.
  rewrite nleb_int, (proj2 (Z.leb_gt _ 0)) by lia. rewrite !asCount_int by lia.
  rewrite (perPairBudgetNs_int ty) at 1. rewrite !nltb_int.
  assert (Hsamp : forall i, 0 < i <= 2 ^ 50 ->
            nmin (nmax (nfloor (int d / int i)%num) (int 1)) (int MAX_SAMPLES_PER_PAIR)
            = int (Z.min (Z.max (d / i) 1) MAX_SAMPLES_PER_PAIR)).
  { intros i Hi'. rewrite nfloor_ndiv_safe, nmax_int, nmin_int by lia. done. }
  unfold plan_int, Plan.samples, Plan.adjusted. unfold Plan.interval in *.
  destruct ((0 <? Plan.budget ty) && (0 <? pairs)) eqn:E.
  - apply andb_true_iff in E as [_ E%Z.ltb_lt]. rewrite <- (nltb_int 0 sources).
    rewrite round_floor_int by (done || lia). rewrite nltb_int.
    destruct (Z.ltb_spec (Plan.base d req) (Plan.round_floor ty pairs sources)).
    + rewrite Z.max_r in * by lia. rewrite Hsamp by lia.
      rewrite (proj2 (Z.ltb_lt (Plan.base d req) _)) by lia. done.
    + rewrite Z.max_l in * by lia. rewrite Hsamp, Z.ltb_irrefl by lia. done.
  - rewrite Hsamp, Z.ltb_irrefl by lia. done.
Qed.

(** C35: The plan shown before a run is created is the one exact integer arithmetic gives, in spite of
    the doubles it is computed in: for a duration and a request of up to thirteen days, the interval
    is the requested or derived pace stretched to what one round takes at worst, never shorter than
    the request; the samples promised per pair are at least one, at most 500, and - unless the whole
    run is shorter than one interval - fit into the duration; and the plan says it was stretched or
    capped exactly when it was. *)
Theorem planCadenceFor_exact d ty pairs sources req
    (Hd : 0 < d <= 2 ^ 50) (Hr : 0 <= req <= 2 ^ 50) (Hp : 0 <= pairs <= 2 ^ 40)
    (Hs : 0 <= sources <= 2 ^ 40) (Hf : Plan.round_floor ty pairs sources <= 2 ^ 50) :
  let i := Plan.interval d ty pairs sources req in
  let n := Plan.samples d ty pairs sources req in
  planCadenceFor (int d) ty (VNum (int pairs)) (VNum (int sources)) (int req)
    = plan_int d ty pairs sources req /\
  req <= i /\ (0 < Plan.budget ty -> 0 < pairs -> Plan.round_floor ty pairs sources <= i) /\
  1 <= n <= 500 /\ (i <= d -> n * i <= d) /\
  (Plan.adjusted d ty pairs sources req = unadjusted -> 0 < req -> i = req).
Proof.
  intros i n. split; [by apply planCadenceFor_int|].
  pose proof (base_bounds d req Hd Hr) as [Hb Hrb].
  pose proof (plan_interval_bounds d ty pairs sources req Hd Hr Hf) as Hi. fold i in Hi.
  pose proof (Z.div_mod d i ltac:(lia)). pose proof (Z.mod_pos_bound d i ltac:(lia)).
  assert (Hn : n = Z.min (Z.max (d / i) 1) 500) by done.
  split_and!; [lia| |lia|lia| |].
  - intros H1 H2. unfold i, Plan.interval. rewrite !(proj2 (Z.ltb_lt 0 _)) by done. simpl. lia.
  - intros Hid. assert (1 <= d / i) by (apply Z.div_le_lower_bound; lia). nia.
  - unfold Plan.adjusted. fold i. intros Ha Hpos.
    destruct (Z.ltb_spec (Plan.base d req) i); [done|].
    destruct (Z.ltb_spec 0 req); [|lia]. destruct (Z.ltb_spec req (Plan.base d req)); [done|]. lia.
Qed.

(** Fifteen minutes of MTR over four pairs of four sources: one round every 90 seconds. *)
Lemma planCadenceFor_exact_witness :
  planCadenceFor (int 900000000000) (js "mtr") (VNum (int 4)) (VNum (int 4)) (int 0)
    = plan_int 900000000000 (js "mtr") 4 4 0 /\
  Plan.interval 900000000000 (js "mtr") 4 4 0 = 90000000000 /\
  Plan.samples 900000000000 (js "mtr") 4 4 0 = 10.
Proof.
  split; [|split; vm_compute; reflexivity].
  apply (planCadenceFor_exact 900000000000 (js "mtr") 4 4 0); [lia..|]. vm_compute. discriminate.
Defined.
