(* ===== verification/PathDiff.v ===== *)
(** Network paths and their differences ([web/src/components/mtr-path-diff.tsx], the pure helpers of
    [mtr-hop-table.tsx] and [mtr-changes-timeline.tsx]): the alignment of two hop lists by a longest
    common subsequence, the rows of the diff table, the sentence about a change, and the formatting
    of hop readings. *)
From S2P Require Import Prelude JsNum JsString JsCollections JsValue JsDate JsFormat Utils RunSamples.
Local Open Scope Z_scope.

(** The address and the readings of a hop may be missing from a payload the server did not write. *)
Record MTRHop := {
  hop_number : number;
  ip : option jstr;
  rttNs : option number;
  lossRatio : option number;
}.

(** [hops] is [None] when the field is not an array. *)
Record PathSnapshot := {
  snap_id : jstr;
  pathHash : option jstr;
  hopCount : option number;
  hops : option (list MTRHop);
  firstSeen : jstr;
  lastSeen : jstr;
  traceCount : number;
}.

(** ** Hop readings *)

Definition EM_DASH : jstr := js "—".

Definition fmtRttNs (ns : option number) : jstr :=
  match ns with
  | Some ns =>
      if isFinite ns
      then match fmtMicrosNs ns (js "en") with
           | Some s => s
           | None => toFixed (ns / int 1000000)%num 1 ++ js "ms"
           end
      else EM_DASH
  | None => EM_DASH
  end.

Definition fmtLossPct (ratio : option number) : jstr :=
  match ratio with
  | Some r => if isFinite r then toFixed (nmin (nmax r (int 0)) (int 1) * int 100)%num 0 ++ js "%" else EM_DASH
  | None => EM_DASH
  end.

Definition isPlaceholderHop (ip : option jstr) : bool :=
  match ip with
  | Some s => let trimmed := trim s in seqb trimmed [] || seqb trimmed (js "*")
  | None => true
  end.

Definition hopList (hops : option (list MTRHop)) : list MTRHop := default [] hops.

Definition shortHash (hash : option jstr) : jstr := default [] (take 12 <$> hash).

Inductive LossTier := tier_ok | tier_warn | tier_bad.

Definition lossTier (ratio : option number) : LossTier :=
  match ratio with
  | Some r =>
      if negb (isFinite r) then tier_ok
      else if (r <? dec 1 2)%num then tier_ok
      else if (r <? dec 1 1)%num then tier_warn
      else tier_bad
  | None => tier_ok
  end.

Definition LOSS_CLASS (t : LossTier) : jstr :=
  match t with
  | tier_ok => js "text-muted-foreground"
  | tier_warn => js "text-health-warn"
  | tier_bad => js "text-health-bad"
  end.

Record TrendHistory := { snapshots : list PathSnapshot; hasOlder : bool; traceTotal : option number }.

Definition loadedTraces (snapshots : list PathSnapshot) : number :=
  fold_left (fun sum s => (sum + traceCount s)%num) snapshots (int 0).

Definition historyIsPartial (history : TrendHistory) : bool :=
  if hasOlder history then true
  else match traceTotal history with
       | Some total => (loadedTraces (snapshots history) <? total)%num
       | None => false
       end.

Definition SINGLE_POINT_PAD_MS : number := int (60 * 60 * 1000).
Definition EXTENT_PAD_RATIO : number := dec 5 2.

(** A point of the trend: its instant and its reading, [None] when the hop was not on the route. *)
Definition trendExtent (points : list (number * option number)) : option (number * number) :=
  let xs := (List.filter (fun p => bool_decide (is_Some p.2)) points).*1 in
  if bool_decide (xs = []) then None
  else
    let lo := nminimum xs in
    let hi := nmaximum xs in
    if (lo =? hi)%num then Some (lo - SINGLE_POINT_PAD_MS, hi + SINGLE_POINT_PAD_MS)%num
    else
      let pad := ((hi - lo) * EXTENT_PAD_RATIO)%num in
      Some (lo - pad, hi + pad)%num.

Definition shown_ip (h : MTRHop) : jstr := if isPlaceholderHop (ip h) then js "*" else default [] (ip h).

Definition pathChainText (hops : option (list MTRHop)) : jstr :=
  join (js " → ") (shown_ip <$> hopList hops).

Section Trend.
Context `{DateHost}.

(** The readings of one address over the stored paths, oldest first; an unreadable instant is left
    out, and a path without the address is a hole. *)
Definition trend_point (addr : jstr) (s : PathSnapshot) : option (number * option number) :=
  let at_ := parse_ms (firstSeen s) in
  if isNaN at_ then None
  else
    let rtt := List.find (fun h => bool_decide (ip h = Some addr)) (hopList (hops s)) ≫= rttNs in
    Some (at_, match rtt with
               | Some r => if isNaN r then None else Some (r / int 1000000)%num
               | None => None
               end).

Definition hopTrendSeries (snapshots : list PathSnapshot) (addr : jstr) : list (number * option number) :=
  omap (trend_point addr) (reverse snapshots).
End Trend.

(** ** The alignment *)

Definition anchorable (x y : MTRHop) : bool :=
  negb (isPlaceholderHop (ip x)) && bool_decide (ip x = ip y).

(** Row [i] of the table from row [i + 1], filled from the right: one cell per suffix of [b]. *)
Fixpoint dp_row (x : MTRHop) (b : list MTRHop) (below : list nat) : list nat :=
  match b with
  | [] => [0%nat]
  | y :: b' =>
      let right := dp_row x b' (tail below) in
      (if anchorable x y then S (default 0%nat (below !! 1%nat))
       else max (default 0%nat (head below)) (default 0%nat (head right))) :: right
  end.

(** The table, filled from the bottom: one row per suffix of [a]. *)
Fixpoint dp_table (a b : list MTRHop) : list (list nat) :=
  match a with
  | [] => [replicate (S (length b)) 0%nat]
  | x :: a' =>
      let below := dp_table a' b in
      dp_row x b (default [] (head below)) :: below
  end.

Definition dp_at (dp : list (list nat)) (i j : nat) : nat := default 0%nat (default [] (dp !! i) !! j).

(** The walk down the table: one of [i] and [j] moves at every turn, so [length a + length b] turns
    are enough. *)
Fixpoint anchor_walk (fuel : nat) (a b : list MTRHop) (dp : list (list nat)) (i j : nat) : list (nat * nat) :=
  match fuel with
  | O => []
  | S fuel =>
      match a !! i, b !! j with
      | Some x, Some y =>
          if anchorable x y then (i, j) :: anchor_walk fuel a b dp (S i) (S j)
          else if (dp_at dp i (S j) <=? dp_at dp (S i) j)%nat then anchor_walk fuel a b dp (S i) j
          else anchor_walk fuel a b dp i (S j)
      | _, _ => []
      end
  end.

Definition lcsAnchors (a b : list MTRHop) : list (nat * nat) :=
  anchor_walk (length a + length b) a b (dp_table a b) 0 0.

(** ** The rows *)

Inductive DiffKind := same | changed | added | removed.
#[export] Instance DiffKind_eq_dec : EqDecision DiffKind.
Proof. solve_decision. Defined.

Record DiffRow := {
  kind : DiffKind;
  aHop : option MTRHop;
  bHop : option MTRHop;
  rttDeltaNs : option number;
}.

Definition row_changed (p : MTRHop * MTRHop) : DiffRow :=
  {| kind := changed; aHop := Some p.1; bHop := Some p.2; rttDeltaNs := None |}.
Definition row_removed (x : MTRHop) : DiffRow :=
  {| kind := removed; aHop := Some x; bHop := None; rttDeltaNs := None |}.
Definition row_added (y : MTRHop) : DiffRow :=
  {| kind := added; aHop := None; bHop := Some y; rttDeltaNs := None |}.

(** [gap]: the two runs between anchors, paired as far as they go. *)
Definition gap_rows (aRun bRun : list MTRHop) : list DiffRow :=
  let zipped := min (length aRun) (length bRun) in
  (row_changed <$> zip aRun bRun) ++ (row_removed <$> drop zipped aRun) ++ (row_added <$> drop zipped bRun).

Definition rtt_delta (x y : MTRHop) : option number :=
  match rttNs y, rttNs x with
  | Some ry, Some rx => if isFinite ry && isFinite rx then Some (ry - rx)%num else None
  | _, _ => None
  end.

Definition row_same (x y : MTRHop) : DiffRow :=
  {| kind := same; aHop := Some x; bHop := Some y; rttDeltaNs := rtt_delta x y |}.

(** The rows from [ai] and [bi] on; an anchor outside the lists would throw, and never is. *)
Fixpoint diff_rows (a b : list MTRHop) (anchors : list (nat * nat)) (ai bi : nat) : list DiffRow :=
  match anchors with
  | [] => gap_rows (drop ai a) (drop bi b)
  | (x, y) :: rest =>
      gap_rows (take (x - ai) (drop ai a)) (take (y - bi) (drop bi b)) ++
      match a !! x, b !! y with
      | Some hx, Some hy => row_same hx hy :: diff_rows a b rest (S x) (S y)
      | _, _ => diff_rows a b rest (S x) (S y)
      end
  end.

Definition diffPaths (aHops bHops : option (list MTRHop)) : list DiffRow :=
  let a := hopList aHops in
  let b := hopList bHops in
  diff_rows a b (lcsAnchors a b) 0 0.

(** ** The change, in words *)

Inductive PathChangeKind := pc_same | pc_changed | pc_added | pc_removed | pc_several.

Record PathChangeSummary := {
  pc_kind : PathChangeKind;
  pc_hop : option number;
  pc_from : option jstr;
  pc_to : option jstr;
  pc_total : nat;
}.

Definition bothSilent (r : DiffRow) : bool :=
  match aHop r, bHop r with
  | Some x, Some y => isPlaceholderHop (ip x) && isPlaceholderHop (ip y)
  | _, _ => false
  end.

Definition moved (r : DiffRow) : bool :=
  if bool_decide (kind r = same) then false else negb (bothSilent r).

Definition summarisePathChange (a b : option (list MTRHop)) : PathChangeSummary :=
  let rows := List.filter moved (diffPaths a b) in
  match rows with
  | [] => {| pc_kind := pc_same; pc_hop := None; pc_from := None; pc_to := None; pc_total := 0 |}
  | [row] =>
      let hop := match bHop row with
                 | Some y => Some (hop_number y)
                 | None => hop_number <$> aHop row
                 end in
      match kind row with
      | changed => {| pc_kind := pc_changed; pc_hop := hop; pc_from := aHop row ≫= ip;
                      pc_to := bHop row ≫= ip; pc_total := 1 |}
      | added => {| pc_kind := pc_added; pc_hop := hop; pc_from := None; pc_to := bHop row ≫= ip; pc_total := 1 |}
      | _ => {| pc_kind := pc_removed; pc_hop := hop; pc_from := aHop row ≫= ip; pc_to := None; pc_total := 1 |}
      end
  | _ => {| pc_kind := pc_several; pc_hop := None; pc_from := None; pc_to := None; pc_total := length rows |}
  end.

Definition fmtRttDeltaNs (ns : option number) : jstr :=
  match ns with
  | Some ns =>
      if isFinite ns then
        let shown := toFixed (ns / int 1000000)%num 1 in
        if (number_of_string shown =? int 0)%num then js "0.0ms"
        else (if (ns >? int 0)%num then js "+" else []) ++ shown ++ js "ms"
      else EM_DASH
  | None => EM_DASH
  end.

Definition KIND_MARK (k : DiffKind) : jstr :=
  match k with same => js "=" | changed => js "~" | added => js "+" | removed => js "−" end.

Definition KIND_CLASS (k : DiffKind) : jstr :=
  match k with
  | same => js "text-muted-foreground"
  | changed => js "text-health-warn"
  | added => js "text-health-ok"
  | removed => js "text-health-bad"
  end.

Definition kind_name (k : DiffKind) : jstr :=
  match k with same => js "same" | changed => js "changed" | added => js "added" | removed => js "removed" end.

Definition KIND_KEY (k : DiffKind) : jstr := js "diff.kind." ++ kind_name k.
Definition KIND_TITLE_KEY (k : DiffKind) : jstr := js "diff.kind." ++ kind_name k ++ js ".title".

Definition deltaClass (ns : option number) : jstr :=
  match ns with
  | None => js "text-muted-foreground"
  | Some ns => if (ns =? int 0)%num then js "text-muted-foreground"
               else if (ns >? int 0)%num then js "text-health-bad" else js "text-health-ok"
  end.

(** ** The loss strip *)

Inductive LossFamily := peer | external.

Definition lossFamilyFor (destination : jstr) (nodeNames : list jstr) : LossFamily :=
  if bool_decide (destination ∈ nodeNames) then peer else external.

Definition QUOTE : jstr := [34].

Definition loss_tag (expr protocol : jstr) : jstr :=
  js "label_replace(" ++ expr ++ js ", " ++ QUOTE ++ js "protocol" ++ QUOTE ++ js ", " ++ QUOTE ++ protocol
  ++ QUOTE ++ js ", " ++ QUOTE ++ QUOTE ++ js ", " ++ QUOTE ++ QUOTE ++ js ")".

Definition pairLossQuery (source destination : jstr) (family : LossFamily) : jstr :=
  let src := js "source_node=" ++ QUOTE ++ escapeLabelValue source ++ QUOTE in
  match family with
  | external =>
      let sel := js "{" ++ src ++ js ",target=" ++ QUOTE ++ escapeLabelValue destination ++ QUOTE ++ js "}" in
      js "max by (protocol) (" ++ loss_tag (js "kconmon_ng_external_packet_loss_ratio" ++ sel) (js "external")
      ++ js ")"
  | peer =>
      let sel := js "{" ++ src ++ js ",destination_node=" ++ QUOTE ++ escapeLabelValue destination ++ QUOTE
                 ++ js "}" in
      js "max by (protocol) (" ++ loss_tag (js "kconmon_ng_icmp_packet_loss_ratio" ++ sel) (js "icmp")
      ++ js " or " ++ loss_tag (js "kconmon_ng_udp_packet_loss_ratio" ++ sel) (js "udp") ++ js ")"
  end.

Definition TARGET_POINTS : number := int 120.
Definition MIN_STEP_SECONDS : number := int 15.

Definition stepSecondsFor (rangeSeconds : number) : number :=
  (nmax (int 1) (nceil (rangeSeconds / TARGET_POINTS / MIN_STEP_SECONDS)) * MIN_STEP_SECONDS)%num.

Section Strip.
Context `{DateHost} (now : number).

Definition strip_msOf (ts : jstr) : number := let ms := parse_ms ts in if isNaN ms then now else ms.

Definition oldestFirstSeen (snapshots : list PathSnapshot) : jstr :=
  fold_left (fun oldest s =>
               if seqb (firstSeen s) [] then oldest
               else if seqb oldest [] || (strip_msOf (firstSeen s) <? strip_msOf oldest)%num
                    then firstSeen s else oldest) snapshots [].

(** The time axis of the strip. *)
Definition strip_window (oldest : jstr) : option (number * number) :=
  if seqb oldest [] then None
  else
    let start := strip_msOf oldest in
    Some (start, nmax now (start + int 1000)%num).
End Strip.

(** ** The table holds the length of the longest common subsequence *)

(** The reference: the recurrence on the two lists. *)
Fixpoint lcs (a : list MTRHop) : list MTRHop -> nat :=
  match a with
  | [] => fun _ => 0%nat
  | x :: a' =>
      fix go b := match b with
                  | [] => 0%nat
                  | y :: b' => if anchorable x y then S (lcs a' b') else max (lcs a' b) (go b')
                  end
  end.

Lemma lcs_nil_r a : lcs a [] = 0%nat.
Proof. by destruct a. Qed.

Lemma lcs_cons x a y b :
  lcs (x :: a) (y :: b) = if anchorable x y then S (lcs a b) else max (lcs a (y :: b)) (lcs (x :: a) b).
Proof. done. Qed.

(** One cell per suffix of [b], the empty one included. *)
Fixpoint lcs_row (a b : list MTRHop) : list nat :=
  match b with [] => [lcs a []] | y :: b' => lcs a b :: lcs_row a b' end.

Lemma lcs_row_head a b : head (lcs_row a b) = Some (lcs a b).
Proof. by destruct b. Qed.

Lemma dp_row_spec x a b : dp_row x b (lcs_row a b) = lcs_row (x :: a) b.
Proof.
  induction b as [|y b IH]; [done|]. cbn [dp_row lcs_row tail]. rewrite IH, lcs_row_head, lcs_cons.
  f_equal. destruct (anchorable x y); [|done]. by destruct b.
Qed.

Lemma lcs_row_nil b : lcs_row [] b = replicate (S (length b)) 0%nat.
Proof. induction b as [|y b IH]; [done|]. cbn [lcs_row length]. by rewrite IH. Qed.

Lemma dp_table_lookup a b i : (i <= length a)%nat -> dp_table a b !! i = Some (lcs_row (drop i a) b).
Proof.
  revert i; induction a as [|x a IH]; intros [|i] Hi; cbn [dp_table length drop] in *.
  - by rewrite lcs_row_nil.
  - lia.
  - rewrite head_lookup, IH by lia. cbn. by rewrite dp_row_spec.
  - apply IH. lia.
Qed.

Lemma lcs_row_lookup a b j : (j <= length b)%nat -> lcs_row a b !! j = Some (lcs a (drop j b)).
Proof.
  revert j; induction b as [|y b IH]; intros [|j] Hj; cbn [lcs_row length drop] in *; [done|lia|done|].
  apply IH. lia.
Qed.

Lemma dp_at_spec a b i j :
  (i <= length a)%nat -> (j <= length b)%nat -> dp_at (dp_table a b) i j = lcs (drop i a) (drop j b).
Proof. intros Hi Hj. unfold dp_at. rewrite dp_table_lookup by done. cbn. by rewrite lcs_row_lookup. Qed.

(** ** The reference is the longest *)

(** [common a b k]: a common subsequence of length [k]. *)
Inductive common : list MTRHop -> list MTRHop -> nat -> Prop :=
  | common_none a b : common a b 0
  | common_match x a y b k : anchorable x y = true -> common a b k -> common (x :: a) (y :: b) (S k)
  | common_skip_l x a b k : common a b k -> common (x :: a) b k
  | common_skip_r y a b k : common a b k -> common a (y :: b) k.

(** One more hop on either side adds nothing or one. *)
Lemma lcs_step n a b :
  (length a + length b <= n)%nat ->
  (forall x, lcs a b <= lcs (x :: a) b <= S (lcs a b))%nat /\
  (forall y, lcs a b <= lcs a (y :: b) <= S (lcs a b))%nat.
Proof.
  revert a b; induction n as [|n IH]; intros a b Hn.
  - assert (a = [] /\ b = []) as [-> ->] by (destruct a, b; simpl in Hn; [done|lia..]). split; intros; simpl; lia.
  - split.
    + intros x. destruct b as [|y b]; [rewrite !lcs_nil_r; lia|]. rewrite lcs_cons. simpl in Hn.
      destruct (IH a b ltac:(lia)) as [Hl Hr]. specialize (Hl x). specialize (Hr y).
      destruct (anchorable x y); lia.
    + intros y. destruct a as [|x a]; [simpl; lia|]. rewrite lcs_cons. simpl in Hn.
      destruct (IH a b ltac:(lia)) as [Hl Hr]. specialize (Hl x). specialize (Hr y).
      destruct (anchorable x y); lia.
Qed.

Lemma common_le_lcs a b k : common a b k -> (k <= lcs a b)%nat.
Proof.
  induction 1 as [|x a y b k Hxy _ IH|x a b k _ IH|y a b k _ IH]; [lia| | |].
  - rewrite lcs_cons, Hxy. lia.
  - pose proof (proj1 (lcs_step _ a b (Nat.le_refl _)) x). lia.
  - pose proof (proj2 (lcs_step _ a b (Nat.le_refl _)) y). lia.
Qed.

Lemma common_drop m n a b k : common (drop m a) (drop n b) k -> common a b k.
Proof.
  revert a; induction m as [|m IHm]; intros a.
  - rewrite drop_0. revert b. induction n as [|n IHn]; intros b; [by rewrite drop_0|].
    destruct b; simpl; [done|]. intros H. constructor. by apply IHn.
  - destruct a as [|x a]; simpl; [specialize (IHm []); by rewrite drop_nil in IHm|]. intros H. constructor. by apply IHm.
Qed.

(** An alignment: positions of the two lists that go down both at once, with the same address. *)
Definition alignment (a b : list MTRHop) (ps : list (nat * nat)) : Prop :=
  StronglySorted (fun p q => (p.1 < q.1 /\ p.2 < q.2)%nat) ps /\
  Forall (fun p => exists x y, a !! p.1 = Some x /\ b !! p.2 = Some y /\ anchorable x y = true) ps.

Lemma alignment_common a b ps i j :
  alignment a b ps -> Forall (fun p => (i <= p.1 /\ j <= p.2)%nat) ps ->
  common (drop i a) (drop j b) (length ps).
Proof.
  intros [Hs Hf]. revert i j. induction Hs as [|[p q] ps Hs IH Hlt]; intros i j Hge; [constructor|].
  inversion Hf as [|?? (x & y & Hx & Hy & Hxy) Hf']; inversion Hge as [|?? [Hi Hj] _]; subst. simpl in *.
  apply (common_drop (p - i) (q - j)). rewrite !drop_drop.
  replace (i + (p - i))%nat with p by lia. replace (j + (q - j))%nat with q by lia.
  rewrite (drop_S _ _ _ Hx), (drop_S _ _ _ Hy). constructor; [done|]. apply IH; [done|].
  eapply Forall_impl; [exact Hlt|]. simpl. lia.
Qed.

(** ** The walk finds one *)

Lemma anchor_walk_spec a b fuel i j :
  (length a - i + (length b - j) <= fuel)%nat ->
  let ps := anchor_walk fuel a b (dp_table a b) i j in
  alignment a b ps /\ Forall (fun p => (i <= p.1 /\ j <= p.2)%nat) ps /\
  length ps = lcs (drop i a) (drop j b).
Proof.
  revert i j; induction fuel as [|fuel IH]; intros i j Hfuel; cbn [anchor_walk].
  { assert (drop i a = []) as -> by (apply drop_ge; lia). by repeat constructor. }
  destruct (a !! i) as [x|] eqn:Hx; [|apply lookup_ge_None in Hx].
  2:{ rewrite (drop_ge a) by done. by repeat constructor. }
  destruct (b !! j) as [y|] eqn:Hy; [|apply lookup_ge_None in Hy].
  2:{ rewrite (drop_ge b), lcs_nil_r by done. by repeat constructor. }
  pose proof (lookup_lt_Some _ _ _ Hx) as Hi. pose proof (lookup_lt_Some _ _ _ Hy) as Hj.
  rewrite !dp_at_spec by lia.
  rewrite (drop_S _ _ _ Hx), (drop_S _ _ _ Hy), lcs_cons.
  destruct (anchorable x y) eqn:Hxy.
  - destruct (IH (S i) (S j)) as ([Hs Hf] & Hge & Hlen); [lia|].
    split_and!; [| |simpl; by rewrite Hlen].
    + split; [constructor; [done|]|constructor; [simpl; eauto|done]].
      eapply Forall_impl; [exact Hge|]. simpl. lia.
    + constructor; [simpl; lia|]. eapply Forall_impl; [exact Hge|]. simpl. lia.
  - destruct (Nat.leb_spec (lcs (x :: drop (S i) a) (drop (S j) b)) (lcs (drop (S i) a) (y :: drop (S j) b)))
      as [Hle|Hlt].
    + destruct (IH (S i) j) as (Hal & Hge & Hlen); [lia|]. split_and!; [done| |].
      * eapply Forall_impl; [exact Hge|]. simpl. lia.
      * rewrite Hlen, (drop_S b y j) by done. lia.
    + destruct (IH i (S j)) as (Hal & Hge & Hlen); [lia|]. split_and!; [done| |].
      * eapply Forall_impl; [exact Hge|]. simpl. lia.
      * rewrite Hlen, (drop_S a x i) by done. lia.
Qed.

Lemma lcsAnchors_facts a b :
  alignment a b (lcsAnchors a b) /\ length (lcsAnchors a b) = lcs a b.
Proof. destruct (anchor_walk_spec a b (length a + length b) 0 0) as (H & _ & Hl); [lia|]. done. Qed.

(** The alignment of two paths is a longest one: it pairs equal, answering addresses in the order
    of both paths, and no such pairing is longer. *)
Theorem lcsAnchors_longest a b :
  alignment a b (lcsAnchors a b) /\
  (forall ps, alignment a b ps -> (length ps <= length (lcsAnchors a b))%nat).
Proof.
  destruct (lcsAnchors_facts a b) as [Ha Hl]. split; [done|]. intros ps Hps. rewrite Hl.
  apply common_le_lcs. apply (alignment_common a b ps 0 0); [done|].
  apply Forall_forall. intros. lia.
Qed.

(** ** The rows of the diff table *)

Lemma omap_fmap_None {A B C} (f : B -> option C) (g : A -> B) l : (forall x, f (g x) = None) -> omap f (g <$> l) = [].
Proof. intros H. induction l; csimpl; by rewrite ?H. Qed.

Lemma fst_zip_take {A B} (l : list A) (k : list B) : (zip l k).*1 = take (length k) l.
Proof. revert k; induction l; intros [|]; csimpl; f_equal; done. Qed.

Lemma snd_zip_take {A B} (l : list A) (k : list B) : (zip l k).*2 = take (length l) k.
Proof. revert k; induction l; intros [|]; csimpl; f_equal; done. Qed.

Lemma gap_rows_a aRun bRun : omap aHop (gap_rows aRun bRun) = aRun.
Proof.
  unfold gap_rows. rewrite !omap_app, (omap_fmap_None _ row_added) by done.
  rewrite (omap_fmap_Some _ _ fst), (omap_fmap_Some _ _ (fun x => x)) by done.
  rewrite fst_zip_take, list_fmap_id, app_nil_r.
  destruct (Nat.min_spec (length aRun) (length bRun)) as [[H ->]|[H ->]]; [|apply take_drop].
  rewrite drop_all, take_ge, app_nil_r by lia. done.
Qed.

Lemma gap_rows_b aRun bRun : omap bHop (gap_rows aRun bRun) = bRun.
Proof.
  unfold gap_rows. rewrite !omap_app, (omap_fmap_None _ row_removed) by done.
  rewrite (omap_fmap_Some _ _ snd), (omap_fmap_Some _ _ (fun x => x)) by done.
  rewrite snd_zip_take, list_fmap_id.
  destruct (Nat.min_spec (length aRun) (length bRun)) as [[H ->]|[H ->]]; [apply take_drop|].
  rewrite drop_all, take_ge, app_nil_r by lia. done.
Qed.

Definition from (i j : nat) (ps : list (nat * nat)) : Prop := Forall (fun p => (i <= p.1 /\ j <= p.2)%nat) ps.

Lemma alignment_cons a b p q ps :
  alignment a b ((p, q) :: ps) <->
  (exists x y, a !! p = Some x /\ b !! q = Some y /\ anchorable x y = true) /\
  alignment a b ps /\ from (S p) (S q) ps.
Proof.
  unfold alignment, from. split.
  - intros [Hs Hf]. inversion Hs; inversion Hf; subst. done.
  - intros (Hxy & [Hs Hf] & Hge). split; constructor; done.
Qed.

Lemma from_mono i j i' j' ps : (i' <= i)%nat -> (j' <= j)%nat -> from i j ps -> from i' j' ps.
Proof. intros Hi Hj H. eapply Forall_impl; [exact H|]. simpl. lia. Qed.

Lemma run_app {A} (l : list A) i n x : l !! n = Some x -> (i <= n)%nat -> take (n - i) (drop i l) ++ x :: drop (S n) l = drop i l.
Proof.
  intros Hx Hi. rewrite <- (take_drop (n - i) (drop i l)) at 2. rewrite drop_drop.
  replace (i + (n - i))%nat with n by lia. by rewrite (drop_S _ _ _ Hx).
Qed.

Lemma diff_rows_hops a b ps i j :
  alignment a b ps -> from i j ps ->
  omap aHop (diff_rows a b ps i j) = drop i a /\ omap bHop (diff_rows a b ps i j) = drop j b.
Proof.
  revert i j; induction ps as [|[p q] ps IH]; intros i j Hal Hfr; cbn [diff_rows].
  - by rewrite gap_rows_a, gap_rows_b.
  - apply alignment_cons in Hal as ((x & y & Hx & Hy & _) & Hal & Hfr').
    inversion Hfr as [|?? [Hi Hj] _]; subst. simpl in Hi, Hj. rewrite Hx, Hy, !omap_app, gap_rows_a, gap_rows_b.
    destruct (IH (S p) (S q) Hal Hfr') as [Ha Hb]. csimpl. rewrite Ha, Hb.
    by rewrite (run_app _ _ _ _ Hx Hi), (run_app _ _ _ _ Hy Hj).
Qed.

(** What a row of each kind is. *)
Definition row_ok (r : DiffRow) : Prop :=
  match kind r with
  | same => exists x y, r = row_same x y /\ anchorable x y = true
  | changed => exists x y, r = row_changed (x, y)
  | added => exists y, r = row_added y
  | removed => exists x, r = row_removed x
  end.

Lemma gap_rows_ok aRun bRun : Forall (fun r => row_ok r /\ kind r <> same) (gap_rows aRun bRun).
Proof.
  unfold gap_rows. rewrite !Forall_app, !Forall_fmap.
  split_and!; apply Forall_forall; intros []; unfold row_ok; simpl; eauto.
Qed.

Definition same_rows (rows : list DiffRow) : list DiffRow :=
  List.filter (fun r => bool_decide (kind r = same)) rows.

Lemma gap_rows_same aRun bRun : same_rows (gap_rows aRun bRun) = [].
Proof.
  pose proof (gap_rows_ok aRun bRun) as H. unfold same_rows. induction H as [|r l [_ Hr] _ IH]; simpl; [done|].
  by rewrite bool_decide_eq_false_2.
Qed.

Lemma diff_rows_ok a b ps i j :
  alignment a b ps ->
  Forall row_ok (diff_rows a b ps i j) /\ length (same_rows (diff_rows a b ps i j)) = length ps.
Proof.
  revert i j; induction ps as [|[p q] ps IH]; intros i j Hal; cbn [diff_rows].
  - rewrite gap_rows_same. split; [|done]. eapply Forall_impl; [apply gap_rows_ok|]. by intros ? [].
  - apply alignment_cons in Hal as ((x & y & Hx & Hy & Hxy) & Hal & _). rewrite Hx, Hy.
    destruct (IH (S p) (S q) Hal) as [Hok Hl].
    unfold same_rows in *. rewrite List.filter_app. fold (same_rows (gap_rows (take (p - i) (drop i a)) (take (q - j) (drop j b)))).
    rewrite gap_rows_same. split.
    + apply Forall_app. split; [eapply Forall_impl; [apply gap_rows_ok|by intros ? []]|].
      constructor; [|done]. by exists x, y.
    + simpl. by rewrite Hl.
Qed.

(** A changed row with one address on both sides would have made the alignment longer. *)
Lemma gap_changed a b i j aEnd bEnd x y :
  row_changed (x, y) ∈ gap_rows (take (aEnd - i) (drop i a)) (take (bEnd - j) (drop j b)) ->
  exists k, a !! (i + k)%nat = Some x /\ b !! (j + k)%nat = Some y /\ (i + k < aEnd)%nat /\ (j + k < bEnd)%nat.
Proof.
  unfold gap_rows. rewrite !elem_of_app. intros [H|[H|H]].
  - apply list_elem_of_fmap in H as ([x' y'] & [= <- <-] & H).
    apply list_elem_of_lookup in H as (k & Hk). exists k.
    unfold zip in Hk. apply lookup_zip_with_Some in Hk as (x' & y' & [= <- <-] & Hx & Hy).
    apply lookup_take_Some in Hx as [Hx ?], Hy as [Hy ?]. rewrite lookup_drop in Hx, Hy. split_and!; [done|done|lia|lia].
  - apply list_elem_of_fmap in H as (? & [=] & _).
  - apply list_elem_of_fmap in H as (? & [=] & _).
Qed.

Lemma changed_extends a b ps i j x y :
  alignment a b ps -> from i j ps -> row_changed (x, y) ∈ diff_rows a b ps i j -> anchorable x y = true ->
  exists ps', alignment a b ps' /\ from i j ps' /\ length ps' = S (length ps).
Proof.
  intros Hal Hfr Hin Hxy. revert i j Hal Hfr Hin.
  induction ps as [|[p q] ps IH]; intros i j Hal Hfr Hin; cbn [diff_rows] in Hin.
  - rewrite <- (take_ge (drop i a) (length a - i)), <- (take_ge (drop j b) (length b - j)) in Hin
      by (rewrite length_drop; lia).
    apply gap_changed in Hin as (k & Hx & Hy & _). exists [((i + k)%nat, (j + k)%nat)].
    split_and!; [|repeat constructor; simpl; lia|done].
    apply alignment_cons. split_and!; [eauto|done|constructor].
  - pose proof Hal as Hal0. apply alignment_cons in Hal as ((hx & hy & Hx & Hy & Hh) & Hal & Hfr').
    inversion Hfr as [|?? [Hi Hj] _]; subst. simpl in Hi, Hj.
    rewrite Hx, Hy in Hin. apply elem_of_app in Hin as [Hin|Hin].
    + apply gap_changed in Hin as (k & Hx' & Hy' & Hk1 & Hk2).
      exists (((i + k)%nat, (j + k)%nat) :: (p, q) :: ps). split_and!; [| |done].
      * apply alignment_cons. split_and!; [eauto|done|]. constructor; [simpl; lia|].
        eapply from_mono; [| |exact Hfr']; lia.
      * constructor; [simpl; lia|done].
    + apply elem_of_cons in Hin as [[=]|Hin].
      destruct (IH (S p) (S q) Hal Hfr' Hin) as (ps' & H1 & H2 & H3).
      exists ((p, q) :: ps'). split_and!; [|constructor; [simpl; lia|]|simpl; by rewrite H3].
      * apply alignment_cons. split_and!; [eauto|done|done].
      * eapply from_mono; [| |exact H2]; lia.
Qed.

(** C31: The diff table neither loses nor invents a hop: read down its columns it is the two paths, a
    row called the same pairs two answering hops with one address and carries their difference in
    round trip, the number of such rows is the most any alignment has, and a row called changed never
    shows one answering address on both sides. *)
Theorem diffPaths_complete a b :
  let rows := diffPaths (Some a) (Some b) in
  omap aHop rows = a /\ omap bHop rows = b /\
  Forall row_ok rows /\
  (forall ps, alignment a b ps -> (length ps <= length (same_rows rows))%nat) /\
  (forall x y, row_changed (x, y) ∈ rows -> anchorable x y = false).
Proof.
  intros rows. destruct (lcsAnchors_facts a b) as [Hal Hlen].
  assert (Hfr : from 0 0 (lcsAnchors a b)) by (apply Forall_forall; intros; lia).
  assert (Hmax : forall ps, alignment a b ps -> (length ps <= lcs a b)%nat).
  { intros ps Hps. apply common_le_lcs. apply (alignment_common a b ps 0 0); [done|].
    apply Forall_forall. intros. lia. }
  destruct (diff_rows_hops a b _ 0 0 Hal Hfr) as [Ha Hb]. destruct (diff_rows_ok a b _ 0 0 Hal) as [Hok Hs].
  split_and!; [done|done|done| |].
  - intros ps Hps. unfold rows, diffPaths. cbn [hopList default from_option].
    change (Datatypes.id a) with a. change (Datatypes.id b) with b. rewrite Hs, Hlen. by apply Hmax.
  - intros x y Hin. destruct (anchorable x y) eqn:Hxy; [|done]. exfalso.
    destruct (changed_extends a b _ 0 0 x y Hal Hfr Hin Hxy) as (ps' & H1 & _ & H3).
    specialize (Hmax ps' H1). lia.
Qed.

(** ** The sentence *)

(** Two hops a reader cannot tell apart: one answering address, or two silences. *)
Definition indistinct (x y : MTRHop) : Prop :=
  anchorable x y = true \/ (isPlaceholderHop (ip x) = true /\ isPlaceholderHop (ip y) = true).

Lemma unmoved_rows rows :
  Forall row_ok rows -> List.filter moved rows = [] -> Forall2 indistinct (omap aHop rows) (omap bHop rows).
Proof.
  induction 1 as [|r rows Hr _ IH]; simpl; [constructor|].
  destruct (moved r) eqn:Hm; [done|]. intros E. specialize (IH E). unfold row_ok in Hr. unfold moved in Hm.
  destruct (kind r) eqn:Hk.
  - destruct Hr as (x & y & -> & Hxy). csimpl. constructor; [by left|done].
  - destruct Hr as (x & y & ->). rewrite bool_decide_eq_false_2 in Hm by (simpl; congruence).
    apply negb_false_iff, andb_true_iff in Hm. csimpl. constructor; [by right|done].
  - destruct Hr as (y & ->). by rewrite bool_decide_eq_false_2 in Hm.
  - destruct Hr as (x & ->). by rewrite bool_decide_eq_false_2 in Hm.
Qed.

(** The sentence says a path is unchanged only when it is: the two paths are then equally long and
    agree hop by hop, on the address or on the silence. The total it names is the number of rows that
    moved, and a single named hop comes with the address it shows on that row. *)
Theorem summarisePathChange_honest a b :
  let s := summarisePathChange (Some a) (Some b) in
  pc_total s = length (List.filter moved (diffPaths (Some a) (Some b))) /\
  (pc_kind s = pc_same <-> pc_total s = 0%nat) /\
  (pc_kind s = pc_same -> Forall2 indistinct a b) /\
  (pc_kind s = pc_changed -> exists x y, List.filter moved (diffPaths (Some a) (Some b)) = [row_changed (x, y)] /\
     pc_hop s = Some (hop_number y) /\ pc_from s = ip x /\ pc_to s = ip y).
Proof.
  destruct (lcsAnchors_facts a b) as [Hal _].
  assert (Hfr : from 0 0 (lcsAnchors a b)) by (apply Forall_forall; intros; lia).
  destruct (diff_rows_hops a b _ 0 0 Hal Hfr) as [Ha Hb]. destruct (diff_rows_ok a b _ 0 0 Hal) as [Hok _].
  change (diff_rows a b (lcsAnchors a b) 0 0) with (diffPaths (Some a) (Some b)) in *.
  rewrite drop_0 in Ha, Hb. unfold summarisePathChange. set (rows := diffPaths _ _) in *.
  destruct (List.filter moved rows) as [|r [|r' l]] eqn:E; cbn [pc_total pc_kind length].
  - split_and!; [done|done| |done]. intros _. rewrite <- Ha, <- Hb. by apply unmoved_rows.
  - assert (Hr : row_ok r /\ kind r <> same).
    { assert (r ∈ List.filter moved rows) as Hin by (rewrite E; constructor).
      apply elem_of_filter_b in Hin as [Hin Hm]. rewrite Forall_forall in Hok. split; [by apply Hok|].
      intros Hk. unfold moved in Hm. by rewrite bool_decide_eq_true_2 in Hm. }
    destruct Hr as [Hr Hns]. unfold row_ok in Hr. destruct (kind r) eqn:Hk; [done|..]; cbn [pc_kind pc_total].
    + split_and!; [done|done|done|]. intros _. destruct Hr as (x & y & ->). by exists x, y.
    + done.
    + done.
  - split_and!; done.
Qed.
