(* ===== verification/Matrix.v ===== *)
(** The connectivity matrix ([web/src/lib/matrix-cells.ts], [matrix-plan.ts], [matrix-promql.ts]):
    the tier a cell is painted with, the reading of the probe plan, and the matrix rebuilt from
    Prometheus answers for a past instant. *)
From S2P Require Import Prelude JsNum JsString JsCollections JsValue JsDate JsFormat.
Local Open Scope Z_scope.

(** ** Cells *)

(** A reading is [None] when the field is null or absent. *)
Record MatrixCell := {
  source : jstr;
  destination : jstr;
  failRatio : option number;
  rttP95 : option number;
  lossRatio : option number;
  mtuBytes : option number;
  probeMtuBytes : option number;
  recentFailRatio : option number;
}.

Inductive CellTier := ok | warn | bad | unknown.
#[export] Instance CellTier_eq_dec : EqDecision CellTier.
Proof. solve_decision. Defined.

Definition DEGRADED_AT : number := dec 1 2.
Definition FAILING_AT : number := dec 1 1.

(** The reading when it is a finite number. *)
Definition finite (v : option number) : option number :=
  match v with Some n => if isFinite n then Some n else None | None => None end.

Definition is_finite (v : option number) : bool := bool_decide (is_Some (finite v)).

Definition isMeasured (cell : option MatrixCell) : bool :=
  match cell with
  | None => false
  | Some c => is_finite (failRatio c) || is_finite (rttP95 c) || is_finite (lossRatio c) || is_finite (mtuBytes c)
  end.

Definition isReducedPath (cell : option MatrixCell) : bool :=
  match cell with
  | None => false
  | Some c => match finite (mtuBytes c), finite (probeMtuBytes c) with
              | Some m, Some p => (m <? p)%num
              | _, _ => false
              end
  end.

Definition severityRatio (cell : option MatrixCell) : option number :=
  match cell with
  | None => None
  | Some c =>
      let ratios := omap finite [failRatio c; lossRatio c] in
      if bool_decide (ratios = []) then None else Some (nmaximum ratios)
  end.

Inductive PmtuReading := blackhole | reduced | recovering | full.
#[export] Instance PmtuReading_eq_dec : EqDecision PmtuReading.
Proof. solve_decision. Defined.

Definition pmtuReading (cell : option MatrixCell) : option PmtuReading :=
  match cell with
  | None => None
  | Some c =>
      match finite (mtuBytes c) with
      | None => None
      | Some _ =>
          let fail := default (int 0) (finite (failRatio c)) in
          if isReducedPath cell then Some (if (fail >? int 0)%num then blackhole else reduced)
          else
            match finite (recentFailRatio c) with
            | Some recent =>
                if (fail >? int 0)%num then Some (if (recent >? int 0)%num then blackhole else recovering)
                else Some (if (fail >=? FAILING_AT)%num then blackhole else full)
            | None => Some (if (fail >=? FAILING_AT)%num then blackhole else full)
            end
      end
  end.

Definition cellTier (cell : option MatrixCell) : CellTier :=
  if negb (isMeasured cell) then unknown
  else if bool_decide (pmtuReading cell = Some blackhole) then bad
  else if bool_decide (pmtuReading cell = Some recovering) then warn
  else
    let at_least t := match severityRatio cell with Some r => (r >=? t)%num | None => false end in
    if at_least FAILING_AT then bad
    else if at_least DEGRADED_AT then warn
    else if isReducedPath cell then warn
    else ok.

Definition isProblemCell (cell : option MatrixCell) : bool :=
  match cellTier cell with warn | bad => true | _ => false end.

Definition fmtRatio (ratio : option number) : jstr :=
  match finite ratio with Some r => toFixed (int 100 * r)%num 1 ++ js "%" | None => js "—" end.

Definition fmtRtt (ns : option number) : jstr :=
  match finite ns with Some n => toFixed (n / int 1000000)%num 1 ++ js "ms" | None => js "—" end.

Definition cellSummary (cell : option MatrixCell) (t : Translate) : jstr :=
  match cell with
  | Some c =>
      if negb (isMeasured cell) then t (js "noData") []
      else
        let fail := match finite (failRatio c) with
                    | Some _ => t (js "fail") [(js "ratio", VStr (fmtRatio (failRatio c)))]
                    | None => t (js "noFailSignal") []
                    end in
        let rtt := if is_finite (rttP95 c) then [t (js "rttP95") [(js "rtt", VStr (fmtRtt (rttP95 c)))]] else [] in
        let loss := if is_finite (lossRatio c)
                    then [t (js "packetLoss") [(js "ratio", VStr (fmtRatio (lossRatio c)))]] else [] in
        let mtu :=
          match finite (mtuBytes c) with
          | None => []
          | Some m =>
              [if isReducedPath cell
               then t (js "pathMtuReduced")
                      [(js "mtu", VStr (num_to_string m));
                       (js "probe", VStr (num_to_string (default NaN (probeMtuBytes c))))]
               else t (js "pathMtu") [(js "mtu", VStr (num_to_string m))]]
              ++ match pmtuReading cell with
                 | Some blackhole => [t (js "mtuBlackhole") []]
                 | Some recovering => [t (js "mtuRecovering") []]
                 | _ => []
                 end
          end in
        join (js ", ") ([fail] ++ rtt ++ loss ++ mtu)
  | None => t (js "noData") []
  end.

(** ** The probe plan *)

Abbreviation ProbePlan := (list (jstr * list jstr)).

Definition plan_set (dests : list value) : list jstr :=
  fold_left (fun set d => match d with
                          | VStr s => if seqb s [] then set else sadd set s
                          | _ => set
                          end) dests [].

Definition readProbePlan (raw : value) : option ProbePlan :=
  match raw with
  | VObj fields =>
      Some (fold_left (fun plan e => match e.2 with
                                     | VArr dests => mset plan e.1 (plan_set dests)
                                     | _ => plan
                                     end) fields [])
  | _ => None
  end.

Definition isPlanExcluded (plan : option ProbePlan) (src dst : jstr) : bool :=
  match plan with
  | None => false
  | Some p =>
      if seqb src dst then false
      else match mget p src with
           | None => false
           | Some dests => negb (shas dests dst)
           end
  end.

(** ** The matrix of a past instant *)

Inductive Protocol := tcp | udp | icmp | pmtu.

Definition protocol_string (p : Protocol) : jstr :=
  match p with tcp => js "tcp" | udp => js "udp" | icmp => js "icmp" | pmtu => js "pmtu" end.

Definition METRICS_PREFIX : jstr := js "kconmon_ng".
Definition RATE_WINDOW : jstr := js "5m".
Definition RECENT_WINDOW : jstr := js "3m".
Definition QUOTED (s : string) : jstr := [34] ++ js s ++ [34].

Definition failRatioQuery (proto : Protocol) (window : jstr) : jstr :=
  let m := METRICS_PREFIX ++ js "_" ++ protocol_string proto ++ js "_results_total" in
  js "sum by (source_node, destination_node) (rate(" ++ m ++ js "{result=" ++ QUOTED "fail" ++ js "}["
  ++ window ++ js "])) / " ++
  js "sum by (source_node, destination_node) (rate(" ++ m ++ js "[" ++ window ++ js "]))".

Definition p95Query (bucketMetric : jstr) : jstr :=
  js "histogram_quantile(0.95, sum by (source_node, destination_node, le) (rate(" ++ bucketMetric
  ++ js "[" ++ RATE_WINDOW ++ js "])))".

Definition lossQuery (proto : Protocol) : jstr :=
  js "avg by (source_node, destination_node) (" ++ METRICS_PREFIX ++ js "_" ++ protocol_string proto
  ++ js "_packet_loss_ratio)".

Definition mtuQuery : jstr :=
  js "min by (source_node, destination_node) (" ++ METRICS_PREFIX ++ js "_pmtu_bytes)".

Definition probeQuery : jstr :=
  js "max by (source_node, destination_node) (" ++ METRICS_PREFIX ++ js "_pmtu_probe_bytes)".

Record Queries := {
  q_fail : jstr;
  q_rtt : option jstr;
  q_loss : option jstr;
  q_mtu : option jstr;
  q_probe : option jstr;
  q_recent : option jstr;
}.

Definition matrixQueries (protocol : Protocol) : Queries :=
  match protocol with
  | tcp => {| q_fail := failRatioQuery tcp RATE_WINDOW;
              q_rtt := Some (p95Query (METRICS_PREFIX ++ js "_tcp_total_duration_seconds_bucket"));
              q_loss := None; q_mtu := None; q_probe := None; q_recent := None |}
  | udp => {| q_fail := failRatioQuery udp RATE_WINDOW;
              q_rtt := Some (p95Query (METRICS_PREFIX ++ js "_udp_rtt_seconds_bucket"));
              q_loss := Some (lossQuery udp); q_mtu := None; q_probe := None; q_recent := None |}
  | icmp => {| q_fail := failRatioQuery icmp RATE_WINDOW;
               q_rtt := Some (p95Query (METRICS_PREFIX ++ js "_icmp_rtt_seconds_bucket"));
               q_loss := Some (lossQuery icmp); q_mtu := None; q_probe := None; q_recent := None |}
  | pmtu => {| q_fail := failRatioQuery pmtu RATE_WINDOW; q_rtt := None; q_loss := None;
               q_mtu := Some mtuQuery; q_probe := Some probeQuery;
               q_recent := Some (failRatioQuery pmtu RECENT_WINDOW) |}
  end.

(** One sample of an instant vector: its two labels and the text of its value. *)
Record Sample := { s_source : option jstr; s_destination : option jstr; s_value : value }.

(** A Prometheus answer: an error, an instant vector, or anything else that succeeded. *)
Inductive PromResult :=
  | PromError (error : option jstr)
  | PromVector (result : list Sample)
  | PromOther.

Definition pair_key (src dst : jstr) : jstr := src ++ [0] ++ dst.

Abbreviation PairMap := (list (jstr * number)).

Definition vector_step (out : PairMap) (s : Sample) : PairMap :=
  match s_source s, s_destination s with
  | Some src, Some dst =>
      if seqb src [] || seqb dst [] then out
      else
        let v := number_of_value (s_value s) in
        if isFinite v then mset out (pair_key src dst) v else out
  | _, _ => out
  end.

Definition vectorByPair (res : PromResult) : PairMap :=
  match res with PromVector samples => fold_left vector_step samples [] | _ => [] end.

(** [const [src, dst] = k.split("\0")]. *)
Definition split_key (k : jstr) : jstr * jstr :=
  match split_unit 0 k with
  | a :: b :: _ => (a, b)
  | [a] => (a, js "undefined")
  | [] => ([], [])
  end.

Definition measured_mtu (mtu fail : PairMap) : PairMap := List.filter (fun e => mhas fail e.1) mtu.

Definition matrix_pairs (fail rtt loss mtu : PairMap) : list jstr :=
  set_of_list (mkeys fail ++ mkeys rtt ++ mkeys loss ++ mkeys (measured_mtu mtu fail)).

Definition matrix_cell (fail rtt loss mtu probe recent : PairMap) (k : jstr) : MatrixCell := {|
  source := (split_key k).1;
  destination := (split_key k).2;
  failRatio := mget fail k;
  rttP95 := (fun v => nround (v * int 1000000000)%num) <$> mget rtt k;
  lossRatio := mget loss k;
  mtuBytes := mget (measured_mtu mtu fail) k;
  probeMtuBytes := match mget (measured_mtu mtu fail) k with Some _ => mget probe k | None => None end;
  recentFailRatio := mget recent k;
|}.

Record Matrix := { m_protocol : Protocol; m_nodes : list jstr; m_cells : list MatrixCell; m_timestamp : option jstr }.

Section Fold.
Context `{LocaleHost}.

Definition compare_cells (a b : MatrixCell) : number :=
  if seqb (source a) (source b) then localeCompare (destination a) (destination b)
  else localeCompare (source a) (source b).

Definition foldMatrix (protocol : Protocol) (fail rtt loss : PairMap) (at_ : date)
    (mtu probe recent : PairMap) : Matrix :=
  let pairs := matrix_pairs fail rtt loss mtu in
  let nodes := fold_left (fun ns k => sadd (sadd ns (split_key k).1) (split_key k).2)
                 (mkeys fail ++ mkeys rtt ++ mkeys loss ++ mkeys (measured_mtu mtu fail)) [] in
  {| m_protocol := protocol;
     m_nodes := sort_leb (fun a b => negb (sltb b a)) nodes;
     m_cells := js_sort compare_cells (matrix_cell fail rtt loss mtu probe recent <$> pairs);
     m_timestamp := toISOString at_ |}.

Definition promqlError (res : PromResult) : option jstr :=
  match res with PromError e => Some (default (js "PromQL query failed") e) | _ => None end.

(** [getMatrixAt], given the answers to its queries in order; an absent query answers a bare
    success. *)
Definition getMatrixAt (protocol : Protocol) (at_ : date) (query : jstr -> PromResult) : jstr + Matrix :=
  let q := matrixQueries protocol in
  let optional o := match o with Some s => query s | None => PromOther end in
  let failRes := query (q_fail q) in
  let rest := optional <$> [q_rtt q; q_loss q; q_mtu q; q_probe q; q_recent q] in
  let matrix := foldMatrix protocol (vectorByPair failRes) (vectorByPair (optional (q_rtt q)))
                  (vectorByPair (optional (q_loss q))) at_ (vectorByPair (optional (q_mtu q)))
                  (vectorByPair (optional (q_probe q))) (vectorByPair (optional (q_recent q))) in
  match omap promqlError (failRes :: rest) with
  | err :: _ => if seqb err [] then inr matrix else inl err
  | [] => inr matrix
  end.
End Fold.

(** ** Tiers *)

(** From calm to alarming; silence is apart. *)
Definition tier_rank (t : CellTier) : nat :=
  match t with unknown => 0 | ok => 1 | warn => 2 | bad => 3 end.

Definition with_fail (c : MatrixCell) (r : option number) : MatrixCell := {|
  source := source c; destination := destination c; failRatio := r; rttP95 := rttP95 c;
  lossRatio := lossRatio c; mtuBytes := mtuBytes c; probeMtuBytes := probeMtuBytes c;
  recentFailRatio := recentFailRatio c |}.

Lemma nmax_neg_inf x : nmax (Inf true) x = x.
Proof. by destruct x as [|[]|]. Qed.

Lemma FAILING_fin : exists z, FAILING_AT = Fin z /\ 0 < z.
Proof. eexists. split; [vm_compute; reflexivity|done]. Qed.

Lemma DEGRADED_fin : exists z, DEGRADED_AT = Fin z /\ 0 < z.
Proof. eexists. split; [vm_compute; reflexivity|done]. Qed.

Lemma DEGRADED_lt_FAILING : (DEGRADED_AT <? FAILING_AT)%num = true.
Proof. vm_compute. reflexivity. Qed.

(** The tier as a function of the failure ratio, the rest of the cell fixed. *)
Definition tier_at (f d : Z) (mtu reduced : bool) (recent : option bool) (z : Z) : CellTier :=
  if mtu && reduced && (0 <? z) then bad
  else if mtu && negb reduced && (0 <? z) && match recent with Some r => r | None => false end then bad
  else if mtu && negb reduced && (0 <? z) && match recent with Some r => negb r | None => false end then warn
  else if f <=? z then bad else if d <=? z then warn else if reduced then warn else ok.

Lemma cellTier_tier_at c z f d :
  lossRatio c = None -> FAILING_AT = Fin f -> DEGRADED_AT = Fin d -> 0 < f ->
  cellTier (Some (with_fail c (Some (Fin z)))) =
  tier_at f d (is_finite (mtuBytes c)) (isReducedPath (Some c))
    ((fun r => (r >? int 0)%num) <$> finite (recentFailRatio c)) z.
Proof.
  intros Hloss Hf Hd Hf0. unfold cellTier, tier_at, isMeasured, pmtuReading, severityRatio, isReducedPath, with_fail, is_finite.
  cbn [failRatio rttP95 lossRatio mtuBytes probeMtuBytes recentFailRatio]. rewrite Hf, Hd, Hloss. clear Hf Hd.
  cbn [finite isFinite omap list_omap default from_option]. change (Datatypes.id (Fin z)) with (Fin z).
  unfold nmaximum. cbn [fold_left]. rewrite nmax_neg_inf, !nleb_fin. change (int 0) with (Fin 0).
  change (Fin z >? Fin 0)%num with (0 <? z).
  destruct (finite (mtuBytes c)) as [m|].
  2:{ cbn. rewrite ?nleb_fin. by destruct (f <=? z), (d <=? z). }
  cbn. rewrite ?nleb_fin.
  destruct (match finite (probeMtuBytes c) with Some p => (m <? p)%num | None => false end); cbn;
    destruct (Z.ltb_spec 0 z), (Z.leb_spec f z); try lia; try done;
    destruct (finite (recentFailRatio c)) as [r|]; cbn; try done;
    by destruct (match r with NaN => _ | Inf _ => _ | Fin _ => _ end).
Qed.

(** More failures never look calmer: for a pair without a packet-loss reading, raising the failure
    ratio never lowers the tier it is painted with, path-MTU readings included; and a cell is painted
    as silent exactly when it carries no finite reading at all. *)
Theorem cellTier_monotone c z z' (Hloss : lossRatio c = None) (Hz : z <= z') :
  (tier_rank (cellTier (Some (with_fail c (Some (Fin z))))) <=
   tier_rank (cellTier (Some (with_fail c (Some (Fin z'))))))%nat /\
  (forall r, cellTier (Some (with_fail c r)) = unknown <-> isMeasured (Some (with_fail c r)) = false).
Proof.
  destruct FAILING_fin as (f & Hf & Hf0). destruct DEGRADED_fin as (d & Hd & Hd0).
  assert (d < f) as Hdf. { pose proof DEGRADED_lt_FAILING as H. rewrite Hf, Hd in H. cbn in H. lia. }
  split.
  - rewrite !(cellTier_tier_at c _ f d) by done. clear Hf Hd. unfold tier_at.
    destruct (is_finite (mtuBytes c)), (isReducedPath (Some c)),
      ((fun r => (r >? int 0)%num) <$> finite (recentFailRatio c)) as [[]|]; cbn;
    destruct (Z.ltb_spec 0 z), (Z.ltb_spec 0 z'), (Z.leb_spec f z), (Z.leb_spec f z'),
      (Z.leb_spec d z), (Z.leb_spec d z'); cbn; lia.
  - clear. intros r. unfold cellTier. destruct (isMeasured _); simpl; [|done]. split; [|done].
    repeat case_match; intros [=].
Qed.

Definition idle_cell : MatrixCell := {|
  source := js "a"; destination := js "b"; failRatio := None; rttP95 := None; lossRatio := None;
  mtuBytes := Some (int 1400); probeMtuBytes := Some (int 1500); recentFailRatio := None |}.

Lemma cellTier_monotone_witness :
  (tier_rank (cellTier (Some (with_fail idle_cell (Some (Fin 0))))) <=
   tier_rank (cellTier (Some (with_fail idle_cell (Some (Fin 1))))))%nat.
Proof. apply (cellTier_monotone idle_cell 0 1); [reflexivity|lia]. Defined.

(** ** The fold is the union of the answers *)

Definition nul_free (s : jstr) : Prop := 0 ∉ s.

(** A map whose keys are pairs of names. *)
Definition keyed (m : PairMap) : Prop :=
  NoDup (mkeys m) /\ forall k, k ∈ mkeys m -> exists s d, k = pair_key s d /\ nul_free s /\ nul_free d.

Lemma split_pair_key s d : nul_free s -> nul_free d -> split_key (pair_key s d) = (s, d).
Proof.
  intros Hs Hd. unfold split_key, pair_key. cbn [app]. rewrite split_unit_app by done.
  by rewrite split_unit_single.
Qed.

Lemma pair_key_inj s d s' d' :
  nul_free s -> nul_free d -> nul_free s' -> nul_free d' -> pair_key s d = pair_key s' d' -> s = s' /\ d = d'.
Proof. intros Hs _ Hs' _. unfold pair_key. cbn [app]. by apply app_cons_inj. Qed.

Definition sample_ok (x : Sample) : Prop :=
  (forall s, s_source x = Some s -> nul_free s) /\ (forall d, s_destination x = Some d -> nul_free d).

Lemma vectorByPair_keyed samples : Forall sample_ok samples -> keyed (vectorByPair (PromVector samples)).
Proof.
  intros Hok. rewrite Forall_forall in Hok. unfold vectorByPair. apply (fold_left_inv keyed).
  { split; [constructor|]. intros k Hk. by apply elem_of_nil in Hk. }
  intros m x Hx [Hd Hk]. unfold vector_step.
  destruct (s_source x) as [s|] eqn:Es; [|done]. destruct (s_destination x) as [d|] eqn:Ed; [|done].
  case_match; [done|]. case_match; [|done]. split; [by apply NoDup_mkeys_mset|].
  intros k. rewrite mkeys_mset. case_decide; [by apply Hk|]. rewrite elem_of_app, list_elem_of_singleton.
  intros [?| ->]; [by apply Hk|]. exists s, d. split; [done|].
  destruct (Hok x Hx) as [Hos Hod]. auto.
Qed.

Lemma mget_filter_keys (m f : PairMap) k :
  mget (measured_mtu m f) k = if mhas f k then mget m k else None.
Proof.
  unfold measured_mtu. induction m as [|[k' v] m IH]; simpl; [by case_match|].
  destruct (mhas f k') eqn:E; simpl; case_decide as Ek; subst; rewrite ?E, ?IH; try done. by rewrite E.
Qed.

Lemma elem_of_mkeys_filter (m f : PairMap) k :
  k ∈ mkeys (measured_mtu m f) <-> k ∈ mkeys m /\ k ∈ mkeys f.
Proof.
  pose proof (mget_None (measured_mtu m f) k) as H1. pose proof (mget_None m k) as H2.
  rewrite mget_filter_keys in H1. pose proof (mhas_spec f k) as H3.
  destruct (decide (k ∈ mkeys (measured_mtu m f))), (decide (k ∈ mkeys m)), (decide (k ∈ mkeys f)),
    (mhas f k); try tauto; naive_solver.
Qed.

Section FoldSpec.
Context `{LocaleHost}.
Context (fail rtt loss mtu probe recent : PairMap).
Hypothesis (Hfail : keyed fail) (Hrtt : keyed rtt) (Hloss : keyed loss) (Hmtu : keyed mtu).

Abbreviation cell_of := (matrix_cell fail rtt loss mtu probe recent).

Lemma matrix_pairs_spec k :
  k ∈ matrix_pairs fail rtt loss mtu <->
  k ∈ mkeys fail \/ k ∈ mkeys rtt \/ k ∈ mkeys loss \/ (k ∈ mkeys mtu /\ k ∈ mkeys fail).
Proof. unfold matrix_pairs. by rewrite elem_of_set_of_list, !elem_of_app, elem_of_mkeys_filter. Qed.

Lemma matrix_pairs_keys k :
  k ∈ matrix_pairs fail rtt loss mtu -> exists s d, k = pair_key s d /\ nul_free s /\ nul_free d.
Proof.
  rewrite matrix_pairs_spec. intros [Hk|[Hk|[Hk|[Hk _]]]];
    [by apply Hfail|by apply Hrtt|by apply Hloss|by apply Hmtu].
Qed.

Lemma cells_perm proto at_ :
  m_cells (foldMatrix proto fail rtt loss at_ mtu probe recent)
  ≡ₚ cell_of <$> matrix_pairs fail rtt loss mtu.
Proof. apply sort_leb_perm. Qed.

Lemma cell_of_pair s d : nul_free s -> nul_free d ->
  source (cell_of (pair_key s d)) = s /\ destination (cell_of (pair_key s d)) = d.
Proof. intros Hs Hd. unfold matrix_cell. cbn. by rewrite split_pair_key. Qed.

Lemma cells_of_pairs proto at_ c :
  c ∈ m_cells (foldMatrix proto fail rtt loss at_ mtu probe recent) <->
  exists s d, nul_free s /\ nul_free d /\ pair_key s d ∈ matrix_pairs fail rtt loss mtu /\ c = cell_of (pair_key s d).
Proof.
  rewrite cells_perm, list_elem_of_fmap. split.
  - intros (k & -> & Hk). destruct (matrix_pairs_keys k Hk) as (s & d & -> & Hs & Hd). by exists s, d.
  - intros (s & d & _ & _ & Hk & ->). eauto.
Qed.

Lemma cells_distinct proto at_ :
  NoDup ((fun c => (source c, destination c)) <$> m_cells (foldMatrix proto fail rtt loss at_ mtu probe recent)).
Proof.
  rewrite cells_perm, <- list_fmap_compose.
  apply (NoDup_fmap_2_strong _ _); [|apply NoDup_set_of_list].
  intros k k' Hk Hk' E. cbn in E.
  destruct (matrix_pairs_keys k Hk) as (s & d & -> & Hs & Hd).
  destruct (matrix_pairs_keys k' Hk') as (s' & d' & -> & Hs' & Hd').
  rewrite !split_pair_key in E by done. by injection E as -> ->.
Qed.

Lemma nodes_spec proto at_ n :
  n ∈ m_nodes (foldMatrix proto fail rtt loss at_ mtu probe recent) <->
  exists k, k ∈ matrix_pairs fail rtt loss mtu /\ (n = (split_key k).1 \/ n = (split_key k).2).
Proof.
  unfold foldMatrix, matrix_pairs. cbn [m_nodes]. rewrite elem_of_sort_leb.
  set (l := mkeys fail ++ _). setoid_rewrite elem_of_set_of_list.
  rewrite <- (reverse_involutive l). generalize (reverse l). clear l. intros l.
  rewrite <- fold_left_rev_right. rewrite rev_reverse, reverse_involutive.
  setoid_rewrite elem_of_reverse.
  induction l as [|k l IH]; simpl; [set_solver|]. rewrite !elem_of_sadd, IH. set_solver.
Qed.

Lemma nodes_NoDup l : NoDup (fold_left (fun ns k => sadd (sadd ns (split_key k).1) (split_key k).2) l []).
Proof. apply (fold_left_inv NoDup); [constructor|]. intros. by do 2 apply NoDup_sadd. Qed.

Lemma nodes_sorted proto at_ :
  StronglySorted (fun a b => sltb a b = true) (m_nodes (foldMatrix proto fail rtt loss at_ mtu probe recent)).
Proof.
  unfold foldMatrix. cbn [m_nodes]. set (ns := fold_left _ _ _).
  assert (Hs : StronglySorted (fun a b => negb (sltb b a) = true) (sort_leb (fun a b => negb (sltb b a)) ns)).
  { apply (sort_leb_sorted _ (fun _ => True)); [| |by apply Forall_forall].
    - intros x y _ _. destruct (sltb y x) eqn:E; [right|by left]. by rewrite (sltb_asym _ _ E).
    - intros x y z _ _ _ Hxy Hyz. apply negb_true_iff in Hxy, Hyz. apply negb_true_iff.
      destruct (sltb z x) eqn:E; [|done]. destruct (sltb x y) eqn:F.
      + by rewrite (sltb_trans _ _ _ E F) in Hyz.
      + by rewrite (sltb_total _ _ F Hxy), Hyz in E. }
  assert (Hd : NoDup (sort_leb (fun a b => negb (sltb b a)) ns)).
  { rewrite sort_leb_perm. apply nodes_NoDup. }
  induction Hs as [|x l Hs IH Hf]; [constructor|]. apply NoDup_cons in Hd as [Hx Hd].
  constructor; [by apply IH|]. rewrite Forall_forall in *. intros y Hy.
  specialize (Hf y Hy). apply negb_true_iff in Hf. destruct (sltb x y) eqn:E; [done|].
  by rewrite (sltb_total _ _ E Hf) in Hx.
Qed.
End FoldSpec.

(** C10: The matrix of a past instant is exactly what Prometheus answered: one cell per pair some answer
    names - a path MTU counting only for a pair with a result in the window - each pair once, every
    reading taken from its own answer (the probe's own MTU only beside a path MTU), and the nodes are the ends of the cells, each once in order. *)
Theorem foldMatrix_spec `{LocaleHost} proto at_ fail rtt loss mtu probe recent
    (Hfail : keyed fail) (Hrtt : keyed rtt) (Hloss : keyed loss) (Hmtu : keyed mtu) :
  let m := foldMatrix proto fail rtt loss at_ mtu probe recent in
  (forall s d, nul_free s -> nul_free d ->
     let k := pair_key s d in
     (k ∈ mkeys fail \/ k ∈ mkeys rtt \/ k ∈ mkeys loss <->
      exists c, c ∈ m_cells m /\ source c = s /\ destination c = d)) /\
  NoDup ((fun c => (source c, destination c)) <$> m_cells m) /\
  Forall (fun c => let k := pair_key (source c) (destination c) in
            failRatio c = mget fail k /\ lossRatio c = mget loss k /\
            rttP95 c = (fun v => nround (v * int 1000000000)%num) <$> mget rtt k /\
            mtuBytes c = (if mhas fail k then mget mtu k else None) /\
            probeMtuBytes c = (if mhas fail k && mhas mtu k then mget probe k else None) /\
            recentFailRatio c = mget recent k) (m_cells m) /\
  (forall n, n ∈ m_nodes m <-> exists c, c ∈ m_cells m /\ (n = source c \/ n = destination c)) /\
  StronglySorted (fun a b => sltb a b = true) (m_nodes m).
Proof.
  intros m. pose proof (cells_of_pairs fail rtt loss mtu probe recent Hfail Hrtt Hloss Hmtu proto at_) as Hc.
  fold m in Hc. split_and!.
  - intros s d Hs Hd k. split.
    + intros Hk. exists (matrix_cell fail rtt loss mtu probe recent k). split.
      * apply Hc. exists s, d. split_and!; try done. apply matrix_pairs_spec. tauto.
      * by apply cell_of_pair.
    + intros (c & Hin & <- & <-). apply Hc in Hin as (s' & d' & Hs' & Hd' & Hk & ->).
      destruct (cell_of_pair fail rtt loss mtu probe recent s' d' Hs' Hd') as [Es Ed].
      unfold k. rewrite Es, Ed. apply matrix_pairs_spec in Hk. tauto.
  - by apply cells_distinct.
  - apply Forall_forall. intros c Hin. apply Hc in Hin as (s & d & Hs & Hd & Hk & ->). cbn zeta.
    destruct (cell_of_pair fail rtt loss mtu probe recent s d Hs Hd) as [-> ->].
    unfold matrix_cell. cbn [failRatio lossRatio rttP95 mtuBytes probeMtuBytes recentFailRatio].
    rewrite mget_filter_keys. split_and!; try done. destruct (mhas fail (pair_key s d)); [|done]. cbn [andb].
    unfold mhas. by destruct (mget mtu (pair_key s d)).
  - intros n. unfold m. rewrite nodes_spec by done. split.
    + intros (k & Hk & Hn). exists (matrix_cell fail rtt loss mtu probe recent k). split; [|done].
      rewrite cells_perm. by apply list_elem_of_fmap_2.
    + intros (c & Hin & Hn). rewrite cells_perm in Hin. apply list_elem_of_fmap in Hin as (k & -> & Hk).
      by exists k.
  - by apply nodes_sorted.
Qed.

(** Two pairs: one with a result and every other reading, one that only a path MTU and a probe name. *)
Definition answer (v : Z) (ends : list (string * string)) : PairMap :=
  vectorByPair (PromVector ((fun e => {| s_source := Some (js e.1); s_destination := Some (js e.2); s_value := VNum (int v) |}) <$> ends)).

Lemma foldMatrix_spec_witness :
  let ab := [("a", "b")]%string in
  let both := [("a", "b"); ("b", "a")]%string in
  let m := @foldMatrix unit_locale tcp (answer 1 ab) (answer 2 ab) (answer 0 ab) None (answer 1400 both) (answer 1500 both) (answer 3 ab) in
  NoDup ((fun c => (source c, destination c)) <$> m_cells m) /\
  (fun c => (source c, mtuBytes c, probeMtuBytes c, recentFailRatio c)) <$> m_cells m
  = [(js "a", Some (int 1400), Some (int 1500), Some (int 3))].
Proof.
  intros ab both m.
  assert (Hk : forall v l, (l = ab \/ l = both) -> keyed (answer v l)).
  { intros v l Hl. apply vectorByPair_keyed. destruct Hl as [-> | ->]; repeat constructor; cbn; intros ? [= <-];
      apply not_elem_of_cons; (split; [discriminate|apply not_elem_of_nil]). }
  split; [|vm_compute; reflexivity].
  exact (proj1 (proj2 (@foldMatrix_spec unit_locale tcp None _ _ _ _ (answer 1500 both) (answer 3 ab)
    (Hk 1 ab (or_introl eq_refl)) (Hk 2 ab (or_introl eq_refl)) (Hk 0 ab (or_introl eq_refl)) (Hk 1400 both (or_intror eq_refl))))).
Defined.

(** ** Errors and the plan *)

Lemma omap_answers query (l : list (option jstr)) :
  omap promqlError ((fun o => match o with Some s => query s | None => PromOther end) <$> l)
  = omap (fun s => promqlError (query s)) (omap (fun o => o) l).
Proof. induction l as [|[s|] l IH]; csimpl; by rewrite ?IH. Qed.

Lemma omap_cons {A B} (f : A -> option B) x (l : list A) :
  omap f (x :: l) = match f x with Some y => y :: omap f l | None => omap f l end.
Proof. done. Qed.

(** An answer of Prometheus that reports an error is never drawn as a matrix: reading a past
    instant fails exactly when one of the protocol's queries came back as an error with a text, and
    then with the text of the first such answer in query order; otherwise it succeeds, an error
    without a text counting as one that says so. *)
Theorem getMatrixAt_errors `{LocaleHost} proto at_ query :
  let q := matrixQueries proto in
  let errors := omap (fun s => promqlError (query s))
                  (q_fail q :: omap (fun o => o) [q_rtt q; q_loss q; q_mtu q; q_probe q; q_recent q]) in
  match getMatrixAt proto at_ query with
  | inl err => head errors = Some err /\ err <> []
  | inr m => (errors = [] \/ head errors = Some []) /\ m_protocol m = proto
  end.
Proof.
  intros q errors.
  assert (E : omap promqlError
            (query (q_fail q) :: ((fun o => match o with Some s => query s | None => PromOther end)
                <$> [q_rtt q; q_loss q; q_mtu q; q_probe q; q_recent q])) = errors).
  { unfold errors. rewrite !omap_cons, omap_answers. done. }
  unfold getMatrixAt. fold q. cbn zeta. rewrite E.
  destruct errors as [|e es]; [by auto|]. destruct (seqb e []) eqn:Es.
  - apply seqb_eq in Es as ->. by auto.
  - apply seqb_neq in Es. done.
Qed.

Lemma elem_of_plan_set dests d : d <> [] -> d ∈ plan_set dests <-> VStr d ∈ dests.
Proof.
  intros Hd. unfold plan_set. induction dests as [|v l IH] using rev_ind; [simpl; set_solver|].
  rewrite fold_left_app, elem_of_app, list_elem_of_singleton. cbn [fold_left].
  destruct v; rewrite ?IH; try by (split; [auto|intros [?|[=]]; done]).
  destruct (seqb s []) eqn:E.
  - apply seqb_eq in E as ->. rewrite IH. split; [auto|]. by intros [?|[= ->]].
  - rewrite elem_of_sadd, IH. split; [intros [?| ->]; auto|]. intros [?|[= ->]]; auto.
Qed.

Lemma mget_read_plan (fields : list (jstr * value)) (acc : ProbePlan) (src : jstr) :
  NoDup (mkeys fields) ->
  mget (fold_left (fun plan e => match e.2 with
                                 | VArr dests => mset plan e.1 (plan_set dests)
                                 | _ => plan
                                 end) fields acc) src
  = match mget fields src with Some (VArr dests) => Some (plan_set dests) | _ => mget acc src end.
Proof.
  revert acc; induction fields as [|[k v] fs IH]; intros acc; simpl; [done|].
  unfold mkeys. csimpl. intros [Hk Hd]%NoDup_cons. rewrite IH by done.
  destruct (decide (src = k)) as [->|Hne].
  - apply (proj2 (mget_None fs k)) in Hk. rewrite Hk. destruct v; try done. by rewrite mget_mset_eq.
  - assert (mget (match v with VArr dests => mset acc k (plan_set dests) | _ => acc end) src = mget acc src) as ->;
      [|done]. destruct v; try done. by rewrite mget_mset_ne.
Qed.

(** A cell reads as not probed only when the plan says so in so many words: the source has a row, the
    row is a list, and the destination is not in it. Anything unreadable keeps alarming. *)
Theorem isPlanExcluded_spec (fields : list (jstr * value)) (src dst : jstr) :
  NoDup (mkeys fields) -> dst <> [] ->
  isPlanExcluded (readProbePlan (VObj fields)) src dst = true <->
  src <> dst /\ exists dests, mget fields src = Some (VArr dests) /\ VStr dst ∉ dests.
Proof.
  intros Hnd Hdst. unfold isPlanExcluded, readProbePlan. rewrite mget_read_plan by done.
  destruct (seqb src dst) eqn:E; [apply seqb_eq in E; naive_solver|]. apply seqb_neq in E.
  destruct (mget fields src) as [v|]; [|naive_solver]. destruct v; try naive_solver.
  rewrite negb_true_iff. pose proof (shas_spec (plan_set l) dst) as Hs.
  pose proof (elem_of_plan_set l dst Hdst) as Hp. destruct (shas (plan_set l) dst); naive_solver.
Qed.
