(* ===== verification/MatrixZoom.v ===== *)
(** The arithmetic of the matrix grid's zoom ([web/src/lib/matrix-zoom.ts]): its natural geometry, the
    offered steps, the step at which a fleet fits its box, the metrics handed to CSS, and the prefix
    the headers drop. *)
From S2P Require Import Prelude JsNum JsString JsCollections JsFormat.
Local Open Scope Z_scope.

Definition COLUMN_WIDTH : Z := 96.
Definition CELL_HEIGHT : Z := 48.
Definition CELL_GAP : Z := 4.
Definition LABEL_WIDTH : Z := 144.
Definition LABEL_MIN_WIDTH : Z := 88.

Definition FONT_HERO : number := int 13.
Definition FONT_SUB : number := dec 105 1.
Definition FONT_LABEL : number := int 11.
Definition MIN_FONT : number := int 9.

Definition ZOOM_STEPS : list number :=
  [dec 4 1; dec 5 1; dec 6 1; dec 75 2; dec 9 1; int 1; dec 125 2; dec 15 1].

Definition MIN_ZOOM : number := dec 4 1.
Definition MAX_ZOOM : number := dec 15 1.

Definition usableScale (scale : number) : number :=
  if negb (isFinite scale) then int 1 else nmin (nmax scale MIN_ZOOM) MAX_ZOOM.

Definition usableCount (nodes : number) : number :=
  if isFinite nodes && (nodes >? int 0)%num then nfloor nodes else int 0.

Definition label_width (s : number) : number := nmax (nround (int LABEL_WIDTH * s)%num) (int LABEL_MIN_WIDTH).

Definition gridWidth (nodes scale : number) : number :=
  let s := usableScale scale in
  (label_width s + usableCount nodes * (nround (int COLUMN_WIDTH * s) + int CELL_GAP))%num.

Definition gridHeight (nodes scale : number) : number :=
  let s := usableScale scale in
  let row := (nround (int CELL_HEIGHT * s) + int CELL_GAP)%num in
  (row * (usableCount nodes + int 1))%num.

Definition bound_height (availableHeight : option number) : bool :=
  match availableHeight with Some h => isFinite h && (h >? int 0)%num | None => false end.

(** The loop's three tests on one step, the largest first. *)
Definition step_fits (nodes available : number) (availableHeight : option number) (step : number) : bool :=
  negb (step >? int 1)%num && negb (gridWidth nodes step >? available)%num &&
  negb (bound_height availableHeight && (gridHeight nodes step >? default (int 0) availableHeight)%num).

Definition fitScale (nodes available : number) (availableHeight : option number) : number :=
  if negb (isFinite available) || (available <=? int 0)%num then int 1
  else default MIN_ZOOM (List.find (step_fits nodes available availableHeight) (rev ZOOM_STEPS)).

Inductive Direction := zoom_in | zoom_out.

Definition zoomStep (scale : number) (direction : Direction) : number :=
  let s := usableScale scale in
  match direction with
  | zoom_in => default MAX_ZOOM (List.find (fun step => step >? s + dec 1 6)%num ZOOM_STEPS)
  | zoom_out => default MIN_ZOOM (List.find (fun step => step <? s - dec 1 6)%num (rev ZOOM_STEPS))
  end.

Inductive CellDensity := density_full | density_compact | density_tile.

Definition cellDensity (scale : number) : CellDensity :=
  let s := usableScale scale in
  if (s >=? dec 75 2)%num then density_full
  else if (s >=? dec 5 1)%num then density_compact
  else density_tile.

Record GridMetrics := {
  columnWidth : number;
  cellHeight : number;
  labelWidth : number;
  fontHero : number;
  fontSub : number;
  fontLabel : number;
  density : CellDensity;
  vars : list (jstr * jstr);
}.

Definition fontAt (base scale : number) : number :=
  nmax (nround (base * scale * int 10) / int 10)%num MIN_FONT.

Definition px (x : number) : jstr := num_to_string x ++ js "px".

Definition gridMetrics (scale : number) : GridMetrics :=
  let s := usableScale scale in
  let columnWidth := nround (int COLUMN_WIDTH * s)%num in
  let cellHeight := nround (int CELL_HEIGHT * s)%num in
  let labelWidth := label_width s in
  let fontHero := fontAt FONT_HERO s in
  let fontSub := fontAt FONT_SUB s in
  let fontLabel := fontAt FONT_LABEL s in
  {| columnWidth := columnWidth; cellHeight := cellHeight; labelWidth := labelWidth;
     fontHero := fontHero; fontSub := fontSub; fontLabel := fontLabel; density := cellDensity s;
     vars := [(js "--m-col-w", px columnWidth); (js "--m-cell-h", px cellHeight);
              (js "--m-label-w", px labelWidth); (js "--m-font-hero", px fontHero);
              (js "--m-font-sub", px fontSub); (js "--m-font-label", px fontLabel)] |}.

(** ** The shared prefix *)

Fixpoint common_prefix (a b : jstr) : jstr :=
  match a, b with
  | x :: a', y :: b' => if x =? y then x :: common_prefix a' b' else []
  | _, _ => []
  end.

(** The last separator, [Math.max(prefix.lastIndexOf("-"), prefix.lastIndexOf("."))]; [None] is -1. *)
Definition last_separator (p : jstr) : option nat :=
  match lastIndexOf p (js "-"), lastIndexOf p (js ".") with
  | Some i, Some j => Some (max i j)
  | Some i, None | None, Some i => Some i
  | None, None => None
  end.

Definition lcpToSeparator (names : list jstr) : jstr :=
  match names with
  | [] => []
  | n :: ns =>
      let prefix := fold_left common_prefix ns n in
      if seqb prefix [] then []
      else match last_separator prefix with
           | None => []
           | Some cut =>
               if (cut <? 3)%nat then []
               else
                 let prefix := take (S cut) prefix in
                 let shortest := fold_left min (length <$> ns) (length n) in
                 if (2 + length prefix <=? shortest)%nat then prefix else []
           end
  end.

(** The first token of a name: up to its first separator that is not at the start. *)
Definition family_key (name : jstr) : jstr :=
  let cuts := List.filter (fun i => 0 <? i)%nat (omap (fun o => o) [indexOf name (js "-"); indexOf name (js ".")]) in
  match cuts with
  | [] => name
  | i :: rest => take (fold_left min rest i) name
  end.

Definition family_step (families : list (jstr * list jstr)) (name : jstr) : list (jstr * list jstr) :=
  let key := family_key name in
  mset families key (default [] (mget families key) ++ [name]).

Definition best_family (families : list (list jstr)) : list jstr :=
  fold_left (fun best f => if (length best <? length f)%nat then f else best) families [].

Definition sharedNamePrefix (names : list jstr) : jstr :=
  if (length names <? 2)%nat then []
  else
    let all := lcpToSeparator names in
    if negb (seqb all []) then all
    else
      let best := best_family (mvalues (fold_left family_step names [])) in
      if (length best <? 2)%nat || (length best * 2 <? length names)%nat then []
      else lcpToSeparator best.

(** ** Header labels *)

Definition AVERAGE_GLYPH_EM : number := dec 62 2.
Definition HEADER_PADDING : number := int 8.

Definition fitsHeader (text : jstr) (boxWidth fontSize : number) : bool :=
  if negb (isFinite boxWidth) || negb (isFinite fontSize) || (fontSize <=? int 0)%num then false
  else
    let usable := (boxWidth - HEADER_PADDING)%num in
    if (usable <=? int 0)%num then false
    else (len text * fontSize * AVERAGE_GLYPH_EM <=? usable)%num.

Definition elideForHeaders (names : list jstr) (prefix : jstr) (boxWidth fontSize : number) : jstr :=
  if seqb prefix [] then []
  else
    let longest := fold_left (fun m n => if (length m <? length n)%nat then n else m) names [] in
    if fitsHeader longest boxWidth fontSize then [] else prefix.

Definition headerLabel (name elide : jstr) (boxWidth fontSize : number) : jstr :=
  if seqb elide [] || negb (startsWith name elide) || (length name <=? length elide)%nat then name
  else
    let rest := slice_from name (length elide) in
    if fitsHeader (js "…" ++ rest) boxWidth fontSize then js "…" ++ rest else rest.

Definition heightBudget (clientHeight maxHeight : number) : number :=
  let client := if isFinite clientHeight && (clientHeight >? int 0)%num then clientHeight else int 0 in
  if negb (isFinite maxHeight) || (maxHeight <=? int 0)%num then client
  else nmax client maxHeight.

(** ** Fitting *)

#[local] Opaque dec.

Lemma find_first {A} (f : A -> bool) l x :
  List.find f l = Some x -> exists l1 l2, l = l1 ++ x :: l2 /\ f x = true /\ Forall (fun y => f y = false) l1.
Proof.
  induction l as [|y l IH]; simpl; [done|]. destruct (f y) eqn:E.
  - intros [= ->]. by exists [], l.
  - intros H. destruct (IH H) as (l1 & l2 & -> & Hx & Hl). exists (y :: l1), l2. split_and!; [done..|by constructor].
Qed.

Fixpoint descending (l : list number) : bool :=
  match l with x :: l' => forallb (fun y => y <? x)%num l' && descending l' | [] => true end.

Lemma descending_sorted l : descending l = true -> StronglySorted (fun x y => (y <? x)%num = true) l.
Proof.
  induction l as [|x l IH]; simpl; [constructor|]. intros [Hx Hl]%andb_true_iff.
  constructor; [by apply IH|]. by apply forallb_Forall.
Qed.

Lemma steps_descending : StronglySorted (fun x y => (y <? x)%num = true) (rev ZOOM_STEPS).
Proof. apply descending_sorted. vm_compute. reflexivity. Qed.

Lemma steps_finite s : s ∈ ZOOM_STEPS -> isFinite s = true.
Proof.
  intros Hs. assert (forallb isFinite ZOOM_STEPS = true) as H by (vm_compute; reflexivity).
  rewrite forallb_Forall, Forall_forall in H. by apply H.
Qed.

Lemma fitScale_find nodes available h :
  isFinite available = true -> (available >? int 0)%num = true ->
  fitScale nodes available h = default MIN_ZOOM (List.find (step_fits nodes available h) (rev ZOOM_STEPS)).
Proof.
  intros Ha Hpos. unfold fitScale. rewrite Ha. cbn [negb orb].
  assert ((available <=? int 0)%num = false) as ->; [|reflexivity].
  destruct available as [| |z]; [discriminate..|]. change (int 0) with (Fin 0) in *. rewrite nleb_fin.
  cbn in Hpos. lia.
Qed.

(** Fit to view is the best offered scale: for a usable box the answer is an offered step of at
    most 1; if any such step draws the whole grid inside the box, width and measured height alike, the
    answer does too and is the largest that does; if none does it is the floor. *)
Theorem fitScale_best nodes available h
    (Ha : isFinite available = true) (Hpos : (available >? int 0)%num = true) :
  let r := fitScale nodes available h in
  r ∈ ZOOM_STEPS /\ (r <=? int 1)%num = true /\
  (forall step, step ∈ ZOOM_STEPS -> step_fits nodes available h step = true ->
     step_fits nodes available h r = true /\ (step <=? r)%num = true) /\
  (step_fits nodes available h r = true \/ r = MIN_ZOOM).
Proof.
  intros r. pose proof (fitScale_find nodes available h Ha Hpos) as Hr. fold r in Hr. clearbody r.
  destruct (List.find _ _) as [s|] eqn:E; cbn in Hr.
  - change (Datatypes.id s) with s in Hr. destruct (find_first _ _ _ E) as (l1 & l2 & Hl & Hs & Hf).
    assert (Hin : s ∈ ZOOM_STEPS).
    { apply elem_of_reverse. rewrite <- rev_reverse, Hl. apply elem_of_app. right. apply list_elem_of_here. }
    rewrite Hr. split; [exact Hin|]. split; [|split; [|by left]].
    + apply andb_true_iff in Hs as [[Hs _]%andb_true_iff _]. pose proof (steps_finite s Hin) as Hfin.
      destruct s as [| |z]; [discriminate..|]. unfold int in *. rewrite nleb_fin. cbn in Hs. lia.
    + intros step Hstep Hfits. split; [done|]. apply elem_of_reverse in Hstep.
      rewrite <- rev_reverse, Hl in Hstep. pose proof steps_descending as Hd. rewrite Hl in Hd.
      apply elem_of_app in Hstep as [H1|[->|H2]%elem_of_cons].
      * rewrite Forall_forall in Hf. by rewrite (Hf _ H1) in Hfits.
      * by apply nleb_refl, steps_finite.
      * apply StronglySorted_app_1_r in Hd. inversion Hd as [|?? _ Hlt]; subst.
        rewrite Forall_forall in Hlt. unfold nleb. by rewrite (Hlt _ H2).
  - rewrite Hr. split; [apply list_elem_of_here|]. split; [vm_compute; reflexivity|]. split; [|by right].
    intros step Hstep Hfits. exfalso. apply elem_of_reverse in Hstep. rewrite <- rev_reverse in Hstep.
    apply list_elem_of_In in Hstep. pose proof (List.find_none _ _ E _ Hstep). congruence.
Qed.

Lemma fitScale_best_witness :
  fitScale (int 10) (int 1050) (Some (int 700)) ∈ ZOOM_STEPS.
Proof.
  apply (fitScale_best (int 10) (int 1050) (Some (int 700))); [reflexivity|vm_compute; reflexivity].
Defined.

(** ** What reaches CSS *)

Definition between (lo hi : Z) (x : number) : Prop := exists z, x = Fin z /\ lo * U <= z <= hi * U.

Lemma usableScale_range scale : exists z, usableScale scale = Fin z /\ 2 * U <= 5 * z /\ 2 * z <= 3 * U.
Proof.
  assert (exists m, MIN_ZOOM = Fin m /\ 2 * U <= 5 * m /\ 2 * m <= 3 * U) as (m & Hm & Hm1 & Hm2).
  { eexists. split; [vm_compute; reflexivity|]. split; vm_compute; discriminate. }
  assert (exists M, MAX_ZOOM = Fin M /\ 2 * M = 3 * U) as (M & HM & HM2).
  { eexists. split; [vm_compute; reflexivity|]. vm_compute. reflexivity. }
  unfold usableScale. rewrite Hm, HM. clear Hm HM. pose proof U_pos.
  destruct scale as [| |z]; cbn [isFinite negb]; [exists (1 * U); split; [reflexivity|lia]..|].
  unfold nmax, nmin. cbn. destruct (Z.ltb_spec z m); cbn.
  - destruct (Z.ltb_spec M m); eexists; (split; [reflexivity|lia]).
  - destruct (Z.ltb_spec M z); eexists; (split; [reflexivity|lia]).
Qed.

Lemma nround_between lo hi x : between lo hi x -> exists k, nround x = int k /\ lo <= k <= hi.
Proof.
  intros (z & -> & Hz). pose proof U_pos. exists ((2 * z + U) / (2 * U)). split; [done|]. split.
  - apply Z.div_le_lower_bound; lia.
  - assert ((2 * z + U) / (2 * U) < hi + 1); [|lia]. apply Z.div_lt_upper_bound; lia.
Qed.

Lemma nmul_between a b lo hi :
  safe lo -> safe hi -> lo * U * U <= a * b <= hi * U * U -> between lo hi (Fin a * Fin b)%num.
Proof.
  intros Hlo Hhi Hab. pose proof U_pos. unfold nmul.
  apply round64_between; [lia|by apply repr_int|by apply repr_int|by apply safe_lt_OVERFLOW|
                          by apply safe_lt_OVERFLOW|lia].
Qed.

Lemma scaled_between a lo hi scale :
  0 < a -> safe lo -> safe hi -> 5 * lo <= 2 * a -> 3 * a <= 2 * hi ->
  exists k, nround (int a * usableScale scale)%num = int k /\ lo <= k <= hi.
Proof.
  intros Ha Hlo Hhi H1 H2. destruct (usableScale_range scale) as (z & -> & Hz1 & Hz2). pose proof U_pos.
  apply nround_between. destruct (nmul_int_between a z lo hi) as (q & -> & Hq); [done|done|nia|].
  by exists q.
Qed.

Lemma fontAt_between b scale :
  0 < b <= 13 * U -> exists z, fontAt (Fin b) (usableScale scale) = Fin z /\ 9 * U <= z <= 20 * U.
Proof.
  intros Hb. destruct (usableScale_range scale) as (z & -> & Hz1 & Hz2). pose proof U_pos. unfold fontAt.
  destruct (nmul_between b z 0 20) as (p & -> & Hp); [unfold safe; lia..|nia|].
  destruct (nmul_between p (10 * U) 0 200) as (q & Hq & Hq'); [unfold safe; lia..|nia|].
  unfold int at 1. rewrite Hq. destruct (nround_between 0 200 (Fin q)) as (k & -> & Hk); [by exists q|].
  destruct (ndiv_int_between (k * U) 10 0 20) as (d & Hd & Hd'); [lia|unfold safe; lia..|nia|].
  fold (int k) in Hd. rewrite Hd. unfold MIN_FONT, int, nmax. cbn [isNaN orb nltb].
  destruct (Z.ltb_spec d (9 * U)); eexists; (split; [reflexivity|lia]).
Qed.

Lemma FONT_SUB_fin : exists b, FONT_SUB = Fin b /\ 0 < b <= 13 * U.
Proof. eexists. split; [vm_compute; reflexivity|]. split; vm_compute; [reflexivity|discriminate]. Qed.

(** Whatever scale it is asked for - a NaN or an infinity included - the grid hands CSS drawable
    numbers: columns of 38 to 144 whole pixels, cells of 19 to 72, a label column of 88 to 216, and
    no text smaller than 9 or larger than 20 pixels. *)
Theorem gridMetrics_drawable scale :
  let m := gridMetrics scale in
  (exists k, columnWidth m = int k /\ 38 <= k <= 144) /\
  (exists k, cellHeight m = int k /\ 19 <= k <= 72) /\
  (exists k, labelWidth m = int k /\ 88 <= k <= 216) /\
  between 9 20 (fontHero m) /\ between 9 20 (fontSub m) /\ between 9 20 (fontLabel m).
Proof.
  intros m. unfold m, gridMetrics.
  cbn [columnWidth cellHeight labelWidth fontHero fontSub fontLabel].
  split; [apply scaled_between; unfold safe, COLUMN_WIDTH; lia|].
  split; [apply scaled_between; unfold safe, CELL_HEIGHT; lia|].
  split.
  { unfold label_width. destruct (scaled_between LABEL_WIDTH 57 216 scale) as (k & -> & Hk);
      [unfold safe, LABEL_WIDTH; lia..|]. rewrite nmax_int. eexists. split; [reflexivity|].
    unfold LABEL_MIN_WIDTH. lia. }
  pose proof U_pos. unfold FONT_HERO, FONT_LABEL.
  split; [apply fontAt_between; lia|]. split; [|apply fontAt_between; lia].
  destruct FONT_SUB_fin as (b & -> & Hb). by apply fontAt_between.
Qed.

(** ** The dropped prefix *)

Lemma common_prefix_l a b : exists r, a = common_prefix a b ++ r.
Proof.
  revert b; induction a as [|x a IH]; intros [|y b]; simpl; eauto.
  destruct (x =? y); simpl; [|eauto]. destruct (IH b) as [r Hr]. exists r. by rewrite <- Hr.
Qed.

Lemma common_prefix_r a b : exists r, b = common_prefix a b ++ r.
Proof.
  revert b; induction a as [|x a IH]; intros [|y b]; simpl; eauto.
  destruct (Z.eqb_spec x y) as [->|]; simpl; [|eauto]. destruct (IH b) as [r Hr]. exists r. by rewrite <- Hr.
Qed.

Lemma fold_common_prefix ns n :
  Forall (fun m => exists r, m = fold_left common_prefix ns n ++ r) (n :: ns).
Proof.
  revert n; induction ns as [|m ns IH]; intros n; simpl.
  - constructor; [exists []; by rewrite app_nil_r|constructor].
  - specialize (IH (common_prefix n m)). inversion IH as [|?? [r Hr] Hns]; subst.
    destruct (common_prefix_l n m) as [r1 H1]. destruct (common_prefix_r n m) as [r2 H2].
    constructor; [|constructor; [|done]].
    + exists (r ++ r1). rewrite app_assoc, <- Hr. done.
    + exists (r ++ r2). rewrite app_assoc, <- Hr. done.
Qed.

Lemma fold_min_le ns n : Forall (fun m => fold_left min ns n <= m)%nat (n :: ns).
Proof.
  revert n; induction ns as [|m ns IH]; intros n; simpl; [by repeat constructor|].
  specialize (IH (min n m)). inversion IH as [|?? H1 H2]; subst.
  constructor; [lia|]. constructor; [lia|done].
Qed.

Lemma last_separator_spec p cut :
  last_separator p = Some cut -> exists c, p !! cut = Some c /\ (c = 45 \/ c = 46).
Proof.
  assert (H : forall c i, lastIndexOf p [c] = Some i -> p !! i = Some c).
  { intros c i Hi. apply lastIndexOf_unit in Hi as (a & b & -> & _ & <-). by rewrite list_lookup_middle. }
  unfold last_separator. change (js "-") with [45]. change (js ".") with [46].
  destruct (lastIndexOf p [45]) as [i|] eqn:Ei, (lastIndexOf p [46]) as [j|] eqn:Ej; intros [= <-].
  - destruct (Nat.max_spec i j) as [[_ ->]|[_ ->]]; eauto.
  - eauto.
  - eauto.
Qed.

(** The rule of one family: a prefix worth dropping is shared by every name, is cut at a separator, is
    at least four characters long and leaves at least two on every name. *)
Lemma lcpToSeparator_sound names p :
  lcpToSeparator names = p -> p <> [] ->
  (exists c, last p = Some c /\ (c = 45 \/ c = 46)) /\ (4 <= length p)%nat /\
  Forall (fun n => startsWith n p = true /\ (length p + 2 <= length n)%nat) names.
Proof.
  unfold lcpToSeparator. destruct names as [|n ns]; [intros <-; done|].
  destruct (seqb _ []); [intros <-; done|]. set (q := fold_left common_prefix ns n).
  destruct (last_separator q) as [cut|] eqn:Ec; [|intros <-; done].
  destruct (Nat.ltb_spec cut 3); [intros <-; done|].
  destruct (Nat.leb_spec (2 + length (take (S cut) q)) (fold_left min (length <$> ns) (length n))) as [Hs|];
    [|intros <-; done].
  intros <- _. destruct (last_separator_spec q cut Ec) as (c & Hc & Hsep).
  pose proof (lookup_lt_Some _ _ _ Hc) as Hlt. rewrite length_take in *.
  split_and!.
  - exists c. split; [|done]. rewrite last_lookup, length_take.
    replace (pred (S cut `min` length q)) with cut by lia. rewrite lookup_take_lt by lia. done.
  - lia.
  - pose proof (fold_common_prefix ns n) as Hp. pose proof (fold_min_le (length <$> ns) (length n)) as Hm.
    change (length n :: (length <$> ns)) with (length <$> (n :: ns)) in Hm. rewrite Forall_fmap in Hm.
    rewrite Forall_forall in *. intros m Hin. destruct (Hp m Hin) as [r Hr]. fold q in Hr.
    specialize (Hm m Hin). cbn in Hm. split; [|lia].
    apply startsWith_spec. exists (drop (S cut) q ++ r). rewrite app_assoc, take_drop. done.
Qed.

Lemma best_family_elem fs : best_family fs <> [] -> best_family fs ∈ fs.
Proof.
  unfold best_family.
  assert (H : forall acc, fold_left (fun best f => if (length best <? length f)%nat then f else best) fs acc ∈ acc :: fs).
  { induction fs as [|g fs IH]; intros acc; simpl; [constructor|].
    specialize (IH (if (length acc <? length g)%nat then g else acc)). destruct (length acc <? length g)%nat; set_solver. }
  specialize (H []). intros Hne. apply elem_of_cons in H as [H|H]; [by rewrite H in Hne|done].
Qed.

Definition add_member (o : option (list jstr)) (name : jstr) : list jstr := default [] o ++ [name].

Lemma family_entry l o :
  fold_left (fun o x => Some (add_member o x)) l o
  = match l with [] => o | _ => Some (default [] o ++ l) end.
Proof.
  revert o; induction l as [|x l IH]; intros o; simpl; [done|]. rewrite IH. unfold add_member.
  destruct l; simpl; [done|]. by rewrite <- app_assoc.
Qed.

Lemma best_family_members names :
  let best := best_family (mvalues (fold_left family_step names [])) in
  best <> [] -> exists k, best = List.filter (fun n => bool_decide (family_key n = k)) names.
Proof.
  intros best Hne. apply best_family_elem in Hne. fold best in Hne.
  change family_step with (file_step family_key add_member) in Hne.
  rewrite file_values in Hne. apply list_elem_of_omap in Hne as (k & _ & Hk).
  exists k. unfold entry_of in Hk. rewrite family_entry in Hk. cbn in Hk.
  destruct (List.filter _ names); congruence.
Qed.

Lemma length_filter_le {A} (f g : A -> bool) l :
  Forall (fun x => g x = true) (List.filter f l) -> (length (List.filter f l) <= length (List.filter g l))%nat.
Proof.
  induction l as [|x l IH]; simpl; [done|]. destruct (f x); intros H.
  - inversion H as [|?? Hg Hl]; subst. rewrite Hg. simpl. specialize (IH Hl). lia.
  - specialize (IH H). destruct (g x); simpl; lia.
Qed.

(** The prefix the headers may drop belongs to at least half of the names, and on each of those it
    leaves a name of at least two characters. *)
Theorem sharedNamePrefix_sound names p :
  sharedNamePrefix names = p -> p <> [] ->
  (exists c, last p = Some c /\ (c = 45 \/ c = 46)) /\ (4 <= length p)%nat /\
  (length names <= 2 * length (List.filter (fun n => startsWith n p && (length p + 2 <=? length n)%nat) names))%nat.
Proof.
  assert (Hdrop : forall fam, Forall (fun n => startsWith n p = true /\ (length p + 2 <= length n)%nat) fam ->
            Forall (fun n => startsWith n p && (length p + 2 <=? length n)%nat = true) fam).
  { intros fam Hf. eapply Forall_impl; [exact Hf|]. intros n [Hs Hn].
    cbn beta. rewrite Hs. by apply Nat.leb_le. }
  unfold sharedNamePrefix. destruct (length names <? 2)%nat; [by intros <-|].
  destruct (seqb (lcpToSeparator names) []) eqn:Eall; cbn [negb].
  - set (best := best_family _). destruct (Nat.ltb_spec (length best) 2), (Nat.ltb_spec (length best * 2) (length names));
      cbn [orb]; [by intros <-..|]. intros Hp Hne. apply lcpToSeparator_sound in Hp as (Hl & H4 & Hf); [|done].
    split_and!; [done|done|].
    destruct (best_family_members names) as [k Hk].
    { fold best. intros E. assert (length best = 0%nat) by (by rewrite E). lia. }
    fold best in Hk.
    apply Hdrop in Hf. rewrite Hk in Hf. apply length_filter_le in Hf. rewrite <- Hk in Hf. lia.
  - intros Hp Hne. apply lcpToSeparator_sound in Hp as (Hl & H4 & Hf); [|done]. split_and!; [done|done|].
    apply Hdrop in Hf. rewrite List.forallb_filter_id by (by apply forallb_Forall). lia.
Qed.
