(* ===== verification/Prom.v ===== *)
(** Prometheus results on the Console page ([web/src/lib/prom-series.ts], [prom-table.ts]): what tells
    two series apart, their colours, and a result read as a table. *)
From S2P Require Import Prelude JsNum JsString JsCollections JsValue JsDate JsFormat Pagination.
Local Open Scope Z_scope.

(** [l.sort()]: by code units. *)
Definition unit_sort (l : list jstr) : list jstr := sort_leb (fun a b => negb (sltb b a)) l.

(** A label set: the own properties of the object, one per name. *)
Abbreviation Labels := (list (jstr * jstr)).

(** ** Identities *)

Definition NAME_LABEL : jstr := js "__name__".

Record SeriesIdentity := {
  name : jstr;
  distinguishing : Labels;
  text : jstr;
  full : Labels;
  fullText : jstr;
}.

Record SeriesIdentitySet := {
  series : list SeriesIdentity;
  shared_labels : Labels;
  sharedName : jstr;
  sharedText : jstr;
}.

Definition render_label (l : jstr * jstr) : jstr := l.1 ++ js "=" ++ [34] ++ l.2 ++ [34].

Definition render (name : jstr) (labels : Labels) : jstr :=
  if bool_decide (labels = []) then (if seqb name [] then js "{}" else name)
  else name ++ js "{" ++ join (js ", ") (render_label <$> labels) ++ js "}".

Section Identities.
Context `{LocaleHost}.

Definition sortedEntries (metric : Labels) : Labels :=
  js_sort (fun a b => localeCompare a.1 b.1) (List.filter (fun e => negb (seqb e.1 NAME_LABEL)) metric).

(** The label names of the whole result but the metric's own, in order. *)
Definition label_keys (metrics : list Labels) : list jstr :=
  unit_sort (List.filter (fun k => negb (seqb k NAME_LABEL)) (set_of_list (metrics ≫= mkeys))).

Definition shared_key (metrics : list Labels) (k : jstr) : bool :=
  match metrics with
  | [] => false
  | m0 :: _ => match mget m0 k with
               | None => false
               | Some first => forallb (fun m => bool_decide (mget m k = Some first)) metrics
               end
  end.

Definition shared_keys (metrics : list Labels) : list jstr := List.filter (shared_key metrics) (label_keys metrics).

Definition metric_name (m : Labels) : jstr := default [] (mget m NAME_LABEL).

Definition build_identity (metrics : list Labels) (minimal : bool) (metric : Labels) : SeriesIdentity :=
  let full := sortedEntries metric in
  let name := metric_name metric in
  let distinguishing := if minimal then List.filter (fun e => negb (shas (shared_keys metrics) e.1)) full else full in
  {| name := name; distinguishing := distinguishing; text := render name distinguishing;
     full := full; fullText := render name full |}.

Definition build (metrics : list Labels) (minimal : bool) : list SeriesIdentity :=
  build_identity metrics minimal <$> metrics.

Definition seriesIdentities (metrics : list Labels) : SeriesIdentitySet :=
  match metrics with
  | [] => {| series := []; shared_labels := []; sharedName := []; sharedText := [] |}
  | m0 :: _ =>
      let names := set_of_list (metric_name <$> metrics) in
      let uniformName := match names with [n] => n | _ => [] end in
      let minimal := build metrics true in
      let series := if (1 <? length metrics)%nat &&
                       (length (set_of_list (text <$> minimal)) <? length minimal)%nat
                    then build metrics false else minimal in
      let shared := (fun k => (k, default [] (mget m0 k))) <$> shared_keys metrics in
      {| series := series; shared_labels := shared; sharedName := uniformName;
         sharedText := if bool_decide (shared = []) && seqb uniformName [] then [] else render uniformName shared |}
  end.
End Identities.

(** ** Legend and colours *)

Definition LEGEND_MAX_SERIES : number := DEFAULT_PAGE_SIZE.

Definition showLegend (seriesCount : number) : bool :=
  (seriesCount >? int 0)%num && (seriesCount <=? LEGEND_MAX_SERIES)%num.

Definition LAPS : list number := [int 0; dec 45 2; nneg (dec 45 2); dec 75 2].
Definition LIGHT_CEIL : number := int 84.
Definition DARK_FLOOR : number := int 24.

(** [[\d.]+]: the longest run of digits and points, at least one. *)
Fixpoint span_number (s : jstr) : jstr * jstr :=
  match s with
  | c :: s' => if is_digit c || (c =? 46) then let '(d, r) := span_number s' in (c :: d, r) else ([], s)
  | [] => ([], [])
  end.

Definition read_number (s : jstr) : option (jstr * jstr) :=
  let '(d, r) := span_number s in if bool_decide (d = []) then None else Some (d, r).

Definition expect_unit (c : Z) (s : jstr) : option jstr :=
  match s with x :: r => if x =? c then Some r else None | [] => None end.

(** [/^hsl\(\s*([\d.]+)\s*,\s*([\d.]+)%\s*,\s*([\d.]+)%\s*\)$/i]. The three groups. *)
Definition HSL_TRIPLET (color : jstr) : option (jstr * jstr * jstr) :=
  if negb (seqb (ascii_lower (take 4 color)) (js "hsl(")) then None
  else
    '(h, r) ← read_number (trim_start (drop 4 color));
    r ← expect_unit 44 (trim_start r);
    '(s, r) ← read_number (trim_start r);
    r ← expect_unit 37 r;
    r ← expect_unit 44 (trim_start r);
    '(l, r) ← read_number (trim_start r);
    r ← expect_unit 37 r;
    r ← expect_unit 41 (trim_start r);
    if bool_decide (r = []) then Some (h, s, l) else None.

Definition relight (lap l : number) : number :=
  if (lap >? int 0)%num then (l + (LIGHT_CEIL - l) * lap)%num else (l + (l - DARK_FLOOR) * lap)%num.

Definition paletteColor (base : list jstr) (index : number) : jstr :=
  if bool_decide (base = []) then []
  else
    let i := if isFinite index then nmax (int 0) (nfloor index) else int 0 in
    let color := default [] (nth_number base (i mod len base)%num) in
    let lap := default NaN (nth_number LAPS (nfloor (i / len base) mod len LAPS)%num) in
    if (lap =? int 0)%num then color
    else match HSL_TRIPLET color with
         | None => color
         | Some (hue, saturation, lightness) =>
             js "hsl(" ++ hue ++ js ", " ++ saturation ++ js "%, " ++
             num_to_string (nround (relight lap (number_of_string lightness))) ++ js "%)"
         end.

(** ** Six significant figures *)

(** [n.toPrecision(p)]: the [p]-digit decimal nearest to the number, ties upwards, in exponent form
    when the exponent is below -6 or not below [p]. *)
Definition toPrecision (x : number) (p : Z) : jstr :=
  match x with
  | Fin z =>
      let sign := if z <? 0 then js "-" else [] in
      let a := Z.abs z in
      if a =? 0 then sign ++ (if p =? 1 then js "0" else js "0." ++ zeros (p - 1))
      else
        let e := decimal_exponent a - 1 in
        let k := e - p + 1 in
        let m := if 0 <=? k then (2 * a + 10 ^ k * U) / (2 * 10 ^ k * U)
                 else (2 * a * 10 ^ (- k) + U) / (2 * U) in
        let '(m, e) := if m =? 10 ^ p then (10 ^ (p - 1), e + 1) else (m, e) in
        let ds := digits m in
        sign ++
        (if (e <? -6) || (p <=? e) then
           take 1 ds ++ (if p =? 1 then [] else js "." ++ drop 1 ds) ++ js "e" ++
           (if e <? 0 then js "-" else js "+") ++ digits (Z.abs e)
         else if e =? p - 1 then ds
         else if 0 <=? e then take (Z.to_nat (e + 1)) ds ++ js "." ++ drop (Z.to_nat (e + 1)) ds
         else js "0." ++ zeros (- (e + 1)) ++ ds)
  | _ => num_to_string x
  end.

Example toPrecision_values :
  toPrecision (number_of_string (js "0.004947212522190138")) 6 = js "0.00494721" /\
  toPrecision (int 1) 6 = js "1.00000" /\ toPrecision (int 999999500) 6 = js "1.00000e+9" /\
  toPrecision (number_of_string (js "-1.5e-9")) 6 = js "-1.50000e-9" /\ toPrecision (dec 1234565 1) 6 = js "123457".
Proof. split_and!; vm_compute; reflexivity. Qed.

(** [s.replace(/\.?0+$/, "")]. *)
Fixpoint drop_zeros (s : jstr) : jstr :=
  match s with c :: s' => if c =? 48 then drop_zeros s' else s | [] => [] end.

Definition trim_zeros (s : jstr) : jstr :=
  let r := drop_zeros (rev s) in
  if bool_decide (length r = length s) then s
  else rev (match r with c :: r' => if c =? 46 then r' else r | [] => r end).

Definition formatValue (raw : jstr) : jstr :=
  if seqb (trim raw) [] then raw
  else
    let n := number_of_string raw in
    if negb (isFinite n) then raw
    else if isInteger n && (nabs n <? int (10 ^ 15))%num then num_to_string n
    else
      let '(mantissa, exponent) :=
        match split_unit 101 (toPrecision n 6) with
        | m :: e :: _ => (m, Some e)
        | [m] => (m, None)
        | [] => ([], None)
        end in
      let trimmed := if includes mantissa (js ".") then trim_zeros mantissa else mantissa in
      match exponent with None => trimmed | Some e => trimmed ++ js "e" ++ e end.

(** ** A result as a table *)

Definition VALUE_COL : jstr := js "table.col.value".
Definition POINTS_COL : jstr := js "table.col.points".
Definition LAST_COL : jstr := js "table.col.last".
Definition TIME_COL : jstr := js "table.col.time".

Inductive TableKind := instant | series_kind.

Record PromTable := { columns : list jstr; rows : list (list jstr); t_at : option number; t_kind : TableKind }.

Definition isNumericColumn (column : jstr) : bool :=
  seqb column VALUE_COL || seqb column POINTS_COL || seqb column LAST_COL || startsWith column TIME_COL.

Definition isFigureColumn (column : jstr) : bool := seqb column VALUE_COL || seqb column LAST_COL.

Definition EMPTY : PromTable := {| columns := []; rows := []; t_at := None; t_kind := instant |}.

Definition stampMs (ts : value) : number :=
  match ts with
  | VNum t => if isFinite t then
                let ms := (t * int 1000)%num in
                if (nabs ms <=? int MAX_TIME_MS)%num then ms else NaN
              else NaN
  | _ => NaN
  end.

(** [v?.[i]] of a value out of the payload. *)
Definition vnth (v : value) (i : nat) : value :=
  match v with VArr l => default VUndef (l !! i) | _ => VUndef end.

Definition stamp_at (x : number) : option number := if isNaN x then None else Some x.

Definition nullish_string (v : value) : jstr := match v with VUndef | VNull => [] | _ => string_of_value v end.

Definition singleValue (result : value) : PromTable :=
  {| columns := [VALUE_COL]; rows := [[nullish_string (vnth result 1)]];
     t_at := stamp_at (stampMs (vnth result 0)); t_kind := instant |}.

Definition shared (stamps : list number) : option number :=
  match stamps with
  | [] => None
  | first :: _ => if isNaN first then None
                  else if forallb (fun s => s =? first)%num stamps then Some first else None
  end.

(** The labels of an entry: the string members of its metric object. *)
Definition entry_labels (e : value) : list jstr :=
  match vget e (js "metric") with VObj fs => mkeys fs | _ => [] end.

Definition table_labels (entries : list value) : list jstr := unit_sort (set_of_list (entries ≫= entry_labels)).

(** [while (labels.includes(name)) name += "_"]. *)
Fixpoint step_aside (fuel : nat) (labels : list jstr) (name : jstr) : option jstr :=
  match fuel with
  | O => None
  | S fuel => if bool_decide (name ∈ labels) then step_aside fuel labels (name ++ js "_") else Some name
  end.

(** The names tried are as many different ones as turns, so one more turn than labels is enough. *)
Definition timeName (labels : list jstr) : jstr :=
  default TIME_COL (step_aside (S (length labels)) labels TIME_COL).

Definition label_cells (labels : list jstr) (e : value) : list jstr :=
  (fun l => nullish_string (vget (vget e (js "metric")) l)) <$> labels.

Definition point_list (e : value) : list value := match vget e (js "values") with VArr l => l | _ => [] end.

Definition last_point (e : value) : value := default VUndef (last (point_list e)).

Inductive ResultType := Scalar | StringType | Vector | MatrixType | OtherType.

Definition toTable (data : option (ResultType * value)) (formatTime : option (number -> jstr)) : PromTable :=
  match data with
  | None => EMPTY
  | Some (Scalar, result) | Some (StringType, result) => singleValue result
  | Some (OtherType, _) => EMPTY
  | Some (ty, result) =>
      let is_vector := match ty with Vector => true | _ => false end in
      let entries := match result with VArr l => l | _ => [] end in
      let labels := table_labels entries in
      let stamps := (fun e => if is_vector then stampMs (vnth (vget e (js "value")) 0)
                              else stampMs (vnth (last_point e) 0)) <$> entries in
      let at_ := shared stamps in
      let time_of :=
        match at_, formatTime with
        | None, Some f => if existsb (fun s => negb (isNaN s)) stamps then Some f else None
        | _, _ => None
        end in
      let timeColumn := match time_of with Some _ => [timeName labels] | None => [] end in
      let timeCell s := match time_of with Some f => [if isNaN s then [] else f s] | None => [] end in
      if is_vector then
        {| columns := [VALUE_COL] ++ timeColumn ++ labels;
           rows := zip_with (fun e s => [nullish_string (vnth (vget e (js "value")) 1)] ++ timeCell s
                                        ++ label_cells labels e) entries stamps;
           t_at := at_; t_kind := instant |}
      else
        {| columns := [LAST_COL] ++ timeColumn ++ [POINTS_COL] ++ labels;
           rows := zip_with (fun e s => [nullish_string (vnth (last_point e) 1)] ++ timeCell s
                                        ++ [num_to_string (len (point_list e))] ++ label_cells labels e)
                            entries stamps;
           t_at := at_; t_kind := series_kind |}
  end.

(** ** Identities lose nothing *)

Section IdentitiesSpec.
Context `{LocaleHost}.

Lemma elem_of_sortedEntries m e : e ∈ sortedEntries m <-> e ∈ m /\ e.1 <> NAME_LABEL.
Proof.
  unfold sortedEntries, js_sort. rewrite elem_of_sort_leb, elem_of_filter_b, negb_true_iff.
  by rewrite seqb_neq.
Qed.

Lemma elem_of_label_keys ms k :
  k ∈ label_keys ms <-> (exists m, m ∈ ms /\ k ∈ mkeys m) /\ k <> NAME_LABEL.
Proof.
  unfold label_keys, unit_sort. rewrite elem_of_sort_leb, elem_of_filter_b, elem_of_set_of_list, list_elem_of_bind.
  rewrite negb_true_iff, seqb_neq. naive_solver.
Qed.

Lemma shared_key_spec ms k : shared_key ms k = true <-> ms <> [] /\ exists v, forall m, m ∈ ms -> mget m k = Some v.
Proof.
  unfold shared_key. destruct ms as [|m0 ms]; [split; [done|by intros []]|].
  destruct (mget m0 k) as [first|] eqn:E.
  - rewrite forallb_Forall, Forall_forall. setoid_rewrite bool_decide_eq_true. split.
    + intros Hall. split; [done|]. by exists first.
    + intros [_ [v Hv]] m Hm. rewrite (Hv m Hm). pose proof (Hv m0 (list_elem_of_here _ _)). congruence.
  - split; [done|]. intros [_ [v Hv]]. pose proof (Hv m0 (list_elem_of_here _ _)). congruence.
Qed.

Lemma elem_of_shared_keys ms k :
  k ∈ shared_keys ms <-> ms <> [] /\ k <> NAME_LABEL /\ exists v, forall m, m ∈ ms -> mget m k = Some v.
Proof.
  unfold shared_keys. rewrite elem_of_filter_b, elem_of_label_keys, shared_key_spec. split; [naive_solver|].
  intros (Hne & Hk & v & Hv). split_and!; [|done|done|by exists v].
  destruct ms as [|m ms]; [done|]. exists m. split; [constructor|].
  pose proof (Hv m (list_elem_of_here _ _)) as Hm. apply elem_of_mget in Hm.
  apply list_elem_of_fmap. by exists (k, v).
Qed.

Lemma elem_of_shared_labels ms k v :
  (k, v) ∈ shared_labels (seriesIdentities ms) <->
  ms <> [] /\ k <> NAME_LABEL /\ forall m, m ∈ ms -> mget m k = Some v.
Proof.
  destruct ms as [|m0 ms]; [split; [by intros ?%elem_of_nil|by intros [? _]]|].
  unfold seriesIdentities. cbn [shared_labels]. rewrite list_elem_of_fmap. split.
  - intros (k' & [= <- ->] & Hk). apply elem_of_shared_keys in Hk as (Hne & Hk & v & Hv).
    split_and!; [done..|]. rewrite (Hv m0 (list_elem_of_here _ _)). done.
  - intros (Hne & Hk & Hv). exists k. rewrite (Hv m0 (list_elem_of_here _ _)). split; [done|].
    apply elem_of_shared_keys. eauto.
Qed.

Lemma series_cases ms :
  exists minimal, series (seriesIdentities ms) = build ms minimal /\
    (minimal = true -> (1 < length ms)%nat -> NoDup (text <$> series (seriesIdentities ms))).
Proof.
  destruct ms as [|m0 ms]; [exists true; split; [done|simpl; lia]|].
  unfold seriesIdentities. cbn [series].
  set (minimal := build (m0 :: ms) true). set (mets := m0 :: ms) in *.
  destruct (Nat.ltb_spec 1 (length mets)), (Nat.ltb_spec (length (set_of_list (text <$> minimal))) (length minimal));
    cbn [andb]; [by exists false| |exists true; split; [done|lia]..].
  exists true. split; [done|]. intros _ _.
  apply (NoDup_of_set_of_list_length (text <$> minimal)). by rewrite length_fmap.
Qed.
End IdentitiesSpec.

(** C36: Naming a series by what sets it apart loses nothing: the identities are aligned with the series;
    for each, the labels it carries are exactly those on its own row together with those stated once
    above the listing; the latter are the ones every series carries with one value; and two rows never
    read alike unless even the full label sets had to be printed. *)
Theorem seriesIdentities_lossless `{LocaleHost} ms (Hnd : Forall (fun m => NoDup (mkeys m)) ms) :
  let set := seriesIdentities ms in
  Forall2 (fun m i => name i = default [] (mget m NAME_LABEL) /\
             forall e, e.1 <> NAME_LABEL -> (e ∈ m <-> e ∈ distinguishing i \/ e ∈ shared_labels set))
    ms (series set) /\
  (forall k v, (k, v) ∈ shared_labels set -> forall m, m ∈ ms -> (k, v) ∈ m) /\
  (NoDup (text <$> series set) \/ (length ms <= 1)%nat \/ Forall (fun i => distinguishing i = full i) (series set)).
Proof.
  intros set. destruct (series_cases ms) as (minimal & Hs & Hdup). fold set in Hs, Hdup.
  split_and!.
  - rewrite Hs. unfold build. apply Forall2_fmap_r, Forall2_same_length_lookup. split; [done|].
    intros i m m' Hm Hm'. simplify_eq. apply list_elem_of_lookup_2 in Hm. split; [done|]. intros [k v] Hk. simpl in Hk.
    rewrite Forall_forall in Hnd. pose proof (Hnd m Hm) as Hndm. unfold build_identity. cbn [distinguishing].
    assert (Hsh : (k, v) ∈ shared_labels set -> (k, v) ∈ m).
    { intros Hin. apply elem_of_shared_labels in Hin as (_ & _ & Hall). by apply elem_of_mget, Hall. }
    destruct minimal; rewrite ?elem_of_filter_b, elem_of_sortedEntries; cbn [fst]; [|tauto].
    split; [|tauto]. intros Hin. destruct (shas (shared_keys ms) k) eqn:Es; [right|by left].
    apply shas_spec, elem_of_shared_keys in Es as (Hne & _ & v' & Hv').
    pose proof (Hv' m Hm) as Hv. rewrite (mget_elem_of m k v Hndm Hin) in Hv. injection Hv as ->.
    by apply elem_of_shared_labels.
  - intros k v Hin m Hm. apply elem_of_shared_labels in Hin as (_ & _ & Hall). by apply elem_of_mget, Hall.
  - destruct minimal.
    + destruct (Nat.le_gt_cases (length ms) 1); [by auto|left]. by apply Hdup.
    + right. right. rewrite Hs. unfold build. apply Forall_fmap, Forall_forall. done.
Qed.

Lemma seriesIdentities_lossless_witness :
  (js "job", js "agent") ∈ [(NAME_LABEL, js "up"); (js "job", js "agent"); (js "pod", js "b")].
Proof.
  pose (up := fun p => [(NAME_LABEL, js "up"); (js "job", js "agent"); (js "pod", js p)]).
  assert (Hk : Forall (fun m => NoDup (mkeys m)) [up "a"%string; up "b"%string]).
  { apply Forall_cons; split; [|apply Forall_singleton]; apply (bool_decide_eq_true_1 _); vm_compute; reflexivity. }
  destruct (@seriesIdentities_lossless unit_locale [up "a"%string; up "b"%string] Hk) as (_ & Hs & _).
  apply (Hs (js "job") (js "agent")).
  - apply (bool_decide_eq_true_1 _). vm_compute. reflexivity.
  - apply list_elem_of_further, list_elem_of_here.
Defined.

(** ** The table *)

Fixpoint aside (n : nat) (nm : jstr) : jstr := match n with O => nm | S n => aside n (nm ++ js "_") end.

Lemma length_aside n nm : length (aside n nm) = (length nm + n)%nat.
Proof. revert nm; induction n as [|n IH]; intros nm; simpl; [lia|]. rewrite IH, length_app. simpl. lia. Qed.

Lemma aside_snoc n nm : aside n (nm ++ js "_") = aside (S n) nm.
Proof. done. Qed.

Lemma step_aside_spec fuel labels nm :
  (exists n, (n < fuel)%nat /\ step_aside fuel labels nm = Some (aside n nm) /\ aside n nm ∉ labels) \/
  (forall n, (n < fuel)%nat -> aside n nm ∈ labels).
Proof.
  revert nm; induction fuel as [|fuel IH]; intros nm; simpl; [right; lia|].
  case_bool_decide as Hin.
  - destruct (IH (nm ++ js "_")) as [(n & Hn & Hs & Hni)|Hall].
    + left. exists (S n). split_and!; [lia|done|done].
    + right. intros [|n] Hn; [done|]. apply Hall. lia.
  - left. exists 0%nat. split_and!; [lia|done|done].
Qed.

(** Naming the time column terminates: among the candidates tried, one more than there are labels,
    some name is no label, and it is the first such; the column never takes an operator's label. *)
Theorem timeName_fresh labels :
  exists n, step_aside (S (length labels)) labels TIME_COL = Some (timeName labels) /\
    timeName labels = aside n TIME_COL /\ timeName labels ∉ labels.
Proof.
  destruct (step_aside_spec (S (length labels)) labels TIME_COL) as [(n & Hn & Hs & Hni)|Hall].
  - exists n. unfold timeName. rewrite Hs. done.
  - exfalso. set (tried := (fun n => aside n TIME_COL) <$> seq 0 (S (length labels))).
    assert (Hnd : NoDup tried).
    { apply NoDup_fmap_2_strong; [|apply NoDup_seq]. intros x y _ _ E.
      apply (f_equal length) in E. rewrite !length_aside in E. lia. }
    assert (Hsub : tried ⊆ labels).
    { intros x Hx. apply list_elem_of_fmap in Hx as (n & -> & Hn). apply elem_of_seq in Hn. apply Hall. lia. }
    pose proof (submseteq_length _ _ (NoDup_submseteq tried labels Hnd Hsub)) as Hl.
    unfold tried in Hl. rewrite length_fmap, length_seq in Hl. lia.
Qed.

(** Every row of a table has one cell per column. *)
Theorem toTable_rectangular data formatTime :
  Forall (fun row => length row = length (columns (toTable data formatTime))) (rows (toTable data formatTime)).
Proof.
  destruct data as [[ty result]|]; [|constructor].
  destruct ty; simpl; [by apply Forall_singleton..| | |by apply Forall_nil];
    (apply (Forall_zip_with_fst _ (fun _ => True)); [by apply Forall_forall|]);
    apply Forall_forall; intros s _ e _; unfold label_cells; rewrite ?length_app; cbn [length];
    rewrite ?length_app, ?length_fmap; repeat case_match; simpl; rewrite ?length_fmap; lia.
Qed.
