(* ===== verification/InvestigationScope.v ===== *)
(** The scope and window of an investigation ([web/src/lib/investigation-sources.ts], first half): the
    scope vocabulary, the permalink and its parser, the gate of the range fields, the options of the
    selects, incidents, and the PromQL of a scope with the samples read from its answers. *)
From S2P Require Import Prelude JsNum JsString JsCollections JsValue JsDate JsFormat JsUrl Utils Matrix Investigation.
Local Open Scope Z_scope.

(** ** Scopes *)

Inductive ScopeKind := scope_pair | scope_node | scope_target | scope_zone_pair | scope_cluster.

#[export] Instance ScopeKind_eq_dec : EqDecision ScopeKind.
Proof. solve_decision. Defined.

Definition scope_string (k : ScopeKind) : jstr :=
  match k with
  | scope_pair => js "pair" | scope_node => js "node" | scope_target => js "target"
  | scope_zone_pair => js "zone-pair" | scope_cluster => js "cluster"
  end.

Definition SCOPE_KINDS : list ScopeKind := [scope_pair; scope_node; scope_target; scope_zone_pair; scope_cluster].

Definition PAIR_SEPARATOR : jstr := PAIR_ARROW.

Record InvestigationScope := { scope_kind : ScopeKind; sc_a : jstr; sc_b : jstr }.
Record InvestigationParams := { p_scope : InvestigationScope; p_from : date; p_to : date }.

Definition DEFAULT_RANGE_SECONDS : Z := 60 * 60.

Definition RANGE_PRESETS : list (jstr * jstr * Z) :=
  [(js "15m", js "15m", 15 * 60); (js "1h", js "1h", 60 * 60); (js "6h", js "6h", 6 * 60 * 60);
   (js "custom", js "Custom", 0)].

(** [new Date(ms)] for a number known to be in range. *)
Definition shiftInstant (base : date) (deltaMs : number) : date :=
  let ms := (getTime base + deltaMs)%num in
  if negb (isFinite ms) then
    date_of_number (if (deltaMs <? int 0)%num then int (- MAX_TIME_MS) else int MAX_TIME_MS)
  else date_of_number (nmin (nmax ms (int (- MAX_TIME_MS))) (int MAX_TIME_MS)).

Definition kind_of_string (s : jstr) : option ScopeKind :=
  List.find (fun k => seqb (scope_string k) s) SCOPE_KINDS.

Section Params.
Context `{DateHost}.

Definition parseInstant (raw : option jstr) : option Z :=
  match raw with
  | None => None
  | Some s => if seqb s [] then None else date_of_string s
  end.

(** The two ends of a scope written as text. *)
Definition split_scope (kind : ScopeKind) (rawScope : jstr) : InvestigationScope :=
  match kind with
  | scope_pair | scope_zone_pair =>
      match indexOf rawScope PAIR_SEPARATOR with
      | None => {| scope_kind := kind; sc_a := rawScope; sc_b := [] |}
      | Some i => {| scope_kind := kind; sc_a := take i rawScope;
                     sc_b := drop (i + length PAIR_SEPARATOR) rawScope |}
      end
  | scope_cluster => {| scope_kind := kind; sc_a := []; sc_b := [] |}
  | _ => {| scope_kind := kind; sc_a := rawScope; sc_b := [] |}
  end.

Definition parseInvestigationParams (search : jstr) (now : date) : InvestigationParams :=
  let qs := qs_parse search in
  let kind := default scope_cluster (kind_of_string (default [] (qs_get qs (js "kind")))) in
  let rawScope := normalizePairInput (default [] (qs_get qs (js "scope"))) in
  let parsedFrom := parseInstant (qs_get qs (js "from")) in
  let parsedTo := parseInstant (qs_get qs (js "to")) in
  let span := int (DEFAULT_RANGE_SECONDS * 1000) in
  let to := match parsedTo, parsedFrom with
            | Some t, _ => Some t
            | None, Some f => shiftInstant (Some f) span
            | None, None => now
            end in
  let from := match parsedFrom with Some f => Some f | None => shiftInstant to (- span)%num end in
  {| p_scope := split_scope kind rawScope; p_from := from; p_to := to |}.

Definition ignoredInvestigationParams (search : jstr) : list jstr :=
  let qs := qs_parse search in
  let rawKind := qs_get qs (js "kind") in
  let kindOk := match rawKind with None => true | Some k => bool_decide (is_Some (kind_of_string k)) end in
  let kind_part := if kindOk then [] else [js "kind"] in
  let scope_part :=
    match qs_get qs (js "scope") with
    | Some s =>
        if negb (seqb s []) &&
           (if kindOk then match rawKind with None => true | Some k => seqb k (js "cluster") end else true)
        then [js "scope"] else []
    | None => []
    end in
  let instant_part key :=
    match qs_get qs key with
    | Some raw => match parseInstant (Some raw) with None => [key] | Some _ => [] end
    | None => []
    end in
  kind_part ++ scope_part ++ instant_part (js "from") ++ instant_part (js "to").

(** [.replace(/[:.]/g, "-")]. *)
Definition dash_marks (s : jstr) : jstr := (fun c => if (c =? 58) || (c =? 46) then 45 else c) <$> s.

Definition exportFileName (from : date) : jstr :=
  let iso := match toISOString from with Some s => dash_marks s | None => js "unknown" end in
  js "investigation-" ++ iso ++ js ".json".

Definition scopeParamValue (scope : InvestigationScope) : jstr :=
  match scope_kind scope with
  | scope_cluster => []
  | scope_pair | scope_zone_pair =>
      if seqb (sc_b scope) [] then sc_a scope else sc_a scope ++ PAIR_SEPARATOR ++ sc_b scope
  | _ => sc_a scope
  end.

(** [None] where [toISOString] of an unreadable instant would throw. *)
Definition investigationParamsToSearch (p : InvestigationParams) : option jstr :=
  from ← toISOString (p_from p);
  to ← toISOString (p_to p);
  let qs := qs_set [] (js "kind") (scope_string (scope_kind (p_scope p))) in
  let scope := scopeParamValue (p_scope p) in
  let qs := if seqb scope [] then qs else qs_set qs (js "scope") scope in
  let qs := qs_set qs (js "from") from in
  let qs := qs_set qs (js "to") to in
  Some (js "?" ++ qs_print qs).

Definition scopeIncompleteReason (scope : InvestigationScope) (t : Translate) : option jstr :=
  match scope_kind scope with
  | scope_pair =>
      if seqb (sc_a scope) [] then Some (t (js "scope.incomplete.sourceNode") [])
      else if seqb (sc_b scope) [] then Some (t (js "scope.incomplete.destinationNode") [])
      else if seqb (sc_a scope) (sc_b scope) then Some (t (js "scope.incomplete.samePair") [])
      else None
  | scope_zone_pair =>
      if seqb (sc_a scope) [] then Some (t (js "scope.incomplete.sourceZone") [])
      else if seqb (sc_b scope) [] then Some (t (js "scope.incomplete.destinationZone") [])
      else None
  | scope_node => if seqb (sc_a scope) [] then Some (t (js "scope.incomplete.node") []) else None
  | scope_target => if seqb (sc_a scope) [] then Some (t (js "scope.incomplete.target") []) else None
  | scope_cluster => None
  end.

(** ** The window *)

Inductive WindowCommit :=
  | Window (from to : date) (clamped : bool)
  | Refused (reason : jstr).

Definition PROMQL_MAX_RANGE_MS : Z := 24 * 60 * 60 * 1000.

Definition rangeExceedsPromBound (from to : date) : bool :=
  (getTime to - getTime from >? int PROMQL_MAX_RANGE_MS)%num.

Definition commitWindow (from to : date) (instant : option date) (t : Translate) : WindowCommit :=
  if negb (isFinite (getTime from)) || negb (isFinite (getTime to)) then Refused (t (js "window.inverted") [])
  else if (getTime from >=? getTime to)%num then Refused (t (js "window.inverted") [])
  else
    match instant with
    | Some (Some i) =>
        if (getTime from >=? int i)%num then Refused (t (js "window.afterInstant") [])
        else if (getTime to >? int i)%num then Window from (Some i) true
        else Window from to false
    | _ => Window from to false
    end.

(** ** Filters and selects *)

Definition scopeFilterValue (scope : InvestigationScope) : jstr :=
  match scope_kind scope with
  | scope_pair => sc_a scope ++ PAIR_SEPARATOR ++ sc_b scope
  | scope_node | scope_target => sc_a scope
  | _ => []
  end.

Definition scopesToQuery (scope : InvestigationScope) : list (option jstr) :=
  let value := scopeFilterValue scope in
  if seqb value [] then [None] else [Some value; Some []].

Definition scopeCaptionValue (scope : InvestigationScope) (t : Translate) : jstr :=
  match scopesToQuery scope with
  | Some _ :: _ => scopeFilterValue scope
  | _ => t (js "scope.allScopes") []
  end.

Record ScopeOptionSource := { opt_nodes : list (jstr * jstr); opt_agents : list (jstr * jstr) }.

Definition dedupeSorted (values : list (option jstr)) : list jstr :=
  sort_leb (fun a b => negb (sltb b a))
    (set_of_list (List.filter (fun v => negb (seqb v [])) (omap (fun v => v) values))).

Definition option_names (pick : jstr * jstr -> jstr) (topo : option ScopeOptionSource) : list (option jstr) :=
  match topo with
  | None => []
  | Some s => (fun n => Some (pick n)) <$> (opt_nodes s ++ opt_agents s)
  end.

Definition scopeNodeOptions (topo : option ScopeOptionSource) : list jstr := dedupeSorted (option_names fst topo).
Definition scopeZoneOptions (topo : option ScopeOptionSource) : list jstr := dedupeSorted (option_names snd topo).

Definition INVESTIGATE_PATH : jstr := js "/investigate".

Definition buildInvestigateURL (scope : InvestigationScope) (now : date) (rangeSeconds : number) : option jstr :=
  let from := date_of_number (getTime now - rangeSeconds * int 1000)%num in
  search ← investigationParamsToSearch {| p_scope := scope; p_from := from; p_to := now |};
  Some (INVESTIGATE_PATH ++ search).

(** ** Incidents *)

Definition incidentPermalink (id : jstr) : option jstr := enc ← uri_component id; Some (INVESTIGATE_PATH ++ js "?incident=" ++ enc).

Record Incident := {
  inc_scope : jstr;
  fromAt : jstr;
  toAt : option jstr;
  createdAt : jstr;
  resolvedAt : option jstr;
}.

Definition incidentOpenAt (i : Incident) (instant : date) : bool :=
  let t := getTime instant in
  if negb (parse_ms (createdAt i) <=? t)%num then false
  else match resolvedAt i with
       | None => true
       | Some r => seqb r [] || (parse_ms r >? t)%num
       end.

Definition INCIDENT_TITLE_MAX : number := int 255.
Definition INCIDENT_NOTES_MAX : number := int 16384.
Definition PIN_NOTE_MAX : number := int 512.

Inductive PinKind := pin_event | pin_audit | pin_annotation | pin_snapshot | pin_run | pin_k8s.

Definition PIN_KIND_BY_TIMELINE_KIND (k : TimelineKind) : option PinKind :=
  match k with
  | K_event => Some pin_event
  | K_audit => Some pin_audit
  | K_annotation => Some pin_annotation
  | K_path_change => Some pin_snapshot
  | K_run => Some pin_run
  | K_k8s => Some pin_k8s
  | K_maintenance | K_threshold | K_alert => None
  end.

Definition pinKey (kind id : jstr) : jstr := kind ++ [0] ++ id.

Definition pinnedRefFor (entry : TimelineEntry) : option (PinKind * jstr) :=
  match PIN_KIND_BY_TIMELINE_KIND (kind entry), ref entry with
  | Some k, Some (_, i) => if seqb i [] then None else Some (k, i)
  | _, _ => None
  end.

Definition scopeFromIncidentScope (scope : jstr) (targetNames : list jstr) : InvestigationScope :=
  if seqb scope [] then {| scope_kind := scope_cluster; sc_a := []; sc_b := [] |}
  else match indexOf scope PAIR_SEPARATOR with
       | Some i => {| scope_kind := scope_pair; sc_a := take i scope;
                      sc_b := drop (i + length PAIR_SEPARATOR) scope |}
       | None => if bool_decide (scope ∈ targetNames)
                 then {| scope_kind := scope_target; sc_a := scope; sc_b := [] |}
                 else {| scope_kind := scope_node; sc_a := scope; sc_b := [] |}
       end.

Definition incidentParams (incident : Incident) (targetNames : list jstr) (now : date) : InvestigationParams :=
  let parsedTo := parseInstant (toAt incident) in
  let to := match parsedTo with Some t => Some t | None => now end in
  let from := match parseInstant (Some (fromAt incident)) with
              | Some f => Some f
              | None => shiftInstant to (int (- DEFAULT_RANGE_SECONDS * 1000))
              end in
  {| p_scope := scopeFromIncidentScope (inc_scope incident) targetNames; p_from := from; p_to := to |}.
End Params.

(** ** PromQL *)

Definition label_eq (label : string) (v : jstr) : jstr := js label ++ js "=" ++ [34] ++ escapeLabelValue v ++ [34].

Definition peerSelector (scope : InvestigationScope) : jstr :=
  match scope_kind scope with
  | scope_pair => label_eq "source_node" (sc_a scope) ++ js "," ++ label_eq "destination_node" (sc_b scope)
  | scope_node => label_eq "source_node" (sc_a scope)
  | scope_zone_pair => label_eq "source_zone" (sc_a scope) ++ js "," ++ label_eq "destination_zone" (sc_b scope)
  | _ => []
  end.

Definition externalSelector (scope : InvestigationScope) : jstr := label_eq "target" (sc_a scope).

Definition braces (sel : jstr) : jstr := if seqb sel [] then [] else js "{" ++ sel ++ js "}".

Definition withResult (sel : jstr) (result : string) : jstr :=
  if seqb sel [] then js "{result=" ++ QUOTED result ++ js "}"
  else js "{" ++ sel ++ js ",result=" ++ QUOTED result ++ js "}".

Definition tag (expr : jstr) (value : string) : jstr :=
  js "label_replace(" ++ expr ++ js ", " ++ QUOTED "signal" ++ js ", " ++ QUOTED value ++ js ", "
  ++ [34; 34] ++ js ", " ++ [34; 34] ++ js ")".

Definition investigationLossQuery (scope : InvestigationScope) : jstr :=
  match scope_kind scope with
  | scope_target => js "max(" ++ METRICS_PREFIX ++ js "_external_packet_loss_ratio" ++ braces (externalSelector scope)
                    ++ js ")"
  | _ =>
      let sel := braces (peerSelector scope) in
      js "max(" ++ tag (METRICS_PREFIX ++ js "_icmp_packet_loss_ratio" ++ sel) "icmp" ++ js " or "
      ++ tag (METRICS_PREFIX ++ js "_udp_packet_loss_ratio" ++ sel) "udp" ++ js ")"
  end.

Definition p95 (metric sel : jstr) : jstr :=
  js "histogram_quantile(0.95, sum by (le) (rate(" ++ metric ++ sel ++ js "[" ++ RATE_WINDOW ++ js "])))".

Definition investigationRttQuery (scope : InvestigationScope) : jstr :=
  match scope_kind scope with
  | scope_target => js "max(" ++ p95 (METRICS_PREFIX ++ js "_external_rtt_seconds_bucket")
                                  (braces (externalSelector scope)) ++ js ")"
  | _ =>
      let sel := braces (peerSelector scope) in
      js "max(" ++ tag (p95 (METRICS_PREFIX ++ js "_tcp_total_duration_seconds_bucket") sel) "tcp" ++ js " or "
      ++ tag (p95 (METRICS_PREFIX ++ js "_udp_rtt_seconds_bucket") sel) "udp" ++ js " or "
      ++ tag (p95 (METRICS_PREFIX ++ js "_icmp_rtt_seconds_bucket") sel) "icmp" ++ js ")"
  end.

Definition orZero (expr : jstr) : jstr := js "(" ++ expr ++ js " or vector(0))".

Definition PROTOCOLS : list Protocol := [tcp; udp; icmp; pmtu].

Definition rate_sum (metric sel : jstr) : jstr :=
  orZero (js "sum(rate(" ++ metric ++ sel ++ js "[" ++ RATE_WINDOW ++ js "]))").

Definition investigationFailRatioQuery (scope : InvestigationScope) : jstr :=
  match scope_kind scope with
  | scope_target =>
      let sel := externalSelector scope in
      let m := METRICS_PREFIX ++ js "_external_results_total" in
      rate_sum m (withResult sel "fail") ++ js " / " ++ rate_sum m (braces sel)
  | _ =>
      let sel := peerSelector scope in
      let m p := METRICS_PREFIX ++ js "_" ++ protocol_string p ++ js "_results_total" in
      let fails := join (js " + ") ((fun p => rate_sum (m p) (withResult sel "fail")) <$> PROTOCOLS) in
      let totals := join (js " + ") ((fun p => rate_sum (m p) (braces sel)) <$> PROTOCOLS) in
      js "(" ++ fails ++ js ") / (" ++ totals ++ js ")"
  end.

(** ** Samples *)

(** [v[0]]. *)
Definition first_member (v : value) : value :=
  match v with
  | VArr l => default VUndef (head l)
  | VStr s => match s with c :: _ => VStr [c] | [] => VUndef end
  | VObj fs => default VUndef (mget fs (js "0"))
  | _ => VUndef
  end.

(** What a loop over [v] runs through; [None] is the [TypeError] of a value that cannot be iterated.  The characters of a
    text are texts. *)
Definition iterated (v : value) : option (list value) :=
  match v with VArr l => Some l | VStr s => Some ((fun c => VStr (units_of_code_point c)) <$> code_points s) | _ => None end.

(** A range answer: the points of its first series, as the loop over them meets them.  The [values] of an array is a
    function, over which no loop can run. *)
Definition firstSeriesValues (res : option value) : option (list value) :=
  match res with
  | Some r =>
      if seqb (str (vget r (js "status"))) (js "success") &&
         seqb (str (vget (vget r (js "data")) (js "resultType"))) (js "matrix")
      then match first_member (vget (vget r (js "data")) (js "result")) with
           | VArr _ => None
           | s0 => match vget s0 (js "values") with VUndef | VNull => Some [] | v => iterated v end
           end
      else Some []
  | None => Some []
  end.

(** [msOf]: a stamp in seconds as whole milliseconds of a representable instant. *)
Definition sample_ms (seconds : value) : option Z :=
  match seconds with
  | VNum s =>
      if isFinite s then
        match nround (s * int 1000)%num with
        | Fin z => if (nabs (Fin z) <=? int MAX_TIME_MS)%num then Some (z / U) else None
        | _ => None
        end
      else None
  | _ => None
  end.

Definition sample_at (byMs : list (Z * SignalSample)) (ms : Z) : SignalSample :=
  default {| s_at := Some ms; s_loss := None; s_rttNs := None |} (mget byMs ms).

Definition fold_row (apply : SignalSample -> number -> SignalSample) (byMs : list (Z * SignalSample)) (row : value) :
    option (list (Z * SignalSample)) :=
  match row with
  | VArr l =>
      match sample_ms (default VUndef (l !! 0%nat)) with
      | None => Some byMs
      | Some ms =>
          v ← coerce_number (default VUndef (l !! 1%nat));
          Some (if isFinite v then mset byMs ms (apply (sample_at byMs ms) v) else byMs)
      end
  | _ => Some byMs
  end.

(** One answer folded in, row by row. *)
Fixpoint fold_rows (apply : SignalSample -> number -> SignalSample) (byMs : list (Z * SignalSample)) (rows : list value) :
    option (list (Z * SignalSample)) :=
  match rows with
  | [] => Some byMs
  | row :: rows' => byMs' ← fold_row apply byMs row; fold_rows apply byMs' rows'
  end.

Definition set_loss (s : SignalSample) (v : number) : SignalSample :=
  {| s_at := s_at s; s_loss := Some v; s_rttNs := s_rttNs s |}.
Definition set_rtt (s : SignalSample) (v : number) : SignalSample :=
  {| s_at := s_at s; s_loss := s_loss s; s_rttNs := Some (v * int 1000000000)%num |}.

Definition samplesFromMatrix (loss rtt : option value) : option (list SignalSample) :=
  lossRows ← firstSeriesValues loss;
  byMs ← fold_rows set_loss [] lossRows;
  rttRows ← firstSeriesValues rtt;
  byMs ← fold_rows set_rtt byMs rttRows;
  Some (js_sort by_at (mvalues byMs)).

(** ** A permalink survives a reload *)

Section Permalink.
Context `{DateHost}.

(** A scope text the console would write itself: trimmed, with no typed arrow head and no white space
    beside an arrow. *)
Definition canonical_text (s : jstr) : Prop := trim s = s /\ tight s /\ well_formed s.

(** The scopes the form can produce. *)
Definition canonical_scope (s : InvestigationScope) : Prop :=
  match scope_kind s with
  | scope_cluster => sc_a s = [] /\ sc_b s = []
  | scope_node | scope_target => sc_b s = [] /\ canonical_text (sc_a s)
  | scope_pair | scope_zone_pair => ARROW ∉ sc_a s /\ canonical_text (scopeParamValue s)
  end.

Lemma normalize_canonical s : canonical_text s -> normalizePairInput s = s.
Proof. intros (Ht & Hti & _). unfold normalizePairInput. rewrite Ht. by apply replace_tight_id. Qed.

Lemma kind_of_scope_string k : kind_of_string (scope_string k) = Some k.
Proof. destruct k; vm_compute; reflexivity. Qed.

Lemma split_scope_param s :
  canonical_scope s -> split_scope (scope_kind s) (normalizePairInput (scopeParamValue s)) = s.
Proof.
  destruct s as [k a b]. unfold canonical_scope, scopeParamValue, split_scope. cbn [scope_kind sc_a sc_b].
  assert (Hpair : ARROW ∉ a -> canonical_text (if seqb b [] then a else a ++ PAIR_SEPARATOR ++ b) ->
            match indexOf (normalizePairInput (if seqb b [] then a else a ++ PAIR_SEPARATOR ++ b)) PAIR_SEPARATOR with
            | None => {| scope_kind := k; sc_a := normalizePairInput (if seqb b [] then a else a ++ PAIR_SEPARATOR ++ b);
                         sc_b := [] |}
            | Some i => {| scope_kind := k;
                 sc_a := take i (normalizePairInput (if seqb b [] then a else a ++ PAIR_SEPARATOR ++ b));
                 sc_b := drop (i + length PAIR_SEPARATOR)
                           (normalizePairInput (if seqb b [] then a else a ++ PAIR_SEPARATOR ++ b)) |}
            end = {| scope_kind := k; sc_a := a; sc_b := b |}).
  { intros Ha Hc. rewrite normalize_canonical by done. destruct (seqb b []) eqn:E.
    - apply seqb_eq in E as ->. change PAIR_SEPARATOR with [ARROW]. by rewrite (proj2 (indexOf_unit_None ARROW a)).
    - change PAIR_SEPARATOR with [ARROW]. cbn [app]. rewrite indexOf_unit_app by done.
      rewrite take_app_length, drop_app_add. done. }
  destruct k; [intros []; by apply Hpair| | |intros []; by apply Hpair|by intros [-> ->]];
    (intros [-> Hc]; by rewrite normalize_canonical).
Qed.

Lemma param_key_wf (k : jstr) v : forallb (fun c => (0 <=? c) && (c <? 128)) k = true -> well_formed v -> wf_pair (k, v).
Proof.
  intros Hk Hv. split; [by apply ascii_wf|done].
Qed.

Lemma iso_well_formed t : well_formed (iso_string t).
Proof. apply well_formed_units. eapply Forall_impl; [apply iso_string_ascii|]. simpl. lia. Qed.

Lemma parseInstant_iso t : in_time_range t -> parseInstant (Some (iso_string t)) = Some t.
Proof.
  intros Ht. unfold parseInstant. destruct (seqb (iso_string t) []) eqn:E.
  - apply seqb_eq in E. exfalso. unfold iso_string in E. by apply app_eq_nil in E as [_ E].
  - by apply Date_parse_iso.
Qed.

(** The parameters of a permalink. *)
Definition permalink_pairs (p : InvestigationParams) (f t : Z) : list (jstr * jstr) :=
  let qs := qs_set [] (js "kind") (scope_string (scope_kind (p_scope p))) in
  let scope := scopeParamValue (p_scope p) in
  let qs := if seqb scope [] then qs else qs_set qs (js "scope") scope in
  qs_set (qs_set qs (js "from") (iso_string f)) (js "to") (iso_string t).

Lemma canonical_param_wf s : canonical_scope s -> well_formed (scopeParamValue s).
Proof.
  destruct s as [[] a b]; unfold canonical_scope, scopeParamValue; cbn [scope_kind sc_a sc_b];
    [by intros [_ (_ & _ & Hw)]..|intros _; apply well_formed_units; constructor].
Qed.

Lemma permalink_wf p f t : canonical_scope (p_scope p) -> Forall wf_pair (permalink_pairs p f t).
Proof.
  intros Hc. unfold permalink_pairs.
  assert (Hk : wf_pair (js "kind", scope_string (scope_kind (p_scope p)))).
  { apply param_key_wf; [reflexivity|]. apply ascii_wf. by destruct (scope_kind (p_scope p)). }
  apply qs_set_wf; [apply qs_set_wf|]; [|apply param_key_wf; [reflexivity|apply iso_well_formed]..].
  assert (H0 := qs_set_wf [] _ _ (Forall_nil_2 _) Hk).
  case_match; [done|]. apply qs_set_wf; [done|].
  apply param_key_wf; [reflexivity|by apply canonical_param_wf].
Qed.

Lemma permalink_get p f t :
  let qs := permalink_pairs p f t in
  qs_get qs (js "kind") = Some (scope_string (scope_kind (p_scope p))) /\
  default [] (qs_get qs (js "scope")) = scopeParamValue (p_scope p) /\
  qs_get qs (js "from") = Some (iso_string f) /\
  qs_get qs (js "to") = Some (iso_string t).
Proof.
  unfold permalink_pairs. cbv zeta. repeat split.
  - rewrite 2 qs_get_set_ne by discriminate. case_match; [|rewrite qs_get_set_ne by discriminate]; apply qs_get_set_eq.
  - rewrite 2 qs_get_set_ne by discriminate. destruct (seqb _ []) eqn:E.
    + apply seqb_eq in E. rewrite E. reflexivity.
    + by rewrite qs_get_set_eq.
  - rewrite qs_get_set_ne by discriminate. apply qs_get_set_eq.
  - apply qs_get_set_eq.
Qed.

(** C5: Sharing an investigation is lossless: for every scope the form can produce and every pair of
    representable instants, the permalink exists, and reading it back - at any later moment - gives the
    very same scope and window. *)
Theorem permalink_roundtrip p f t now :
  p_from p = Some f -> p_to p = Some t -> in_time_range f -> in_time_range t -> canonical_scope (p_scope p) ->
  exists s, investigationParamsToSearch p = Some s /\ parseInvestigationParams s now = p.
Proof.
  intros Hf Ht Rf Rt Hc. exists (63 :: qs_print (permalink_pairs p f t)). split.
  - unfold investigationParamsToSearch. rewrite Hf, Ht. reflexivity.
  - unfold parseInvestigationParams. rewrite qs_parse_print by by apply permalink_wf.
    destruct (permalink_get p f t) as (Ek & Es & Ef & Et). cbv zeta. rewrite Ek, Es, Ef, Et.
    unfold from_option, id. rewrite kind_of_scope_string, !parseInstant_iso, split_scope_param by done.
    destruct p; cbn in *; by subst.
Qed.
End Permalink.

(** The reader of the console's own format discharges the hypotheses. *)
Lemma permalink_roundtrip_witness :
  let p := {| p_scope := {| scope_kind := scope_pair; sc_a := js "a b&c"; sc_b := js "d?e" |};
              p_from := Some 1700000000000; p_to := Some 1700003600123 |} in
  exists s, investigationParamsToSearch p = Some s /\ parseInvestigationParams (H := iso_host) s None = p.
Proof.
  intros p. apply (permalink_roundtrip (H := iso_host) p 1700000000000 1700003600123 None).
  - reflexivity.
  - reflexivity.
  - vm_compute. discriminate.
  - vm_compute. discriminate.
  - split.
    + apply includes_unit_false. reflexivity.
    + split; [vm_compute; reflexivity|]. split.
      * apply (replace_tight 9 (js "a b&c" ++ [ARROW] ++ js "d?e")). vm_compute. lia.
      * apply units_wf. reflexivity.
Defined.

(** ** The gate of the range fields *)

Lemma getTime_Some z : getTime (Some z) = int z.
Proof. reflexivity. Qed.

Lemma isFinite_int z : isFinite (int z) = true.
Proof. reflexivity. Qed.

(** A committed window is usable: it starts where it was asked to, ends after it starts, never
    reaches past the viewed instant, and is marked as clamped exactly when its end was moved; and a
    window is refused only when the fields are unreadable or out of order, or the range lies wholly at or after the
    instant. *)
Lemma commitWindow_sound from to instant t :
  match commitWindow from to instant t with
  | Window from' to' clamped =>
      exists f e e', from = Some f /\ to = Some e /\ from' = Some f /\ to' = Some e' /\ f < e' <= e /\
        (clamped = true <-> e' < e) /\ (forall i, instant = Some (Some i) -> e' <= i)
  | Refused _ =>
      from = None \/ to = None \/
      exists f e, from = Some f /\ to = Some e /\ (e <= f \/ exists i, instant = Some (Some i) /\ i <= f)
  end.
Proof.
  unfold commitWindow. destruct from as [f|]; [|by left]. destruct to as [e|]; [|by right; left].
  rewrite !getTime_Some, !isFinite_int. cbn [negb orb]. rewrite nleb_int.
  destruct (Z.leb_spec e f) as [Hle|Hlt].
  { right; right. exists f, e. auto. }
  assert (Hplain : forall i : option date, (forall z, i = Some (Some z) -> e <= z) ->
    exists f0 e0 e' : Z, Some f = Some f0 /\ Some e = Some e0 /\ Some f = Some f0 /\ Some e = Some e' /\ f0 < e' <= e0 /\
      (false = true <-> e' < e0) /\ (forall z, i = Some (Some z) -> e' <= z)).
  { intros i Hi. exists f, e, e. repeat split; auto; lia. }
  destruct instant as [[i|]|]; [|apply Hplain; congruence..].
  rewrite nleb_int, nltb_int. destruct (Z.leb_spec i f).
  { right; right. exists f, e. split_and!; try done. right. by exists i. }
  destruct (Z.ltb_spec i e).
  - exists f, e, i. split_and!; try done; [lia|]. intros z [= <-]. lia.
  - apply Hplain. intros z [= <-]. lia.
Qed.
