(* ===== verification/InvestigationEntries.v ===== *)
(** The sources of an investigation's timeline ([web/src/lib/investigation-sources.ts], second half):
    each listing of the server turned into timeline entries, the scope filters of alerts and runs, and
    the exported document.  Rows are values as they came off the wire: reading a member of a null row throws,
    a member is of unknown shape, and turning one into a text, a date or a key throws where it cannot be printed;
    the outer [option] of a reader is that [TypeError]. *)
From S2P Require Import Prelude JsNum JsString JsCollections JsValue JsDate JsFormat JsJson Utils Investigation InvestigationScope.
Local Open Scope Z_scope.

Definition inRange (d from to : date) : bool :=
  (getTime d >=? getTime from)%num && (getTime d <=? getTime to)%num.

Definition DASH : jstr := [8212].
Definition num (v : value) : value :=
  match v with VNum n => if isFinite n then v else VStr DASH | _ => VStr DASH end.

(** [s || DASH]. *)
Definition or_dash (s : jstr) : jstr := if seqb s [] then DASH else s.
(** [row.k]. *)
Abbreviation field row k := (vget row (js k)).
Abbreviation text row k := (str (vget row (js k))).
(** [parts.filter((s) => s !== "").join(sep)]. *)
Definition join_present (sep : jstr) (parts : list jstr) : jstr :=
  join sep (List.filter (fun s => negb (seqb s [])) parts).

Definition DOT : jstr := [32; 183; 32].

(** A severity as a row carries it. *)
Definition severity_of (v : value) : Severity :=
  let s := string_of_value v in
  match v with
  | VStr _ => if seqb s (js "info") then S_info else if seqb s (js "warn") then S_warn
              else if seqb s (js "error") then S_error else S_other s
  | _ => S_other s
  end.

(** [TABLE[k] ?? "info"] for a table of severities. *)
Definition severity_in (table : list (jstr * Severity)) (k : jstr) : Severity :=
  match table_lookup table k with
  | Some (inl s) => s
  | Some (inr member) => S_other member
  | None => S_info
  end.

Definition is_text (v : value) (s : string) : bool := match v with VStr x => seqb x (js s) | _ => false end.

(** What a loop over the rows collects: a row may throw, draw nothing, or be kept. *)
Definition collect {A B} (f : A -> option (option B)) (rows : list A) : option (list B) := l ← mapM f rows; Some (omap (fun o => o) l).

(** [rows.filter(f)]. *)
Definition keep {A} (f : A -> option bool) (rows : list A) : option (list A) :=
  collect (fun a => (fun b : bool => if b then Some a else None) <$> f a) rows.

(** ** Audit rows *)

Definition rawAuditSubject (row : value) : jstr :=
  if seqb (text row "subjectKind") [] && seqb (text row "subjectId") [] then []
  else text row "subjectKind" ++ js ":" ++ text row "subjectId".

Definition auditDetailLine (row : value) : jstr :=
  let kv := join (js " ")
    ((fun p => p.1 ++ js "=" ++ match p.2 with VStr s => s | v => default (js "undefined") (json_stringify v) end)
       <$> object_entries (field row "detail")) in
  let subject := if negb (seqb (text row "subjectDisplay") []) then text row "subjectDisplay" else rawAuditSubject row in
  join_present DOT [subject; text row "resource"; text row "outcome"; kv].

Definition READ_ONLY_AUDIT_POSTS : list jstr :=
  js <$> ["/api/v1/promql/query"; "/api/v1/promql/query_range"; "/api/v1/checks/projection";
          "/api/v1/alert-rules/preview"]%string.

(** The method and the route of an audited action. *)
Definition auditAction (action : value) : jstr * jstr :=
  let text := str action in
  match indexOf text (js " ") with
  | None => (toUpperCase text, [])
  | Some space => (toUpperCase (take space text), trim (drop (space + 1) text))
  end.

Definition isReadOnlyAudit (action : value) : bool :=
  let '(method, route) := auditAction action in
  if seqb method (js "GET") then true
  else seqb method (js "POST") && existsb (seqb route) READ_ONLY_AUDIT_POSTS.

Definition AUTH_AUDIT_POSTS : list jstr :=
  js <$> ["/api/v1/auth/login"; "/api/v1/auth/logout"; "/api/v1/auth/password"]%string.

Definition auditLeftConfigAlone (row : value) : bool :=
  if negb (is_text (field row "outcome") "allowed") then true
  else
    let '(method, route) := auditAction (field row "action") in
    seqb method (js "POST") && existsb (seqb route) AUTH_AUDIT_POSTS.

Definition RUN_SEVERITY : list (jstr * Severity) :=
  [(js "failed", S_error); (js "partial", S_warn); (js "cancelled", S_warn)].

Definition ALERT_SEVERITY : list (jstr * Severity) :=
  [(js "critical", S_error); (js "warning", S_warn); (js "info", S_info)].

(** ** Alert labels *)

Definition alertLabelLine (labels : value) : jstr :=
  join (js " ") ((fun kv => kv.1 ++ js "=" ++ str kv.2) <$> sort_leb (fun a b => negb (sltb b.1 a.1)) (object_entries labels)).

Definition alertIsOurs (a : value) : option bool :=
  ruleId ← read_member a (js "ruleId");
  Some (match ruleId with VUndef => false | VStr s => negb (seqb s []) | _ => true end).

Definition alertTouchesScope (labels : value) (scope : InvestigationScope) : bool :=
  match scope_kind scope with
  | scope_cluster | scope_zone_pair => true
  | k =>
      let source := text labels "source_node" in
      let destination := text labels "destination_node" in
      let target := text labels "target" in
      if seqb source [] && seqb destination [] && seqb target [] then true
      else match k with
      | scope_target => seqb target (sc_a scope)
      | scope_node => seqb source (sc_a scope) || seqb destination (sc_a scope)
      | _ =>
          if negb (seqb source []) && negb (seqb destination [])
          then seqb source (sc_a scope) && seqb destination (sc_b scope)
          else
            let ends := [sc_a scope; sc_b scope] in
            (negb (seqb source []) && existsb (seqb source) ends) ||
            (negb (seqb destination []) && existsb (seqb destination) ends)
      end
  end.

Definition scopeFromAlertLabels (labels : value) : option InvestigationScope :=
  let source := text labels "source_node" in
  let destination := text labels "destination_node" in
  let target := text labels "target" in
  if negb (seqb source []) && negb (seqb destination [])
  then Some {| scope_kind := scope_pair; sc_a := source; sc_b := destination |}
  else if negb (seqb source []) then Some {| scope_kind := scope_node; sc_a := source; sc_b := [] |}
  else if negb (seqb target []) then Some {| scope_kind := scope_target; sc_a := target; sc_b := [] |}
  else None.

(** ** Runs *)

Definition names (v : value) : list jstr :=
  match v with VArr l => omap (fun x => match x with VStr s => Some s | _ => None end) l | _ => [] end.

Definition covers (list : list jstr) (name : jstr) : bool := (length list =? 0)%nat || existsb (seqb name) list.

Definition runTouchesScope (spec : value) (scope : InvestigationScope) : bool :=
  match scope_kind scope with
  | scope_cluster | scope_zone_pair => true
  | k =>
      match spec with
      | VObj _ | VArr _ =>
          let sources := names (field spec "Sources") in
          let destinations := names (field spec "Destinations") in
          match k with
          | scope_target =>
              match field spec "TypedDestinations" with
              | VArr l =>
                  existsb (fun d => is_text (field d "kind") "target" &&
                                    match field d "name" with VStr s => seqb s (sc_a scope) | _ => false end) l
              | _ => false
              end
          | scope_node => covers sources (sc_a scope) || covers destinations (sc_a scope)
          | _ => covers sources (sc_a scope) && covers destinations (sc_b scope)
          end
      | _ => false
      end
  end.

Section Entries.
Context `{DateHost}.

(** [Some None] is an unreadable instant, [None] the [TypeError] of a value that cannot be printed. *)
Definition validAt (raw : value) : option date := if to_string_throws raw then None else Some (date_of_value raw).

(** The entry of a row with a readable instant; any other draws nothing. *)
Definition dated (row : value) (k : string) (entry : Z -> option (option TimelineEntry)) : option (option TimelineEntry) :=
  raw ← read_member row (js k); at_ ← validAt raw;
  match at_ with None => Some None | Some t => entry t end.

Definition eventEntry (e : value) : option (option TimelineEntry) :=
  dated e "timestamp" (fun at_ =>
    let scope := text e "scope" in
    id ← coerce_string (field e "id");
    Some (Some {| at_ := Some at_; kind := K_event; severity := severity_of (field e "severity");
            title := text e "summary";
            detail := Some (if seqb scope [] then text e "type" else text e "type" ++ DOT ++ scope);
            detailTitle := None; ref := Some (K_event, id); readOnly := None; notACause := None |})).

Definition eventEntries (events : list value) : option (list TimelineEntry) := collect eventEntry events.

Definition auditEntry (from to : date) (row : value) : option (option TimelineEntry) :=
  dated row "at" (fun at_ =>
    if negb (inRange (Some at_) from to) then Some None
    else
      id ← coerce_string (field row "id");
      Some (Some {| at_ := Some at_; kind := K_audit;
              severity := if is_text (field row "outcome") "denied" then S_warn
                          else if is_text (field row "outcome") "error" then S_error else S_info;
              title := or_dash (text row "action");
              detail := Some (auditDetailLine row);
              detailTitle := if negb (seqb (text row "subjectDisplay") []) && negb (seqb (rawAuditSubject row) [])
                             then Some (rawAuditSubject row) else None;
              readOnly := Some (isReadOnlyAudit (field row "action"));
              notACause := Some (auditLeftConfigAlone row);
              ref := Some (K_audit, id) |})).

Definition auditEntries (rows : list value) (from to : date) : option (list TimelineEntry) := collect (auditEntry from to) rows.

Definition annotationEntry (t : Translate) (a : value) : option (option TimelineEntry) :=
  dated a "startAt" (fun at_ =>
    Some (Some {| at_ := Some at_; kind := K_annotation; severity := S_info; title := text a "text";
            detail := Some (join DOT [if seqb (text a "scope") [] then t (js "scope.global") [] else text a "scope";
                                      or_dash (text a "createdBy")]);
            detailTitle := None; ref := Some (K_annotation, string_of_value (field a "id"));
            readOnly := None; notACause := None |})).

Definition annotationEntries (annotations : list value) (t : Translate) : option (list TimelineEntry) :=
  collect (annotationEntry t) annotations.

Definition pathChangeEntry (from to : date) (t : Translate) (s : value) : option (option TimelineEntry) :=
  dated s "firstSeen" (fun at_ =>
    if negb (inRange (Some at_) from to) then Some None
    else
      Some (Some {| at_ := Some at_; kind := K_path_change; severity := S_warn;
              title := t (js "entry.pathChange.title")
                         [(js "src", VStr (text s "sourceNode")); (js "sep", VStr PAIR_SEPARATOR);
                          (js "dst", VStr (text s "destination"))];
              detail := Some (t (js "entry.pathChange.detail")
                         [(js "hash", VStr (or_dash (take 12 (text s "pathHash"))));
                          (js "hops", num (field s "hopCount")); (js "traces", num (field s "traceCount"))]);
              detailTitle := None; ref := Some (K_path_change, string_of_value (field s "id"));
              readOnly := None; notACause := None |})).

Definition pathChangeEntries (snapshots : list value) (from to : date) (t : Translate) : option (list TimelineEntry) :=
  collect (pathChangeEntry from to t) snapshots.

Definition runEntry (t : Translate) (r : value) : option (option TimelineEntry) :=
  dated r "createdAt" (fun at_ =>
    status ← coerce_string (field r "status");
    Some (Some {| at_ := Some at_; kind := K_run; severity := severity_in RUN_SEVERITY status;
            title := t (js "entry.run.title")
                       [(js "type", VStr (or_dash (text r "type"))); (js "status", VStr (or_dash (text r "status")))];
            detail := Some (t (js "entry.run.detail")
                       [(js "ok", num (field r "pairOk")); (js "total", num (field r "pairTotal"));
                        (js "by", VStr (if seqb (text r "initiatorKind") [] && seqb (text r "initiatorId") [] then DASH
                                        else text r "initiatorKind" ++ js ":" ++ text r "initiatorId"))]);
            detailTitle := None; ref := Some (K_run, string_of_value (field r "id"));
            readOnly := None; notACause := None |})).

Definition runEntries (runs : list value) (t : Translate) : option (list TimelineEntry) := collect (runEntry t) runs.

Definition k8sEntry (e : value) : option (option TimelineEntry) :=
  dated e "eventTime" (fun at_ =>
    let object := join_present (js " ") [text e "kind"; text e "name"] in
    let reason := text e "reason" in
    let message := text e "message" in
    id ← coerce_string (field e "id");
    Some (Some {| at_ := Some at_; kind := K_k8s;
            severity := if is_text (field e "type") "Warning" then S_warn else S_info;
            title := or_dash (join_present (js ": ") [object; reason]);
            detail := Some (match field e "count" with
                            | VNum n => if (n >? int 1)%num then message ++ js " (" ++ [215] ++ num_to_string n ++ js ")"
                                        else message
                            | _ => message
                            end);
            detailTitle := None; ref := Some (K_k8s, id); readOnly := None; notACause := None |})).

Definition k8sEntries (events : list value) : option (list TimelineEntry) := collect k8sEntry events.

(** [stampFull] is the clock of the interface language, for the locale in force. *)
Definition maintenanceEntry (t : Translate) (stampFull : Z -> jstr) (w : value) : option (option TimelineEntry) :=
  dated w "startAt" (fun at_ =>
    end_ ← validAt (VStr (text w "endAt"));
    Some (Some {| at_ := Some at_; kind := K_maintenance; severity := S_info;
            title := t (js "entry.maintenance.title") [(js "reason", VStr (or_dash (text w "reason")))];
            detail := Some (t (match end_ with None => js "entry.maintenance.detail.noEnd"
                               | Some _ => js "entry.maintenance.detail" end)
                       [(js "scope", VStr (if seqb (text w "scope") [] then t (js "scope.global") [] else text w "scope"));
                        (js "until", VStr (match end_ with None => DASH | Some e => stampFull e end));
                        (js "by", VStr (or_dash (text w "createdBy")))]);
            detailTitle := None; ref := Some (K_maintenance, string_of_value (field w "id"));
            readOnly := None; notACause := None |})).

Definition maintenanceEntries (windows : list value) (t : Translate) (stampFull : Z -> jstr) : option (list TimelineEntry) :=
  collect (maintenanceEntry t stampFull) windows.

(** ** Alerts *)

(** [Some None] where the alert draws no row. *)
Definition alertStartedBy (a : value) (to : date) : option date :=
  state ← read_member a (js "state");
  if negb (is_text state "firing") then Some None
  else
    started ← match field a "activeAt" with VUndef => Some None | v => validAt v end;
    Some (match started with Some s => if (int s >? getTime to)%num then None else Some s | None => None end).

Definition alertEntry (from to : date) (t : Translate) (a : value) : option (option TimelineEntry) :=
  startedBy ← alertStartedBy a to;
  match startedBy with
  | None => Some None
  | Some started =>
      let labels := alertLabelLine (field a "labels") in
      let name := or_dash (text a "name") in
      let before := (int started <? getTime from)%num in
      let severityText := if seqb (text a "severity") [] then t (js "entry.alert.noSeverity") [] else text a "severity" in
      Some (Some {| at_ := if before then from else Some started; kind := K_alert;
              severity := severity_in ALERT_SEVERITY (text a "severity");
              title := t (if before then js "entry.alert.title.before" else js "entry.alert.title") [(js "name", VStr name)];
              detail := Some (if before
                         then t (js "entry.alert.detail.before")
                                [(js "severity", VStr severityText); (js "since", VStr (iso_string started));
                                 (js "labels", VStr labels)]
                         else t (js "entry.alert.detail") [(js "severity", VStr severityText); (js "labels", VStr labels)]);
              detailTitle := None; ref := Some (K_alert, text a "name" ++ js "{" ++ labels ++ js "}");
              readOnly := None; notACause := None |})
  end.

Definition alertEntries (alerts : list value) (from to : date) (t : Translate) : option (list TimelineEntry) :=
  collect (alertEntry from to t) alerts.

Record ScopedAlerts := { sa_entries : list TimelineEntry; hiddenByScope : Z }.

Definition inScope (scope : InvestigationScope) (a : value) : option bool :=
  labels ← read_member a (js "labels"); Some (alertTouchesScope labels scope).

Definition scopedAlertEntries (alerts : list value) (from to : date) (scope : InvestigationScope) (t : Translate) :
    option ScopedAlerts :=
  ours ← keep alertIsOurs alerts;
  all ← alertEntries ours from to t;
  let wouldDraw := mergeTimeline [all] in
  touching ← keep (inScope scope) ours;
  rows ← alertEntries touching from to t;
  let entries := mergeTimeline [rows] in
  Some {| sa_entries := entries; hiddenByScope := Z.of_nat (length wouldDraw) - Z.of_nat (length entries) |}.
End Entries.

(** ** The exported document *)

Record ExportEntry := {
  x_at : jstr; x_kind : jstr; x_severity : Severity; x_title : jstr; x_detail : option jstr;
  x_ref : option (TimelineKind * jstr);
}.
Record ExportCause := { c_at : jstr; c_kind : jstr; c_title : jstr; c_score : number }.
Record ExportPayload := {
  x_params_kind : ScopeKind; x_params_scope : jstr; x_params_from : jstr; x_params_to : jstr;
  x_entries : list ExportEntry; x_causes : list ExportCause;
}.

Definition export_entry (e : TimelineEntry) : option ExportEntry :=
  at_ ← toISOString (at_ e);
  Some {| x_at := at_; x_kind := kind_string (kind e); x_severity := severity e; x_title := title e;
          x_detail := detail e; x_ref := ref e |}.

Definition export_cause (c : RankedCause) : option ExportCause :=
  at_ ← toISOString (at_ (entry c));
  Some {| c_at := at_; c_kind := kind_string (kind (entry c)); c_title := title (entry c); c_score := score c |}.

(** [None] is the RangeError of an unreadable instant. *)
Definition buildExportPayload (params : InvestigationParams) (entries : list TimelineEntry)
    (causes : list RankedCause) : option ExportPayload :=
  from ← toISOString (p_from params);
  to ← toISOString (p_to params);
  es ← mapM export_entry entries;
  cs ← mapM export_cause causes;
  Some {| x_params_kind := scope_kind (p_scope params); x_params_scope := scopeParamValue (p_scope params);
          x_params_from := from; x_params_to := to; x_entries := es; x_causes := cs |}.

(** ** What the page never loses *)

(** The sources whose entries all have a readable instant. *)
Create HintDb placed.

Section Facts.
Context `{DateHost}.

Lemma collect_elem {A B} (f : A -> option (option B)) rows out b :
  collect f rows = Some out -> b ∈ out <-> exists a, a ∈ rows /\ f a = Some (Some b).
Proof.
  unfold collect. destruct (mapM f rows) as [l|] eqn:E; [|done]. intros <-%(inj Some). apply mapM_Some_1 in E.
  rewrite list_elem_of_omap. split.
  - intros (o & Ho & Hb). subst o. apply list_elem_of_lookup_1 in Ho as [i Hi].
    destruct (Forall2_lookup_r _ _ _ _ _ E Hi) as (a & Ha & Hf). exists a. split; [by eapply list_elem_of_lookup_2|done].
  - intros (a & Ha & Hf). apply list_elem_of_lookup_1 in Ha as [i Hi].
    destruct (Forall2_lookup_l _ _ _ _ _ E Hi) as (o & Ho & Hf'). exists o. split; [by eapply list_elem_of_lookup_2|]. congruence.
Qed.

Lemma collect_placed (f : value -> option (option TimelineEntry)) rows out :
  (forall r e, f r = Some (Some e) -> placed e) -> collect f rows = Some out -> Forall placed out.
Proof. intros Hf Hc. apply Forall_forall. intros e He. apply (collect_elem _ _ _ _ Hc) in He as (r & _ & Hr). eauto. Qed.

Lemma collect_total {A B} (f : A -> option (option B)) rows : Forall (fun a => is_Some (f a)) rows -> is_Some (collect f rows).
Proof. intros Hf. unfold collect. apply mapM_is_Some in Hf as [l ->]. by eexists. Qed.

Lemma collect_throws {A B} (f : A -> option (option B)) rows a : a ∈ rows -> f a = None -> collect f rows = None.
Proof.
  intros Ha Hf. unfold collect. destruct (mapM f rows) as [l|] eqn:E; [|done]. apply mapM_Some_1 in E.
  apply list_elem_of_lookup_1 in Ha as [i Hi]. destruct (Forall2_lookup_l _ _ _ _ _ E Hi) as (o & _ & Ho). congruence.
Qed.

Lemma dated_some row k entry e :
  dated row k entry = Some (Some e) -> exists t, validAt (vget row (js k)) = Some (Some t) /\ entry t = Some (Some e).
Proof.
  unfold dated. destruct (read_member row (js k)) as [raw|] eqn:Er; [|done]. cbn [mbind option_bind].
  assert (raw = vget row (js k)) as -> by (destruct row; cbn [read_member] in Er; congruence).
  destruct (validAt _) as [[t|]|] eqn:Ev; cbn [mbind option_bind]; try done. intros He. by exists t.
Qed.

(** Reads an entry out of its program. *)
Ltac open_entry := intros (? & ? & He)%dated_some; revert He; cbv zeta;
  repeat (case_match; try discriminate); repeat (destruct (coerce_string _); [cbn [mbind option_bind]|discriminate]); unfold validAt; cbn [to_string_throws mbind option_bind];
  intros <-%(inj Some)%(inj Some); by eexists.

Lemma auditEntry_placed from to r e : auditEntry from to r = Some (Some e) -> placed e.
Proof. unfold auditEntry. open_entry. Qed.

Lemma eventEntry_placed r e : eventEntry r = Some (Some e) -> placed e.
Proof. unfold eventEntry. open_entry. Qed.

Lemma annotationEntry_placed t r e : annotationEntry t r = Some (Some e) -> placed e.
Proof. unfold annotationEntry. open_entry. Qed.

Lemma pathChangeEntry_placed from to t r e : pathChangeEntry from to t r = Some (Some e) -> placed e.
Proof. unfold pathChangeEntry. open_entry. Qed.

Lemma runEntry_placed t r e : runEntry t r = Some (Some e) -> placed e.
Proof. unfold runEntry. open_entry. Qed.

Lemma k8sEntry_placed r e : k8sEntry r = Some (Some e) -> placed e.
Proof. unfold k8sEntry. open_entry. Qed.

Lemma maintenanceEntry_placed t stamp r e : maintenanceEntry t stamp r = Some (Some e) -> placed e.
Proof. unfold maintenanceEntry. open_entry. Qed.

Lemma alertEntry_placed from to t r e : alertEntry from to t r = Some (Some e) -> placed e.
Proof.
  unfold alertEntry. destruct (alertStartedBy r to) as [[s|]|]; cbn [mbind option_bind]; try done.
  cbv zeta. intros <-%(inj Some)%(inj Some). unfold placed. cbn [at_].
  destruct from as [f|]; [by case_match|]. done.
Qed.

Lemma alertEntries_placed l from to t es : alertEntries l from to t = Some es -> Forall placed es.
Proof. apply collect_placed. intros r e. apply alertEntry_placed. Qed.

#[local] Hint Resolve auditEntry_placed eventEntry_placed annotationEntry_placed pathChangeEntry_placed
  runEntry_placed k8sEntry_placed maintenanceEntry_placed alertEntry_placed : placed.

(** An alert row always names its series. *)
Lemma alertEntries_refs l from to t es e : alertEntries l from to t = Some es -> e ∈ es -> is_Some (ref e).
Proof.
  intros Hes He. apply (collect_elem _ _ _ _ Hes) in He as (a & _ & Ha). unfold alertEntry in Ha.
  destruct (alertStartedBy a to) as [[s|]|]; cbn [mbind option_bind] in Ha; try done. cbv zeta in Ha. apply (inj Some), (inj Some) in Ha as <-. by eexists.
Qed.

Lemma merge_refs sources r :
  Forall placed (concat sources) -> r ∈ omap ref (mergeTimeline sources) <-> r ∈ omap ref (concat sources).
Proof.
  intros Hp. destruct (merge_facts sources Hp) as (_ & _ & Hsub & _ & Hrep). rewrite !list_elem_of_omap. split.
  - intros (e & He & Hr). eauto.
  - intros (e & He & Hr). destruct (Hrep e r He Hr) as (e' & ? & ? & _). eauto.
Qed.

Lemma omap_ref_length (l : list TimelineEntry) : (forall e, e ∈ l -> is_Some (ref e)) -> length (omap ref l) = length l.
Proof.
  induction l as [|e l IH]; intros Hr; [done|]. simpl. destruct (Hr e) as [x ->]; [constructor|]. simpl.
  f_equal. apply IH. intros. apply Hr. by constructor.
Qed.

(** The series of a list of entries. *)
Definition series (es : list TimelineEntry) : list (TimelineKind * jstr) := set_of_list (omap ref es).

Lemma alert_rows_series from to t alerts es :
  alertEntries alerts from to t = Some es ->
  omap ref (mergeTimeline [es]) ≡ₚ series es /\ length (mergeTimeline [es]) = length (series es).
Proof.
  intros Hes. assert (Hp : Forall placed (concat [es])).
  { simpl. rewrite app_nil_r. by eapply alertEntries_placed. }
  assert (E : omap ref (mergeTimeline [es]) ≡ₚ series es).
  { apply NoDup_Permutation; [apply (merge_facts _ Hp)|apply NoDup_set_of_list|].
    intros r. rewrite merge_refs by done. unfold series. rewrite elem_of_set_of_list. simpl. by rewrite app_nil_r. }
  split; [done|]. rewrite <- (Permutation_length E), omap_ref_length; [done|].
  intros e He. apply (merge_facts _ Hp) in He. simpl in He. rewrite app_nil_r in He. by eapply alertEntries_refs.
Qed.

Lemma length_split {A} (P : A -> Prop) `{!forall x, Decision (P x)} (l : list A) :
  (length (filter P l) + length (filter (fun x => ~ P x) l) = length l)%nat.
Proof.
  induction l as [|x l IH]; [done|]. destruct (decide (P x)) as [Hx|Hx].
  - rewrite filter_cons_True, filter_cons_False by tauto. simpl. lia.
  - rewrite filter_cons_False, filter_cons_True by tauto. simpl. lia.
Qed.

Lemma length_difference {A} `{EqDecision A} (l k : list A) :
  NoDup l -> NoDup k -> k ⊆ l -> length (filter (.∉ k) l) = (length l - length k)%nat.
Proof.
  intros Hl Hk Hsub.
  assert (E : filter (.∈ k) l ≡ₚ k).
  { apply NoDup_Permutation; [by apply NoDup_filter|done|]. intros x. rewrite list_elem_of_filter. set_solver. }
  pose proof (Permutation_length E) as H1. pose proof (length_split (.∈ k) l) as H2. rewrite H1 in H2. rewrite <- H2, Nat.add_comm, Nat.add_sub. done.
Qed.

Lemma keep_elem {A} (f : A -> option bool) rows out a : keep f rows = Some out -> a ∈ out <-> a ∈ rows /\ f a = Some true.
Proof.
  intros Hk. rewrite (collect_elem _ _ _ _ Hk). split.
  - intros (x & Hx & Hf). destruct (f x) as [[]|] eqn:E; cbn in Hf; try done. injection Hf as ->. done.
  - intros [Ha Hf]. exists a. by rewrite Hf.
Qed.

Lemma keep_throws {A} (f : A -> option bool) rows a : a ∈ rows -> f a = None -> keep f rows = None.
Proof. intros Ha Hf. apply (collect_throws _ _ a Ha). by rewrite Hf. Qed.

Lemma series_mono from to t l k es es' :
  l ⊆ k -> alertEntries l from to t = Some es -> alertEntries k from to t = Some es' -> series es ⊆ series es'.
Proof.
  intros Hs Hl Hk r. unfold series. rewrite !elem_of_set_of_list, !list_elem_of_omap. intros (e & He & Hr).
  exists e. split; [|done]. apply (collect_elem _ _ _ _ Hl) in He as (a & Ha & Hae). apply (collect_elem _ _ _ _ Hk). eauto.
Qed.

(** The alert source accounts for every alert of this console: where it does not throw, its rows are exactly the firing
    series that touch the scope, one row each and each built from an alert of ours, and the number it reports as
    hidden is exactly the number of further series it would have drawn without the scope. *)
Theorem scopedAlertEntries_accounts alerts from to scope t out :
  scopedAlertEntries alerts from to scope t = Some out ->
  exists ours touching all rows,
    keep alertIsOurs alerts = Some ours /\ keep (inScope scope) ours = Some touching /\
    alertEntries ours from to t = Some all /\ alertEntries touching from to t = Some rows /\
    omap ref (sa_entries out) ≡ₚ series rows /\
    (forall e, e ∈ sa_entries out ->
       exists a, a ∈ alerts /\ alertIsOurs a = Some true /\ inScope scope a = Some true /\ alertEntry from to t a = Some (Some e)) /\
    hiddenByScope out = Z.of_nat (length (filter (.∉ series rows) (series all))).
Proof.
  unfold scopedAlertEntries. destruct (keep alertIsOurs alerts) as [ours|] eqn:E1; [|done]. cbn [mbind option_bind].
  destruct (alertEntries ours from to t) as [all|] eqn:E2; [|done]. cbn [mbind option_bind].
  destruct (keep (inScope scope) ours) as [touching|] eqn:E3; [|done]. cbn [mbind option_bind].
  destruct (alertEntries touching from to t) as [rows|] eqn:E4; [|done]. cbn [mbind option_bind]. intros <-%(inj Some).
  exists ours, touching, all, rows. cbn [sa_entries hiddenByScope]. split_and!; try done.
  - by eapply alert_rows_series.
  - intros e He. apply merge_facts in He; [|simpl; rewrite app_nil_r; by eapply alertEntries_placed].
    simpl in He. rewrite app_nil_r in He. apply (collect_elem _ _ _ _ E4) in He as (a & Ha & Hae).
    apply (keep_elem _ _ _ _ E3) in Ha as [Ha Ht]. apply (keep_elem _ _ _ _ E1) in Ha as [Ha Ho]. by exists a.
  - assert (Hs : series rows ⊆ series all).
    { apply (series_mono from to t touching ours); [|done|done]. intros a Ha. by apply (keep_elem _ _ _ _ E3) in Ha as [Ha _]. }
    rewrite length_difference by (apply NoDup_set_of_list || done).
    rewrite (proj2 (alert_rows_series _ _ _ _ _ E2)), (proj2 (alert_rows_series _ _ _ _ _ E4)).
    pose proof (NoDup_submseteq (series rows) (series all) (NoDup_set_of_list _)) as Hle.
    apply submseteq_length in Hle; [lia|exact Hs].
Qed.

(** ** Only a change is a cause *)

Lemma rankCauses_elem entries onset w c :
  c ∈ rankCauses entries onset w ->
  entry c ∈ entries /\ readOnly (entry c) <> Some true /\ notACause (entry c) <> Some true.
Proof.
  unfold rankCauses. case_match; [by intros ?%elem_of_nil|]. intros Hc. unfold js_sort in Hc.
  apply elem_of_sort_leb, list_elem_of_omap in Hc as (e & He & Hr). unfold rank_entry in Hr.
  destruct (bool_decide (readOnly e = Some true)) eqn:E1; [done|].
  destruct (bool_decide (notACause e = Some true)) eqn:E2; [done|]. cbn [orb] in Hr.
  apply bool_decide_eq_false in E1, E2. repeat case_match; try done. by injection Hr as <-.
Qed.

(** The ranking never blames a bystander of the audit log: however the timeline was assembled, a
    cause of kind "audit" stems from a row inside the window whose request the server allowed, which was
    no read, and which was no sign-in, sign-out or password change. *)
Theorem audit_cause_is_a_change rows from to es others onset w c :
  auditEntries rows from to = Some es ->
  Forall placed (concat others) -> Forall (fun e => kind e <> K_audit) (concat others) ->
  c ∈ rankCauses (mergeTimeline (es :: others)) onset w -> kind (entry c) = K_audit ->
  exists row at_, row ∈ rows /\ validAt (vget row (js "at")) = Some (Some at_) /\ inRange (Some at_) from to = true /\
    vget row (js "outcome") = VStr (js "allowed") /\
    isReadOnlyAudit (vget row (js "action")) = false /\
    (forall m r, auditAction (vget row (js "action")) = (m, r) -> ~ (m = js "POST" /\ r ∈ AUTH_AUDIT_POSTS)).
Proof.
  intros Hes Hp Hk Hc Ha. apply rankCauses_elem in Hc as (He & Hro & Hnc).
  assert (Hplaced : Forall placed (concat (es :: others))).
  { simpl. apply Forall_app. split; [|done]. eapply collect_placed; [|exact Hes]. intros r e. apply auditEntry_placed. }
  apply (merge_facts _ Hplaced) in He. simpl in He. apply elem_of_app in He as [He|He].
  2:{ rewrite Forall_forall in Hk. by apply Hk in He. }
  apply (collect_elem _ _ _ _ Hes) in He as (row & Hrow & He). unfold auditEntry in He. apply dated_some in He as (t0 & Et & He).
  destruct (inRange (Some t0) from to) eqn:Er; cbn [negb] in He; [|done].
  destruct (coerce_string _); cbn [mbind option_bind] in He; [|done]. apply (inj Some), (inj Some) in He.
  rewrite <- He in Hro, Hnc. cbn [readOnly notACause] in Hro, Hnc.
  exists row, t0. split_and!; try done.
  - unfold auditLeftConfigAlone, is_text in Hnc. destruct (vget row (js "outcome")); try done.
    destruct (seqb s (js "allowed")) eqn:E; [|done]. apply seqb_eq in E. by subst.
  - by destruct (isReadOnlyAudit _).
  - intros m r Hm [-> Hr]. unfold auditLeftConfigAlone in Hnc. rewrite Hm in Hnc.
    destruct (is_text (vget row (js "outcome")) "allowed"); cbn [negb] in Hnc; [|by apply Hnc].
    apply Hnc. f_equal. apply andb_true_iff. split; [done|].
    apply existsb_exists. exists r. split; [by apply list_elem_of_In|by apply seqb_eq].
Qed.
End Facts.

#[export] Hint Resolve auditEntry_placed eventEntry_placed annotationEntry_placed pathChangeEntry_placed
  runEntry_placed k8sEntry_placed maintenanceEntry_placed alertEntry_placed : placed.

(** One audited change and one audited read. *)
Definition change_row : value :=
  VObj [(js "at", VNum (int 1000)); (js "outcome", VStr (js "allowed")); (js "action", VStr (js "PUT /api/v1/checks"));
        (js "id", VStr (js "1"))].
Definition read_row : value :=
  VObj [(js "at", VNum (int 1000)); (js "outcome", VStr (js "allowed")); (js "action", VStr (js "get /api/v1/checks"));
        (js "id", VStr (js "2"))].

Definition audit_rows : list TimelineEntry := default [] (auditEntries (H := iso_host) [change_row; read_row] (Some 0) (Some 5000)).

Lemma audit_cause_is_a_change_witness :
  exists row t0, row ∈ [change_row; read_row] /\ validAt (H := iso_host) (vget row (js "at")) = Some (Some t0) /\
    isReadOnlyAudit (vget row (js "action")) = false.
Proof.
  pose (ranked := rankCauses (mergeTimeline [audit_rows]) (Some 2000) None).
  assert (E : exists c, ranked = [c] /\ kind (entry c) = K_audit).
  { eexists. split; [vm_compute; reflexivity|reflexivity]. }
  destruct E as (c & Ec & Ek).
  destruct (audit_cause_is_a_change (H := iso_host) [change_row; read_row] (Some 0) (Some 5000) audit_rows [] (Some 2000) None c)
    as (row & t0 & H1 & H2 & _ & _ & H5 & _).
  - vm_compute. reflexivity.
  - apply Forall_nil_2.
  - apply Forall_nil_2.
  - change (c ∈ ranked). rewrite Ec. apply list_elem_of_here.
  - exact Ek.
  - exists row, t0. split; [exact H1|]. split; [exact H2|exact H5].
Defined.

(** A severity label that names a member every object inherits is not one of the three levels. *)
Theorem alert_severity_inherited :
  option_map (map severity) (alertEntries (H := iso_host)
    [VObj [(js "state", VStr (js "firing")); (js "activeAt", VNum (int 5)); (js "severity", VStr (js "constructor"))]]
    (Some 0) (Some 10) (fun k _ => k)) = Some [S_other (js "constructor")].
Proof. vm_compute. reflexivity. Qed.
