(* ===== verification/InvestigatePage.v ===== *)
(** The Investigate page ([web/src/pages/investigate.tsx]) around the libraries it calls: what it does
    with a URL it did not write, the address it writes back, and the assembly of the timeline, the onset,
    the causes and the exported document out of the answers of its sources. *)
From S2P Require Import Prelude JsNum JsString JsCollections JsValue JsDate JsFormat JsUrl JsJson Utils Investigation InvestigationScope InvestigationEntries.
Local Open Scope Z_scope.

(** ** The address bar *)

Definition OWNED_KEYS : list jstr := js <$> ["kind"; "scope"; "from"; "to"; "incident"]%string.

(** The parameters [paramsHref] leaves in the address. *)
Definition paramsUrl (u : Url) (p : InvestigationParams) : option Url :=
  s ← investigationParamsToSearch p;
  let kept := fold_left qs_delete OWNED_KEYS (params u) in
  Some {| pathname := pathname u;
          params := fold_left (fun qs kv => qs_set qs kv.1 kv.2) (qs_parse (drop 1 s)) kept;
          hash := hash u |}.

Definition readIncidentParam (search : jstr) : option jstr :=
  match qs_get (qs_parse search) (js "incident") with
  | None => None
  | Some raw => if seqb (trim raw) [] then None else Some raw
  end.

Definition writeIncidentParam (u : Url) (id : jstr) : Url :=
  {| pathname := pathname u;
     params := qs_set (fold_left qs_delete (js <$> ["kind"; "scope"; "from"; "to"]%string) (params u)) (js "incident") id;
     hash := hash u |}.

Definition presetForSpan (from to : date) : jstr :=
  let seconds := nround ((getTime to - getTime from) / int 1000)%num in
  match List.find (fun p => (int p.2 =? seconds)%num) RANGE_PRESETS with
  | Some (value, _, _) => value
  | None => js "custom"
  end.

Definition scopeHeadline (t : Translate) (scope : InvestigationScope) : jstr :=
  match scope_kind scope with
  | scope_pair => sc_a scope ++ js " " ++ PAIR_SEPARATOR ++ js " " ++ sc_b scope
  | scope_zone_pair =>
      t (js "scope.headline.zonePair")
        [(js "a", VStr (sc_a scope)); (js "sep", VStr PAIR_SEPARATOR); (js "b", VStr (sc_b scope))]
  | scope_cluster => t (js "scope.headline.cluster") []
  | _ => if seqb (sc_a scope) [] then t (js "scope.headline.empty") [] else sc_a scope
  end.

Definition NOTES_ROWS_MIN : Z := 3.
Definition NOTES_ROWS_MAX : Z := 8.
Definition notesRows (text : jstr) : Z :=
  Z.min NOTES_ROWS_MAX (Z.max NOTES_ROWS_MIN (Z.of_nat (length (split_unit 10 text)))).

(** ** Hydration *)

Record Hydrated := {
  h_params : InvestigationParams; h_clamped : bool; h_error : option jstr; h_ignored : list jstr;
}.

Section Page.
Context `{DateHost}.

Definition hydrateInvestigation (search : jstr) (now : date) (at_ : option date) (t : Translate) : Hydrated :=
  let parsed := parseInvestigationParams search now in
  let ignored := ignoredInvestigationParams search in
  match commitWindow (p_from parsed) (p_to parsed) at_ t with
  | Window from to clamped =>
      {| h_params := {| p_scope := p_scope parsed; p_from := from; p_to := to |};
         h_clamped := clamped; h_error := None; h_ignored := ignored |}
  | Refused reason =>
      let anchor := default now at_ in
      {| h_params := {| p_scope := p_scope parsed;
                        p_from := date_of_number (getTime anchor - int (DEFAULT_RANGE_SECONDS * 1000))%num;
                        p_to := anchor |};
         h_clamped := false; h_error := Some reason; h_ignored := ignored |}
  end.

(** [correctURL]: the address after hydration ([None] is the RangeError of an unreadable window). *)
Definition correctURL (u : Url) (h : Hydrated) (incidentParam : option jstr) : option Url :=
  match incidentParam with
  | Some _ => Some u
  | None =>
      if (length (h_ignored h) =? 0)%nat && negb (h_clamped h) && negb (bool_decide (is_Some (h_error h)))
      then Some u else paramsUrl u (h_params h)
  end.

(** ** Assembly *)

(** What the nine sources answered: the rows of each listing, as they came off the wire. *)
Record Answers := {
  events : list value; audit : list value; annotations : list value; snapshots : list value;
  runs : list value; k8s : list value; windows : list value;
  loss : option value; rtt : option value; alerts : list value;
}.

Definition CAUSE_TOP_N : nat := 5.

(** The run details whose spec touches the scope. *)
Definition scopedRuns (runs : list value) (scope : InvestigationScope) : option (list value) :=
  keep (fun r => spec ← read_member r (js "spec"); Some (runTouchesScope spec scope)) runs.

(** [None]: a reader of the page throws. *)
Definition page_sources (d : Answers) (p : InvestigationParams) (t : Translate) (stampFull : Z -> jstr) :
    option (list (list TimelineEntry)) :=
  runRows ← scopedRuns (runs d) (p_scope p);
  samples ← samplesFromMatrix (loss d) (rtt d);
  scopedAlerts ← scopedAlertEntries (alerts d) (p_from p) (p_to p) (p_scope p) t;
  ofEvents ← eventEntries (events d);
  ofAudit ← auditEntries (audit d) (p_from p) (p_to p);
  ofAnnotations ← annotationEntries (annotations d) t;
  ofSnapshots ← pathChangeEntries (snapshots d) (p_from p) (p_to p) t;
  ofRuns ← runEntries runRows t;
  ofK8s ← k8sEntries (k8s d);
  ofWindows ← maintenanceEntries (windows d) t stampFull;
  Some [ofEvents; ofAudit; ofAnnotations; ofSnapshots; ofRuns; ofK8s; ofWindows;
        thresholdCrossings samples DEFAULT_THRESHOLDS t; sa_entries scopedAlerts].

Definition page_entries (d : Answers) (p : InvestigationParams) (t : Translate) (stampFull : Z -> jstr) :
    option (list TimelineEntry) := mergeTimeline <$> page_sources d p t stampFull.

Definition page_causes (entries : list TimelineEntry) : list RankedCause :=
  match anomalyOnset entries with
  | None => []
  | Some onset => take CAUSE_TOP_N (rankCauses entries onset None)
  end.

Definition page_export (d : Answers) (p : InvestigationParams) (t : Translate) (stampFull : Z -> jstr) :
    option ExportPayload :=
  entries ← page_entries d p t stampFull;
  buildExportPayload p entries (page_causes entries).
End Page.

(** ** Every link opens a page *)

Lemma clamp_fin z lo hi : lo <= hi -> exists c, nmin (nmax (Fin z) (Fin lo)) (Fin hi) = Fin c /\ lo <= c <= hi.
Proof.
  intros. unfold nmax, nmin. cbn [isNaN orb nltb]. destruct (Z.ltb_spec z lo); cbn [isNaN orb nltb];
    case_match; eexists; (split; [reflexivity|lia]).
Qed.

Lemma date_of_fin c : - (MAX_TIME_MS * U) <= c <= MAX_TIME_MS * U -> is_Some (date_of_number (Fin c)).
Proof. intros. unfold date_of_number. rewrite (proj2 (Z.leb_le _ _)) by lia. by eexists. Qed.

Lemma date_of_range t : in_time_range t -> exists t', date_of_number (int t) = Some t' /\ in_time_range t'.
Proof. intros H. exists t. split; [by apply date_of_number_int|done]. Qed.

(** Moving an instant always yields a representable one, whatever it is moved from and by. *)
Lemma shiftInstant_some base delta : exists t, shiftInstant base delta = Some t /\ in_time_range t.
Proof.
  unfold shiftInstant. destruct (getTime base + delta)%num as [| |z]; cbn [isFinite negb].
  1,2: case_match; apply date_of_range; unfold in_time_range; rewrite ?Z.abs_opp; vm_compute; discriminate.
  destruct (clamp_fin z (- MAX_TIME_MS * U) (MAX_TIME_MS * U)) as (c & E & Hc).
  { pose proof U_pos. assert (0 <= MAX_TIME_MS) by done. nia. }
  unfold int. rewrite E. destruct (date_of_fin c) as [t Et]; [lia|]. exists t. split; [done|].
  pose proof (date_of_number_valid (Fin c)) as V. by rewrite Et in V.
Qed.

Section Hydration.
Context `{DateHost}.

Lemma parseInstant_range raw t : parseInstant raw = Some t -> in_time_range t.
Proof.
  unfold parseInstant. destruct raw as [s|]; [|done]. case_match; [done|]. intros E.
  pose proof (date_of_string_valid s) as V. by rewrite E in V.
Qed.

(** Parsing is total: every query string names a readable window. *)
Lemma parse_total search n :
  in_time_range n ->
  exists f e, p_from (parseInvestigationParams search (Some n)) = Some f /\ in_time_range f /\
    p_to (parseInvestigationParams search (Some n)) = Some e /\ in_time_range e.
Proof.
  intros Hn. unfold parseInvestigationParams. cbv zeta. cbn [p_from p_to].
  destruct (parseInstant (qs_get _ (js "from"))) as [f|] eqn:Ef, (parseInstant (qs_get _ (js "to"))) as [e|] eqn:Ee;
    repeat match goal with H : parseInstant _ = Some _ |- _ => apply parseInstant_range in H end.
  - eauto 10.
  - destruct (shiftInstant_some (Some f) (int (DEFAULT_RANGE_SECONDS * 1000))) as (e & -> & ?). eauto 10.
  - destruct (shiftInstant_some (Some e) (- int (DEFAULT_RANGE_SECONDS * 1000))%num) as (f & -> & ?). eauto 10.
  - destruct (shiftInstant_some (Some n) (- int (DEFAULT_RANGE_SECONDS * 1000))%num) as (f & -> & ?). eauto 10.
Qed.

(** The instant the page falls back on, an hour clear of the end of the calendar. *)
Definition anchored (n : Z) (at_ : option date) : Prop :=
  match at_ with
  | Some d => exists a, d = Some a /\ in_time_range a /\ in_time_range (a - 3600000)
  | None => in_time_range (n - 3600000)
  end.

Lemma hour_before a : in_time_range a -> in_time_range (a - 3600000) ->
  date_of_number (getTime (Some a) - int (DEFAULT_RANGE_SECONDS * 1000))%num = Some (a - 3600000).
Proof.
  intros Ha Hb. rewrite getTime_Some. change (DEFAULT_RANGE_SECONDS * 1000) with 3600000.
  rewrite nsub_int; [by apply date_of_number_int|].
  revert Hb. unfold in_time_range, MAX_TIME_MS, safe. lia.
Qed.

(** C32: No link walks past the Time Machine: whatever the query string holds, the page frames a window
    with readable edges in the right order that ends no later than the viewed instant; when the link's
    own window had to be refused it is the hour that ends there. *)
Theorem hydrate_window_safe search n at_ t :
  in_time_range n -> anchored n at_ ->
  let h := hydrateInvestigation search (Some n) at_ t in
  exists f e, p_from (h_params h) = Some f /\ p_to (h_params h) = Some e /\ f < e /\
    (forall a, at_ = Some (Some a) -> e <= a) /\
    (h_clamped h = true -> at_ = Some (Some e)) /\
    (h_error h = None \/ default (Some n) at_ = Some e /\ f = e - 3600000).
Proof.
  intros Hn Ha h. destruct (parse_total search n Hn) as (f & e & Ef & Rf & Ee & Re).
  unfold h, hydrateInvestigation. rewrite Ef, Ee. pose proof (commitWindow_sound (Some f) (Some e) at_ t) as Hc.
  destruct (commitWindow (Some f) (Some e) at_ t) as [from' to' clamped|reason] eqn:Ec.
  - destruct Hc as (f0 & e0 & e' & [= <-] & [= <-] & -> & -> & Hlt & Hcl & Hi). cbn.
    exists f, e'. split_and!; try done; try lia; [|by left].
    intros ->. revert Ec. unfold commitWindow. repeat case_match; intros; simplify_eq; done.
  - cbn. destruct at_ as [d|].
    + destruct Ha as (a & -> & Ra & Rb). unfold from_option, id. rewrite hour_before by done.
      exists (a - 3600000), a. split_and!; try done; [lia|intros ? [= ->]; lia|by right].
    + unfold from_option, id. rewrite hour_before by done. exists (n - 3600000), n.
      split_and!; try done; [lia|by right].
Qed.

End Hydration.

Lemma hydrate_window_safe_witness :
  let h := hydrateInvestigation (H := iso_host)
    (js "?kind=node&scope=a&from=2024-01-01T00:00:00.000Z&to=2024-01-02T00:00:00.000Z") (Some 1710000000000)
    (Some (Some 1704103200000)) (fun k _ => k) in
  p_to (h_params h) = Some 1704103200000 /\ exists f e, p_from (h_params h) = Some f /\ p_to (h_params h) = Some e /\ f < e.
Proof.
  intros h. split; [vm_compute; reflexivity|].
  destruct (hydrate_window_safe (H := iso_host)
    (js "?kind=node&scope=a&from=2024-01-01T00:00:00.000Z&to=2024-01-02T00:00:00.000Z") 1710000000000
    (Some (Some 1704103200000)) (fun k _ => k)) as (f & e & H1 & H2 & H3 & _).
  - vm_compute. discriminate.
  - exists 1704103200000. split; [reflexivity|]. split; vm_compute; discriminate.
  - exists f, e. split; [exact H1|]. split; [exact H2|exact H3].
Defined.

(** ** What the page throws on *)

Section Totality.
Context `{DateHost}.

Lemma hydrate_readable search n at_ t :
  in_time_range n -> anchored n at_ ->
  let p := h_params (hydrateInvestigation search (Some n) at_ t) in is_Some (p_from p) /\ is_Some (p_to p).
Proof.
  intros Hn Ha. destruct (parse_total search n Hn) as (f & e & Ef & _ & Ee & _).
  unfold hydrateInvestigation. rewrite Ef, Ee. pose proof (commitWindow_sound (Some f) (Some e) at_ t) as Hc.
  destruct (commitWindow (Some f) (Some e) at_ t) as [from' to' clamped|reason].
  - destruct Hc as (f0 & e0 & e' & _ & _ & -> & -> & _). split; by eexists.
  - assert (exists a, default (Some n) at_ = Some a /\ in_time_range a /\ in_time_range (a - 3600000)) as (a & E & ? & ?).
    { destruct at_ as [d|]; [|by exists n]. exact Ha. }
    cbn. rewrite E, hour_before by done. split; by eexists.
Qed.

Lemma mergeTimeline_elem sources e : e ∈ mergeTimeline sources -> e ∈ concat sources.
Proof.
  intros He. eapply elem_of_sublist in He; [|apply dedupe_sublist]. unfold js_sort in He. by apply elem_of_sort_leb in He.
Qed.

Lemma mergeTimeline_placed sources : Forall placed (concat sources) -> Forall placed (mergeTimeline sources).
Proof. rewrite !Forall_forall. intros Hp e He. by apply Hp, mergeTimeline_elem. Qed.

Lemma crossings_placed samples threshold signal describe t above :
  Forall placed (crossings samples threshold signal describe t above).
Proof.
  revert above. induction samples as [|[[i|] v] rest IH]; intros above; simpl; [constructor| |apply IH].
  case_match; [apply IH|]. constructor; [by eexists|apply IH].
Qed.

Lemma thresholdCrossings_placed series rules t : Forall placed (thresholdCrossings series rules t).
Proof.
  apply mergeTimeline_placed. simpl. rewrite app_nil_r. apply Forall_app. split; [apply crossings_placed|].
  repeat case_match; [constructor|apply crossings_placed|constructor].
Qed.

Lemma page_sources_placed d p t stamp sources : page_sources d p t stamp = Some sources -> Forall placed (concat sources).
Proof.
  unfold page_sources. intros Hs.
  repeat match type of Hs with (?x ≫= _) = Some _ => destruct x eqn:?; cbn [mbind option_bind] in Hs; [|discriminate] end.
  apply (inj Some) in Hs as <-. cbn [concat]. rewrite app_nil_r.
  repeat (apply Forall_app; split); try (eapply collect_placed; [|eassumption]; intros r e; eauto with placed; fail); [apply thresholdCrossings_placed|].
  match goal with H : scopedAlertEntries _ _ _ _ _ = Some ?o |- _ => apply scopedAlertEntries_accounts in H as (? & ? & ? & ? & _ & _ & _ & _ & _ & Ha & _) end.
  apply Forall_forall. intros e (al & _ & _ & _ & He)%Ha. by eapply alertEntry_placed.
Qed.

(** ** Rows that can be read *)

(** A row off the wire: not null, and with members that can be printed. *)
Definition printable (v : value) : Prop := to_string_throws v = false.
Definition readable_row (r : value) : Prop :=
  r <> VUndef /\ r <> VNull /\ match r with VObj fs => Forall (fun m => printable m.2) fs | _ => True end.

Definition rows (d : Answers) : list value := events d ++ audit d ++ annotations d ++ snapshots d ++ runs d ++ k8s d ++ windows d ++ alerts d.

(** A range answer: its points can be iterated, and the reading of each can be printed. *)
Definition readable_series (res : option value) : Prop :=
  exists points, firstSeriesValues res = Some points /\
    Forall (fun point => match point with VArr l => printable (default VUndef (l !! 1%nat)) | _ => True end) points.

Definition readable (d : Answers) : Prop := Forall readable_row (rows d) /\ readable_series (loss d) /\ readable_series (rtt d).

Lemma readable_member r k : readable_row r -> printable (vget r k).
Proof.
  intros (_ & _ & Hr). destruct r as [| | | | | |fs]; try reflexivity. cbn [vget]. destruct (mget fs k) as [v|] eqn:E; [|reflexivity].
  apply mget_in in E. apply (proj1 (Forall_forall _ _) Hr _ E).
Qed.

Lemma readable_get r k : readable_row r -> read_member r k = Some (vget r k).
Proof. intros (Hu & Hn & _). by destruct r. Qed.

Lemma coerce_printable v : printable v -> coerce_string v = Some (string_of_value v).
Proof. unfold printable, coerce_string. by intros ->. Qed.

Lemma validAt_printable v : printable v -> validAt v = Some (date_of_value v).
Proof. unfold printable, validAt. by intros ->. Qed.

Lemma dated_readable row k entry : readable_row row -> (forall t, is_Some (entry t)) -> is_Some (dated row k entry).
Proof.
  intros Hr He. unfold dated. rewrite readable_get by done. cbn [mbind option_bind].
  rewrite validAt_printable by by apply readable_member. cbn [mbind option_bind]. destruct (date_of_value _); [apply He|by eexists].
Qed.

(** Closes the readers of single rows: each coerces members of its row only. *)
Ltac reads_row := intros Hr; apply dated_readable; [exact Hr|]; intros t0; cbv zeta;
  try match goal with |- context [inRange ?d ?f ?e] => destruct (inRange d f e); cbn [negb]; [|eexists; reflexivity] end;
  rewrite ?coerce_printable by (apply readable_member; exact Hr); try rewrite validAt_printable by reflexivity;
  cbn [mbind option_bind]; eexists; reflexivity.

Lemma eventEntry_reads r : readable_row r -> is_Some (eventEntry r).
Proof. unfold eventEntry. reads_row. Qed.
Lemma auditEntry_reads from to r : readable_row r -> is_Some (auditEntry from to r).
Proof. unfold auditEntry. reads_row. Qed.
Lemma annotationEntry_reads t r : readable_row r -> is_Some (annotationEntry t r).
Proof. unfold annotationEntry. reads_row. Qed.
Lemma pathChangeEntry_reads from to t r : readable_row r -> is_Some (pathChangeEntry from to t r).
Proof. unfold pathChangeEntry. reads_row. Qed.
Lemma runEntry_reads t r : readable_row r -> is_Some (runEntry t r).
Proof. unfold runEntry. reads_row. Qed.
Lemma k8sEntry_reads r : readable_row r -> is_Some (k8sEntry r).
Proof. unfold k8sEntry. reads_row. Qed.
Lemma maintenanceEntry_reads t stamp r : readable_row r -> is_Some (maintenanceEntry t stamp r).
Proof. unfold maintenanceEntry. reads_row. Qed.

Lemma alertEntry_reads from to t r : readable_row r -> is_Some (alertEntry from to t r).
Proof.
  intros Hr. unfold alertEntry. enough (is_Some (alertStartedBy r to)) as [o ->] by (cbn [mbind option_bind]; destruct o; by eexists).
  unfold alertStartedBy. rewrite readable_get by done. cbn [mbind option_bind]. case_match; [by eexists|].
  pose proof (readable_member r (js "activeAt") Hr) as Hp.
  destruct (vget r (js "activeAt")); rewrite ?(validAt_printable _ Hp); cbn [mbind option_bind]; by eexists.
Qed.

Lemma keep_reads {A} (f : A -> option bool) l : Forall (fun a => is_Some (f a)) l -> exists k, keep f l = Some k /\ k ⊆ l.
Proof.
  intros Hf. destruct (collect_total (fun a => (fun b : bool => if b then Some a else None) <$> f a) l) as [k Hk].
  { apply (Forall_impl _ _ _ Hf). intros a [b ->]. by eexists. }
  exists k. split; [exact Hk|]. intros a Ha. by apply (keep_elem _ _ _ _ Hk) in Ha as [? _].
Qed.

Lemma scopedAlerts_read alerts from to scope t : Forall readable_row alerts -> is_Some (scopedAlertEntries alerts from to scope t).
Proof.
  intros Hr. unfold scopedAlertEntries. rewrite Forall_forall in Hr.
  destruct (keep_reads alertIsOurs alerts) as (ours & -> & Ho).
  { apply Forall_forall. intros a Ha. unfold alertIsOurs. rewrite readable_get by auto. by eexists. }
  cbn [mbind option_bind]. destruct (collect_total (alertEntry from to t) ours) as [all Hall].
  { apply Forall_forall. intros a Ha. apply alertEntry_reads. auto. }
  unfold alertEntries. rewrite Hall. cbn [mbind option_bind]. destruct (keep_reads (inScope scope) ours) as (touching & -> & Ht).
  { apply Forall_forall. intros a Ha. unfold inScope. rewrite readable_get by auto. by eexists. }
  cbn [mbind option_bind]. destruct (collect_total (alertEntry from to t) touching) as [es ->]; [|by eexists].
  apply Forall_forall. intros a Ha. apply alertEntry_reads. auto.
Qed.

Lemma fold_rows_read apply byMs points :
  Forall (fun point => match point with VArr l => printable (default VUndef (l !! 1%nat)) | _ => True end) points ->
  is_Some (fold_rows apply byMs points).
Proof.
  intros Hp. revert byMs. induction Hp as [|point points Hpt _ IH]; intros byMs; [by eexists|]. cbn [fold_rows].
  enough (is_Some (fold_row apply byMs point)) as [b ->] by apply IH. unfold fold_row. destruct point; try by eexists.
  destruct (sample_ms _); [|by eexists]. unfold coerce_number. rewrite Hpt. by eexists.
Qed.

Lemma samples_read loss rtt : readable_series loss -> readable_series rtt -> is_Some (samplesFromMatrix loss rtt).
Proof.
  intros (p1 & E1 & H1) (p2 & E2 & H2). unfold samplesFromMatrix. rewrite E1. cbn [mbind option_bind].
  destruct (fold_rows_read set_loss [] p1 H1) as [b1 ->]. cbn [mbind option_bind]. rewrite E2. cbn [mbind option_bind].
  destruct (fold_rows_read set_rtt b1 p2 H2) as [b2 ->]. by eexists.
Qed.

(** Answers that can be read leave nothing to throw on. *)
Lemma page_reads d p t stamp : readable d -> is_Some (page_sources d p t stamp).
Proof.
  intros (Hrows & Hloss & Hrtt). unfold rows in Hrows. rewrite !Forall_app in Hrows. destruct Hrows as (H1 & H2 & H3 & H4 & H5 & H6 & H7 & H8).
  unfold page_sources. destruct (keep_reads (fun r => spec ← read_member r (js "spec"); Some (runTouchesScope spec (p_scope p))) (runs d)) as (rs & Ers & Hrs).
  { apply (Forall_impl _ _ _ H5). intros r Hr. rewrite readable_get by done. by eexists. }
  unfold scopedRuns. rewrite Ers. cbn [mbind option_bind]. destruct (samples_read _ _ Hloss Hrtt) as [ss ->]. cbn [mbind option_bind].
  destruct (scopedAlerts_read (alerts d) (p_from p) (p_to p) (p_scope p) t H8) as [sa ->]. cbn [mbind option_bind].
  assert (Hrs' : Forall readable_row rs) by (apply Forall_forall; intros r Hr; apply (proj1 (Forall_forall _ _) H5); auto).
  assert (Hc : forall (f : value -> option (option TimelineEntry)) l, (forall r, readable_row r -> is_Some (f r)) -> Forall readable_row l -> is_Some (collect f l)).
  { intros f l Hf Hl. apply collect_total. apply (Forall_impl _ _ _ Hl). exact Hf. }
  unfold eventEntries, auditEntries, annotationEntries, pathChangeEntries, runEntries, k8sEntries, maintenanceEntries.
  destruct (Hc eventEntry (events d) eventEntry_reads H1) as [? ->].
  destruct (Hc _ (audit d) (auditEntry_reads (p_from p) (p_to p)) H2) as [? ->].
  destruct (Hc _ (annotations d) (annotationEntry_reads t) H3) as [? ->].
  destruct (Hc _ (snapshots d) (pathChangeEntry_reads (p_from p) (p_to p) t) H4) as [? ->].
  destruct (Hc _ rs (runEntry_reads t) Hrs') as [? ->].
  destruct (Hc _ (k8s d) k8sEntry_reads H6) as [? ->].
  destruct (Hc _ (windows d) (maintenanceEntry_reads t stamp) H7) as [? ->]. by eexists.
Qed.

(** A null row of any listing throws, whatever the rest holds. *)
Lemma null_row_throws d p t stamp : VNull ∈ rows d -> page_sources d p t stamp = None.
Proof.
  unfold rows. rewrite !elem_of_app. intros Hin. destruct (page_sources d p t stamp) as [ss|] eqn:E; [exfalso|done]. unfold page_sources in E.
  repeat match type of E with (?x ≫= _) = Some _ => destruct x eqn:?; cbn [mbind option_bind] in E; [|discriminate] end. clear E.
  assert (Ht : forall (f : value -> option (option TimelineEntry)) (vs : list value) es, f VNull = None -> VNull ∈ vs -> collect f vs = Some es -> False).
  { intros f vs es Hf Hl Hc. by rewrite (collect_throws f vs VNull Hl Hf) in Hc. }
  destruct Hin as [Hin|[Hin|[Hin|[Hin|[Hin|[Hin|[Hin|Hin]]]]]]].
  1-4,6-7: (eapply Ht; [|exact Hin|eassumption]; reflexivity).
  - match goal with Hr : scopedRuns _ _ = Some _ |- _ => unfold scopedRuns in Hr; by rewrite (keep_throws _ _ VNull Hin) in Hr end.
  - match goal with Hr : scopedAlertEntries _ _ _ _ _ = Some _ |- _ => unfold scopedAlertEntries in Hr; by rewrite (keep_throws _ _ VNull Hin) in Hr end.
Qed.

Lemma export_entries_total l : Forall placed l -> is_Some (mapM export_entry l).
Proof.
  intros Hl. apply mapM_is_Some. eapply Forall_impl; [exact Hl|]. intros e [t Ht]. unfold compose, export_entry. rewrite Ht. by eexists.
Qed.

Lemma export_causes_total l : Forall (fun c => placed (entry c)) l -> is_Some (mapM export_cause l).
Proof.
  intros Hl. apply mapM_is_Some. eapply Forall_impl; [exact Hl|]. intros c [t Ht]. unfold compose, export_cause.
  rewrite Ht. by eexists.
Qed.

Lemma page_causes_placed entries : Forall placed entries -> Forall (fun c => placed (entry c)) (page_causes entries).
Proof.
  intros Hp. unfold page_causes. destruct (anomalyOnset entries) as [o|]; [|constructor]. apply Forall_take.
  apply Forall_forall. intros c Hc. apply (proj1 (Forall_forall _ _) Hp). by apply rankCauses_elem in Hc as [Hc _].
Qed.

End Totality.

(** Rows with every field missing or of the wrong shape. *)
Definition wild_answers : Answers := {|
  events := [VObj []; VStr (js "x"); VObj [(js "timestamp", VStr (js "2024-01-01T00:00:00.000Z"))]];
  audit := [VObj [(js "at", VNull)]; VObj [(js "at", VNum (int 1704067200000)); (js "action", VNum (int 3))]];
  annotations := [VObj [(js "startAt", VBool true)]]; snapshots := [VObj [(js "firstSeen", VArr [])]];
  runs := [VObj [(js "createdAt", VNum NaN)]]; k8s := []; windows := [VObj [(js "startAt", VNum (int 5))]];
  loss := None; rtt := Some VNull;
  alerts := [VObj [(js "state", VStr (js "firing")); (js "ruleId", VStr (js "r")); (js "activeAt", VNum (int 1))]];
|}.

(** The same with a null among the events. *)
Definition null_answers : Answers := {|
  events := [VNull]; audit := []; annotations := []; snapshots := []; runs := []; k8s := []; windows := []; loss := None; rtt := None; alerts := [];
|}.

Lemma wild_readable : readable wild_answers.
Proof.
  split; [|split].
  - unfold rows, wild_answers. cbn [events audit annotations snapshots runs k8s windows alerts app].
    repeat (apply Forall_cons; split; [split_and!; [discriminate|discriminate|repeat (apply Forall_cons; split; [reflexivity|]); try apply Forall_nil; exact I]|]).
    apply Forall_nil. exact I.
  - exists []. split; [reflexivity|constructor].
  - exists []. split; [reflexivity|constructor].
Qed.

