(* ===== verification/TimeMachine.v ===== *)
(** The Time Machine ([web/src/lib/timemachine.tsx]): the instant the whole console is viewed at, the
    [?at=] parameter that carries it, and the session history both live in.

    The state is the browser's history around the current entry together with the instant the provider
    holds; every event is one operation of the module with the effects React flushes after it.  The
    clock is an argument of every event. *)
From S2P Require Import Prelude JsNum JsString JsCollections JsValue JsDate JsFormat JsUrl.
Local Open Scope Z_scope.

Definition AT_PARAM : jstr := js "at".

(** ** The parameter *)

Definition one (c x : Z) : bool := x =? c.
Definition either (a b x : Z) : bool := (x =? a) || (x =? b).

(** Consumes one unit per predicate. *)
Fixpoint consume (ps : list (Z -> bool)) (s : jstr) : option jstr :=
  match ps, s with
  | [], _ => Some s
  | p :: ps', c :: s' => if p c then consume ps' s' else None
  | _ :: _, [] => None
  end.

Definition RFC3339_head : list (Z -> bool) :=
  let d := is_digit in
  [d; d; d; d; one 45; d; d; one 45; d; d; either 84 116; d; d; one 58; d; d; one 58; d; d].

(** [([Zz]|[+-]\d{2}:\d{2})$]. *)
Definition is_offset (s : jstr) : bool :=
  match s with
  | [c] => either 90 122 c
  | c :: r => either 43 45 c &&
      match consume [is_digit; is_digit; one 58; is_digit; is_digit] r with Some [] => true | _ => false end
  | [] => false
  end.

Fixpoint skip_digits (s : jstr) : jstr :=
  match s with c :: r => if is_digit c then skip_digits r else s | [] => [] end.

(** The test of the RFC 3339 expression; a fraction needs at least one digit, and taking all of them is
    the only way to reach the offset. *)
Definition RFC3339 (s : jstr) : bool :=
  match consume RFC3339_head s with
  | Some (c :: d :: r) => if (c =? 46) && is_digit d then is_offset (skip_digits r) else is_offset (c :: d :: r)
  | Some r => is_offset r
  | None => false
  end.

Definition truncateToSecond (ms : number) : number := (nfloor (ms / int 1000) * int 1000)%num.

(** [s.replace(/\.\d{3}Z$/, "Z")]. *)
Definition strip_millis (s : jstr) : jstr :=
  let k := (length s - 5)%nat in
  match consume [one 46; is_digit; is_digit; is_digit; one 90] (drop k s) with
  | Some [] => take k s ++ js "Z"
  | _ => s
  end.

(** [None] is the RangeError of an unreadable instant. *)
Definition formatAtParam (d : date) : option jstr :=
  strip_millis <$> toISOString (date_of_number (truncateToSecond (getTime d))).

(** Every candidate instant passes here; [None] is Live.  The console warnings are not modelled. *)
Definition normalize (d : date) (now : Z) : date :=
  match d with
  | None => None
  | Some ms =>
      if (int ms >? int now)%num then date_of_number (truncateToSecond (int now))
      else date_of_number (truncateToSecond (int ms))
  end.

(** ** The session history *)

(** One entry: its address and the router's index in its state. *)
Record history_entry := { e_url : Url; e_index : option Z }.

Record machine := {
  back : list history_entry;
  here : history_entry;
  forward : list history_entry;
  at_ : option Z;
}.

Section Machine.
Context `{DateHost}.

Definition readAtFromLocation (u : Url) (now : Z) : date :=
  match qs_get (params u) AT_PARAM with
  | None => None
  | Some raw => if seqb raw [] then None else if RFC3339 raw then normalize (date_of_string raw) now else None
  end.

(** [d ? formatAtParam(d) : null]; the instants the provider holds are readable. *)
Definition at_text (d : option Z) : option jstr := t ← d; formatAtParam (Some t).

(** The address with only the parameter replaced, and whether it already said so. *)
Definition atHref (d : option Z) (u : Url) : Url * bool :=
  let current := qs_get (params u) AT_PARAM in
  let next := at_text d in
  ({| pathname := pathname u;
      params := match next with Some n => qs_set (params u) AT_PARAM n | None => qs_delete (params u) AT_PARAM end;
      hash := hash u |}, bool_decide (current = next)).

Definition nth_part (l : list jstr) (i : nat) : jstr := default [] (l !! i).

Definition withAtParam (u : Url) (now : Z) (path : jstr) : jstr :=
  match readAtFromLocation u now with
  | None => path
  | Some t =>
      let parts := split_unit 35 path in
      let base := nth_part parts 0 in
      let hash := nth_part parts 1 in
      let query := split_unit 63 base in
      let ps := qs_set (qs_parse (nth_part query 1)) AT_PARAM (default [] (formatAtParam (Some t))) in
      nth_part query 0 ++ js "?" ++ qs_print ps ++ (if seqb hash [] then [] else js "#" ++ hash)
  end.

(** [window.history.pushState]: the entries ahead are gone. *)
Definition pushState (e : history_entry) (m : machine) : machine :=
  {| back := here m :: back m; here := e; forward := []; at_ := at_ m |}.

Definition replaceUrl (u : Url) (m : machine) : machine :=
  {| back := back m; here := {| e_url := u; e_index := e_index (here m) |}; forward := forward m; at_ := at_ m |}.

Definition setAt (d : option Z) (m : machine) : machine :=
  {| back := back m; here := here m; forward := forward m; at_ := d |}.

Definition writeAt (d : option Z) (m : machine) : machine :=
  pushState {| e_url := (atHref d (e_url (here m))).1; e_index := Z.succ <$> e_index (here m) |} m.

Definition syncAtParam (d : option Z) (m : machine) : machine :=
  let '(u, unchanged) := atHref d (e_url (here m)) in
  if unchanged then m else replaceUrl u m.

(** The effect that follows a change of the instant. *)
Definition at_effect (m : machine) : machine := syncAtParam (at_ m) m.

Definition mount (u : Url) (index : Z) (now : Z) : machine :=
  at_effect {| back := []; here := {| e_url := u; e_index := Some index |}; forward := [];
               at_ := readAtFromLocation u now |}.

Definition engage (d : date) (now : Z) (m : machine) : machine :=
  match normalize d now with
  | None => m
  | Some next => at_effect (setAt (Some next) (writeAt (Some next) m))
  end.

Definition returnToLive (m : machine) : machine :=
  match at_ m with
  | None => m
  | Some _ => at_effect (setAt None (writeAt None m))
  end.

(** [onPopState]: the provider re-reads the entry the reader landed on.  [AtParamSync] stays out of the
    way, and the effect runs unless Live stayed Live. *)
Definition onPopState (now : Z) (m : machine) : machine :=
  let next := readAtFromLocation (e_url (here m)) now in
  match at_ m, next with
  | None, None => m
  | _, _ => at_effect (setAt next m)
  end.

Definition goBack (now : Z) (m : machine) : machine :=
  match back m with
  | [] => m
  | e :: b => onPopState now {| back := b; here := e; forward := here m :: forward m; at_ := at_ m |}
  end.

Definition goForward (now : Z) (m : machine) : machine :=
  match forward m with
  | [] => m
  | e :: f => onPopState now {| back := here m :: back m; here := e; forward := f; at_ := at_ m |}
  end.

(** A navigation of the router, then [AtParamSync]'s queued write. *)
Definition navigate (u : Url) (m : machine) : machine :=
  let m := pushState {| e_url := u; e_index := Z.succ <$> e_index (here m) |} m in
  syncAtParam (at_ m) m.

Inductive tm_event :=
  | Engage (d : date)
  | ReturnToLive
  | Back
  | Forward
  | Navigate (u : Url).

Definition react (now : Z) (e : tm_event) (m : machine) : machine :=
  match e with
  | Engage d => engage d now m
  | ReturnToLive => returnToLive m
  | Back => goBack now m
  | Forward => goForward now m
  | Navigate u => navigate u m
  end.
End Machine.

(** What a control that writes wears. *)
Record WriteGuard := { disabled : bool; guard_title : option jstr; describedby : option jstr }.

Definition TIME_MACHINE_REASON_ID : jstr := js "timemachine-writes-disabled-reason".

Definition useWritesDisabled (context : option (option Z)) : bool :=
  match context with Some (Some _) => true | _ => false end.

Definition useWriteGuard (context : option (option Z)) (t : Translate) : WriteGuard :=
  if useWritesDisabled context
  then {| disabled := true; guard_title := Some (t (js "timemachine.disabledReason") []);
          describedby := Some TIME_MACHINE_REASON_ID |}
  else {| disabled := false; guard_title := None; describedby := None |}.

(** ** The parameter names its instant *)

(** [Date.parse] also reads the form without milliseconds. *)
Class RfcHost := {
  rfc_date :: DateHost;
  Date_parse_seconds t :
    in_time_range t -> t mod 1000 = 0 -> Date_parse (iso_seconds t ++ js "Z") = Some t;
}.

Definition LAST_SECOND : Z := 253402300799000.

(** An instant of the years 1970 to 9999 on a whole second, not after [now]. *)
Definition viewable (now a : Z) : Prop := 0 <= a <= now /\ a <= LAST_SECOND /\ a mod 1000 = 0.

Lemma truncate_int t : 0 <= t <= 2 ^ 50 -> truncateToSecond (int t) = int (t - t mod 1000).
Proof.
  intros Ht. unfold truncateToSecond. rewrite nfloor_ndiv_safe, nmul_int by (unfold safe; Z.to_euclidean_division_equations; lia).
  f_equal. Z.to_euclidean_division_equations; lia.
Qed.

Lemma viewable_range now a : viewable now a -> in_time_range a.
Proof. unfold viewable, LAST_SECOND, in_time_range, MAX_TIME_MS. lia. Qed.

Lemma date_of_truncated t : 0 <= t <= LAST_SECOND + 999 ->
  date_of_number (truncateToSecond (int t)) = Some (t - t mod 1000).
Proof.
  unfold LAST_SECOND. intros Ht. rewrite truncate_int by lia. apply date_of_number_int.
  unfold in_time_range, MAX_TIME_MS. Z.to_euclidean_division_equations; lia.
Qed.

Lemma consume_digits n z ps r :
  consume (replicate n is_digit ++ ps) (pad n z ++ r) = consume ps r.
Proof.
  pose proof (pad_all_digits n z) as Hd. pose proof (length_pad n z) as Hl. revert Hd Hl.
  generalize (pad n z). intros w. revert n. induction w as [|c w IH]; intros n Hd <-; [done|].
  inversion Hd as [|?? Hc Hw]; subst. cbn. rewrite Hc. by apply IH.
Qed.

Lemma consume_unit t c p ps r : t = [c] -> p c = true -> consume (p :: ps) (t ++ r) = consume ps r.
Proof. intros -> Hc. cbn. by rewrite Hc. Qed.

Lemma format_viewable now a : viewable now a -> formatAtParam (Some a) = Some (iso_seconds a ++ js "Z").
Proof.
  intros Ha. pose proof Ha as ([? ?] & ? & Hm). unfold formatAtParam. change (getTime (Some a)) with (int a).
  rewrite date_of_truncated by lia. cbn [toISOString fmap option_fmap option_map]. f_equal.
  rewrite Hm, Z.sub_0_r. unfold iso_string. rewrite Hm. unfold strip_millis.
  change (js "." ++ pad 3 0 ++ js "Z") with [46; 48; 48; 48; 90].
  rewrite length_app. cbn [length]. rewrite Nat.add_sub, drop_app_length, take_app_length. reflexivity.
Qed.

(** The days before a March-based year, and its two ends inside the four-digit years. *)
Lemma civil_year z y m d : civil_from_days z = (y, m, d) -> 0 <= z <= 2932896 -> 0 <= y <= 9999.
Proof.
  intros E Hz. pose proof (civil_roundtrip z) as H. rewrite E in H. destruct H as (H & Hm & Hd).
  unfold days_from_civil in H.
  set (y' := if m <=? 2 then y - 1 else y) in H. set (mp := if m <=? 2 then m + 9 else m - 3) in H.
  assert (Hy : (m <= 2 /\ y' = y - 1 /\ 10 <= mp <= 11) \/ (2 < m /\ y' = y /\ 0 <= mp <= 9)).
  { unfold y', mp. destruct (Z.leb_spec m 2); lia. }
  clearbody y' mp. pose proof (Z.div_mod y' 400 ltac:(lia)) as Hq. pose proof (Z.mod_pos_bound y' 400 ltac:(lia)) as Hr.
  set (q := y' / 400) in *. set (r := y' mod 400) in *. clearbody q r.
  assert (Hdoy : 0 <= (153 * mp + 2) / 5 + d - 1 <= 397 /\ (10 <= mp -> 306 <= (153 * mp + 2) / 5 + d - 1)).
  { Z.to_euclidean_division_equations; lia. }
  set (doy := (153 * mp + 2) / 5 + d - 1) in *. clearbody doy.
  assert (Hyo : 365 * r + r / 4 - r / 100 <= 145731 /\ (398 < r -> 365 * r + r / 4 - r / 100 = 145731) /\
                0 <= 365 * r + r / 4 - r / 100) by (Z.to_euclidean_division_equations; lia).
  set (yo := 365 * r + r / 4 - r / 100) in *. assert (Hyoe : r * 365 + r / 4 - r / 100 = yo) by (unfold yo; lia).
  clearbody yo. assert (0 <= q) by lia. assert (q <= 24) by lia. lia.
Qed.

Lemma rfc_viewable now a : viewable now a -> RFC3339 (iso_seconds a ++ js "Z") = true.
Proof.
  intros ([? ?] & Hl & Hm). unfold RFC3339, iso_seconds, LAST_SECOND in *.
  destruct (civil_from_days (a / ms_per_day)) as [[y m] d] eqn:E.
  apply civil_year in E; [|unfold ms_per_day; Z.to_euclidean_division_equations; lia].
  unfold year_string. rewrite (proj2 (andb_true_iff _ _)) by (split; lia).
  change RFC3339_head with (replicate 4 is_digit ++ one 45 :: replicate 2 is_digit ++ one 45 :: replicate 2 is_digit ++
    either 84 116 :: replicate 2 is_digit ++ one 58 :: replicate 2 is_digit ++ one 58 :: replicate 2 is_digit ++ []).
  rewrite <- !app_assoc.
  repeat first [rewrite consume_digits|erewrite consume_unit by reflexivity].
  reflexivity.
Qed.

(** ** The address bar tells the truth *)

Section Truth.
Context `{RfcHost}.

(** An entry's address names the instant [a]: its parameter is that instant's text, or absent when Live. *)
Definition says (now : Z) (e : history_entry) (a : option Z) : Prop :=
  qs_get (params (e_url e)) AT_PARAM = at_text a /\ match a with Some z => viewable now z | None => True end.

(** The clock of a session: between 1970 and the end of the year 9999. *)
Definition clock (now : Z) : Prop := 0 <= now <= LAST_SECOND + 999.

Lemma normalize_viewable d now a :
  clock now -> (forall ms, d = Some ms -> 0 <= ms) -> normalize d now = Some a -> viewable now a.
Proof.
  unfold clock, normalize. intros Hn Hd. destruct d as [ms|]; [|done]. specialize (Hd ms eq_refl).
  assert (Ht : forall t, 0 <= t <= now -> Some (t - t mod 1000) = Some a -> viewable now a).
  { intros t Ht [= <-]. unfold viewable, LAST_SECOND in *. Z.to_euclidean_division_equations; lia. }
  rewrite nltb_int. destruct (Z.ltb_spec now ms); rewrite date_of_truncated by lia; apply Ht; lia.
Qed.

Lemma normalize_fixed now z : clock now -> viewable now z -> normalize (Some z) now = Some z.
Proof.
  unfold clock. intros Hn Hz. pose proof Hz as ([? ?] & ? & Hm). unfold normalize. rewrite nltb_int, (proj2 (Z.ltb_ge _ _)) by lia.
  rewrite date_of_truncated by lia. by rewrite Hm, Z.sub_0_r.
Qed.

Lemma viewable_mono now now' z : now <= now' -> viewable now z -> viewable now' z.
Proof. unfold viewable. lia. Qed.

Lemma says_mono now now' e a : now <= now' -> says now e a -> says now' e a.
Proof. intros Hle [Hq Ha]. split; [done|]. destruct a; [|done]. by eapply viewable_mono. Qed.

(** Reading such an address back, now or later, is the identity. *)
Lemma says_read now e a : clock now -> says now e a -> readAtFromLocation (e_url e) now = a.
Proof.
  intros Hn [Hq Ha]. unfold readAtFromLocation. rewrite Hq. destruct a as [z|]; [|done].
  unfold at_text. cbn [mbind option_bind]. rewrite (format_viewable now z Ha), (rfc_viewable now z Ha).
  destruct (seqb (iso_seconds z ++ js "Z") []) eqn:E.
  - apply seqb_eq in E. by apply app_eq_nil in E as [_ E].
  - unfold date_of_string. rewrite Date_parse_seconds; [by apply normalize_fixed|by eapply viewable_range|apply Ha].
Qed.

Lemma atHref_says now d u i :
  (forall z, d = Some z -> viewable now z) -> says now {| e_url := (atHref d u).1; e_index := i |} d.
Proof.
  intros Hd. split; [|destruct d; auto]. unfold atHref. cbn [fst e_url params].
  destruct d as [z|]; unfold at_text; cbn [mbind option_bind].
  - rewrite (format_viewable now z) by auto. apply qs_get_set_eq.
  - apply qs_get_delete.
Qed.

Lemma sync_says now d m :
  (forall z, d = Some z -> viewable now z) -> says now (here (syncAtParam d m)) d.
Proof.
  intros Hd. pose proof (atHref_says now d (e_url (here m)) (e_index (here m)) Hd) as Hs. unfold syncAtParam.
  destruct (atHref d (e_url (here m))) as [u unchanged] eqn:E. destruct unchanged; [|exact Hs].
  split; [|destruct d; auto]. unfold atHref in E. injection E as _ Eb. by apply bool_decide_eq_true in Eb.
Qed.

(** The whole history, oldest entry first. *)
Definition trail (m : machine) : list history_entry := reverse (back m) ++ here m :: forward m.

Definition counted (m : machine) : Prop :=
  exists s, forall k e, trail m !! k = Some e -> e_index e = Some (s + Z.of_nat k).

(** What holds between events. *)
Definition truthful (now : Z) (m : machine) : Prop :=
  says now (here m) (at_ m) /\ Forall (fun e => exists a, says now e a) (back m ++ forward m) /\ counted m.

Lemma sync_fields d m :
  back (syncAtParam d m) = back m /\ forward (syncAtParam d m) = forward m /\ at_ (syncAtParam d m) = at_ m /\
  e_index (here (syncAtParam d m)) = e_index (here m).
Proof. unfold syncAtParam. destruct (atHref d _) as [u []]; done. Qed.

Lemma counted_ext m m' :
  back m' = back m -> forward m' = forward m -> e_index (here m') = e_index (here m) -> counted m -> counted m'.
Proof.
  intros Hb Hf Hi [s Hs]. exists s. unfold trail in *. rewrite Hb, Hf. intros k e.
  destruct (decide (k = length (reverse (back m)))) as [->|Hne].
  - rewrite list_lookup_middle by done. intros [= <-]. rewrite Hi. apply Hs. by rewrite list_lookup_middle.
  - intros Hk. apply Hs. rewrite <- Hk. destruct (decide (k < length (reverse (back m)))%nat).
    + by rewrite !lookup_app_l.
    + rewrite !lookup_app_r by lia. destruct (k - length (reverse (back m)))%nat eqn:E; [lia|done].
Qed.

Lemma counted_push e m :
  counted m -> e_index e = Z.succ <$> e_index (here m) -> counted (pushState e m).
Proof.
  intros [s Hs] He. exists s. unfold trail in *. cbn [pushState back here forward]. intros k x.
  rewrite reverse_cons, <- app_assoc. cbn [app].
  pose proof (Hs (length (reverse (back m))) (here m)) as Hh. rewrite list_lookup_middle in Hh by done.
  specialize (Hh eq_refl). destruct (decide (k < length (reverse (back m)))%nat).
  - rewrite lookup_app_l by done. intros Hk. apply Hs. by rewrite lookup_app_l.
  - rewrite lookup_app_r by lia. destruct (k - length (reverse (back m)))%nat as [|[|n']] eqn:E; simpl; [..|done].
    + intros [= <-]. replace k with (length (reverse (back m))) by lia. done.
    + intros [= <-]. rewrite He, Hh. cbn. f_equal. lia.
Qed.

Lemma truthful_mono now now' m : now <= now' -> truthful now m -> truthful now' m.
Proof.
  intros Hle (Hs & Ho & Hc). split_and!; [by eapply says_mono| |done].
  eapply Forall_impl; [exact Ho|]. intros e [a Ha]. exists a. by eapply says_mono.
Qed.

(** Pushing an entry and syncing it, which is what every move but a traversal does. *)
Lemma truthful_push now m e d :
  truthful now m -> e_index e = Z.succ <$> e_index (here m) -> (forall z, d = Some z -> viewable now z) ->
  truthful now (syncAtParam d (setAt d (pushState e m))).
Proof.
  intros (Hs & Ho & Hc) He Hd. destruct (sync_fields d (setAt d (pushState e m))) as (Eb & Ef & Ea & Ei).
  split_and!.
  - rewrite Ea. by apply sync_says.
  - rewrite Eb, Ef. simpl. rewrite app_nil_r. apply Forall_app in Ho as [Ho _]. constructor; [by exists (at_ m)|done].
  - apply (counted_ext (pushState e m)); [done..|]. by apply counted_push.
Qed.

(** Landing on an entry of the history. *)
Lemma truthful_pop now m e b f :
  clock now -> trail {| back := b; here := e; forward := f; at_ := at_ m |} = trail m ->
  truthful now m -> (exists a, says now e a) -> Forall (fun e => exists a, says now e a) (b ++ f) ->
  truthful now (onPopState now {| back := b; here := e; forward := f; at_ := at_ m |}).
Proof.
  intros Hn Ht (Hs & Ho & Hc) [a Ha] Hbf. unfold onPopState. cbn [here at_]. rewrite (says_read now e a Hn Ha).
  assert (Hc' : counted {| back := b; here := e; forward := f; at_ := at_ m |}) by (unfold counted; by rewrite Ht).
  assert (G : truthful now (at_effect (setAt a {| back := b; here := e; forward := f; at_ := at_ m |}))).
  { change (at_effect (setAt a {| back := b; here := e; forward := f; at_ := at_ m |}))
      with (syncAtParam a (setAt a {| back := b; here := e; forward := f; at_ := at_ m |})).
    destruct (sync_fields a (setAt a {| back := b; here := e; forward := f; at_ := at_ m |})) as (Eb & Ef & Ea & Ei).
    split_and!.
    - rewrite Ea. apply sync_says. intros z E. change (a = Some z) in E. subst a. apply Ha.
    - by rewrite Eb, Ef.
    - by eapply counted_ext; [..|exact Hc']. }
  destruct (at_ m) as [z|] eqn:Em; [done|]. destruct a; [done|]. split_and!; [exact Ha|exact Hbf|exact Hc'].
Qed.

(** An event that names no instant before 1970. *)
Definition admissible (e : tm_event) : Prop :=
  match e with Engage (Some ms) => 0 <= ms | _ => True end.

Lemma react_truthful now e m : clock now -> admissible e -> truthful now m -> truthful now (react now e m).
Proof.
  intros Hn Ha Hm. pose proof Hm as (Hs & Ho & Hc). destruct e as [d| | | |u]; simpl.
  - unfold engage. destruct (normalize d now) as [next|] eqn:E; [|done].
    assert (Hv : viewable now next).
    { eapply normalize_viewable; [done| |exact E]. intros ms ->. exact Ha. }
    apply (truthful_push now m); [done|done|]. by intros z [= <-].
  - unfold returnToLive. destruct (at_ m) eqn:E; [|done]. by apply (truthful_push now m).
  - unfold goBack. destruct (back m) as [|e b] eqn:Eb; [done|]. inversion Ho as [|?? He Ho']; subst.
    apply truthful_pop; [done| |done|done|].
    + unfold trail. cbn [back here forward]. by rewrite Eb, reverse_cons, <- app_assoc.
    + apply Forall_app in Ho' as [H1 H2]. apply Forall_app. split; [done|]. constructor; [by exists (at_ m)|done].
  - unfold goForward. destruct (forward m) as [|e f] eqn:Ef; [done|].
    apply Forall_app in Ho as [H1 H2]. inversion H2 as [|?? He H3]; subst.
    apply truthful_pop; [done| |done|done|].
    + unfold trail. cbn [back here forward]. by rewrite Ef, reverse_cons, <- app_assoc.
    + simpl. constructor; [by exists (at_ m)|]. by apply Forall_app.
  - unfold navigate. replace (at_ (pushState _ m)) with (at_ m) by done.
    replace (pushState _ m) with (setAt (at_ m) (pushState {| e_url := u; e_index := Z.succ <$> e_index (here m) |} m)) by done.
    apply truthful_push; [done|done|]. intros z E. rewrite E in Hs. apply Hs.
Qed.

(** The states a session reaches: a page load, then any events under a clock that never runs back. *)
Inductive session : Z -> machine -> Prop :=
  | session_mount u i now :
      clock now -> (forall raw ms, qs_get (params u) AT_PARAM = Some raw -> Date_parse raw = Some ms -> 0 <= ms) ->
      session now (mount u i now)
  | session_wait now now' m : now <= now' -> clock now' -> session now m -> session now' m
  | session_react now e m : admissible e -> session now m -> session now (react now e m).

Lemma session_truthful now m : session now m -> clock now /\ truthful now m.
Proof.
  induction 1 as [u i now Hn Hu|now now' m Hle Hn _ [_ IH]|now e m Ha _ [Hn IH]].
  - split; [done|]. unfold mount, at_effect. cbn [at_].
    assert (Hd : forall z, readAtFromLocation u now = Some z -> viewable now z).
    { unfold readAtFromLocation. intros z. destruct (qs_get (params u) AT_PARAM) as [raw|] eqn:E; [|done].
      repeat case_match; try done. intros Hz. eapply normalize_viewable; [done| |exact Hz]. eauto. }
    edestruct sync_fields as (Eb & Ef & Ea & Ei). split_and!.
    + rewrite Ea. by apply sync_says.
    + rewrite Eb, Ef. constructor.
    + eapply counted_ext; [exact Eb|exact Ef|exact Ei|]. exists i. intros [|[|k]] e; [|done|done].
      intros [= <-]. cbn. f_equal. lia.
  - split; [done|]. by eapply truthful_mono.
  - split; [done|]. by apply react_truthful.
Qed.

(** C9: The address bar tells the truth about time: whatever sequence of engaging, returning to Live,
    navigating and walking Back and Forward led here, the current address carries exactly the viewed
    instant (no parameter while Live), reading it again - by a reload, or by whoever the link was sent to,
    now or later - yields that same instant, and the router's entry indices count the entries of the
    history without a gap. *)
Theorem address_tells_the_truth now m later :
  session now m -> now <= later -> clock later ->
  qs_get (params (e_url (here m))) AT_PARAM = at_text (at_ m) /\
  readAtFromLocation (e_url (here m)) later = at_ m /\
  exists s, forall k e, trail m !! k = Some e -> e_index e = Some (s + Z.of_nat k).
Proof.
  intros Hs Hle Hl. apply session_truthful in Hs as [Hn (Hs & _ & Hc)]. split_and!; [apply Hs| |exact Hc].
  apply (says_read later); [done|]. by eapply says_mono.
Qed.

(** Back undoes a move through time: engaging an instant or returning to Live and then stepping back
    shows the instant that was viewed before, on the address that showed it. *)
Theorem back_undoes now m e later :
  session now m -> admissible e -> (e = ReturnToLive \/ exists d, e = Engage d) ->
  react now e m <> m -> now <= later -> clock later ->
  at_ (react later Back (react now e m)) = at_ m /\
  here (react later Back (react now e m)) = here m.
Proof.
  intros Hs Ha He Hne Hle Hl. apply session_truthful in Hs as [Hn Hm].
  assert (Hb : exists m', react now e m = m' /\ back m' = here m :: back m).
  { destruct He as [->|[d ->]]; cbn [react] in *.
    - unfold returnToLive in *. destruct (at_ m); [|done]. eexists. split; [done|].
      unfold at_effect. by rewrite (proj1 (sync_fields _ _)).
    - unfold engage in *. destruct (normalize d now); [|done]. eexists. split; [done|].
      unfold at_effect. by rewrite (proj1 (sync_fields _ _)). }
  destruct Hb as (m' & -> & Eb). cbn [react]. unfold goBack. rewrite Eb.
  destruct Hm as (Hsay & _ & _). pose proof (says_mono now later _ _ Hle Hsay) as Hsay'.
  unfold onPopState. cbn [here at_]. rewrite (says_read later _ _ Hl Hsay').
  assert (G : forall x, at_ (at_effect (setAt (at_ m) x)) = at_ m /\
            (here x = here m -> here (at_effect (setAt (at_ m) x)) = here m)).
  { intros x. change (at_effect (setAt (at_ m) x)) with (syncAtParam (at_ m) (setAt (at_ m) x)). split; [by rewrite (proj1 (proj2 (proj2 (sync_fields _ _))))|].
    intros Hx. unfold syncAtParam. cbn [setAt here]. rewrite Hx. unfold atHref.
    rewrite bool_decide_eq_true_2 by apply Hsay. done. }
  destruct (at_ m') as [z|], (at_ m) as [y|]; try (split; [apply G|by apply G]). done.
Qed.
End Truth.

(** A reader of both forms discharges the interface. *)
Definition parse_rfc (s : jstr) : option Z :=
  match parse_iso s with
  | Some t => Some t
  | None =>
      '(t, r) ← read_seconds s;
      if bool_decide (r = js "Z") && (Z.abs t <=? MAX_TIME_MS) then Some t else None
  end.

Lemma parse_rfc_range s t : parse_rfc s = Some t -> in_time_range t.
Proof.
  unfold parse_rfc. destruct (parse_iso s) eqn:E; [intros [= <-]; by eapply parse_iso_range|].
  destruct (read_seconds s) as [[t' r]|]; cbn; [|done]. case_match eqn:Eb; [|done].
  intros [= <-]. apply andb_true_iff in Eb as [_ Eb]. unfold in_time_range. lia.
Qed.

Lemma parse_rfc_iso t : in_time_range t -> parse_rfc (iso_string t) = Some t.
Proof. intros Ht. unfold parse_rfc. by rewrite parse_iso_string. Qed.

Lemma parse_rfc_seconds t :
  in_time_range t -> t mod 1000 = 0 -> parse_rfc (iso_seconds t ++ js "Z") = Some t.
Proof.
  intros Ht Hm. unfold parse_rfc.
  assert (E : read_seconds (iso_seconds t ++ js "Z") = Some (t, js "Z")).
  { rewrite read_iso_seconds by done. by rewrite Hm, Z.sub_0_r. }
  assert (parse_iso (iso_seconds t ++ js "Z") = None) as -> by (unfold parse_iso; by rewrite E).
  rewrite E. cbn. unfold in_time_range in Ht. by rewrite (proj2 (Z.leb_le _ _)).
Qed.

Definition rfc_host : RfcHost := {|
  rfc_date := {| Date_parse := parse_rfc; Date_parse_range := parse_rfc_range; Date_parse_iso := parse_rfc_iso |};
  Date_parse_seconds := parse_rfc_seconds;
|}.

Definition shared_link : Url := {|
  pathname := js "/matrix"; params := [(js "protocol", js "udp"); (AT_PARAM, js "2024-01-01T00:00:00.750Z")]; hash := [] |}.

Lemma shared_link_session : session (H := rfc_host) 1710000000000 (mount (H := rfc_date (RfcHost := rfc_host)) shared_link 0 1710000000000).
Proof.
  apply session_mount.
  - split; vm_compute; discriminate.
  - intros raw ms Hq Hp. assert (raw = js "2024-01-01T00:00:00.750Z") as -> by (vm_compute in Hq |- *; congruence).
    assert (Some ms = Some 1704067200750) as [= ->] by (rewrite <- Hp; vm_compute; reflexivity). lia.
Defined.

Lemma address_tells_the_truth_witness :
  let m := mount (H := rfc_date (RfcHost := rfc_host)) shared_link 0 1710000000000 in
  at_ m = Some 1704067200000 /\ readAtFromLocation (H := rfc_date (RfcHost := rfc_host)) (e_url (here m)) 1720000000000 = at_ m.
Proof.
  intros m. split; [vm_compute; reflexivity|].
  apply (address_tells_the_truth (H := rfc_host) 1710000000000 m 1720000000000).
  - apply shared_link_session.
  - lia.
  - split; vm_compute; discriminate.
Defined.

Lemma back_undoes_witness :
  let m := mount (H := rfc_date (RfcHost := rfc_host)) shared_link 0 1710000000000 in
  at_ (react (H := rfc_date (RfcHost := rfc_host)) 1710000000000 Back
        (react (H := rfc_date (RfcHost := rfc_host)) 1710000000000 ReturnToLive m)) = at_ m.
Proof.
  intros m. assert (Hne : react (H := rfc_date (RfcHost := rfc_host)) 1710000000000 ReturnToLive m <> m).
  { intros E. apply (f_equal at_) in E.
    assert (E1 : at_ (react (H := rfc_date (RfcHost := rfc_host)) 1710000000000 ReturnToLive m) = None)
      by (vm_compute; reflexivity).
    assert (E2 : at_ m = Some 1704067200000) by (vm_compute; reflexivity).
    discriminate (eq_trans (eq_sym E1) (eq_trans E E2)). }
  assert (Hs : session (H := rfc_host) 1710000000000 m) by apply shared_link_session.
  assert (Hc : clock 1710000000000) by (split; vm_compute; discriminate).
  clearbody m.
  destruct (back_undoes (H := rfc_host) 1710000000000 m ReturnToLive 1710000000000 Hs I (or_introl eq_refl) Hne
              (Z.le_refl _) Hc) as [E _].
  exact E.
Defined.
