(* ===== verification/Commands.v ===== *)
(** The command palette ([web/src/lib/commands.ts]): scoring one entry against a query, the ranked
    search, and the registry with its two gates (permissions hide, the Time Machine disables).

    The dictionaries are parameters: a table from keys to texts per language; so is [toLowerCase], whose
    Unicode tables the model does not carry. *)
From S2P Require Import Prelude JsNum JsString JsCollections JsUrl InvestigationScope.
Local Open Scope Z_scope.

Inductive CommandGroup := Navigation | Actions | View | Incidents.
Definition GROUP_ORDER : list CommandGroup := [Navigation; Actions; View; Incidents].

Inductive Locale := en_locale | ru_locale.

(** What performing an entry asks of the context. *)
Inductive effect :=
  | Navigate (path : jstr)
  | Throws
  | OpenExternal (url : jstr)
  | OpenPicker
  | ReturnToLive
  | ToggleTheme.

Record CommandContext := {
  can : jstr -> bool;
  writesDisabled : bool;
  dark : bool;
  isLive : bool;
  hasTimeMachinePicker : bool;
}.

Record Command := {
  c_id : jstr;
  c_title : jstr;
  c_titleRu : option jstr;
  c_group : CommandGroup;
  c_keywords : list jstr;
  c_permission : option jstr;
  c_visibleWhen : option (CommandContext -> bool);
  c_write : bool;
  c_perform : effect;
}.

(** ** Scoring *)

Definition TITLE_START : Z := 120.
Definition TITLE_BOUNDARY : Z := 100.
Definition TITLE_SUBSTRING : Z := 60.
Definition KEYWORD_BOUNDARY : Z := 40.
Definition KEYWORD_SUBSTRING : Z := 25.

Definition WORD_CHAR (c : Z) : bool :=
  ((97 <=? c) && (c <=? 122)) || ((48 <=? c) && (c <=? 57)) || ((0x400 <=? c) && (c <=? 0x4FF)).

(** The loop of [boundaryIndex] from [from]; the haystack's length bounds its turns, since every turn
    moves [from] past an occurrence. *)
Fixpoint boundary_from (fuel : nat) (hay needle : jstr) (from : nat) : option nat :=
  match fuel with
  | O => None
  | S fuel =>
      match indexOf (drop from hay) needle with
      | None => None
      | Some off =>
          let i := (from + off)%nat in
          if (i =? 0)%nat || negb (match hay !! (i - 1)%nat with Some c => WORD_CHAR c | None => false end)
          then Some i
          else boundary_from fuel hay needle (S i)
      end
  end.

Definition boundaryIndex (hay needle : jstr) : option nat := boundary_from (S (length hay)) hay needle 0.

Fixpoint titleScore_from (best : Z) (word : jstr) (titles : list jstr) : Z :=
  match titles with
  | [] => best
  | title :: rest =>
      match boundaryIndex title word with
      | Some O => TITLE_START
      | Some _ => titleScore_from (Z.max best TITLE_BOUNDARY) word rest
      | None => titleScore_from (if includes title word then Z.max best TITLE_SUBSTRING else best) word rest
      end
  end.

Definition titleScore (word : jstr) (titles : list jstr) : Z := titleScore_from 0 word titles.

Definition keyword_score (word : jstr) (best : Z) (k : jstr) : Z :=
  match boundaryIndex k word with
  | Some _ => Z.max best KEYWORD_BOUNDARY
  | None => if includes k word then Z.max best KEYWORD_SUBSTRING else best
  end.

Definition wordScore (word : jstr) (titles keywords : list jstr) : Z :=
  let t := titleScore word titles in
  if t >? 0 then t else fold_left (keyword_score word) keywords 0.

Definition commandTitle (cmd : Command) (locale : Locale) : jstr :=
  match locale with ru_locale => default (c_title cmd) (c_titleRu cmd) | en_locale => c_title cmd end.

(** [s.split(/\s+/).filter(Boolean)] of a trimmed text: its words. *)
Fixpoint words_from (cur s : jstr) : list jstr :=
  match s with
  | [] => [cur]
  | c :: r => if is_space c then cur :: words_from [] r else words_from (cur ++ [c]) r
  end.
Definition words (s : jstr) : list jstr := List.filter (fun w => negb (seqb w [])) (words_from [] s).

Definition cmpStr (a b : jstr) : number := if sltb a b then int (-1) else if sltb b a then int 1 else int 0.

Section Search.
Context (toLowerCase : jstr -> jstr).

Definition searchTitles (cmd : Command) : list jstr :=
  toLowerCase (c_title cmd) ::
  match c_titleRu cmd with
  | Some r => if seqb r (c_title cmd) then [] else [toLowerCase r]
  | None => []
  end.

Fixpoint total_from (total : Z) (titles keywords : list jstr) (ws : list jstr) : Z :=
  match ws with
  | [] => total
  | w :: rest =>
      let s := wordScore w titles keywords in
      if s =? 0 then 0 else total_from (total + s) titles keywords rest
  end.

Definition scoreCommand (query : jstr) (cmd : Command) : Z :=
  let ws := words (trim (toLowerCase query)) in
  if (length ws =? 0)%nat then 1
  else total_from 0 (searchTitles cmd) (toLowerCase <$> c_keywords cmd) ws.

(** [b.score - a.score || cmpStr(titles) || cmpStr(ids)]. *)
Definition compareFound (locale : Locale) (a b : Command * Z) : number :=
  let byScore := (int b.2 - int a.2)%num in
  if negb (byScore =? int 0)%num then byScore
  else
    let byTitle := cmpStr (commandTitle a.1 locale) (commandTitle b.1 locale) in
    if negb (byTitle =? int 0)%num then byTitle else cmpStr (c_id a.1) (c_id b.1).

Definition searchCommands (query : jstr) (cmds : list Command) (locale : Locale) : list Command :=
  (js_sort (compareFound locale)
     (List.filter (fun r => r.2 >? 0) ((fun cmd => (cmd, scoreCommand query cmd)) <$> cmds))).*1.
End Search.

Definition isCommandDisabled (cmd : Command) (ctx : CommandContext) : bool := c_write cmd && writesDisabled ctx.

(** ** The registry *)

Record NavItem := { n_path : jstr; n_label : jstr; n_description : jstr }.

Section Registry.
(** The two tables of the palette's dictionary, the console's documentation address, the navigation
    entries with the sidebar's Russian label and the palette's Russian description of each, where the
    tables have them. *)
Context (en ru : jstr -> jstr) (DOCS_BASE_URL : jstr).
Context (NAV_ITEMS : list NavItem) (nav_label_ru nav_desc_ru : jstr -> option jstr).

Definition kw (key : jstr) : list jstr := [en key; ru key].

Definition LEGACY_NAV_KEYWORDS (path : jstr) : option jstr :=
  mget [(js "/live", js "live онлайн"); (js "/investigate", js "investigate расследование");
        (js "/explore", js "explore"); (js "/console", js "console консоль");
        (js "/diagnostics", js "diagnostics диагностика");
        (js "/targets", js "targets schedules цели и расписания")] path.

Definition opt_list (o : option jstr) : list jstr := match o with Some x => [x] | None => [] end.

Definition navCommand (item : NavItem) : Command := {|
  c_id := js "nav:" ++ n_path item; c_title := n_label item; c_titleRu := nav_label_ru (n_path item);
  c_group := Navigation;
  c_keywords := n_description item :: opt_list (nav_desc_ru (n_path item))
                  ++ opt_list (LEGACY_NAV_KEYWORDS (n_path item)) ++ [n_path item];
  c_permission := None; c_visibleWhen := None; c_write := false; c_perform := Navigate (n_path item) |}.

Definition navCommands : list Command := navCommand <$> NAV_ITEMS.

(** An entry named by its dictionary key. *)
Definition keyed (id key : string) (group : CommandGroup) (permission : option jstr)
    (visible : option (CommandContext -> bool)) (write : bool) (perform : effect) : Command := {|
  c_id := js id; c_title := en (js key); c_titleRu := Some (ru (js key)); c_group := group;
  c_keywords := kw (js key ++ js ".kw"); c_permission := permission; c_visibleWhen := visible;
  c_write := write; c_perform := perform |}.

Definition actionCommands : list Command :=
  [keyed "action:run-check" "action.runCheck" Actions (Some (js "runs:create")) None true (Navigate (js "/diagnostics"));
   keyed "action:investigate" "action.investigate" Actions None None false (Navigate (js "/investigate"));
   keyed "action:alert-rule" "action.alertRule" Actions (Some (js "alerts:manage")) None true (Navigate (js "/alerting"));
   keyed "action:maintenance" "action.maintenance" Actions (Some (js "maintenance:write")) None true (Navigate (js "/explore"));
   keyed "action:annotation" "action.annotation" Actions (Some (js "annotations:write")) None true (Navigate (js "/explore"));
   keyed "action:docs" "action.docs" Actions None None false (OpenExternal DOCS_BASE_URL)].

Definition viewCommands (ctx : CommandContext) : list Command :=
  [keyed "view:timemachine-pick" "view.timemachinePick" View None
     (Some (fun c => isLive c && hasTimeMachinePicker c)) false OpenPicker;
   keyed "view:timemachine-live" "view.timemachineLive" View None (Some (fun c => negb (isLive c))) false ReturnToLive;
   {| c_id := js "view:theme";
      c_title := en (if dark ctx then js "view.themeLight" else js "view.themeDark");
      c_titleRu := Some (ru (if dark ctx then js "view.themeLight" else js "view.themeDark"));
      c_group := View; c_keywords := kw (js "view.theme.kw"); c_permission := None; c_visibleWhen := None;
      c_write := false; c_perform := ToggleTheme |}].

(** A saved incident as it came off the wire; an absent or ill-typed field is [None]. *)
Record SavedIncident := { i_id : option jstr; i_title : option jstr; i_scope : option jstr }.

Definition incidentCommand (i : SavedIncident) : option Command :=
  id ← i_id i;
  if seqb id [] then None
  else
    title ← i_title i;
    if seqb (trim title) [] then None
    else
      let scope := default [] (i_scope i) in
      Some {| c_id := js "incident:" ++ id; c_title := title; c_titleRu := None; c_group := Incidents;
              c_keywords := (if seqb scope [] then [] else [scope]) ++ kw (js "incident.kw");
              c_permission := Some (js "incidents:read"); c_visibleWhen := None; c_write := false;
              c_perform := match incidentPermalink id with Some path => Navigate path | None => Throws end |}.

Definition incidentCommands (incidents : list SavedIncident) : list Command := omap incidentCommand incidents.

Definition offered (ctx : CommandContext) (c : Command) : bool :=
  match c_permission c with None => true | Some p => can ctx p end &&
  match c_visibleWhen c with None => true | Some v => v ctx end.

Definition buildRegistry (ctx : CommandContext) (incidents : list SavedIncident) : list Command :=
  List.filter (offered ctx) (navCommands ++ actionCommands ++ viewCommands ctx ++ incidentCommands incidents).
End Registry.

(** ** Word boundaries *)

Definition occurs (hay needle : jstr) (i : nat) : Prop := startsWith (drop i hay) needle = true.

(** The start of the text, or a place after something that is no letter or digit. *)
Definition at_boundary (hay : jstr) (i : nat) : Prop :=
  i = 0%nat \/ forall c, hay !! (i - 1)%nat = Some c -> WORD_CHAR c = false.

Lemma indexOf_first s p i :
  indexOf s p = Some i -> startsWith (drop i s) p = true /\ forall j, (j < i)%nat -> startsWith (drop j s) p = false.
Proof.
  revert i. induction s as [|x s IH]; intros i; simpl.
  - destruct (startsWith [] p) eqn:E; [|done]. intros [= <-]. split; [done|lia].
  - destruct (startsWith (x :: s) p) eqn:E; [intros [= <-]; split; [done|lia]|].
    destruct (indexOf s p) as [k|]; simpl; [|done]. intros [= <-]. destruct (IH k eq_refl) as [H1 H2].
    split; [done|]. intros [|j] Hj; [done|]. apply H2. lia.
Qed.

Lemma indexOf_none s p j : indexOf s p = None -> p <> [] -> startsWith (drop j s) p = false.
Proof.
  intros H Hp. revert j. induction s as [|x s IH]; intros j; simpl in *.
  - rewrite drop_nil. by destruct p.
  - destruct (startsWith (x :: s) p) eqn:E; [done|]. destruct (indexOf s p) eqn:F; [done|].
    destruct j as [|j]; [done|]. by apply IH.
Qed.

Lemma occurs_short hay needle i : needle <> [] -> occurs hay needle i -> (i < length hay)%nat.
Proof.
  intros Hn H. unfold occurs in H. apply startsWith_spec in H as [r Hr].
  apply (f_equal length) in Hr. rewrite length_drop, length_app in Hr. destruct needle; [done|]. simpl in Hr. lia.
Qed.

Lemma boundary_from_spec fuel hay needle from :
  needle <> [] -> (length hay < fuel + from)%nat ->
  match boundary_from fuel hay needle from with
  | Some i => occurs hay needle i /\ at_boundary hay i /\ (from <= i)%nat /\
              forall j, (from <= j < i)%nat -> occurs hay needle j -> ~ at_boundary hay j
  | None => forall j, (from <= j)%nat -> occurs hay needle j -> ~ at_boundary hay j
  end.
Proof.
  intros Hn. revert from. induction fuel as [|fuel IH]; intros from Hf; cbn [boundary_from].
  { intros j Hj Ho. apply occurs_short in Ho; [lia|done]. }
  destruct (indexOf (drop from hay) needle) as [off|] eqn:E.
  2:{ intros j Hj Ho. exfalso. apply (indexOf_none _ _ (j - from)) in E; [|done]. rewrite drop_drop in E.
      replace (from + (j - from))%nat with j in E by lia. unfold occurs in Ho. congruence. }
  apply indexOf_first in E as [Ho Hmin]. rewrite drop_drop in Ho.
  assert (Hbefore : forall j, (from <= j < from + off)%nat -> ~ occurs hay needle j).
  { intros j Hj Hj'. specialize (Hmin (j - from)%nat ltac:(lia)). rewrite drop_drop in Hmin.
    replace (from + (j - from))%nat with j in Hmin by lia. unfold occurs in Hj'. congruence. }
  set (i := (from + off)%nat) in *. destruct (_ || _) eqn:Eb.
  - split_and!; [done| |lia|intros j Hj Hj'; by apply Hbefore in Hj].
    apply orb_true_iff in Eb as [Eb|Eb]; [left; by apply Nat.eqb_eq|]. right. intros c Hc. rewrite Hc in Eb.
    by apply negb_true_iff in Eb.
  - apply orb_false_iff in Eb as [E0 Eb]. apply Nat.eqb_neq in E0.
    assert (Hnb : ~ at_boundary hay i).
    { intros [?|Hb]; [done|]. apply negb_false_iff in Eb.
      destruct (hay !! (i - 1)%nat) as [c|] eqn:Ec; [|done]. rewrite (Hb c eq_refl) in Eb. done. }
    assert (Hstep : forall j, (from <= j)%nat -> occurs hay needle j -> at_boundary hay j -> (S i <= j)%nat).
    { intros j Hj Hoj Hbj. destruct (decide (j < i)%nat) as [?|?]; [exfalso; eapply Hbefore; eauto|].
      destruct (decide (j = i)) as [->|]; [done|lia]. }
    specialize (IH (S i) ltac:(lia)). destruct (boundary_from fuel hay needle (S i)) as [k|].
    + destruct IH as (H1 & H2 & H3 & H4). split_and!; [done|done|lia|].
      intros j Hj Hoj Hbj. apply (H4 j); [|done|done]. split; [apply Hstep; [lia|done|done]|lia].
    + intros j Hj Hoj Hbj. apply (IH j); [by apply Hstep|done|done].
Qed.

(** The search for a word boundary ends, on the first one there is. *)
Theorem boundaryIndex_first hay needle :
  needle <> [] ->
  match boundaryIndex hay needle with
  | Some i => occurs hay needle i /\ at_boundary hay i /\ forall j, (j < i)%nat -> occurs hay needle j -> ~ at_boundary hay j
  | None => forall j, occurs hay needle j -> ~ at_boundary hay j
  end.
Proof.
  intros Hn. pose proof (boundary_from_spec (S (length hay)) hay needle 0 Hn ltac:(lia)) as H.
  unfold boundaryIndex. destruct (boundary_from _ hay needle 0).
  - destruct H as (? & ? & _ & H). split_and!; [done|done|]. intros j Hj. apply H. lia.
  - intros j. apply H. lia.
Qed.

(** ** Scores *)

Lemma includes_occurs hay needle : needle <> [] -> includes hay needle = true <-> exists i, occurs hay needle i.
Proof.
  intros Hn. unfold includes. rewrite bool_decide_eq_true. split.
  - intros [i Hi]. exists i. by apply indexOf_first in Hi as [? _].
  - intros [i Hi]. destruct (indexOf hay needle) eqn:E; [by eexists|]. apply (indexOf_none _ _ i) in E; [|done].
    unfold occurs in Hi. congruence.
Qed.

Lemma boundary_includes hay needle i : needle <> [] -> boundaryIndex hay needle = Some i -> includes hay needle = true.
Proof.
  intros Hn E. pose proof (boundaryIndex_first hay needle Hn) as H. rewrite E in H.
  apply includes_occurs; [done|]. exists i. apply H.
Qed.

Lemma exists_cons (P : jstr -> Prop) x l :
  (exists t, t ∈ x :: l /\ P t) <-> P x \/ exists t, t ∈ l /\ P t.
Proof.
  split.
  - intros (t & Ht & Hp). apply elem_of_cons in Ht as [->|Ht]; [by left|]. right. eauto.
  - intros [Hx|(t & Ht & Hp)]; eexists; (split; [|eassumption]); by constructor.
Qed.

Lemma exists_app (P : jstr -> Prop) l k :
  (exists t, t ∈ l ++ k /\ P t) <-> (exists t, t ∈ l /\ P t) \/ exists t, t ∈ k /\ P t.
Proof.
  split.
  - intros (t & Ht & Hp). apply elem_of_app in Ht as [Ht|Ht]; eauto.
  - intros [(t & Ht & Hp)|(t & Ht & Hp)]; exists t; rewrite elem_of_app; auto.
Qed.

Lemma titleScore_from_pos best word titles :
  word <> [] -> 0 <= best ->
  0 <= titleScore_from best word titles /\
  (0 < titleScore_from best word titles <-> 0 < best \/ exists t, t ∈ titles /\ includes t word = true).
Proof.
  intros Hw. revert best. induction titles as [|t rest IH]; intros best Hb; cbn [titleScore_from].
  { split; [done|]. split; [by left|]. intros [?|(t & Ht & _)]; [done|]. by apply elem_of_nil in Ht. }
  unfold TITLE_BOUNDARY, TITLE_SUBSTRING, TITLE_START.
  destruct (boundaryIndex t word) as [[|i]|] eqn:E.
  - split; [lia|]. split; [|lia]. intros _. right. exists t. split; [constructor|by eapply boundary_includes].
  - destruct (IH (Z.max best 100) ltac:(lia)) as [H1 H2]. split; [done|]. rewrite H2. split; [|lia].
    intros _. right. exists t. split; [constructor|by eapply boundary_includes].
  - destruct (includes t word) eqn:Ei.
    + destruct (IH (Z.max best 60) ltac:(lia)) as [H1 H2]. split; [done|]. rewrite H2. split; [|lia].
      intros _. right. exists t. split; [constructor|done].
    + destruct (IH best Hb) as [H1 H2]. split; [done|]. rewrite H2, exists_cons, Ei. clear. intuition discriminate.
Qed.

Lemma keyword_fold_pos best word keywords :
  word <> [] -> 0 <= best ->
  0 <= fold_left (keyword_score word) keywords best /\
  (0 < fold_left (keyword_score word) keywords best <-> 0 < best \/ exists k, k ∈ keywords /\ includes k word = true).
Proof.
  intros Hw. revert best. induction keywords as [|k rest IH]; intros best Hb; cbn [fold_left].
  { split; [done|]. split; [by left|]. intros [?|(t & Ht & _)]; [done|]. by apply elem_of_nil in Ht. }
  assert (Hk : 0 <= keyword_score word best k /\
               (0 < keyword_score word best k <-> 0 < best \/ includes k word = true)).
  { unfold keyword_score, KEYWORD_BOUNDARY, KEYWORD_SUBSTRING. destruct (boundaryIndex k word) eqn:E.
    - rewrite (boundary_includes _ _ _ Hw E). split; [lia|]. split; [by right|lia].
    - destruct (includes k word); (split; [lia|]); split; [by right|lia|by left|intros [?|?]; done]. }
  destruct Hk as [Hk1 Hk2]. destruct (IH _ Hk1) as [H1 H2]. split; [done|]. rewrite H2, Hk2, exists_cons. clear. tauto.
Qed.

(** A word scores exactly when it occurs in some title or keyword. *)
Lemma wordScore_pos word titles keywords :
  word <> [] ->
  0 <= wordScore word titles keywords /\
  (wordScore word titles keywords <> 0 <-> exists t, t ∈ titles ++ keywords /\ includes t word = true).
Proof.
  intros Hw. unfold wordScore. destruct (titleScore_from_pos 0 word titles Hw ltac:(lia)) as [T1 T2].
  destruct (keyword_fold_pos 0 word keywords Hw ltac:(lia)) as [K1 K2]. fold (titleScore word titles) in T1, T2.
  rewrite exists_app. destruct (Z.gtb_spec (titleScore word titles) 0) as [H|H].
  - split; [done|]. split; [|lia]. intros _. left. by destruct (proj1 T2 H) as [?|?].
  - split; [done|]. split.
    + intros Hne. right. destruct (proj1 K2 ltac:(lia)) as [?|?]; [lia|done].
    + intros [Ht|Hk]; [|by apply Z.neq_sym, Z.lt_neq, K2; right].
      exfalso. assert (0 < titleScore word titles) by (apply T2; by right). lia.
Qed.

Section Ranking.
Context (toLowerCase : jstr -> jstr).

Lemma words_nonempty s w : w ∈ words s -> w <> [].
Proof. unfold words. intros [_ Hw]%elem_of_filter_b ->. done. Qed.

Lemma total_from_pos total titles keywords ws :
  0 <= total -> Forall (fun w => w <> []) ws ->
  0 <= total_from total titles keywords ws /\
  (0 < total_from total titles keywords ws <->
   (0 < total \/ ws <> []) /\ Forall (fun w => exists t, t ∈ titles ++ keywords /\ includes t w = true) ws).
Proof.
  intros Ht Hws. revert total Ht. induction Hws as [|w ws Hw Hws IH]; intros total Ht; cbn [total_from].
  { split; [done|]. split; [intros; split; [by left|constructor]|]. intros [[?|?] _]; done. }
  destruct (wordScore_pos w titles keywords Hw) as [W1 W2]. rewrite Forall_cons, <- W2.
  destruct (Z.eqb_spec (wordScore w titles keywords) 0) as [E|E].
  - split; [done|]. split; [lia|]. by intros [_ [? _]].
  - destruct (IH (total + wordScore w titles keywords) ltac:(lia)) as [H1 H2]. split; [done|]. rewrite H2.
    split; [intros [_ ?]; split; [by right|done]|]. intros [_ [_ ?]]. split; [left; lia|done].
Qed.

(** Where a query word may occur. *)
Definition corpus (c : Command) : list jstr := searchTitles toLowerCase c ++ (toLowerCase <$> c_keywords c).

Definition found (query : jstr) (c : Command) : Prop :=
  forall w, w ∈ words (trim (toLowerCase query)) -> exists t, t ∈ corpus c /\ includes t w = true.

Lemma scoreCommand_found query c : 0 < scoreCommand toLowerCase query c <-> found query c.
Proof.
  unfold scoreCommand, found. pose proof (words_nonempty (trim (toLowerCase query))) as Hne.
  set (ws := words (trim (toLowerCase query))) in *. destruct (length ws =? 0)%nat eqn:E.
  - apply Nat.eqb_eq, length_zero_iff_nil in E. rewrite E. split; [|lia]. intros _ w Hw. by apply elem_of_nil in Hw.
  - apply Nat.eqb_neq in E. assert (Hf : Forall (fun w => w <> []) ws) by (apply Forall_forall; apply Hne).
    destruct (total_from_pos 0 (searchTitles toLowerCase c) (toLowerCase <$> c_keywords c) ws ltac:(lia) Hf) as [_ ->].
    rewrite Forall_forall. split; [by intros [_ ?]|]. intros H. split; [|done]. right. intros ->. done.
Qed.

(** What the ranking looks at: the score, best first, then the title as displayed, then the id. *)
Definition rank_key (locale : Locale) (r : Command * Z) : Z * jstr * jstr :=
  (- r.2, commandTitle r.1 locale, c_id r.1).

Lemma cmpStr_zero a b : (cmpStr a b =? int 0)%num = seqb a b.
Proof.
  unfold cmpStr. destruct (sltb a b) eqn:E1; [rewrite neqb_int; symmetry; apply seqb_neq; intros ->; by rewrite sltb_irrefl in E1|].
  destruct (sltb b a) eqn:E2; [rewrite neqb_int; symmetry; apply seqb_neq; intros ->; by rewrite sltb_irrefl in E2|].
  rewrite neqb_int. symmetry. apply seqb_eq. by apply sltb_total.
Qed.

Lemma cmpStr_pos a b : (int 0 <? cmpStr a b)%num = sltb b a.
Proof.
  unfold cmpStr. destruct (sltb a b) eqn:E1; [rewrite nltb_int; symmetry; by apply sltb_asym|].
  destruct (sltb b a); by rewrite nltb_int.
Qed.

Lemma compareFound_leb locale a b :
  cmp_leb (compareFound locale) a b = key_leb (rank_key locale a) (rank_key locale b).
Proof.
  unfold cmp_leb, compareFound, rank_key, key_leb. rewrite nsub_int_zero.
  destruct (Z.eqb_spec b.2 a.2) as [E|E]; cbn [negb].
  - rewrite E, Z.ltb_irrefl, Z.eqb_refl, cmpStr_zero. cbn [orb andb].
    destruct (seqb (commandTitle a.1 locale) (commandTitle b.1 locale)) eqn:Et; cbn [negb].
    + apply seqb_eq in Et. rewrite Et, sltb_irrefl, cmpStr_pos. done.
    + rewrite cmpStr_pos, andb_false_l, orb_false_r. apply seqb_neq in Et.
      destruct (sltb (commandTitle a.1 locale) (commandTitle b.1 locale)) eqn:F.
      * by rewrite (sltb_asym _ _ F).
      * destruct (sltb (commandTitle b.1 locale) (commandTitle a.1 locale)) eqn:G; [done|]. by pose proof (sltb_total _ _ F G).
  - rewrite nsub_int_pos. destruct (Z.ltb_spec a.2 b.2), (Z.ltb_spec (- a.2) (- b.2)), (Z.eqb_spec (- a.2) (- b.2)); done || lia.
Qed.

Definition scored (query : jstr) (cmds : list Command) : list (Command * Z) :=
  List.filter (fun r => r.2 >? 0) ((fun c => (c, scoreCommand toLowerCase query c)) <$> cmds).

Lemma elem_of_scored query cmds r :
  r ∈ scored query cmds <-> r.1 ∈ cmds /\ found query r.1 /\ r.2 = scoreCommand toLowerCase query r.1.
Proof.
  unfold scored. rewrite elem_of_filter_b, list_elem_of_fmap, <- scoreCommand_found. split.
  - intros [(c & -> & Hc) Hp]. cbn in *. split_and!; [done|lia|done].
  - destruct r as [c s]. cbn. intros (Hc & Hf & ->). split; [by exists c|lia].
Qed.

Lemma scored_perm query l k : l ≡ₚ k -> scored query l ≡ₚ scored query k.
Proof. intros Hp. apply filter_perm_b. by rewrite Hp. Qed.

(** The palette's answer is complete, ranked and stable: it lists exactly the entries in which every
    word of the query occurs (in a title of either language or in a keyword), best score first with ties
    broken by the displayed title and then the id, and it does not depend on the order the registry
    handed the entries over in. *)
Theorem searchCommands_spec query cmds locale :
  let out := searchCommands toLowerCase query cmds locale in
  let key c := rank_key locale (c, scoreCommand toLowerCase query c) in
  (forall c, c ∈ out <-> c ∈ cmds /\ found query c) /\
  StronglySorted (fun a b => key_leb (key a) (key b) = true) out /\
  (NoDup (c_id <$> cmds) -> forall cmds', cmds ≡ₚ cmds' -> searchCommands toLowerCase query cmds' locale = out).
Proof.
  intros out key. unfold out, searchCommands. fold (scored query cmds).
  assert (Hmem : forall r, r ∈ js_sort (compareFound locale) (scored query cmds) <-> r ∈ scored query cmds).
  { intros r. apply elem_of_sort_leb. }
  split_and!.
  - intros c. rewrite list_elem_of_fmap. split.
    + intros (r & -> & Hr). apply Hmem, elem_of_scored in Hr as (? & ? & _). done.
    + intros [Hc Hf]. exists (c, scoreCommand toLowerCase query c). split; [done|]. apply Hmem, elem_of_scored. done.
  - assert (Hs : StronglySorted (fun a b => cmp_leb (compareFound locale) a b = true)
                   (js_sort (compareFound locale) (scored query cmds))).
    { apply (sort_leb_sorted _ (fun _ => True)); [..|by apply Forall_true].
      - intros x y _ _. rewrite !compareFound_leb. apply key_leb_total.
      - intros x y z _ _ _. rewrite !compareFound_leb. apply key_leb_trans. }
    assert (Hall : Forall (fun r => r.2 = scoreCommand toLowerCase query r.1)
                     (js_sort (compareFound locale) (scored query cmds))).
    { apply Forall_forall. intros r Hr. by apply Hmem, elem_of_scored in Hr as (_ & _ & ?). }
    clear Hmem. revert Hall. induction Hs as [|[c s] l Hs IH Hf]; intros Hall; simpl; [constructor|].
    inversion Hall as [|?? E Hall']; subst. constructor; [by apply IH|]. cbn in E. subst s.
    apply Forall_fmap. apply Forall_forall. intros [c' s'] Hr. cbn.
    rewrite Forall_forall in Hf, Hall'. specialize (Hf _ Hr). specialize (Hall' _ Hr). cbn in Hall'. subst s'.
    by rewrite compareFound_leb in Hf.
  - intros Hnd cmds' Hp. fold (scored query cmds'). f_equal. symmetry.
    apply (sort_leb_canonical _ (fun r => r ∈ scored query cmds)).
    + intros x y _ _. rewrite !compareFound_leb. apply key_leb_total.
    + intros x y z _ _ _. rewrite !compareFound_leb. apply key_leb_trans.
    + intros [c s] [c' s'] Hx Hy. rewrite !compareFound_leb. intros H1 H2. pose proof (key_leb_antisym _ _ H1 H2) as E.
      apply elem_of_scored in Hx as (Hc & _ & Es), Hy as (Hc' & _ & Es'). cbn in *. injection E as _ _ Ei.
      assert (c = c') as -> by by eapply (NoDup_fmap_eq c_id). congruence.
    + by apply Forall_forall.
    + by apply scored_perm.
Qed.

(** Nothing the palette lists is forbidden, and while time is rewound no listed entry writes. *)
Theorem registry_gates en ru docs items label desc ctx incidents c :
  c ∈ buildRegistry en ru docs items label desc ctx incidents ->
  (forall p, c_permission c = Some p -> can ctx p = true) /\
  (c_write c = true -> writesDisabled ctx = true -> isCommandDisabled c ctx = true).
Proof.
  unfold buildRegistry. intros [_ Ho]%elem_of_filter_b. unfold offered in Ho. apply andb_true_iff in Ho as [Hp _]. split.
  - intros p E. by rewrite E in Hp.
  - intros Hw Hd. unfold isCommandDisabled. by rewrite Hw, Hd.
Qed.
End Ranking.
