(* ===== verification/RunPage.v ===== *)
(** The run permalink's data source ([web/src/hooks/use-run.ts]): the merge of recorded results with the
    progress frames of the socket, the readings of a path-MTU result, and the state the hook keeps while a
    run is being watched. *)
From S2P Require Import Prelude JsNum JsString JsCollections JsValue.
Local Open Scope Z_scope.

Definition RUN_POLL_MS : Z := 5000.
Definition RUN_FRAME_REFETCH_MS : Z := 1000.

Definition runTopic (runId : jstr) : jstr := js "run:" ++ runId.

Definition RUN_TERMINAL_STATUSES : list jstr := js <$> ["succeeded"; "failed"; "partial"; "cancelled"]%string.

Definition isTerminalRunStatus (status : option jstr) : bool :=
  match status with Some s => existsb (seqb s) RUN_TERMINAL_STATUSES | None => false end.

(** ** Rows *)

Record PMTUReading := { verdict : jstr; probeMtu : number; pathMtu : number; steps : number; truncated : bool }.

Definition PMTU_VERDICTS : list jstr := js <$> ["ok"; "reduced"; "blackhole"; "unreachable"]%string.

Definition finite_or_zero (v : value) : number :=
  match v with VNum n => if isFinite n then n else int 0 | _ => int 0 end.

Definition is_object (v : value) : bool := match v with VObj _ | VArr _ => true | _ => false end.

Definition pmtuReadingOf (result : value) : option PMTUReading :=
  if negb (is_object result) then None
  else match vget result (js "type") with
  | VStr t =>
      let d := vget result (js "details") in
      if negb (seqb t (js "pmtu")) || negb (is_object d) then None
      else match vget d (js "verdict") with
      | VStr v =>
          if negb (existsb (seqb v) PMTU_VERDICTS) then None
          else Some {| verdict := v; probeMtu := finite_or_zero (vget d (js "probeMtu"));
                       pathMtu := finite_or_zero (vget d (js "pathMtu")); steps := finite_or_zero (vget d (js "steps"));
                       truncated := match vget d (js "truncated") with VBool true => true | _ => false end |}
      | _ => None
      end
  | _ => None
  end.

(** One recorded result of the REST snapshot. *)
Record RunResult := {
  sourceNode : jstr; destinationNode : jstr; success : bool; durationNs : option number; error : option jstr;
  recordedAt : option jstr; result : value;
}.

(** One per-pair frame of the socket. *)
Record RunProgressFrame := {
  f_source : jstr; f_destination : jstr; f_state : jstr; f_success : option bool; f_durationNs : option number;
  f_error : option jstr;
}.

Record RunPairRow := {
  r_source : jstr; r_destination : jstr; r_state : jstr; r_success : option bool; r_durationNs : option number;
  r_error : option jstr; r_recordedAt : option jstr; r_pmtu : option PMTUReading;
}.

Definition pairKey (source destination : jstr) : jstr := source ++ [0] ++ destination.

Definition fromResult (r : RunResult) : RunPairRow := {|
  r_source := sourceNode r; r_destination := destinationNode r;
  r_state := if success r then js "succeeded" else js "failed"; r_success := Some (success r);
  r_durationNs := durationNs r; r_error := error r; r_recordedAt := recordedAt r; r_pmtu := pmtuReadingOf (result r) |}.

Definition fromFrame (f : RunProgressFrame) : RunPairRow := {|
  r_source := f_source f; r_destination := f_destination f; r_state := f_state f; r_success := f_success f;
  r_durationNs := f_durationNs f; r_error := f_error f; r_recordedAt := None; r_pmtu := None |}.

Definition frame_key (f : RunProgressFrame) : jstr := pairKey (f_source f) (f_destination f).
Definition result_key (r : RunResult) : jstr := pairKey (sourceNode r) (destinationNode r).

Definition FrameMap := list (jstr * RunProgressFrame).

Definition mergeRunPairs (results : list RunResult) (frames : FrameMap) : list RunPairRow :=
  let rows := fold_left (fun m f => mset m (frame_key f) (fromFrame f)) (mvalues frames) [] in
  mvalues (fold_left (fun m r => mset m (result_key r) (fromResult r)) results rows).

(** ** The hook *)

Definition is_dispatched (f : RunProgressFrame) : bool := seqb (f_state f) (js "dispatched").

(** The updater of [setFrames]: a re-dispatch does not displace a settled probe. *)
Definition hold_frame (prev : FrameMap) (frame : RunProgressFrame) : FrameMap :=
  match mget prev (frame_key frame) with
  | Some held => if is_dispatched frame && negb (is_dispatched held) then prev else mset prev (frame_key frame) frame
  | None => mset prev (frame_key frame) frame
  end.

(** The cells of the hook; [timer] says a refetch is planned, [refetches] counts the reads asked for. *)
Record hook := {
  frames : FrameMap; socketDone : bool; connected : bool; settled : bool; timer : bool; refetches : nat;
}.

Definition fresh_hook : hook :=
  {| frames := []; socketDone := false; connected := false; settled := false; timer := false; refetches := 0 |}.

Inductive SocketState := Connecting | Open | Closed.
#[export] Instance SocketState_eq_dec : EqDecision SocketState.
Proof. solve_decision. Defined.

Inductive frame_in :=
  | ErrorFrame
  | ClosedFrame
  | Progress (f : RunProgressFrame)
  | Finished.

Definition with_frames (fs : FrameMap) (t : bool) (h : hook) : hook :=
  {| frames := fs; socketDone := socketDone h; connected := connected h; settled := settled h; timer := t;
     refetches := refetches h |}.
Definition with_socket (done conn sett : bool) (h : hook) : hook :=
  {| frames := frames h; socketDone := done; connected := conn; settled := sett; timer := timer h;
     refetches := refetches h |}.
Definition with_timer (t : bool) (n : nat) (h : hook) : hook :=
  {| frames := frames h; socketDone := socketDone h; connected := connected h; settled := settled h; timer := t;
     refetches := n |}.

(** The handler of the run's topic. *)
Definition onFrame (e : frame_in) (h : hook) : hook :=
  match e with
  | ErrorFrame | ClosedFrame => with_socket true (connected h) (settled h) h
  | Progress f => with_frames (hold_frame (frames h) f) (timer h || negb (is_dispatched f)) h
  | Finished => with_timer (timer h) (S (refetches h)) h
  end.

Definition refetchFires (h : hook) : hook := if timer h then with_timer false (S (refetches h)) h else h.

Definition onState (s : SocketState) (h : hook) : hook :=
  with_socket (socketDone h) (bool_decide (s = Open)) (settled h || bool_decide (s <> Connecting)) h.

(** What the REST query holds: no run yet, or its status and results. *)
Record query_state := { q_run : option (option jstr * list RunResult); q_error_status : option Z }.

Definition isSettledClientError (status : option Z) : bool :=
  match status with Some s => (400 <=? s) && (s <? 500) && negb (s =? 429) | None => false end.

Definition q_status (q : query_state) : option jstr := r ← q_run q; r.1.

(** [refetchInterval]: [None] is false, the poll has stopped. *)
Definition refetchInterval (q : query_state) : option Z :=
  if isTerminalRunStatus (q_status q) || isSettledClientError (q_error_status q) then None else Some RUN_POLL_MS.

Definition socketEnabled (runId : jstr) (realtime : bool) (q : query_state) (h : hook) : bool :=
  negb (seqb runId []) && realtime && bool_decide (is_Some (q_run q)) && negb (isTerminalRunStatus (q_status q))
  && negb (socketDone h).

(** The effect of the subscription: turned off, or on over the shared socket's present state. *)
Definition subscribe_effect (enabled : bool) (ws_before ws_after : SocketState) (h : hook) : hook :=
  if negb enabled then with_socket (socketDone h) false false h
  else with_socket (socketDone h) (bool_decide (ws_before = Open)) (bool_decide (ws_after <> Connecting)) h.

(** The cleanup of the effect clears a planned refetch. *)
Definition unsubscribe_effect (h : hook) : hook := with_timer false (refetches h) h.

Definition switch_run (h : hook) : hook :=
  {| frames := []; socketDone := false; connected := connected h; settled := settled h; timer := timer h;
     refetches := refetches h |}.

Record UseRunResult := { u_pairs : list RunPairRow; live : bool; connecting : bool; notFound : bool }.

Definition useRun (runId : jstr) (realtime : bool) (q : query_state) (h : hook) : UseRunResult :=
  let on := socketEnabled runId realtime q h in
  {| u_pairs := mergeRunPairs (match q_run q with Some (_, rs) => rs | None => [] end) (frames h);
     live := on && connected h; connecting := on && negb (settled h);
     notFound := bool_decide (q_error_status q = Some 404) |}.

(** ** The pair table *)

Definition row_key (r : RunPairRow) : jstr := pairKey (r_source r) (r_destination r).

(** The frame a pair shows: its last settled one, else its last one. *)
Definition shown (l : list RunProgressFrame) (k : jstr) : option RunProgressFrame :=
  match List.find (fun f => bool_decide (frame_key f = k) && negb (is_dispatched f)) (rev l) with
  | Some f => Some f
  | None => List.find (fun f => bool_decide (frame_key f = k)) (rev l)
  end.

Lemma shown_settled l k f :
  shown l k = Some f -> is_dispatched f = false \/ Forall (fun g => frame_key g = k -> is_dispatched g = true) l.
Proof.
  unfold shown. destruct (List.find _ (rev l)) as [g|] eqn:E.
  - intros [= <-]. left. apply find_some in E as [_ E]. apply andb_true_iff in E as [_ E]. by apply negb_true_iff in E.
  - intros _. right. apply Forall_forall. intros g Hg Hk. pose proof (find_none _ _ E g) as Hn.
    rewrite <- in_rev, <- list_elem_of_In in Hn. specialize (Hn Hg). rewrite bool_decide_eq_true_2 in Hn by done.
    by apply negb_false_iff in Hn.
Qed.

Lemma hold_fold l :
  (forall k, mget (fold_left hold_frame l []) k = shown l k) /\ NoDup (mkeys (fold_left hold_frame l [])).
Proof.
  induction l as [|f l [IHg IHn]] using rev_ind; [split; [done|constructor]|].
  rewrite fold_left_app. cbn [fold_left]. set (m := fold_left hold_frame l []) in *.
  assert (Hset : forall k, mget (mset m (frame_key f) f) k =
                           if bool_decide (frame_key f = k) then Some f else mget m k).
  { intros k. case_bool_decide as E; [subst; apply mget_mset_eq|by apply mget_mset_ne]. }
  unfold hold_frame. rewrite IHg. split.
  - intros k. unfold shown at 2. rewrite rev_app_distr. cbn [rev app List.find].
    destruct (shown l (frame_key f)) as [held|] eqn:Eh.
    + pose proof (shown_settled _ _ _ Eh) as Hs. destruct (is_dispatched f) eqn:Ed; cbn [negb andb].
      * rewrite andb_false_r. destruct (is_dispatched held) eqn:Edh; cbn [negb].
        -- destruct Hs as [?|Hall]; [congruence|]. rewrite Hset, IHg. case_bool_decide as Ek; [|done]. subst k.
           destruct (List.find _ (rev l)) as [g|] eqn:Ef; [|done]. exfalso. apply find_some in Ef as [Hin Hg].
           rewrite <- in_rev, <- list_elem_of_In in Hin. rewrite Forall_forall in Hall.
           apply andb_true_iff in Hg as [Hg1 Hg2]. apply bool_decide_eq_true in Hg1. by rewrite (Hall g Hin Hg1) in Hg2.
        -- rewrite IHg. unfold shown. case_bool_decide as Ek; [|done]. subst k. unfold shown in Eh.
           destruct (List.find _ (rev l)) as [g|] eqn:Ef; [done|]. exfalso.
           pose proof (find_none _ _ Ef held) as Hn. apply find_some in Eh as [Hin Hk].
           specialize (Hn Hin). cbv beta in Hn, Hk. by rewrite Hk, Edh in Hn.
      * rewrite andb_true_r, Hset. unfold shown. case_bool_decide as Ek; [done|]. by rewrite IHg.
    + rewrite Hset. case_bool_decide as Ek; cbn [andb]; [|by rewrite IHg]. subst k.
      destruct (negb (is_dispatched f)); [done|]. unfold shown in Eh. by destruct (List.find _ (rev l)).
  - repeat case_match; try done; by apply NoDup_mkeys_mset.
Qed.

(** A loop that files values under keys: the keys stay distinct and every stored value carries its own. *)
Section Filing.
Context {A B : Type} (key : A -> jstr) (row : A -> B) (row_id : B -> jstr) (Hid : forall x, row_id (row x) = key x).

Lemma file_get l m k :
  mget (fold_left (fun m x => mset m (key x) (row x)) l m) k =
    match List.find (fun x => bool_decide (key x = k)) (rev l) with Some x => Some (row x) | None => mget m k end.
Proof.
  revert m; induction l as [|a l IH]; intros m; simpl; [done|]. rewrite IH, find_app_b. simpl.
  destruct (List.find _ (rev l)); [done|]. case_bool_decide as E; [subst; apply mget_mset_eq|by apply mget_mset_ne].
Qed.

Definition filed (m : list (jstr * B)) : Prop := NoDup (mkeys m) /\ forall k v, mget m k = Some v -> row_id v = k.

Lemma file_filed l m : filed m -> filed (fold_left (fun m x => mset m (key x) (row x)) l m).
Proof.
  revert m. induction l as [|a l IH]; intros m [Hn Hv]; simpl; [done|]. apply IH. split; [by apply NoDup_mkeys_mset|].
  intros k v. destruct (decide (key a = k)) as [<-|Hne].
  - rewrite mget_mset_eq. intros [= <-]. apply Hid.
  - rewrite mget_mset_ne by done. apply Hv.
Qed.

Lemma filed_values m v : filed m -> v ∈ mvalues m <-> mget m (row_id v) = Some v.
Proof.
  intros [Hn Hv]. unfold mvalues. rewrite list_elem_of_fmap. split.
  - intros ([k x] & -> & Hin). apply mget_elem_of in Hin; [|done]. simpl. by rewrite (Hv _ _ Hin).
  - intros Hg. exists (row_id v, v). split; [done|]. by apply elem_of_mget.
Qed.

Lemma filed_keys m : filed m -> NoDup (row_id <$> mvalues m).
Proof.
  intros [Hn Hv]. assert (row_id <$> mvalues m = mkeys m) as ->; [|done]. unfold mvalues, mkeys.
  rewrite <- list_fmap_compose. apply list_fmap_ext. intros i [k x] Hx. simpl. apply Hv. apply mget_elem_of; [done|].
  by eapply list_elem_of_lookup_2.
Qed.
End Filing.

Lemma pairKey_inj s d s' d' : 0 ∉ s -> 0 ∉ s' -> pairKey s d = pairKey s' d' -> s = s' /\ d = d'.
Proof. intros Hs Hs'. by apply app_cons_inj. Qed.

Lemma find_ext_in {A} (f g : A -> bool) l : (forall x, x ∈ l -> f x = g x) -> List.find f l = List.find g l.
Proof.
  induction l as [|x l IH]; intros H; simpl; [done|]. rewrite (H x) by constructor. rewrite IH; [done|].
  intros y Hy. apply H. by constructor.
Qed.

(** Node names hold no NUL unit. *)
Definition named (s : jstr) : Prop := 0 ∉ s.

Definition result_of (results : list RunResult) (s d : jstr) : option RunResult :=
  List.find (fun r => bool_decide (sourceNode r = s /\ destinationNode r = d)) (rev results).

Definition frame_of (fs : list RunProgressFrame) (s d : jstr) : option RunProgressFrame :=
  let mine f := bool_decide (f_source f = s /\ f_destination f = d) in
  match List.find (fun f => mine f && negb (is_dispatched f)) (rev fs) with
  | Some f => Some f
  | None => List.find mine (rev fs)
  end.

Lemma key_decide s d s' d' : named s -> named s' ->
  bool_decide (pairKey s d = pairKey s' d') = bool_decide (s = s' /\ d = d').
Proof.
  intros Hs Hs'. apply bool_decide_ext. split; [by apply pairKey_inj|]. by intros [-> ->].
Qed.

Lemma shown_in l k f : shown l k = Some f -> f ∈ l /\ frame_key f = k.
Proof.
  unfold shown. assert (G : forall p, List.find (fun f => bool_decide (frame_key f = k) && p f) (rev l) = Some f -> f ∈ l /\ frame_key f = k).
  { intros p [Hin Hp]%find_some. rewrite <- in_rev, <- list_elem_of_In in Hin. apply andb_true_iff in Hp as [Hp _].
    by apply bool_decide_eq_true in Hp. }
  destruct (List.find _ (rev l)) as [g|] eqn:E; [intros [= ->]; by apply (G _ E)|].
  intros Hf. apply (G (fun _ => true)). rewrite <- Hf. apply find_ext_in. intros x _. by rewrite andb_true_r.
Qed.

Lemma held_rows fs k :
  mget (fold_left (fun m f => mset m (frame_key f) (fromFrame f)) (mvalues (fold_left hold_frame fs [])) []) k =
  fromFrame <$> shown fs k.
Proof.
  destruct (hold_fold fs) as [Hg Hn]. set (m := fold_left hold_frame fs []) in *.
  assert (Hm : filed frame_key m).
  { split; [done|]. intros j v Hv. rewrite Hg in Hv. by apply shown_in in Hv as [_ ?]. }
  rewrite file_get, <- Hg. destruct (List.find _ (rev (mvalues m))) as [f|] eqn:E.
  - apply find_some in E as [Hin Hk]. rewrite <- in_rev, <- list_elem_of_In in Hin. apply bool_decide_eq_true in Hk.
    apply (filed_values frame_key) in Hin; [|done]. rewrite Hk in Hin. by rewrite Hin.
  - destruct (mget m k) as [f|] eqn:Ef; [|done]. exfalso. pose proof (proj2 Hm _ _ Ef) as Hk. rewrite <- Hk in Ef.
    apply (filed_values frame_key) in Ef; [|done]. pose proof (find_none _ _ E f) as Hf. cbv beta in Hf.
    rewrite <- in_rev, <- list_elem_of_In in Hf. rewrite bool_decide_eq_true_2 in Hf by done. by specialize (Hf Ef).
Qed.

(** The rows, by key. *)
Lemma merged_rows results fs :
  let rows := mergeRunPairs results (fold_left hold_frame fs []) in
  NoDup (row_key <$> rows) /\
  forall row, row ∈ rows <->
    match List.find (fun r => bool_decide (result_key r = row_key row)) (rev results) with
    | Some r => fromResult r = row
    | None => (fromFrame <$> shown fs (row_key row)) = Some row
    end.
Proof.
  intros rows. unfold rows, mergeRunPairs.
  set (held := fold_left (fun m f => mset m (frame_key f) (fromFrame f)) (mvalues (fold_left hold_frame fs [])) []).
  assert (Hf : filed row_key (fold_left (fun m r => mset m (result_key r) (fromResult r)) results held)).
  { apply file_filed; [done|]. apply file_filed; [done|]. split; [constructor|done]. }
  split; [by apply filed_keys|]. intros row. rewrite (filed_values row_key) by done. rewrite file_get.
  unfold held. rewrite held_rows. destruct (List.find _ (rev results)); [|done]. split; congruence.
Qed.

Lemma result_of_key results s d :
  Forall (fun r => named (sourceNode r)) results -> named s ->
  List.find (fun r => bool_decide (result_key r = pairKey s d)) (rev results) = result_of results s d.
Proof.
  intros Hr Hs. apply find_ext_in. intros r Hin. apply key_decide; [|done]. rewrite Forall_forall in Hr. apply Hr.
  by rewrite list_elem_of_In, in_rev, <- list_elem_of_In.
Qed.

Lemma frame_of_key fs s d :
  Forall (fun f => named (f_source f)) fs -> named s -> shown fs (pairKey s d) = frame_of fs s d.
Proof.
  intros Hf Hs. unfold shown, frame_of. rewrite Forall_forall in Hf.
  assert (E : forall f, f ∈ rev fs -> bool_decide (frame_key f = pairKey s d) = bool_decide (f_source f = s /\ f_destination f = d)).
  { intros f Hin. apply key_decide; [|done]. apply Hf. by rewrite list_elem_of_In, in_rev, <- list_elem_of_In. }
  rewrite (find_ext_in _ (fun f => bool_decide (f_source f = s /\ f_destination f = d) && negb (is_dispatched f)))
    by (intros f Hin; by rewrite E).
  destruct (List.find _ (rev fs)); [done|]. by apply find_ext_in.
Qed.

Lemma row_named results fs row :
  Forall (fun r => named (sourceNode r)) results -> Forall (fun f => named (f_source f)) fs ->
  row ∈ mergeRunPairs results (fold_left hold_frame fs []) -> named (r_source row).
Proof.
  intros Hr Hf Hin. apply merged_rows in Hin. destruct (List.find _ (rev results)) as [r|] eqn:E.
  - subst row. apply find_some in E as [E _]. rewrite <- in_rev, <- list_elem_of_In in E.
    rewrite Forall_forall in Hr. by apply Hr.
  - destruct (shown fs (row_key row)) as [f|] eqn:Es; [|done]. injection Hin as <-.
    apply shown_in in Es as [Es _]. rewrite Forall_forall in Hf. by apply Hf.
Qed.

(** C33: The pair table of a run is exact, however results and frames interleave: there is one row per
    pair that was heard of; it is the last recorded result of the pair where there is one, else the last
    frame that settled a probe, and only a pair no probe of which has settled shows a dispatch. *)
Theorem run_rows_spec results fs :
  Forall (fun r => named (sourceNode r)) results -> Forall (fun f => named (f_source f)) fs ->
  let rows := mergeRunPairs results (fold_left hold_frame fs []) in
  NoDup ((fun r => (r_source r, r_destination r)) <$> rows) /\
  forall row, row ∈ rows <->
    named (r_source row) /\
    match result_of results (r_source row) (r_destination row) with
    | Some r => row = fromResult r
    | None => exists f, frame_of fs (r_source row) (r_destination row) = Some f /\ row = fromFrame f
    end.
Proof.
  intros Hr Hf rows. destruct (merged_rows results fs) as [Hn Hm]. fold rows in Hn, Hm. split.
  - apply (NoDup_fmap_1 (fun p => pairKey p.1 p.2)). by rewrite <- list_fmap_compose.
  - assert (Hkey : forall row, named (r_source row) -> row ∈ rows <->
      match result_of results (r_source row) (r_destination row) with
      | Some r => row = fromResult r
      | None => exists f, frame_of fs (r_source row) (r_destination row) = Some f /\ row = fromFrame f
      end).
    { intros row Hs. rewrite Hm. unfold row_key. rewrite result_of_key, frame_of_key by done.
      destruct (result_of _ _ _); [done|]. destruct (frame_of _ _ _); cbn; [|split; [done|by intros (? & ? & _)]].
      split; [intros [= <-]; eauto|]. intros (g & [= <-] & ->). done. }
    intros row. split.
    + intros Hin. pose proof (row_named _ _ _ Hr Hf Hin) as Hs. split; [done|]. by apply Hkey.
    + intros [Hs Hrow]. by apply Hkey.
Qed.

Definition sample_frames : list RunProgressFrame :=
  (fun st => {| f_source := js "a"; f_destination := js "b"; f_state := js st; f_success := None; f_durationNs := None; f_error := None |})
    <$> ["dispatched"; "succeeded"; "dispatched"]%string.

Lemma run_rows_spec_witness :
  NoDup ((fun r => (r_source r, r_destination r)) <$> mergeRunPairs [] (fold_left hold_frame sample_frames [])) /\
  r_state <$> mergeRunPairs [] (fold_left hold_frame sample_frames []) = [js "succeeded"].
Proof.
  split; [|vm_compute; reflexivity]. apply (run_rows_spec [] sample_frames).
  - apply Forall_nil_2.
  - apply Forall_forall. intros f Hf. apply list_elem_of_fmap in Hf as (st & -> & _). apply includes_unit_false. reflexivity.
Defined.
