(* ===== verification/Agents.v ===== *)
(** What the console reads off a registered agent ([web/src/lib/agents.ts]): is it a bare host, which
    probe planes does it run, and which external agents Prometheus is evidently not scraping.  Every
    reader takes a value of any shape. *)
From S2P Require Import Prelude JsNum JsString JsCollections JsValue.
Local Open Scope Z_scope.

Definition EXTERNAL_LABEL : jstr := js "kconmon-ng.io/external".
Definition PLANE_CAPABILITY_PREFIX : jstr := js "plane:".

Definition CHECK_TYPES : list jstr := js <$> ["tcp"; "udp"; "icmp"; "pmtu"; "dns"; "http"; "mtr"]%string.
Definition PLANES : list jstr := CHECK_TYPES.

Definition is_str (v : value) (s : jstr) : bool := match v with VStr x => seqb x s | _ => false end.

Definition isExternalAgent (agent : value) : bool :=
  if negb (isRecord agent) then false
  else
    let labels := vget agent (js "labels") in
    if negb (isRecord labels) then false else is_str (vget labels EXTERNAL_LABEL) (js "true").

(** The plane one capability names, if any. *)
Definition plane_of (cap : value) : option jstr :=
  match cap with
  | VStr s =>
      if startsWith s PLANE_CAPABILITY_PREFIX then
        let name := drop (length PLANE_CAPABILITY_PREFIX) s in
        if existsb (seqb name) PLANES then Some name else None
      else None
  | _ => None
  end.

(** [None] is null: the planes are unknown. *)
Definition agentPlanes (agent : value) : option (list jstr) :=
  if negb (isRecord agent) then None
  else match vget agent (js "capabilities") with
  | VArr caps =>
      let planes := set_of_list (omap plane_of caps) in
      if (length planes =? 0)%nat then None else Some planes
  | _ => None
  end.

Definition runsPlane (agent : value) (plane : jstr) : bool :=
  match agentPlanes agent with None => true | Some planes => shas planes plane end.

Definition external_step (out : list (jstr * value)) (raw : value) : list (jstr * value) :=
  if negb (isRecord raw) || negb (isExternalAgent raw) then out
  else match vget raw (js "nodeName") with
  | VStr name => if seqb name [] || mhas out name then out else mset out name raw
  | _ => out
  end.

Definition list_of (v : value) (k : string) : option (list value) :=
  if isRecord v then match vget v (js k) with VArr l => Some l | _ => None end else None.

Definition externalByNode (topo : value) : list (jstr * value) :=
  match list_of topo "agents" with None => [] | Some agents => fold_left external_step agents [] end.

Definition cell_sources (cells : list value) : list jstr :=
  set_of_list (omap (fun c => if isRecord c then match vget c (js "source") with VStr s => Some s | _ => None end else None) cells).

Definition unscrapedExternalNodes (topo matrix : value) (plane : jstr) : list jstr :=
  match list_of matrix "cells" with
  | None | Some [] => []
  | Some cells =>
      let external := externalByNode topo in
      let sources := cell_sources cells in
      (List.filter (fun e => runsPlane e.2 plane && negb (shas sources e.1)) external).*1
  end.

(** ** The readers fail toward the alarming answer *)

Lemma external_step_record raw : isExternalAgent raw = true -> isRecord raw = true.
Proof. unfold isExternalAgent. by destruct (isRecord raw). Qed.

(** What the index holds after a list of agents: the first of them under each name. *)
Definition first_named (agents : list value) (name : jstr) : option value :=
  List.find (fun a => isExternalAgent a && is_str (vget a (js "nodeName")) name) agents.

Lemma external_step_get out a name :
  name <> [] ->
  mget (external_step out a) name =
    match mget out name with
    | Some x => Some x
    | None => if isExternalAgent a && is_str (vget a (js "nodeName")) name then Some a else None
    end.
Proof.
  intros Hname. unfold external_step. destruct (isExternalAgent a) eqn:Ea.
  2:{ rewrite orb_true_r. cbn [andb]. by destruct (mget out name). }
  rewrite (external_step_record a Ea). cbn [negb orb andb].
  destruct (vget a (js "nodeName")) as [| | | |s| |]; cbn [is_str]; try by destruct (mget out name).
  destruct (seqb s name) eqn:Es.
  - apply seqb_eq in Es as ->. destruct (seqb name []) eqn:E0; [by apply seqb_eq in E0|]. cbn [orb].
    unfold mhas. destruct (mget out name) as [x|] eqn:Em.
    + by rewrite bool_decide_eq_true_2 by by eexists.
    + rewrite bool_decide_eq_false_2 by by intros [].  apply mget_mset_eq.
  - apply seqb_neq in Es. destruct (seqb s [] || mhas out s); [by destruct (mget out name)|].
    rewrite mget_mset_ne by done. by destruct (mget out name).
Qed.

Lemma external_fold agents out name :
  name <> [] ->
  mget (fold_left external_step agents out) name =
    match mget out name with Some x => Some x | None => first_named agents name end.
Proof.
  intros Hname. revert out. induction agents as [|a l IH]; intros out; simpl; [by destruct (mget out name)|].
  rewrite IH, external_step_get by done. unfold first_named. simpl.
  destruct (mget out name); [done|]. by destruct (_ && _).
Qed.

Lemma external_keys agents out :
  NoDup (mkeys out) -> (forall k, k ∈ mkeys out -> k <> []) ->
  NoDup (mkeys (fold_left external_step agents out)) /\
  forall k, k ∈ mkeys (fold_left external_step agents out) -> k <> [].
Proof.
  revert out. induction agents as [|a l IH]; intros out Hn Hk; simpl; [done|]. apply IH.
  - unfold external_step. repeat case_match; try done. by apply NoDup_mkeys_mset.
  - unfold external_step. repeat case_match; try done. intros k. rewrite mkeys_mset.
    match goal with H : seqb _ [] || _ = false |- _ => apply orb_false_iff in H as [Hs _] end.
    apply seqb_neq in Hs. case_decide; [by apply Hk|]. intros [?|E]%elem_of_app; [by apply Hk|]. apply list_elem_of_singleton in E. by subst.
Qed.

Lemma unscraped_key topo k : k ∈ mkeys (externalByNode topo) -> k <> [].
Proof.
  unfold externalByNode. destruct (list_of topo "agents") as [agents|]; [|by intros ?%elem_of_nil].
  apply external_keys; [constructor|by intros ? ?%elem_of_nil].
Qed.

Lemma elem_of_external topo name agent :
  (name, agent) ∈ externalByNode topo <->
  name <> [] /\ exists agents, list_of topo "agents" = Some agents /\ first_named agents name = Some agent.
Proof.
  split.
  - intros Hin. assert (Hne : name <> []).
    { apply (unscraped_key topo). unfold mkeys. apply list_elem_of_fmap. by exists (name, agent). }
    split; [done|]. revert Hin. unfold externalByNode.
    destruct (list_of topo "agents") as [agents|] eqn:E; [|by intros ?%elem_of_nil]. intros Hin. exists agents. split; [done|].
    apply mget_elem_of in Hin; [|apply external_keys; [constructor|by intros ? ?%elem_of_nil]].
    by rewrite external_fold in Hin by done.
  - intros (Hne & agents & E & Hf). unfold externalByNode. rewrite E. apply elem_of_mget.
    by rewrite external_fold by done.
Qed.

Lemma elem_of_sources cells s :
  s ∈ cell_sources cells <-> exists c, c ∈ cells /\ isRecord c = true /\ vget c (js "source") = VStr s.
Proof.
  unfold cell_sources. rewrite elem_of_set_of_list, list_elem_of_omap. split.
  - intros (c & Hc & E). exists c. repeat case_match; try done. by injection E as ->.
  - intros (c & Hc & Hr & E). exists c. split; [done|]. by rewrite Hr, E.
Qed.

(** A scrape gap is claimed only on evidence: a node is listed exactly when the matrix has cells, none
    of them names it as a source, and the first agent registered under that name is a bare host that runs
    the plane or advertised no readable plane at all; no node is listed twice. *)
Theorem unscraped_spec topo matrix plane :
  NoDup (unscrapedExternalNodes topo matrix plane) /\
  forall name, name ∈ unscrapedExternalNodes topo matrix plane <->
    exists cells agents agent,
      list_of matrix "cells" = Some cells /\ cells <> [] /\
      (forall c, c ∈ cells -> isRecord c = true -> vget c (js "source") <> VStr name) /\
      name <> [] /\ list_of topo "agents" = Some agents /\ first_named agents name = Some agent /\
      runsPlane agent plane = true.
Proof.
  unfold unscrapedExternalNodes. split.
  - destruct (list_of matrix "cells") as [[|c cells]|]; try constructor.
    assert (Hn : NoDup (mkeys (externalByNode topo))).
    { unfold externalByNode. destruct (list_of topo "agents"); [|constructor].
      apply external_keys; [constructor|by intros ? ?%elem_of_nil]. }
    revert Hn. unfold mkeys. generalize (externalByNode topo). intros m Hn.
    induction m as [|e m IH]; simpl in *; [constructor|]. apply NoDup_cons in Hn as [He Hn].
    case_match; simpl; [|by apply IH]. apply NoDup_cons. split; [|by apply IH]. intros Hin. apply He.
    apply list_elem_of_fmap in Hin as (x & -> & [Hx _]%elem_of_filter_b). apply list_elem_of_fmap. eauto.
  - intros name. split.
    + destruct (list_of matrix "cells") as [[|c cells]|] eqn:Ec; try by intros ?%elem_of_nil.
      intros Hin. apply list_elem_of_fmap in Hin as ([n a] & -> & [Hin Hp]%elem_of_filter_b).
      apply elem_of_external in Hin as (Hne & agents & Ea & Hf). cbn in Hp. apply andb_true_iff in Hp as [Hr Hs].
      exists (c :: cells), agents, a. split_and!; try done. intros x Hx Hrec Hv. apply negb_true_iff in Hs.
      assert (Hin : n ∈ cell_sources (c :: cells)) by (apply elem_of_sources; eauto).
      apply shas_spec in Hin. change (shas (cell_sources (c :: cells)) n = false) in Hs. congruence.
    + intros (cells & agents & a & -> & Hne & Hsrc & Hname & Ea & Hf & Hr). destruct cells as [|c cells]; [done|].
      apply list_elem_of_fmap. exists (name, a). split; [done|]. apply elem_of_filter_b. split.
      * apply elem_of_external. eauto.
      * cbn [fst snd]. rewrite Hr. cbn [andb]. apply negb_true_iff. destruct (shas _ name) eqn:E; [|done]. exfalso.
        apply shas_spec, elem_of_sources in E as (x & Hx & Hrec & Hv). by apply (Hsrc x Hx Hrec).
Qed.
