(* ===== verification/Location.v ===== *)
(** Two small owners of the address bar: the matrix protocol in the URL
    ([web/src/lib/protocol-param.ts]) and the subscription to navigations
    ([web/src/lib/location.ts]), which patches [history] while anyone listens. *)
From S2P Require Import Prelude JsNum JsString JsCollections JsUrl Matrix InvestigationScope.
Local Open Scope Z_scope.

(** ** ?protocol= *)

Definition PROTOCOL_PARAM : jstr := js "protocol".

Definition protocol_named (raw : jstr) : option Protocol := List.find (fun p => seqb (protocol_string p) raw) PROTOCOLS.

Definition readProtocolFromLocation (search : jstr) : Protocol :=
  match qs_get (qs_parse search) PROTOCOL_PARAM with
  | Some raw => default tcp (protocol_named raw)
  | None => tcp
  end.

Definition degradedProtocolParam (search : jstr) : option Protocol :=
  match qs_get (qs_parse search) PROTOCOL_PARAM with
  | None => None
  | Some raw =>
      let resolved := readProtocolFromLocation search in
      if seqb raw (protocol_string resolved) then None else Some resolved
  end.

Definition matrixHref (p : Protocol) : jstr :=
  match p with
  | tcp => js "/matrix"
  | _ => js "/matrix?" ++ PROTOCOL_PARAM ++ js "=" ++ protocol_string p
  end.

Definition writeProtocol (p : Protocol) (u : Url) : Url :=
  {| pathname := pathname u; params := qs_set (params u) PROTOCOL_PARAM (protocol_string p); hash := hash u |}.

(** ** Listening to navigations *)

(** [installed] says [history]'s two methods are patched and popstate is listened to. *)
Record location_state := { listeners : list nat; installed : bool }.

Definition install (s : location_state) : location_state := {| listeners := listeners s; installed := true |}.
Definition uninstall (s : location_state) : location_state := {| listeners := listeners s; installed := false |}.

Definition subscribeToLocation (l : nat) (s : location_state) : location_state :=
  install {| listeners := sadd (listeners s) l; installed := installed s |}.

(** The function a subscription returned. *)
Definition unsubscribe (l : nat) (s : location_state) : location_state :=
  let s := {| listeners := sdelete (listeners s) l; installed := installed s |} in
  if (length (listeners s) =? 0)%nat then uninstall s else s.

(** [notify] over a copy: who is called, whatever they do to the set while being called. *)
Definition notify (s : location_state) : list nat := if installed s then listeners s else [].

Inductive location_event := Subscribe (l : nat) | Unsubscribe (l : nat).
Definition location_step (s : location_state) (e : location_event) : location_state :=
  match e with Subscribe l => subscribeToLocation l s | Unsubscribe l => unsubscribe l s end.

Definition no_listeners : location_state := {| listeners := []; installed := false |}.

(** History is patched exactly while someone listens, and nobody is called twice. *)
Lemma location_invariant es :
  let s := fold_left location_step es no_listeners in
  NoDup (listeners s) /\ installed s = negb (length (listeners s) =? 0)%nat.
Proof.
  apply fold_left_inv.
  - split; [constructor|done].
  - intros s [l|l] _ [Hn Hi]; simpl.
    + split; [by apply NoDup_sadd|]. unfold sadd. symmetry. apply negb_true_iff, Nat.eqb_neq.
      case_decide as Hl; [|rewrite length_app; simpl; lia].
      intros E0. apply length_zero_iff_nil in E0. rewrite E0 in Hl. by apply elem_of_nil in Hl.
    + assert (Hn' := NoDup_sdelete (listeners s) l Hn). unfold unsubscribe. cbn [listeners].
      destruct (length (sdelete (listeners s) l) =? 0)%nat eqn:E; simpl; rewrite E; (split; [done|]); [done|].
      rewrite Hi. apply negb_true_iff, Nat.eqb_neq. intros El. apply length_zero_iff_nil in El. rewrite El in E. done.
Qed.

(** Every navigation reaches exactly the listeners that subscribed last and have not left. *)
Theorem navigation_reaches es l :
  l ∈ notify (fold_left location_step es no_listeners) <->
  exists before after, es = before ++ Subscribe l :: after /\ Unsubscribe l ∉ after.
Proof.
  assert (Hnot : forall s, NoDup (listeners s) /\ installed s = negb (length (listeners s) =? 0)%nat -> notify s = listeners s).
  { intros s [_ Hi]. unfold notify. rewrite Hi. by destruct (listeners s). }
  rewrite Hnot by apply location_invariant. induction es as [|e es IH] using rev_ind.
  - split; [by intros ?%elem_of_nil|]. intros (b & a & E & _). by destruct b.
  - rewrite fold_left_app. cbn [fold_left]. set (s := fold_left location_step es no_listeners) in *.
    assert (Hsnoc : forall e', e' <> Subscribe l -> e' <> Unsubscribe l ->
       (exists before after, es ++ [e'] = before ++ Subscribe l :: after /\ Unsubscribe l ∉ after) <->
       (exists before after, es = before ++ Subscribe l :: after /\ Unsubscribe l ∉ after)).
    { intros e' H1 H2. split.
      - intros (b & a & E & Ha). destruct a as [|x a] using rev_ind.
        + apply app_inj_tail in E as [_ E]. done.
        + rewrite app_comm_cons, app_assoc in E. apply app_inj_tail in E as [-> ->]. exists b, a. split; [done|]. set_solver.
      - intros (b & a & -> & Ha). exists b, (a ++ [e']). rewrite <- app_assoc. split; [done|]. set_solver. }
    destruct e as [l'|l']; simpl.
    + rewrite elem_of_sadd. destruct (decide (l' = l)) as [->|Hne].
      * split; [|by right]. intros _. exists es, []. split; [done|]. by apply not_elem_of_nil.
      * rewrite Hsnoc by congruence. rewrite <- IH. naive_solver.
    + assert (E : listeners (unsubscribe l' s) = sdelete (listeners s) l') by (unfold unsubscribe; by case_match).
      rewrite E, elem_of_sdelete. destruct (decide (l' = l)) as [->|Hne].
      * split; [by intros []|]. intros (b & a & Eq & Ha). exfalso. destruct a as [|x a] using rev_ind.
        -- by apply app_inj_tail in Eq as [_ Eq].
        -- rewrite app_comm_cons, app_assoc in Eq. apply app_inj_tail in Eq as [_ <-]. set_solver.
      * rewrite Hsnoc by congruence. rewrite <- IH. naive_solver.
Qed.

(** The protocol in the address is honest: a link built for a protocol opens that protocol, and once
    the page has written a protocol - or the one a bad link degraded to - the address no longer claims
    anything the page does not show. *)
Theorem protocol_param_honest p u :
  Forall wf_pair (params u) ->
  readProtocolFromLocation (drop (length (js "/matrix")) (matrixHref p)) = p /\
  let search := search_text (params (writeProtocol p u)) in
  readProtocolFromLocation search = p /\ degradedProtocolParam search = None.
Proof.
  intros Hu. split; [destruct p; vm_compute; reflexivity|].
  assert (Hw : Forall wf_pair (params (writeProtocol p u))).
  { apply qs_set_wf; [done|]. apply param_key_wf; [reflexivity|]. destruct p; apply ascii_wf; reflexivity. }
  assert (Hp : qs_parse (search_text (params (writeProtocol p u))) = params (writeProtocol p u)).
  { unfold search_text. destruct (params (writeProtocol p u)) eqn:E; [done|]. rewrite <- E in *. by apply qs_parse_print. }
  assert (Hg : qs_get (params (writeProtocol p u)) PROTOCOL_PARAM = Some (protocol_string p)) by apply qs_get_set_eq.
  assert (Hn : protocol_named (protocol_string p) = Some p) by (destruct p; vm_compute; reflexivity).
  assert (Hr : readProtocolFromLocation (search_text (params (writeProtocol p u))) = p).
  { unfold readProtocolFromLocation. by rewrite Hp, Hg, Hn. }
  cbv zeta. split; [done|]. unfold degradedProtocolParam. rewrite Hr, Hp, Hg.
  by rewrite (proj2 (seqb_eq _ _) eq_refl).
Qed.

Lemma protocol_param_honest_witness :
  degradedProtocolParam (search_text (params (writeProtocol udp
    {| pathname := js "/matrix"; params := [(PROTOCOL_PARAM, js "sctp")]; hash := [] |}))) = None.
Proof.
  apply (protocol_param_honest udp {| pathname := js "/matrix"; params := [(PROTOCOL_PARAM, js "sctp")]; hash := [] |}).
  apply Forall_singleton. apply param_key_wf; [reflexivity|apply ascii_wf; reflexivity].
Defined.
