(* ===== verification/PagedLoader.v ===== *)
(** A pane that lists what a query names, page by page, while its requests race: the protocol that
    [web/src/pages/mtr.tsx] ([useSnapshotHistory]) and [web/src/pages/diagnostics.tsx] ([loadRuns]) share.

    Every request takes a ticket, and an answer or a failure counts only while its request holds the newest one.  What
    a pane adds of its own, how it appends an older page and whether a new query empties it at once, is the class
    [Pane]. *)
From S2P Require Import Prelude JsNum JsString.
Local Open Scope Z_scope.

(** A request in flight: its ticket, what it asks for, and the cursor it continues from. *)
Record request Q := { r_ticket : nat; r_query : Q; r_cursor : option jstr }.
Arguments r_ticket {Q} _. Arguments r_query {Q} _. Arguments r_cursor {Q} _.

Record loader Q R := {
  query : option Q; ticket : nat; rows : list R; nextCursor : jstr; loading : bool; failed : bool;
  inflight : list (request Q);
}.
Arguments query {Q R} _. Arguments ticket {Q R} _. Arguments rows {Q R} _. Arguments nextCursor {Q R} _.
Arguments loading {Q R} _. Arguments failed {Q R} _. Arguments inflight {Q R} _.

Definition unselected {Q R} : loader Q R :=
  {| query := None; ticket := 0; rows := []; nextCursor := []; loading := false; failed := false; inflight := [] |}.

(** What a pane supplies and what it promises of it. *)
Class Pane (Q R : Type) := {
  merge : list R -> list R -> list R;
  clears : bool;
  belongs : Q -> R -> Prop;
  good : list R -> Prop;
  merge_elem prev next r : r ∈ merge prev next -> r ∈ prev \/ r ∈ next;
  good_nil : good [];
  good_merge prev next : good prev -> good next -> good (merge prev next);
}.

Section Loader.
Context {Q R : Type} `{Pane Q R}.
Implicit Types (h : loader Q R) (r : request Q).

(** Takes the next ticket and sends the request. *)
Definition load (q : Q) (cursor : option jstr) h : loader Q R :=
  {| query := query h; ticket := S (ticket h); rows := rows h; nextCursor := nextCursor h;
     loading := true; failed := false;
     inflight := {| r_ticket := S (ticket h); r_query := q; r_cursor := cursor |} :: inflight h |}.

(** The effect of a new query, or of none. *)
Definition select (o : option Q) h : loader Q R :=
  match o with
  | None => {| query := None; ticket := S (ticket h); rows := []; nextCursor := []; loading := false;
               failed := false; inflight := inflight h |}
  | Some q =>
      load q None {| query := Some q; ticket := ticket h; rows := if clears then [] else rows h; nextCursor := nextCursor h;
                     loading := loading h; failed := failed h; inflight := inflight h |}
  end.

(** The page after the ones shown. *)
Definition loadOlder h : loader Q R :=
  match query h with
  | Some q => if negb (seqb (nextCursor h) []) && negb (loading h) then load q (Some (nextCursor h)) h else h
  | None => h
  end.

(** The page that failed, again; a first page has no cursor. *)
Definition retry h : loader Q R :=
  match query h with
  | Some q =>
      if failed h && negb (loading h)
      then load q (if seqb (nextCursor h) [] then None else Some (nextCursor h)) h else h
  | None => h
  end.

Definition settle r h : list (request Q) := List.filter (fun q => negb (r_ticket q =? r_ticket r)%nat) (inflight h).

(** [cursor ? ... : ...]: an empty cursor is none. *)
Definition has_cursor (c : option jstr) : bool := match c with Some s => negb (seqb s []) | None => false end.

(** The request [r] was answered with [page] and [cursor]. *)
Definition answered r (page : list R) (cursor : jstr) h : loader Q R :=
  if negb (r_ticket r =? ticket h)%nat
  then {| query := query h; ticket := ticket h; rows := rows h; nextCursor := nextCursor h;
          loading := loading h; failed := failed h; inflight := settle r h |}
  else {| query := query h; ticket := ticket h;
          rows := if has_cursor (r_cursor r) then merge (rows h) page else page;
          nextCursor := cursor; loading := false; failed := false; inflight := settle r h |}.

(** The request [r] failed. *)
Definition refused r h : loader Q R :=
  if negb (r_ticket r =? ticket h)%nat
  then {| query := query h; ticket := ticket h; rows := rows h; nextCursor := nextCursor h;
          loading := loading h; failed := failed h; inflight := settle r h |}
  else {| query := query h; ticket := ticket h;
          rows := if has_cursor (r_cursor r) then rows h else [];
          nextCursor := default [] (r_cursor r); loading := false; failed := true; inflight := settle r h |}.

(** The network settles the requests in flight in any order, each with rows of what it asked for. *)
Inductive network_step : loader Q R -> loader Q R -> Prop :=
  | step_answer r page cursor h :
      r ∈ inflight h -> Forall (belongs (r_query r)) page -> good page -> network_step h (answered r page cursor h)
  | step_refuse r h : r ∈ inflight h -> network_step h (refused r h).

(** What the pane goes through: the reader acts, or the network does. *)
Inductive loader_step : loader Q R -> loader Q R -> Prop :=
  | step_select o h : loader_step h (select o h)
  | step_older h : loader_step h (loadOlder h)
  | step_retry h : loader_step h (retry h)
  | step_network h h' : network_step h h' -> loader_step h h'.

Definition reachable : loader Q R -> Prop := rtc loader_step unselected.

(** The request that owns the pane. *)
Definition owner h r : Prop := r ∈ inflight h /\ r_ticket r = ticket h.

(** The rows shown are the query's, unless the first page of a query that did not empty the pane is under way. *)
Definition rows_match h : Prop :=
  (forall r, owner h r -> has_cursor (r_cursor r) = true \/ clears = true) ->
  Forall (fun s => exists q, query h = Some q /\ belongs q s) (rows h).

Record loader_ok h : Prop := {
  ok_issued : Forall (fun r => (r_ticket r <= ticket h)%nat) (inflight h);
  ok_distinct : NoDup (r_ticket <$> inflight h);
  ok_mine : forall r, owner h r -> query h = Some (r_query r);
  ok_rows : rows_match h;
  ok_good : good (rows h);
  ok_loading : loading h = true <-> ticket h ∈ r_ticket <$> inflight h;
}.

(** Settling a request removes it and no other. *)
Lemma elem_of_settle r q h : q ∈ settle r h <-> q ∈ inflight h /\ r_ticket q <> r_ticket r.
Proof. unfold settle. by rewrite elem_of_filter_b, negb_true_iff, Nat.eqb_neq. Qed.

Lemma settle_perm r h : NoDup (r_ticket <$> inflight h) -> r ∈ inflight h -> inflight h ≡ₚ r :: settle r h.
Proof.
  unfold settle. intros Hn Hr. revert Hr Hn.
  induction (inflight h) as [|q l IH]; [by intros ?%not_elem_of_nil|].
  rewrite fmap_cons, NoDup_cons. intros [->|Hr]%elem_of_cons [Hq Hn]; simpl.
  - rewrite Nat.eqb_refl. simpl. constructor. rewrite filter_all_b; [done|].
    intros y Hy. apply negb_true_iff, Nat.eqb_neq. intros E. apply Hq. rewrite <- E. by apply list_elem_of_fmap_2.
  - destruct (Nat.eqb_spec (r_ticket q) (r_ticket r)) as [E|E]; simpl.
    + exfalso. apply Hq. rewrite E. by apply list_elem_of_fmap_2.
    + rewrite (Permutation_swap q r). constructor. by apply IH.
Qed.

(** Settling [r] keeps the invariant when the owner takes [loading] with it and leaves rows that match. *)
Lemma settle_ok r h page cursor (f l : bool) :
  loader_ok h -> r ∈ inflight h -> good page ->
  (r_ticket r = ticket h -> Forall (fun s => exists q, query h = Some q /\ belongs q s) page) ->
  (r_ticket r <> ticket h -> page = rows h) ->
  l = (if (r_ticket r =? ticket h)%nat then false else loading h) ->
  loader_ok {| query := query h; ticket := ticket h; rows := page; nextCursor := cursor;
               loading := l; failed := f; inflight := settle r h |}.
Proof.
  intros Hok Hr Hg Hpage Hkeep ->. pose proof (settle_perm r h (ok_distinct _ Hok) Hr) as Hp.
  destruct Hok as [Hle Hnd Hm Hrows _ Hl]. rewrite Hp in Hle, Hnd. rewrite fmap_cons, NoDup_cons in Hnd.
  apply Forall_cons in Hle as [_ Hle]. constructor; simpl; [done|apply Hnd| | |done|].
  - intros q [[Hq _]%elem_of_settle Et]. by apply Hm.
  - destruct (decide (r_ticket r = ticket h)) as [E|E]; intros Hown; [by apply Hpage|].
    rewrite (Hkeep E). apply Hrows. intros q [Hq Et]. apply Hown. split; [|done].
    apply elem_of_settle. split; [done|]. simpl in Et. congruence.
  - destruct (Nat.eqb_spec (r_ticket r) (ticket h)) as [E|E].
    + split; [done|]. intros Hin. rewrite <- E in Hin. tauto.
    + rewrite Hl, Hp, fmap_cons, elem_of_cons. naive_solver.
Qed.

(** No request in flight holds a ticket that is still to be issued. *)
Lemma unissued h : Forall (fun r => (r_ticket r <= ticket h)%nat) (inflight h) -> S (ticket h) ∉ r_ticket <$> inflight h.
Proof. intros Hle (q & Hq & Hin)%list_elem_of_fmap. pose proof (proj1 (Forall_forall _ _) Hle q Hin). simpl in *. lia. Qed.

Lemma issued_S h :
  Forall (fun r => (r_ticket r <= ticket h)%nat) (inflight h) -> Forall (fun r => (r_ticket r <= S (ticket h))%nat) (inflight h).
Proof. intros Hle. eapply Forall_impl; [exact Hle|]. simpl. lia. Qed.

(** Whoever owned the pane before, the request [load] sends owns it afterwards. *)
Lemma load_ok q c h :
  Forall (fun r => (r_ticket r <= ticket h)%nat) (inflight h) -> NoDup (r_ticket <$> inflight h) ->
  query h = Some q -> good (rows h) ->
  (has_cursor c = true \/ clears = true -> Forall (belongs q) (rows h)) -> loader_ok (load q c h).
Proof.
  intros Hle Hnd Hs Hg Hrows. pose proof (unissued h Hle) as Hun. unfold load. constructor; simpl; [| | | |done|].
  - constructor; [done|]. by apply issued_S.
  - by constructor.
  - intros r [[->|Hr]%elem_of_cons E]; [done|]. destruct Hun. simpl in E. rewrite <- E. by apply list_elem_of_fmap_2.
  - intros Hown. simpl. specialize (Hown {| r_ticket := S (ticket h); r_query := q; r_cursor := c |}).
    specialize (Hrows (Hown ltac:(by split; [left|]))). eapply Forall_impl; [exact Hrows|]. simpl. eauto.
  - split; [by left|done].
Qed.

Lemma select_ok o h : loader_ok h -> loader_ok (select o h).
Proof.
  intros [Hle Hnd _ _ Hg _]. pose proof (unissued h Hle) as Hun. destruct o as [q|]; unfold select.
  - apply load_ok; [done|done|done| |]; simpl; destruct clears; [apply good_nil|done|constructor|by intros []].
  - constructor; simpl; [by apply issued_S|done| |constructor|apply good_nil|done].
    intros r [Hr E]. destruct Hun. simpl in E. rewrite <- E. by apply list_elem_of_fmap_2.
Qed.

(** While nothing loads, nobody owns the pane and its rows match. *)
Lemma idle_rows h q : loader_ok h -> loading h = false -> query h = Some q -> Forall (belongs q) (rows h).
Proof.
  intros Hok Hl Hq. assert (Hm : Forall (fun s => exists q, query h = Some q /\ belongs q s) (rows h)).
  { apply (ok_rows _ Hok). intros r [Hr E]. exfalso. apply not_true_iff_false in Hl. apply Hl, (ok_loading _ Hok).
    rewrite <- E. by apply list_elem_of_fmap_2. }
  eapply Forall_impl; [exact Hm|]. intros s (q' & E & Hb). congruence.
Qed.

Lemma reload_ok c h : loader_ok h -> loading h = false ->
  loader_ok (match query h with Some q => load q c h | None => h end).
Proof.
  intros Hok Hl. destruct (query h) as [q|] eqn:E; [|done]. pose proof (idle_rows h q Hok Hl E).
  destruct Hok as [Hle Hnd _ _ Hg _]. by apply load_ok.
Qed.

Lemma loadOlder_ok h : loader_ok h -> loader_ok (loadOlder h).
Proof.
  intros Hok. unfold loadOlder. pose proof (reload_ok (Some (nextCursor h)) h Hok) as Hr. destruct (query h); [|done].
  destruct (loading h); [by rewrite andb_false_r|]. destruct (negb _ && _); [by apply Hr|done].
Qed.

Lemma retry_ok h : loader_ok h -> loader_ok (retry h).
Proof.
  intros Hok. unfold retry. pose proof (reload_ok (if seqb (nextCursor h) [] then None else Some (nextCursor h)) h Hok) as Hr.
  destruct (query h); [|done]. destruct (loading h); [by rewrite andb_false_r|]. destruct (_ && _); [by apply Hr|done].
Qed.

(** The rows the owner leaves when it continues from a cursor. *)
Lemma owner_cursor_rows r h :
  loader_ok h -> owner h r -> has_cursor (r_cursor r) = true ->
  Forall (fun s => exists q, query h = Some q /\ belongs q s) (rows h).
Proof.
  intros Hok [Hr E] Hc. apply (ok_rows _ Hok). intros r' [Hr' E']. left.
  rewrite (NoDup_fmap_eq r_ticket (inflight h) r' r (ok_distinct _ Hok) Hr' Hr) by congruence. done.
Qed.

Lemma network_step_ok h h' : network_step h h' -> loader_ok h -> loader_ok h'.
Proof.
  intros Hs Hok. destruct Hs as [r page cursor h Hr Hrows Hgood|r h Hr]; unfold answered, refused;
    destruct (Nat.eqb_spec (r_ticket r) (ticket h)) as [E|E]; simpl;
    (apply settle_ok; [done|done| | |done|by destruct (Nat.eqb_spec (r_ticket r) (ticket h))]); try done; try apply Hok.
  - destruct (has_cursor _); [|done]. apply good_merge; [apply Hok|done].
  - intros _. pose proof (ok_mine _ Hok r (conj Hr E)) as Hq.
    assert (Hpage : Forall (fun s => exists q, query h = Some q /\ belongs q s) page)
      by (eapply Forall_impl; [exact Hrows|]; simpl; eauto).
    destruct (has_cursor _) eqn:Hc; [|done]. pose proof (owner_cursor_rows r h Hok (conj Hr E) Hc) as Hold.
    apply Forall_forall. intros s [Hin|Hin]%merge_elem.
    + by apply (proj1 (Forall_forall _ _) Hold).
    + by apply (proj1 (Forall_forall _ _) Hpage).
  - destruct (has_cursor _); [apply Hok|apply good_nil].
  - intros _. destruct (has_cursor _) eqn:Hc; [by apply (owner_cursor_rows r h Hok (conj Hr E))|constructor].
Qed.

Lemma loader_step_ok h h' : loader_step h h' -> loader_ok h -> loader_ok h'.
Proof.
  intros [o h0|h0|h0|h0 h1 Hn] Hok;
    [by apply select_ok|by apply loadOlder_ok|by apply retry_ok|by eapply network_step_ok].
Qed.

Lemma unselected_ok : loader_ok unselected.
Proof.
  constructor; simpl; [constructor|constructor|by intros r [?%not_elem_of_nil _]|intros _; constructor|apply good_nil|].
  split; [done|]. by intros ?%not_elem_of_nil.
Qed.

Lemma reachable_ok h : reachable h -> loader_ok h.
Proof.
  intros Hr. unfold reachable in Hr. pose proof unselected_ok as Hok. induction Hr; [done|]. eauto using loader_step_ok.
Qed.

(** A pane that is not loading, or that empties itself for a new query, shows rows of its query only. *)
Lemma shows_query h s :
  reachable h -> loading h = false \/ clears = true -> s ∈ rows h -> exists q, query h = Some q /\ belongs q s.
Proof.
  intros Hok%reachable_ok Hc Hs.
  assert (Hm : Forall (fun s => exists q, query h = Some q /\ belongs q s) (rows h)).
  { apply (ok_rows _ Hok). intros r [Hr E]. destruct Hc as [Hl|Hc]; [|by right]. exfalso.
    apply not_true_iff_false in Hl. apply Hl, (ok_loading _ Hok). rewrite <- E. by apply list_elem_of_fmap_2. }
  by apply (proj1 (Forall_forall _ _) Hm).
Qed.

Lemma network_step_settles h h' :
  loader_ok h -> network_step h h' ->
  length (inflight h) = S (length (inflight h')) /\ query h' = query h /\ ticket h' = ticket h.
Proof.
  intros Hok Hs. assert (Hlen : forall r, r ∈ inflight h -> length (inflight h) = S (length (settle r h))).
  { intros r Hr. by rewrite (settle_perm r h (ok_distinct _ Hok) Hr) at 1. }
  destruct Hs as [r page cursor h Hr _ _|r h Hr]; unfold answered, refused;
    destruct (negb _); simpl; split_and!; auto.
Qed.

Lemma network_can_step h : inflight h <> [] -> exists h', network_step h h'.
Proof. destruct (inflight h) as [|r l] eqn:E; [done|]. intros _. exists (refused r h). constructor. rewrite E. left. Qed.

(** C16: a pane never waits for ever: it says it is loading exactly while the request that owns it is in flight, and from
    any state the network settles, in whatever order, exactly the requests in flight, after which the same query stands
    and nothing is loading. *)
Theorem loading_ends h n h' :
  reachable h -> nsteps network_step n h h' ->
  (loading h = true <-> exists r, r ∈ inflight h /\ r_ticket r = ticket h /\ query h = Some (r_query r)) /\
  query h' = query h /\ (n + length (inflight h') = length (inflight h))%nat /\
  ((forall h'', ~ network_step h' h'') -> n = length (inflight h) /\ loading h' = false).
Proof.
  intros Hr%reachable_ok Hn.
  assert (Hrun : loader_ok h' /\ query h' = query h /\ (n + length (inflight h') = length (inflight h))%nat).
  { induction Hn as [h|n h h1 h' Hs Hn IH]; [done|]. destruct (network_step_settles _ _ Hr Hs) as (Hlen & Hq & _).
    destruct (IH (network_step_ok _ _ Hs Hr)) as (Hok & -> & Hl). split_and!; [done|done|lia]. }
  destruct Hrun as (Hok & Hq & Hlen). split_and!; [|done|done|].
  - rewrite (ok_loading _ Hr). split.
    + intros (r & E & Hin)%list_elem_of_fmap. exists r. split_and!; [done|done|]. by apply (ok_mine _ Hr).
    + intros (r & Hin & E & _). rewrite <- E. by apply list_elem_of_fmap_2.
  - intros Hstuck. destruct (inflight h') as [|r l] eqn:E.
    + simpl in Hlen. split; [lia|]. destruct (loading h') eqn:El; [|done].
      apply (ok_loading _ Hok) in El. rewrite E in El. by apply not_elem_of_nil in El.
    + destruct (network_can_step h') as [h'' Hs]; [by rewrite E|]. by destruct (Hstuck h'').
Qed.

(** A page of older rows that failed can be asked for again: the cursor is kept and the next request repeats it,
    with the rows already shown still there. *)
Theorem failed_page_retries r h c q :
  r_ticket r = ticket h -> query h = Some q -> r_cursor r = Some c -> c <> [] ->
  rows (loadOlder (refused r h)) = rows h /\ failed (refused r h) = true /\ loadOlder (refused r h) = retry (refused r h) /\
  head (inflight (loadOlder (refused r h))) = Some {| r_ticket := S (ticket h); r_query := q; r_cursor := Some c |}.
Proof.
  intros Ht Hs Hc Hne. unfold refused. rewrite Ht, Nat.eqb_refl, Hc. simpl.
  assert (Hb : seqb c [] = false) by (by apply seqb_neq). unfold loadOlder, retry. simpl. rewrite Hs, Hb. done.
Qed.
End Loader.

(** A list of pages: two queries one after the other, the first answered last. *)
Module LoaderWitness.
#[local] Instance words : Pane nat nat.
Proof.
  refine {| merge prev next := prev ++ next; clears := true; belongs q r := q = r; good _ := True |}; [|done|done].
  intros prev next r. by rewrite elem_of_app.
Defined.

Definition asked : loader nat nat := select (Some 2%nat) (select (Some 1%nat) unselected).
Definition first_req : request nat := {| r_ticket := 1; r_query := 1%nat; r_cursor := None |}.
Definition second_req : request nat := {| r_ticket := 2; r_query := 2%nat; r_cursor := None |}.
Definition settled_ : loader nat nat := answered first_req [1%nat] [] (answered second_req [2%nat; 2%nat] [] asked).

Lemma asked_reachable : reachable asked.
Proof.
  eapply rtc_l; [apply (step_select (Some 1%nat))|]. eapply rtc_l; [apply (step_select (Some 2%nat))|]. apply rtc_refl.
Defined.

Lemma settled_run : nsteps network_step 2 asked settled_.
Proof.
  eapply nsteps_l; [apply (step_answer second_req [2%nat; 2%nat] [])|
    eapply nsteps_l; [apply (step_answer first_req [1%nat] [])|apply nsteps_O]].
  - left.
  - repeat constructor.
  - exact I.
  - left.
  - repeat constructor.
  - exact I.
Defined.

Lemma loading_ends_witness : rows settled_ = [2%nat; 2%nat] /\ loading settled_ = false /\ query settled_ = query asked.
Proof.
  split; [reflexivity|]. destruct (loading_ends asked 2 settled_ asked_reachable settled_run) as (_ & E & _ & Hstop).
  split; [|exact E]. apply Hstop. intros h'' Hs. inversion Hs as [r ? ? ? Hin|r ? Hin]; subst; vm_compute in Hin; by apply not_elem_of_nil in Hin.
Defined.
End LoaderWitness.
