(* ===== verification/MtrExplorer.v ===== *)
(** The MTR Explorer ([web/src/pages/mtr.tsx], [web/src/lib/natural-name.ts]): the destination list, its
    deep links, the comparison pick, and the route history of the selected pair as a state machine in which
    requests race. *)
From S2P Require Import Prelude JsNum JsString JsCollections JsValue JsDate JsFormat JsUrl Pagination PathDiff PagedLoader.
Local Open Scope Z_scope.

(** ** Destinations *)

Record Pair := { source : jstr; destination : jstr }.
#[export] Instance Pair_eq_dec : EqDecision Pair.
Proof. solve_decision. Defined.

Record MTRDestination := {
  d_sourceNode : jstr; d_destination : jstr; d_snapshotCount : number; d_traceCount : number; d_lastSeen : jstr;
}.

Record DestinationGroup := {
  g_destination : jstr; g_sources : list MTRDestination; g_snapshotCount : number; g_traceCount : number;
  g_lastSeen : jstr;
}.

(** [new Intl.Collator(undefined, { numeric: true, sensitivity: "base" }).compare], the host's: a consistent
    comparator, which may call different names equal. *)
Class CollatorHost := {
  byNaturalName : jstr -> jstr -> Z;
  byNaturalName_sgn a b : Z.sgn (byNaturalName b a) = - Z.sgn (byNaturalName a b);
  byNaturalName_trans a b c : byNaturalName a b <= 0 -> byNaturalName b c <= 0 -> byNaturalName a c <= 0;
}.

Section Destinations.
Context `{DateHost} `{CollatorHost}.

Definition compareNaturalName (a b : jstr) : number :=
  let byName := int (byNaturalName a b) in
  if negb (byName =? int 0)%num then byName
  else if sltb a b then int (-1) else if sltb b a then int 1 else int 0.

Definition msOf (ts : jstr) : number := let ms := parse_ms ts in if isNaN ms then Inf true else ms.

(** One turn of the grouping loop: the group a row opens, or the group with the row added. *)
Definition add_row (o : option DestinationGroup) (row : MTRDestination) : DestinationGroup :=
  match o with
  | None => {| g_destination := d_destination row; g_sources := [row]; g_snapshotCount := d_snapshotCount row;
               g_traceCount := d_traceCount row; g_lastSeen := d_lastSeen row |}
  | Some g => {| g_destination := g_destination g; g_sources := g_sources g ++ [row];
                 g_snapshotCount := (g_snapshotCount g + d_snapshotCount row)%num;
                 g_traceCount := (g_traceCount g + d_traceCount row)%num;
                 g_lastSeen := if (msOf (d_lastSeen row) >? msOf (g_lastSeen g))%num then d_lastSeen row else g_lastSeen g |}
  end.

Definition sort_sources (g : DestinationGroup) : DestinationGroup :=
  {| g_destination := g_destination g;
     g_sources := js_sort (fun a b => compareNaturalName (d_sourceNode a) (d_sourceNode b)) (g_sources g);
     g_snapshotCount := g_snapshotCount g; g_traceCount := g_traceCount g; g_lastSeen := g_lastSeen g |}.

Definition groupDestinations (rows : list MTRDestination) : list DestinationGroup :=
  let byDestination := fold_left (file_step d_destination add_row) rows [] in
  js_sort (fun a b => compareNaturalName (g_destination a) (g_destination b)) (sort_sources <$> mvalues byDestination).
End Destinations.

Definition DESTINATION_PARAM : jstr := js "destination".
Definition SOURCE_PARAM : jstr := js "source".

(** [raw ? raw : null]. *)
Definition named_param (search key : jstr) : option jstr :=
  match qs_get (qs_parse search) key with
  | Some raw => if seqb raw [] then None else Some raw
  | None => None
  end.

Definition deepLinkDestination (search : jstr) : option jstr := named_param search DESTINATION_PARAM.
Definition deepLinkSource (search : jstr) : option jstr := named_param search SOURCE_PARAM.

Definition writePairParams (pair : Pair) (u : Url) : Url :=
  {| pathname := pathname u;
     params := qs_set (qs_set (params u) SOURCE_PARAM (source pair)) DESTINATION_PARAM (destination pair);
     hash := hash u |}.

Definition destinationPage (groups : list DestinationGroup) (destination : option jstr) (size : number) : option number :=
  match destination with
  | None => None
  | Some d =>
      if seqb d [] then None
      else index ← findIndex (fun g => seqb (g_destination g) d) groups; Some (pageOfIndex (int (Z.of_nat index)) size)
  end.

(** [Object.hasOwn(open, destination) ? open[destination] : derived]. *)
Definition cardOpen (open : list (jstr * bool)) (destination : jstr) (derived : bool) : bool :=
  default derived (mget open destination).

(** A host that reads names by their length only: it calls many different names equal. *)
Definition length_collator : CollatorHost.
Proof.
  refine {| byNaturalName a b := Z.of_nat (length a) - Z.of_nat (length b) |}; intros; lia.
Defined.

Section DestinationList.
Context `{DateHost} `{CollatorHost}.

(** The order of names: the collator's, and code units where it is indifferent. *)
Definition natural_leb (a b : jstr) : bool :=
  (byNaturalName a b <? 0) || ((byNaturalName a b =? 0) && negb (sltb b a)).

Lemma cmp_natural a b : cmp_leb compareNaturalName a b = natural_leb a b.
Proof.
  unfold cmp_leb, compareNaturalName, natural_leb. rewrite neqb_int.
  destruct (Z.eqb_spec (byNaturalName a b) 0) as [E|E]; cbn [negb].
  - rewrite E, Z.ltb_irrefl. cbn [orb andb]. destruct (sltb a b) eqn:F; [by rewrite nltb_int, (sltb_asym _ _ F)|].
    destruct (sltb b a); by rewrite nltb_int.
  - rewrite nltb_int. destruct (Z.ltb_spec 0 (byNaturalName a b)), (Z.ltb_spec (byNaturalName a b) 0); done || lia.
Qed.

Lemma natural_leb_spec a b :
  natural_leb a b = true <-> byNaturalName a b < 0 \/ byNaturalName a b = 0 /\ sltb b a = false.
Proof. unfold natural_leb. by rewrite orb_true_iff, andb_true_iff, Z.ltb_lt, Z.eqb_eq, negb_true_iff. Qed.

Lemma natural_leb_total a b : natural_leb a b = true \/ natural_leb b a = true.
Proof.
  rewrite !natural_leb_spec. pose proof (byNaturalName_sgn a b).
  assert (sltb a b = false \/ sltb b a = false) as [E|E].
  { destruct (sltb a b) eqn:E; [right; by apply sltb_asym|by left]. }
  all: rewrite E; lia.
Qed.

Lemma natural_leb_antisym a b : natural_leb a b = true -> natural_leb b a = true -> a = b.
Proof.
  rewrite !natural_leb_spec. pose proof (byNaturalName_sgn a b). intros [?|[? E]] [?|[? F]]; try lia.
  by apply sltb_total.
Qed.

Lemma natural_leb_trans a b c : natural_leb a b = true -> natural_leb b c = true -> natural_leb a c = true.
Proof.
  rewrite !natural_leb_spec. intros Hab Hbc.
  pose proof (byNaturalName_sgn a c). pose proof (byNaturalName_sgn b c). pose proof (byNaturalName_sgn a b).
  pose proof (byNaturalName_trans a b c). pose proof (byNaturalName_trans b c a).
  pose proof (byNaturalName_trans c a b). pose proof (byNaturalName_trans c b a). destruct Hab as [?|[? E]], Hbc as [?|[? F]]; try lia.
  right. split; [lia|]. destruct (sltb c a) eqn:G; [|done]. destruct (sltb a b) eqn:K.
  - rewrite <- F. symmetry. by eapply sltb_trans.
  - rewrite (sltb_total _ _ K E) in G. congruence.
Qed.

(** A list sorted by a name of its elements is ordered by that name. *)
Lemma sort_natural {A} (f : A -> jstr) l :
  StronglySorted (fun a b => natural_leb (f a) (f b) = true) (js_sort (fun a b => compareNaturalName (f a) (f b)) l).
Proof.
  unfold js_sort. rewrite (sort_leb_ext _ (fun a b => natural_leb (f a) (f b))) by (intros; apply cmp_natural).
  apply (sort_leb_sorted _ (fun _ => True)); [|eauto using natural_leb_trans|by apply Forall_forall].
  intros. apply natural_leb_total.
Qed.

(** The instant a row was last seen at, unreadable ones before all others. *)
Lemma msOf_gt a b :
  (msOf a >? msOf b)%num =
    match Date_parse a, Date_parse b with Some x, Some y => y <? x | Some _, None => true | None, _ => false end.
Proof. unfold msOf, parse_ms, getTime. destruct (Date_parse a), (Date_parse b); simpl isNaN; cbv iota; [apply nltb_int|done..]. Qed.

Lemma msOf_gt_trans a b c : (msOf a >? msOf b)%num = false -> (msOf b >? msOf c)%num = false -> (msOf a >? msOf c)%num = false.
Proof. rewrite !msOf_gt. destruct (Date_parse a), (Date_parse b), (Date_parse c); done || lia. Qed.

Lemma msOf_gt_asym a b : (msOf a >? msOf b)%num = true -> (msOf b >? msOf a)%num = false.
Proof. rewrite !msOf_gt. destruct (Date_parse a), (Date_parse b); done || lia. Qed.

Definition rows_to (d : jstr) (rows : list MTRDestination) : list MTRDestination :=
  List.filter (fun r => bool_decide (d_destination r = d)) rows.

(** What a group says of the rows [l] it holds. *)
Record group_of (snaps traces : MTRDestination -> Z) (d : jstr) (l : list MTRDestination) (g : DestinationGroup) : Prop := {
  gr_destination : g_destination g = d;
  gr_sources : g_sources g ≡ₚ l;
  gr_snapshots : g_snapshotCount g = int (sumZ (snaps <$> l));
  gr_traces : g_traceCount g = int (sumZ (traces <$> l));
  gr_last : g_lastSeen g ∈ d_lastSeen <$> l;
  gr_newest : Forall (fun r => (msOf (d_lastSeen r) >? msOf (g_lastSeen g))%num = false) l;
}.

Section Counted.
Context (snaps traces : MTRDestination -> Z).

Definition counted (r : MTRDestination) : Prop :=
  d_snapshotCount r = int (snaps r) /\ d_traceCount r = int (traces r) /\ 0 <= snaps r /\ 0 <= traces r.

Lemma add_row_group d l o r :
  Forall counted (l ++ [r]) -> d_destination r = d ->
  safe (sumZ (snaps <$> (l ++ [r]))) -> safe (sumZ (traces <$> (l ++ [r]))) ->
  match o with None => l = [] | Some g => group_of snaps traces d l g end ->
  group_of snaps traces d (l ++ [r]) (add_row o r).
Proof.
  intros Hc Hd Hs Ht Ho. apply Forall_app in Hc as [_ [(Es & Et & _) _]%Forall_cons].
  revert Hs Ht. rewrite !fmap_app, !sumZ_app. simpl. rewrite !Z.add_0_r. intros Hs Ht.
  destruct o as [g|]; [|subst l; constructor; simpl; rewrite ?Z.add_0_r; auto using Forall_cons_2].
  - destruct Ho as [Ed Ep E1 E2 Hl Hn]. constructor; simpl.
    + done.
    + by rewrite Ep.
    + rewrite E1, Es, fmap_app, sumZ_app. simpl. rewrite Z.add_0_r. by apply nadd_int.
    + rewrite E2, Et, fmap_app, sumZ_app. simpl. rewrite Z.add_0_r. by apply nadd_int.
    + rewrite fmap_app. destruct (_ >? _)%num; set_solver.
    + apply Forall_app. destruct (msOf (d_lastSeen r) >? msOf (g_lastSeen g))%num eqn:E.
      * split; [|by repeat constructor; rewrite msOf_gt; destruct (Date_parse _); [apply Z.ltb_irrefl|]].
        eapply Forall_impl; [exact Hn|]. simpl. intros x Hx. eapply msOf_gt_trans; [exact Hx|]. by apply msOf_gt_asym.
      * split; [done|]. by repeat constructor.
  - set_solver.
  - repeat constructor. simpl. rewrite msOf_gt. destruct (Date_parse _); [apply Z.ltb_irrefl|done].
Qed.

Lemma entry_group d l :
  Forall counted l -> safe (sumZ (snaps <$> l)) -> safe (sumZ (traces <$> l)) ->
  Forall (fun r => d_destination r = d) l ->
  match fold_left (fun o x => Some (add_row o x)) l None with None => l = [] | Some g => group_of snaps traces d l g end.
Proof.
  induction l as [|r l IH] using rev_ind; intros Hc Hs Ht Hd; [done|].
  rewrite fold_left_app. simpl. pose proof Hc as [Hcl Hcr]%Forall_app. apply Forall_app in Hd as [Hdl [Hdr _]%Forall_cons].
  apply add_row_group; [done|done|done|done|].
  apply Forall_cons in Hcr as [(_ & _ & ? & ?) _].
  assert (0 <= sumZ (snaps <$> l) /\ 0 <= sumZ (traces <$> l)) as [? ?].
  { split; apply sumZ_nonneg, Forall_fmap; eapply Forall_impl; [exact Hcl| |exact Hcl|]; unfold counted; simpl; tauto. }
  rewrite fmap_app, sumZ_app in Hs, Ht. unfold safe in *. simpl in *. apply IH; [done|lia|lia|done].
Qed.
End Counted.

(** A list of groups, one for each of its keys. *)
Lemma omap_entries (rows : list MTRDestination) (ds : list jstr) (snaps traces : MTRDestination -> Z) :
  Forall (counted snaps traces) rows -> safe (sumZ (snaps <$> rows)) -> safe (sumZ (traces <$> rows)) ->
  (forall d, d ∈ ds -> d ∈ d_destination <$> rows) ->
  let gs := omap (entry_of d_destination add_row rows) ds in
  g_destination <$> gs = ds /\ Forall (fun g => group_of snaps traces (g_destination g) (rows_to (g_destination g) rows) g) gs.
Proof.
  intros Hc Hs Ht. cbv zeta. induction ds as [|d ds IH]; intros Hin; [by split|].
  destruct IH as [IHd IHg]; [intros; apply Hin; by right|].
  assert (Hnn : Forall (fun r => 0 <= snaps r) rows /\ Forall (fun r => 0 <= traces r) rows)
    by (split; eapply Forall_impl; [exact Hc| |exact Hc|]; unfold counted; simpl; tauto).
  pose proof (sumZ_filter_le snaps (fun r => bool_decide (d_destination r = d)) rows (proj1 Hnn)).
  pose proof (sumZ_filter_le traces (fun r => bool_decide (d_destination r = d)) rows (proj2 Hnn)).
  set (f := entry_of d_destination add_row rows) in *.
  assert (Hg : match f d with None => rows_to d rows = [] | Some g => group_of snaps traces d (rows_to d rows) g end).
  { apply entry_group; [|unfold safe, rows_to in *; lia..|].
    - apply Forall_forall. intros r [Hr _]%elem_of_filter_b. by apply (proj1 (Forall_forall _ _) Hc).
    - apply Forall_forall. by intros r [_ Hr%bool_decide_eq_true_1]%elem_of_filter_b. }
  change (omap f (d :: ds)) with (match f d with Some y => y :: omap f ds | None => omap f ds end).
  destruct (f d) as [g|].
  - pose proof (gr_destination _ _ _ _ _ Hg) as Ed. rewrite fmap_cons, Ed, IHd. split; [done|].
    constructor; [|done]. by rewrite Ed.
  - pose proof (Hin d ltac:(left)) as (r & -> & Hr)%list_elem_of_fmap.
    destruct (not_elem_of_nil r). rewrite <- Hg. apply elem_of_filter_b. split; [done|]. by apply bool_decide_eq_true_2.
Qed.

Lemma sort_sources_group snaps traces d l g :
  group_of snaps traces d l g -> group_of snaps traces d l (sort_sources g).
Proof. intros []. constructor; [done| |done..]. simpl. unfold js_sort. by rewrite sort_leb_perm. Qed.

(** The destination pane holds one card per destination that was traced, in the collator's order with code units
    breaking its ties; a card holds exactly the rows of its destination, in the order of their sources, their
    snapshots and traces add up in it, and its last sight is the newest of theirs. *)
Theorem groupDestinations_spec rows (snaps traces : MTRDestination -> Z) :
  Forall (counted snaps traces) rows -> safe (sumZ (snaps <$> rows)) -> safe (sumZ (traces <$> rows)) ->
  let gs := groupDestinations rows in
  (forall d, d ∈ g_destination <$> gs <-> d ∈ d_destination <$> rows) /\ NoDup (g_destination <$> gs) /\
  StronglySorted (fun a b => natural_leb (g_destination a) (g_destination b) = true) gs /\
  Forall (fun g => group_of snaps traces (g_destination g) (rows_to (g_destination g) rows) g /\
            StronglySorted (fun a b => natural_leb (d_sourceNode a) (d_sourceNode b) = true) (g_sources g)) gs.
Proof.
  intros Hc Hs Ht. cbv zeta. unfold groupDestinations.
  rewrite (file_values d_destination add_row rows).
  destruct (omap_entries rows (set_of_list (d_destination <$> rows)) snaps traces Hc Hs Ht) as [Hd Hg].
  { intros d. apply elem_of_set_of_list. }
  set (l := omap _ _) in *.
  assert (Hd' : g_destination <$> (sort_sources <$> l) = set_of_list (d_destination <$> rows))
    by (rewrite <- Hd, <- list_fmap_compose; reflexivity).
  assert (Hp : js_sort (fun a b => compareNaturalName (g_destination a) (g_destination b)) (sort_sources <$> l) ≡ₚ sort_sources <$> l)
    by apply sort_leb_perm.
  split_and!.
  - intros d. rewrite Hp, Hd'. apply elem_of_set_of_list.
  - rewrite Hp, Hd'. apply NoDup_set_of_list.
  - apply sort_natural.
  - rewrite Hp. apply Forall_fmap. eapply Forall_impl; [exact Hg|]. intros g Hgr. simpl. split.
    + by apply sort_sources_group.
    + apply sort_natural.
Qed.
End DestinationList.

(** ** Routes *)

Record PathSnapshot := {
  id : jstr; s_pair : Pair; lastSeen : jstr; pathHash : jstr; hops : option (list MTRHop); hopCount : value;
}.

Section Routes.
Context `{DateHost}.

Definition compareNewest (a b : PathSnapshot) : number :=
  let byTime := (msOf (lastSeen b) - msOf (lastSeen a))%num in
  (* [-Infinity - -Infinity] is NaN, which is falsy like 0 *)
  if negb (byTime =? int 0)%num && negb (isNaN byTime) then byTime
  else if sltb (id a) (id b) then int 1 else if sltb (id b) (id a) then int (-1) else int 0.

Definition mergeSnapshots (prev next : list PathSnapshot) : list PathSnapshot :=
  let seen := set_of_list (id <$> prev) in
  js_sort compareNewest (prev ++ List.filter (fun s => negb (shas seen (id s))) next).
End Routes.

Definition hopCountOf (snapshot : PathSnapshot) : number :=
  match hopCount snapshot with
  | VNum n => if isFinite n then n else match hops snapshot with Some l => int (Z.of_nat (length l)) | None => int 0 end
  | _ => match hops snapshot with Some l => int (Z.of_nat (length l)) | None => int 0 end
  end.

Definition finiteCount (n : value) : number := match n with VNum x => if isFinite x then x else int 0 | _ => int 0 end.

Fixpoint pathChangeFlags (snapshots : list PathSnapshot) : list bool :=
  match snapshots with
  | [] => []
  | s :: rest =>
      match rest with older :: _ => negb (seqb (pathHash older) (pathHash s)) | [] => false end :: pathChangeFlags rest
  end.

Definition toggleCompare (selected : list jstr) (i : jstr) : list jstr :=
  if existsb (seqb i) selected then List.filter (fun s => negb (seqb s i)) selected
  else match selected with
  | [] | [_] => selected ++ [i]
  | _ :: second :: _ => [second; i]
  end.

Definition num_or (o : option number) : value := VNum (default (int 0) o).
Definition text_or (o : option jstr) : value := VStr (default [] o).

Definition changeText (snapshots : list PathSnapshot) (i : nat) (t : Translate) : jstr :=
  match snapshots !! S i, snapshots !! i with
  | Some older, Some s =>
      let summary := summarisePathChange (hops older) (hops s) in
      match pc_kind summary with
      | pc_same => t (js "history.changed") []
      | pc_several => t (js "history.changed.several") [(js "count", VNum (int (Z.of_nat (pc_total summary))))]
      | pc_added => t (js "history.changed.added") [(js "hop", num_or (pc_hop summary)); (js "to", text_or (pc_to summary))]
      | pc_removed => t (js "history.changed.removed") [(js "hop", num_or (pc_hop summary)); (js "from", text_or (pc_from summary))]
      | pc_changed => t (js "history.changed.moved")
                        [(js "hop", num_or (pc_hop summary)); (js "from", text_or (pc_from summary)); (js "to", text_or (pc_to summary))]
      end
  | _, _ => t (js "history.changed") []
  end.

(** ** The history of the selected pair *)

Section History.
Context `{DateHost}.

Lemma mergeSnapshots_perm prev next :
  mergeSnapshots prev next ≡ₚ prev ++ List.filter (fun s => negb (shas (set_of_list (id <$> prev)) (id s))) next.
Proof. apply sort_leb_perm. Qed.

Lemma mergeSnapshots_elem prev next s :
  s ∈ mergeSnapshots prev next <-> s ∈ prev \/ s ∈ next /\ id s ∉ id <$> prev.
Proof.
  rewrite mergeSnapshots_perm, elem_of_app, elem_of_filter_b, negb_true_iff.
  rewrite <- not_true_iff_false, shas_spec, elem_of_set_of_list. done.
Qed.

Lemma mergeSnapshots_NoDup prev next :
  NoDup (id <$> prev) -> NoDup (id <$> next) -> NoDup (id <$> mergeSnapshots prev next).
Proof.
  intros Hp Hn. rewrite mergeSnapshots_perm, fmap_app. apply NoDup_app. split_and!; [done| |].
  - intros i Hi (s & -> & Hs)%list_elem_of_fmap. apply elem_of_filter_b in Hs as [_ Hs].
    apply negb_true_iff, not_true_iff_false in Hs. apply Hs. by rewrite shas_spec, elem_of_set_of_list.
  - eapply NoDup_fmap_filter_b; exact Hn.
Qed.

(** The route history is a paged pane: a selection empties it, an older page is merged by id and time. *)
Definition route_pane : Pane Pair PathSnapshot.
Proof.
  refine {| merge := mergeSnapshots; clears := true; belongs p s := s_pair s = p; good l := NoDup (id <$> l) |}.
  - intros prev next s Hs. apply mergeSnapshots_elem in Hs. tauto.
  - constructor.
  - apply mergeSnapshots_NoDup.
Defined.

Definition useSnapshotHistory : loader Pair PathSnapshot -> loader Pair PathSnapshot -> Prop := loader_step (H := route_pane).

(** C11: whatever pairs are clicked, whatever older pages are asked for, and in whatever order the answers and the
    failures of all those requests come back, the routes the history pane shows are the selected pair's (none when
    nothing is selected) and no route is listed twice. *)
Theorem history_names_its_pair (h : loader Pair PathSnapshot) :
  rtc useSnapshotHistory unselected h ->
  (forall s, s ∈ rows h -> query h = Some (s_pair s)) /\
  (query h = None -> rows h = []) /\ NoDup (id <$> rows h).
Proof.
  intros Hr. assert (Hrows : forall s, s ∈ rows h -> query h = Some (s_pair s)).
  { intros s Hs. destruct (shows_query (H := route_pane) h s Hr (or_intror eq_refl) Hs) as (q & E & Hb). simpl in Hb. congruence. }
  split_and!; [done| |apply (ok_good (H := route_pane) h), reachable_ok, Hr].
  intros E. destruct (rows h) as [|s l]; [done|]. specialize (Hrows s ltac:(left)). congruence.
Qed.
End History.

(** A pair link names its pair: writing a pair into the address and reading the address back gives the pair. *)
Theorem pair_link_roundtrip (pair : Pair) (u : Url) :
  Forall wf_pair (params u) -> well_formed (source pair) -> well_formed (destination pair) ->
  source pair <> [] -> destination pair <> [] ->
  let search := 63 :: qs_print (params (writePairParams pair u)) in
  deepLinkSource search = Some (source pair) /\ deepLinkDestination search = Some (destination pair).
Proof.
  intros Hu Hs Hd Hse Hde. cbv zeta. unfold deepLinkSource, deepLinkDestination, named_param.
  assert (Hn : DESTINATION_PARAM <> SOURCE_PARAM) by (apply seqb_neq; vm_compute; reflexivity).
  assert (Hk : well_formed DESTINATION_PARAM /\ well_formed SOURCE_PARAM) by (split; apply ascii_wf; vm_compute; reflexivity).
  assert (E : qs_parse (63 :: qs_print (params (writePairParams pair u))) = params (writePairParams pair u)).
  { apply qs_parse_print. unfold writePairParams, params. destruct Hk. apply qs_set_wf; [apply qs_set_wf; [done|]|]; by split. }
  rewrite E. unfold writePairParams. cbn [params].
  rewrite qs_get_set_eq, qs_get_set_ne, qs_get_set_eq by done.
  by rewrite !(proj2 (seqb_neq _ _)).
Qed.

(** Picking routes to compare never holds more than two, never the same one twice, and a pick holds the route
    exactly when it did not before. *)
Theorem toggleCompare_two picked i :
  NoDup picked -> (length picked <= 2)%nat ->
  NoDup (toggleCompare picked i) /\ (length (toggleCompare picked i) <= 2)%nat /\
  (i ∈ toggleCompare picked i <-> i ∉ picked).
Proof.
  intros Hn Hl. unfold toggleCompare. destruct (existsb (seqb i) picked) eqn:E.
  - apply existsb_elem in E as (x & Hx & ->%seqb_eq). split_and!.
    + rewrite <- (list_fmap_id (List.filter _ _)). apply NoDup_fmap_filter_b. by rewrite list_fmap_id.
    + pose proof (List.filter_length_le (fun s => negb (seqb s x)) picked). lia.
    + rewrite elem_of_filter_b, negb_true_iff, seqb_neq. tauto.
  - assert (Hi : i ∉ picked).
    { intros Hi. apply not_true_iff_false in E. apply E. apply existsb_elem. exists i. split; [done|]. by apply seqb_eq. }
    destruct picked as [|a [|b [|c l]]]; simpl in *; [| | |lia];
      rewrite ?NoDup_cons, ?not_elem_of_cons, ?elem_of_cons in *; split_and!; try lia;
      set_solver + Hi Hn.
Qed.

(** Two pairs clicked one after the other, the first answered last. *)
Module MtrWitness.
#[local] Existing Instance route_pane.
#[local] Existing Instance iso_host.
Definition a_b : Pair := {| source := js "a"; destination := js "b" |}.
Definition c_d : Pair := {| source := js "c"; destination := js "d" |}.
Definition route (n : string) (p : Pair) : PathSnapshot :=
  {| id := js n; s_pair := p; lastSeen := []; pathHash := []; hops := None; hopCount := VUndef |}.
Definition req (n : nat) (p : Pair) : request Pair := {| r_ticket := n; r_query := p; r_cursor := None |}.
Definition clicked : loader Pair PathSnapshot := select (Some c_d) (select (Some a_b) unselected).
Definition second_done : loader Pair PathSnapshot := answered (req 2 c_d) [route "r2" c_d] (js "next") clicked.
Definition both_done : loader Pair PathSnapshot := answered (req 1 a_b) [route "r1" a_b] [] second_done.

Lemma both_reachable : rtc useSnapshotHistory unselected both_done.
Proof.
  eapply rtc_l; [apply (step_select (Some a_b))|]. eapply rtc_l; [apply (step_select (Some c_d))|].
  eapply rtc_l; [apply step_network, (step_answer (req 2 c_d) [route "r2" c_d] (js "next"))|
    eapply rtc_l; [apply step_network, (step_answer (req 1 a_b) [route "r1" a_b] [])|apply rtc_refl]].
  - left.
  - repeat constructor.
  - apply NoDup_singleton.
  - left.
  - repeat constructor.
  - apply NoDup_singleton.
Defined.

Lemma history_names_its_pair_witness : rows both_done = [route "r2" c_d] /\ NoDup (id <$> rows both_done).
Proof. split; [vm_compute; reflexivity|]. apply (history_names_its_pair both_done both_reachable). Defined.
End MtrWitness.
