(* ===== verification/Alerting.v ===== *)
(** Alert rules ([web/src/pages/alerting.tsx]): the duration grammar of the [for] box, the ages of a row, the
    closed parameter schemas, and the way a stored rule becomes a draft and a draft a request. *)
From S2P Require Import Prelude JsNum JsString JsCollections JsValue JsDate JsFormat JsNumText JsUrl JsJson.
Local Open Scope Z_scope.

(** ** Durations *)

Definition DURATION_UNITS : list (jstr * number) :=
  [(js "y", int (365 * 24 * 3600 * 10 ^ 9)); (js "w", int (7 * 24 * 3600 * 10 ^ 9));
   (js "d", int (24 * 3600 * 10 ^ 9)); (js "h", int (3600 * 10 ^ 9)); (js "m", int (60 * 10 ^ 9));
   (js "s", int (10 ^ 9)); (js "ms", int (10 ^ 6))].

(** The literal is not a double; the number is the one it rounds to. *)
Definition MAX_DURATION_NS : number := dec 9223372036854775807 0.

Inductive DurationParse := duration_ok (ns : number) | duration_refused (message : jstr).

Definition is_lower (c : Z) : bool := (97 <=? c) && (c <=? 122).

(** The loop over the terms of [s], from the text [rest] that is left.  Every turn consumes a digit, so the length
    of the text is fuel enough. *)
Fixpoint duration_terms (t : Translate) (s : jstr) (fuel : nat) (rest : jstr) (lastUnit : Z) (ns : number) : jstr + number :=
  match rest, fuel with
  | [], _ => inr ns
  | _, O => inr ns
  | _, S fuel' =>
      let '(digits, r) := span is_digit rest in
      if seqb digits [] then inl (t (js "duration.notADuration") [(js "text", VStr s)])
      else
        let '(unit, r') := span is_lower r in
        if seqb unit [] then inl (t (js "duration.noUnit") [(js "text", VStr s); (js "digits", VStr digits)])
        else match findIndex (fun u => seqb u.1 unit) DURATION_UNITS with
        | None => inl (t (js "duration.badUnit") [(js "unit", VStr unit)])
        | Some at_ =>
            if Z.of_nat at_ <=? lastUnit then inl (t (js "duration.order") [(js "text", VStr s)])
            else
              let size := match DURATION_UNITS !! at_ with Some u => u.2 | None => NaN end in
              duration_terms t s fuel' r' (Z.of_nat at_) (ns + number_of_string digits * size)%num
        end
  end.

Definition parsePromDuration (t : Translate) (text : jstr) : DurationParse :=
  let s := trim text in
  if seqb s [] then duration_ok (int 0)
  else match duration_terms t s (length s) s (-1) (int 0) with
  | inl message => duration_refused message
  | inr ns =>
      if negb (isFinite ns) || (ns >? MAX_DURATION_NS)%num
      then duration_refused (t (js "duration.tooLong") [(js "text", VStr s)])
      else duration_ok ns
  end.

(** [for (const unit of units) ...] of the printer. *)
Fixpoint format_units (ns : number) (units : list jstr) : jstr :=
  match units with
  | [] => num_to_string ns ++ js "ns"
  | unit :: units' =>
      let size := match find (fun u => seqb u.1 unit) DURATION_UNITS with Some u => u.2 | None => int 0 end in
      if (int 0 <? size)%num && (ns mod size =? int 0)%num then num_to_string (ns / size)%num ++ unit
      else format_units ns units'
  end.

Definition formatPromDuration (ns : number) : jstr :=
  if negb (isFinite ns) then js "—"
  else if (ns =? int 0)%num then js "0s"
  else if (ns <? int 0)%num then num_to_string ns ++ js "ns"
  else format_units ns [js "d"; js "h"; js "m"; js "s"; js "ms"].

(** ** Ages *)

Section Ages.
Context `{DateHost}.

Definition relativeTime (t : Translate) (iso : option jstr) (now : number) : jstr :=
  match iso with
  | None | Some [] => js "—"
  | Some iso =>
      let at_ := parse_ms iso in
      if isNaN at_ then iso
      else
        let seconds := nfloor ((now - at_) / int 1000)%num in
        if (seconds <? int 0)%num then t (js "age.justNow") []
        else if (seconds <? int 60)%num then t (js "age.seconds") [(js "count", VNum seconds)]
        else
          let minutes := nfloor (seconds / int 60)%num in
          if (minutes <? int 60)%num then t (js "age.minutes") [(js "count", VNum minutes)]
          else
            let hours := nfloor (minutes / int 60)%num in
            if (hours <? int 24)%num then t (js "age.hours") [(js "count", VNum hours)]
            else t (js "age.days") [(js "count", VNum (nfloor (hours / int 24)%num))]
  end.
End Ages.

(** ** The closed schemas *)

Definition RESERVED_LABEL_NAMES : list jstr := [js "severity"; js "kconmon_ng_rule_id"].

Definition reservedLabelMessage (key : jstr) : option jstr :=
  if existsb (seqb key) RESERVED_LABEL_NAMES
  then Some (js "label " ++ [34] ++ key ++ [34] ++ js " is reserved by the console") else None.

Inductive param_type := p_number | p_text | p_expr | p_enum | p_target.
#[export] Instance param_type_eq_dec : EqDecision param_type.
Proof. solve_decision. Defined.

Record ParamField := {
  f_key : jstr; f_labelKey : jstr; f_type : param_type; f_required : bool; f_options : list jstr; f_numeric : bool;
  f_hintKey : option jstr;
}.

(** A field of the table, without options. *)
Definition field (key label : string) (ty : param_type) (required : bool) (hint : string) : ParamField :=
  {| f_key := js key; f_labelKey := js label; f_type := ty; f_required := required; f_options := [];
     f_numeric := false; f_hintKey := Some (js hint) |}.

Definition protocol_field : ParamField :=
  {| f_key := js "protocol"; f_labelKey := js "param.protocol"; f_type := p_enum; f_required := true;
     f_options := [js "tcp"; js "udp"; js "icmp"]; f_numeric := false; f_hintKey := None |}.

Definition quantile_field : ParamField :=
  {| f_key := js "quantile"; f_labelKey := js "param.quantile"; f_type := p_enum; f_required := true;
     f_options := [js "0.5"; js "0.95"; js "0.99"]; f_numeric := true; f_hintKey := Some (js "param.quantile.hint") |}.

Definition KIND_PARAMS : list (jstr * list ParamField) :=
  [(js "pair-loss",
     [protocol_field;
      field "thresholdPercent" "param.thresholdPercent.loss" p_number true "param.thresholdPercent.loss.hint";
      field "scope.sourceNode" "param.scope.sourceNode" p_text false "param.scope.sourceNode.hint";
      field "scope.destNode" "param.scope.destNode" p_text false "param.scope.destNode.hint"]);
   (js "zone-latency",
     [protocol_field; quantile_field;
      field "thresholdMs" "param.thresholdMs.latency" p_number true "param.thresholdMs.latency.hint";
      field "sourceZone" "param.sourceZone" p_text false "param.optional";
      field "destZone" "param.destZone" p_text false "param.optional"]);
   (js "dns-failures",
     [field "thresholdPercent" "param.thresholdPercent.dns" p_number true "param.thresholdPercent.dns.hint"]);
   (js "http-ttfb",
     [field "thresholdMs" "param.thresholdMs.ttfb" p_number true "param.thresholdMs.ttfb.hint";
      field "url" "param.url" p_text false "param.url.hint"]);
   (js "agent-missing", []);
   (js "external-target-down", [field "targetName" "param.targetName" p_target false "param.targetName.hint"]);
   (js "raw", [field "expr" "param.expr" p_expr true "param.expr.hint"])].

Definition ALERT_RULE_KINDS : list (jstr * jstr) :=
  [(js "pair-loss", js "kind.pair-loss"); (js "zone-latency", js "kind.zone-latency");
   (js "dns-failures", js "kind.dns-failures"); (js "http-ttfb", js "kind.http-ttfb");
   (js "agent-missing", js "kind.agent-missing"); (js "external-target-down", js "kind.external-target-down");
   (js "raw", js "kind.raw")].

(** The regular expression that looks for [param] and a quoted name: the name, where it first matches. *)
Fixpoint param_quoted (s : jstr) : option jstr :=
  let pre := js "param " ++ [34] in
  let here :=
    if startsWith s pre then
      let '(name, r) := span (fun c => negb (c =? 34)) (drop (length pre) s) in
      match name, r with _ :: _, 34 :: _ => Some name | _, _ => None end
    else None in
  match here with
  | Some name => Some name
  | None => match s with [] => None | _ :: s' => param_quoted s' end
  end.

(** [\w]. *)
Definition is_word (c : Z) : bool := is_digit c || is_alpha c || (c =? 95).

(** [/^prefix\b/] for a prefix that ends in a word character. *)
Definition starts_word (s prefix : jstr) : bool :=
  startsWith s prefix && match drop (length prefix) s with [] => true | c :: _ => negb (is_word c) end.

Definition problemField (detail : jstr) : option jstr :=
  match param_quoted detail with
  | Some name => Some name
  | None =>
      if starts_word detail (js "alert rule: name") then Some (js "name")
      else if starts_word detail (js "alert rule: severity") then Some (js "severity")
      else if starts_word detail (js "alert rule: for") then Some (js "for")
      else None
  end.

(** ** Rules, drafts and requests *)

Record AlertRule := {
  r_id : jstr; r_name : jstr; r_kind : jstr; r_params : list (jstr * value); r_severity : jstr; r_forNs : number;
  r_labels : list (jstr * jstr); r_annotations : list (jstr * jstr); r_enabled : bool;
}.

Record AlertRuleRequest := {
  q_name : jstr; q_kind : jstr; q_params : list (jstr * value); q_severity : jstr; q_forNs : number;
  q_labels : list (jstr * jstr); q_annotations : list (jstr * jstr); q_enabled : bool;
}.

(** [Partial<AlertRuleRequest>]. *)
Record request_over := {
  o_name : option jstr; o_kind : option jstr; o_params : option (list (jstr * value)); o_severity : option jstr;
  o_forNs : option number; o_labels : option (list (jstr * jstr)); o_annotations : option (list (jstr * jstr));
  o_enabled : option bool;
}.

Definition alertRuleRequestFrom (rule : AlertRule) (over : request_over) : AlertRuleRequest :=
  {| q_name := default (r_name rule) (o_name over); q_kind := default (r_kind rule) (o_kind over);
     q_params := default (r_params rule) (o_params over); q_severity := default (r_severity rule) (o_severity over);
     q_forNs := default (r_forNs rule) (o_forNs over); q_labels := default (r_labels rule) (o_labels over);
     q_annotations := default (r_annotations rule) (o_annotations over);
     q_enabled := default (r_enabled rule) (o_enabled over) |}.

Definition no_over : request_over := {| o_name := None; o_kind := None; o_params := None; o_severity := None;
  o_forNs := None; o_labels := None; o_annotations := None; o_enabled := None |}.

Record Pair := { key : jstr; pvalue : jstr }.

Record RuleDraft := {
  name : jstr; kind : jstr; params : list (jstr * jstr); severity : jstr; forText : jstr;
  labels : list Pair; annotations : list Pair; enabled : bool;
}.

(** [cursor[part]] part by part; no part of a schema key names an inherited member or an array index. *)
Definition readParam (params : list (jstr * value)) (key : jstr) : value :=
  fold_left (fun cursor part => match cursor with VObj _ => vget cursor part | _ => VUndef end)
    (split_unit 46 key) (VObj params).

Definition pairsFrom (map : list (jstr * jstr)) : list Pair :=
  (fun kv => {| key := kv.1; pvalue := kv.2 |}) <$> map.

(** Writing a string to [__proto__] of a literal object changes nothing. *)
Definition map_step (out : list (jstr * jstr)) (row : Pair) : list (jstr * jstr) :=
  let k := trim (key row) in
  if seqb k [] || seqb k (js "__proto__") then out else obj_set out k (pvalue row).

Definition mapFrom (pairs : list Pair) : list (jstr * jstr) := fold_left map_step pairs [].

Fixpoint duplicate_from (seen : list jstr) (pairs : list Pair) : option jstr :=
  match pairs with
  | [] => None
  | row :: pairs' =>
      let k := trim (key row) in
      if seqb k [] then duplicate_from seen pairs'
      else if shas seen k then Some k else duplicate_from (sadd seen k) pairs'
  end.

Definition duplicateKey (pairs : list Pair) : option jstr := duplicate_from [] pairs.

Fixpoint repeat_from (seen : bool) (i : Z) (pairs : list Pair) (k : jstr) : Z :=
  match pairs with
  | [] => -1
  | row :: pairs' =>
      if negb (seqb (trim (key row)) k) then repeat_from seen (i + 1) pairs' k
      else if seen then i else repeat_from true (i + 1) pairs' k
  end.

Definition repeatIndex (pairs : list Pair) (k : jstr) : Z := repeat_from false 0 pairs k.

(** [KIND_PARAMS[kind] ?? []]; [None] is an inherited member of the table, over which no loop can run. *)
Definition paramFieldsFor (kind : jstr) : option (list ParamField) :=
  match table_lookup KIND_PARAMS kind with
  | Some (inl fields) => Some fields
  | Some (inr _) => None
  | None => Some []
  end.

Definition param_text (v : value) : jstr :=
  match v with VUndef | VNull => [] | _ => string_of_value v end.

(** [None]: the loop over the fields throws. *)
Definition draftFrom (rule : option AlertRule) : option RuleDraft :=
  let kind := match rule with Some r => r_kind r | None => js "pair-loss" end in
  fields ← paramFieldsFor kind;
  let params := fold_left (fun ps f =>
      obj_set ps (f_key f) (param_text (match rule with Some r => readParam (r_params r) (f_key f) | None => VUndef end)))
    fields [] in
  Some match rule with
  | Some r => {| name := r_name r; kind := kind; params := params; severity := r_severity r;
                 forText := formatPromDuration (r_forNs r); labels := pairsFrom (r_labels r);
                 annotations := pairsFrom (r_annotations r); enabled := r_enabled r |}
  | None => {| name := []; kind := kind; params := params; severity := js "warning"; forText := [];
               labels := []; annotations := []; enabled := true |}
  end.

(** The value a field's text stands for. *)
Definition param_value (f : ParamField) (raw : jstr) : value :=
  let numeric := bool_decide (f_type f = p_number) || f_numeric f in
  let parsed := number_of_string raw in
  if numeric && isFinite parsed then VNum parsed else VStr raw.

(** One turn of the loop that types and nests the form's texts. *)
Definition params_step (params : list (jstr * jstr)) (out : list (jstr * value)) (f : ParamField) : list (jstr * value) :=
  let raw := trim (default [] (mget params (f_key f))) in
  if seqb raw [] then out
  else
    let v := param_value f raw in
    match split_unit 46 (f_key f) with
    | head :: tail :: _ =>
        let nested := match mget out head with Some (VObj o) => o | _ => [] end in
        obj_set out head (VObj (obj_set nested tail v))
    | _ => obj_set out (f_key f) v
    end.

Definition paramsFromDraft (kind : jstr) (params : list (jstr * jstr)) : option (list (jstr * value)) :=
  fields ← paramFieldsFor kind; Some (fold_left (params_step params) fields []).

Definition requestFromDraft (draft : RuleDraft) (forNs : number) : option AlertRuleRequest :=
  ps ← paramsFromDraft (kind draft) (params draft);
  Some {| q_name := name draft; q_kind := kind draft; q_params := ps; q_severity := severity draft; q_forNs := forNs;
          q_labels := mapFrom (labels draft); q_annotations := mapFrom (annotations draft); q_enabled := enabled draft |}.

(** ** The rule a link names *)

Definition RULE_PARAM : jstr := js "rule".

Definition focusedRuleId (search : jstr) : jstr := default [] (qs_get (qs_parse search) RULE_PARAM).

Definition writeFocusedRule (id : jstr) (expanded : bool) (u : Url) : Url :=
  let current := qs_get (JsUrl.params u) RULE_PARAM in
  if expanded then
    if bool_decide (current = Some id) then u
    else {| pathname := pathname u; JsUrl.params := qs_set (JsUrl.params u) RULE_PARAM id; hash := hash u |}
  else if negb (bool_decide (current = Some id)) then u
  else {| pathname := pathname u; JsUrl.params := qs_delete (JsUrl.params u) RULE_PARAM; hash := hash u |}.

(** ** Durations: what is proved *)

(** A duration as its terms: a count and the index of its unit. *)
Definition unit_name (i : nat) : jstr := match DURATION_UNITS !! i with Some u => u.1 | None => [] end.
Definition unit_ns (i : nat) : Z :=
  nth i [365 * 24 * 3600 * 10 ^ 9; 7 * 24 * 3600 * 10 ^ 9; 24 * 3600 * 10 ^ 9; 3600 * 10 ^ 9; 60 * 10 ^ 9; 10 ^ 9; 10 ^ 6] 0.
Definition term_text (q : Z * nat) : jstr := digits q.1 ++ unit_name q.2.
Definition terms_text (qs : list (Z * nat)) : jstr := concat (term_text <$> qs).
Definition terms_ns (qs : list (Z * nat)) : Z := sumZ ((fun q => q.1 * unit_ns q.2) <$> qs).

(** Units only descend, that is their indices ascend, and name a unit. *)
Fixpoint descending (last : Z) (qs : list (Z * nat)) : Prop :=
  match qs with
  | [] => True
  | (q, i) :: qs' => 0 <= q /\ last < Z.of_nat i /\ (i < 7)%nat /\ descending (Z.of_nat i) qs'
  end.

Lemma unit_facts i :
  (i < 7)%nat ->
  findIndex (fun u => seqb u.1 (unit_name i)) DURATION_UNITS = Some i /\
  DURATION_UNITS !! i = Some (unit_name i, int (unit_ns i)) /\
  forallb is_lower (unit_name i) = true /\ forallb (fun c => negb (is_digit c)) (unit_name i) = true /\
  unit_name i <> [] /\ 10 ^ 6 <= unit_ns i.
Proof.
  intros Hi. do 7 (destruct i as [|i]; [split_and!; try (vm_compute; reflexivity); (by apply seqb_neq; vm_compute) || (vm_compute; discriminate)|]). lia.
Qed.

Lemma terms_head last qs c : descending last qs -> head (terms_text qs) = Some c -> is_digit c = true.
Proof.
  destruct qs as [|[q i] qs]; [done|]. intros (Hq & _). unfold terms_text, term_text. simpl.
  pose proof (digits_all_digits q Hq) as Hd. pose proof (digits_nonempty q) as Hn.
  destruct (digits q) as [|d ds]; [done|]. intros [= <-]. by apply Forall_cons in Hd as [? _].
Qed.

(** One turn of the loop, on a term that names a later unit than the last. *)
Lemma duration_turn t s fuel last ns q i rest :
  0 <= q -> safe q -> (i < 7)%nat -> last < Z.of_nat i -> (forall c, head rest = Some c -> is_digit c = true) ->
  duration_terms t s (S fuel) (term_text (q, i) ++ rest) last ns
  = duration_terms t s fuel rest (Z.of_nat i) (ns + int q * int (unit_ns i))%num.
Proof.
  intros Hq Hqs Hi Hlt Hrest. destruct (unit_facts i Hi) as (Hfi & Hl & Hlow & Hnd & Hne & Hpos).
  unfold term_text. cbn [fst snd]. rewrite <- app_assoc. pose proof (digits_nonempty q) as Hn.
  assert (Hsp : span is_digit (digits q ++ unit_name i ++ rest) = (digits q, unit_name i ++ rest)).
  { apply span_app; [by apply digits_all_digits|]. intros c Hc. apply forallb_Forall in Hnd.
    destruct (unit_name i) as [|u us]; [done|]. injection Hc as <-. apply Forall_cons in Hnd as [Hu _]. by apply negb_true_iff. }
  assert (Hsl : span is_lower (unit_name i ++ rest) = (unit_name i, rest)).
  { apply span_app; [by apply forallb_Forall|]. intros c Hc. specialize (Hrest c Hc). unfold is_digit, is_lower in *. lia. }
  destruct (digits q ++ unit_name i ++ rest) as [|c0 r0] eqn:E0; [apply app_eq_nil in E0 as [E0 _]; by destruct Hn|].
  cbn [duration_terms]. rewrite Hsp, (proj2 (seqb_neq _ _) Hn), Hsl, (proj2 (seqb_neq _ _) Hne), Hfi.
  rewrite (proj2 (Z.leb_gt _ _)) by lia. rewrite Hl. cbn [snd]. by rewrite number_of_digits_int.
Qed.

Lemma terms_ns_nonneg last qs : descending last qs -> 0 <= terms_ns qs.
Proof.
  revert last. induction qs as [|[q i] qs IH]; intros last; [done|]. intros (Hq & _ & Hi & Hd).
  destruct (unit_facts i Hi) as (_ & _ & _ & _ & _ & Hp). specialize (IH _ Hd).
  change (terms_ns ((q, i) :: qs)) with (q * unit_ns i + terms_ns qs). nia.
Qed.

Lemma duration_terms_run t s fuel last acc qs :
  descending last qs -> 0 <= acc -> safe (acc + terms_ns qs) -> Forall (fun q => safe q.1) qs ->
  (length qs <= fuel)%nat ->
  duration_terms t s fuel (terms_text qs) last (int acc) = inr (int (acc + terms_ns qs)).
Proof.
  revert fuel last acc. induction qs as [|[q i] qs IH]; intros fuel last acc Hd Hacc Hs Hq Hf.
  { change (terms_ns []) with 0. rewrite Z.add_0_r. by destruct fuel. }
  pose proof Hd as (Hq0 & Hlt & Hi & Hd'). apply Forall_cons in Hq as [Hqs Hq]. simpl in Hqs, Hf.
  destruct fuel as [|fuel]; [lia|]. pose proof (terms_ns_nonneg _ _ Hd').
  destruct (unit_facts i Hi) as (_ & _ & _ & _ & _ & Hp). assert (0 <= q * unit_ns i) by nia.
  change (terms_ns ((q, i) :: qs)) with (q * unit_ns i + terms_ns qs) in *.
  change (terms_text ((q, i) :: qs)) with (term_text (q, i) ++ terms_text qs). unfold safe in Hs.
  rewrite duration_turn by eauto using terms_head.
  rewrite nmul_int, nadd_int by (unfold safe; lia).
  rewrite IH; [f_equal; f_equal; lia|done|lia|unfold safe; lia|done|lia].
Qed.

Lemma MAX_DURATION_NS_int : MAX_DURATION_NS = int (2 ^ 63).
Proof. vm_compute. reflexivity. Qed.

Lemma lower_not_space c : is_lower c = true -> is_space c = false.
Proof.
  unfold is_lower, is_space. intros H. rewrite bool_decide_eq_false_2; [lia|].
  intros Hin. repeat (apply elem_of_cons in Hin as [->|Hin]; [done|]). by apply elem_of_nil in Hin.
Qed.

Lemma terms_last last_ qs c : descending last_ qs -> last (terms_text qs) = Some c -> is_lower c = true.
Proof.
  revert last_. induction qs as [|[q i] qs IH]; intros l; [done|]. intros (Hq & _ & Hi & Hd).
  change (terms_text ((q, i) :: qs)) with (term_text (q, i) ++ terms_text qs).
  destruct (terms_text qs) as [|d ds] eqn:E.
  - rewrite app_nil_r. unfold term_text. simpl.
    destruct (unit_facts i Hi) as (_ & _ & Hlow & _ & Hne & _). apply forallb_Forall in Hlow.
    rewrite last_app. destruct (last (unit_name i)) as [x|] eqn:El.
    + intros [= <-]. apply (proj1 (Forall_forall _ _) Hlow). by apply last_Some_elem_of.
    + apply last_None in El. done.
  - rewrite last_app. destruct (last (d :: ds)) eqn:El; [|by apply last_None in El].
    intros [= ->]. by apply (IH _ Hd).
Qed.

Lemma trim_terms p qs q :
  qs <> [] -> descending (-1) qs ->
  Forall (fun c => is_space c = true) p -> Forall (fun c => is_space c = true) q ->
  trim (p ++ terms_text qs ++ q) = terms_text qs /\ terms_text qs <> [] /\ (length qs <= length (terms_text qs))%nat.
Proof.
  intros Hne Hd Hp Hq.
  assert (Hlen : (length qs <= length (terms_text qs))%nat).
  { clear. induction qs as [|[q i] qs IH]; [done|].
    change (terms_text ((q, i) :: qs)) with (term_text (q, i) ++ terms_text qs). rewrite length_app. unfold term_text. simpl.
    pose proof (digits_nonempty q). destruct (digits q); [done|]. simpl. lia. }
  assert (Hnil : terms_text qs <> []) by (intros E; rewrite E in Hlen; destruct qs; [done|simpl in Hlen; lia]).
  split_and!; [|done|done]. apply trim_around; [done|done|done| |].
  - intros c Hc. apply digit_not_space. by eapply terms_head.
  - intros c Hc. apply lower_not_space. by eapply terms_last.
Qed.

(** The grammar of the [for] box: counts and units in descending order, with white space around them, are read as
    the sum they spell, exactly. *)
Theorem composite_duration t p qs q :
  qs <> [] -> descending (-1) qs -> Forall (fun q => safe q.1) qs -> safe (terms_ns qs) ->
  Forall (fun c => is_space c = true) p -> Forall (fun c => is_space c = true) q ->
  parsePromDuration t (p ++ terms_text qs ++ q) = duration_ok (int (terms_ns qs)).
Proof.
  intros Hne Hd Hq Hs Hp Hq'. destruct (trim_terms p qs q Hne Hd Hp Hq') as (E & Hn & Hl).
  unfold parsePromDuration. rewrite E, (proj2 (seqb_neq _ _) Hn).
  rewrite (duration_terms_run t _ _ _ 0 qs) by done. rewrite Z.add_0_l, MAX_DURATION_NS_int, nltb_int.
  unfold safe in Hs. rewrite (proj2 (Z.ltb_ge _ _)) by lia. done.
Qed.

Lemma quotient_safe ns i : 0 <= ns <= 2 ^ 63 -> (i < 7)%nat -> 0 <= ns / unit_ns i /\ safe (ns / unit_ns i).
Proof.
  intros Hns Hi. destruct (unit_facts i Hi) as (_ & _ & _ & _ & _ & Hp).
  assert (0 <= ns / unit_ns i) by (apply Z.div_pos; lia).
  assert (ns / unit_ns i <= ns / 10 ^ 6) by (apply Z.div_le_compat_l; lia).
  assert (ns / 10 ^ 6 <= 2 ^ 63 / 10 ^ 6) by (apply Z.div_le_mono; lia).
  assert (2 ^ 63 / 10 ^ 6 = 9223372036854) as E by reflexivity. rewrite E in *. unfold safe. split; lia.
Qed.

(** The printer: the largest of its units that divides, else nanoseconds. *)
Lemma format_units_text ns (units : list nat) :
  0 < ns <= 2 ^ 63 -> Forall (fun i => (i < 7)%nat) units ->
  format_units (int ns) (unit_name <$> units) =
    match find (fun i => ns mod unit_ns i =? 0) units with
    | Some i => term_text (ns / unit_ns i, i)
    | None => num_to_string (int ns) ++ js "ns"
    end.
Proof.
  intros Hns Hu. induction Hu as [|i units Hi Hu IH]; [done|]. rewrite fmap_cons. cbn [format_units find].
  destruct (unit_facts i Hi) as (Hf & Hl & _ & _ & _ & Hp).
  assert (Hfind : find (fun u => seqb u.1 (unit_name i)) DURATION_UNITS = Some (unit_name i, int (unit_ns i)))
    by (clear -Hi; do 7 (destruct i as [|i]; [vm_compute; reflexivity|]); lia).
  rewrite Hfind. cbn [snd]. rewrite nltb_int, (proj2 (Z.ltb_lt 0 _)) by lia. cbn [andb].
  rewrite nrem_int, neqb_int, Z.rem_mod_nonneg by lia.
  destruct (Z.eqb_spec (ns mod unit_ns i) 0) as [E|E]; [|done].
  destruct (quotient_safe ns i) as [Hq Hs]; [lia|done|].
  assert (Ediv : int ns = int (ns / unit_ns i * unit_ns i)) by (f_equal; pose proof (Z.div_mod ns (unit_ns i)); lia).
  rewrite Ediv, ndiv_exact, num_to_string_int by (try apply safe_exact; done || lia).
  unfold string_of_Z, term_text. rewrite (proj2 (Z.ltb_ge _ _)) by done. done.
Qed.

(** One term, read exactly also beyond the safe integers. *)
Lemma single_duration t n i p q :
  0 <= n -> safe n -> (i < 7)%nat -> exact (n * unit_ns i) -> n * unit_ns i <= 2 ^ 63 ->
  Forall (fun c => is_space c = true) p -> Forall (fun c => is_space c = true) q ->
  parsePromDuration t (p ++ term_text (n, i) ++ q) = duration_ok (int (n * unit_ns i)).
Proof.
  intros Hn Hs Hi He Hmax Hp Hq.
  assert (Et0 : terms_text [(n, i)] = term_text (n, i)) by apply app_nil_r.
  destruct (trim_terms p [(n, i)] q) as (Et & Hnil & Hl); [done|simpl; lia|done|done|]. rewrite Et0 in Et, Hnil, Hl.
  unfold parsePromDuration. rewrite Et, (proj2 (seqb_neq _ _) Hnil).
  destruct (length (term_text (n, i))) as [|fuel]; [simpl in Hl; lia|].
  assert (Hrun : duration_terms t (term_text (n, i)) (S fuel) (term_text (n, i)) (-1) (int 0) = inr (int (n * unit_ns i))).
  { rewrite <- (app_nil_r (term_text (n, i))) at 2. rewrite duration_turn by (done || lia).
    rewrite nmul_exact, nadd_exact by done. by destruct fuel. }
  rewrite Hrun. unfold isFinite, int at 1. cbn [negb orb]. rewrite MAX_DURATION_NS_int, nltb_int.
  by rewrite (proj2 (Z.ltb_ge _ _)) by lia.
Qed.

(** Every duration a rule can carry in whole milliseconds survives the edit box: printing it and reading the text
    back, whatever white space surrounds it, gives the same nanoseconds, up to the largest the store can hold. *)
Theorem duration_roundtrip t ns p q :
  0 <= ns <= 2 ^ 63 -> repr (ns * U) -> ns mod 10 ^ 6 = 0 ->
  Forall (fun c => is_space c = true) p -> Forall (fun c => is_space c = true) q ->
  parsePromDuration t (p ++ formatPromDuration (int ns) ++ q) = duration_ok (int ns).
Proof.
  intros Hns Hr Hms Hp Hq. unfold formatPromDuration. simpl isFinite. cbn [negb]. rewrite neqb_int, nltb_int.
  destruct (Z.eqb_spec ns 0) as [->|Hnz].
  - change (js "0s") with (term_text (0, 5%nat)). by rewrite single_duration by (done || lia || by apply safe_exact).
  - rewrite (proj2 (Z.ltb_ge _ _)) by lia.
    change [js "d"; js "h"; js "m"; js "s"; js "ms"] with (unit_name <$> [2; 3; 4; 5; 6]%nat).
    rewrite format_units_text by (try lia; repeat constructor; lia).
    destruct (find _ _) as [i|] eqn:E.
    + apply find_some in E as [Hi Hdiv%Z.eqb_eq]. assert (Hi7 : (i < 7)%nat) by (simpl in Hi; lia).
      destruct (quotient_safe ns i) as [Hq0 Hqs]; [lia|done|]. destruct (unit_facts i Hi7) as (_ & _ & _ & _ & _ & Hu).
      assert (Hprod : ns / unit_ns i * unit_ns i = ns) by (pose proof (Z.div_mod ns (unit_ns i)); lia).
      rewrite single_duration by (rewrite ?Hprod; done || lia || (split; [done|lia])). by rewrite Hprod.
    + pose proof (find_none _ _ E 6%nat ltac:(simpl; tauto)) as Hno. by apply Z.eqb_neq in Hno.
Qed.

(** Any other is printed in nanoseconds, which the box refuses. *)
Lemma nanoseconds_refused t z :
  double z -> 0 <= z -> exists m, parsePromDuration t (num_to_string (Fin z) ++ js "ns") = duration_refused m.
Proof.
  intros Hd Hz. destruct (num_to_string_spelled z Hd) as (ip & fp & e & -> & Hs & _). unfold signed. rewrite (proj2 (Z.ltb_ge _ _)) by done.
  destruct (spell_head ip fp e Hs) as (c & r & E & Hc). pose proof (spelled_nonempty _ _ Hs) as Hne. destruct Hs as (Hi & _).
  set (text := spell ip fp e ++ js "ns"). assert (Et : text = c :: r ++ js "ns") by (unfold text; by rewrite E).
  assert (Hbad : forall s n, exists m, duration_terms t s (S n) text (-1) (int 0) = inl m).
  { intros s n. rewrite Et. cbn [duration_terms]. rewrite <- Et. unfold text, spell. rewrite <- !app_assoc.
    set (tail := match fp with [] => [] | _ => 46 :: fp end ++ power_text e ++ js "ns").
    assert (Hsp : span is_digit (ip ++ tail) = (ip, tail)).
    { apply span_app; [done|]. unfold tail. destruct fp; [destruct e|]; by intros x [= <-]. }
    rewrite Hsp, (proj2 (seqb_neq _ _) Hne). unfold tail. destruct fp as [|f fp]; [|eexists; reflexivity].
    destruct e as [e|]; [|eexists; reflexivity]. cbn [power_text app span]. change (is_lower 101) with true. cbn match. cbn [span].
    assert (Hsign : is_lower (if e <? 0 then 45 else 43) = false) by (by destruct (e <? 0)). rewrite Hsign. eexists. reflexivity. }
  assert (Hlen : length text = S (length (r ++ js "ns"))) by (by rewrite Et).
  destruct (Hbad text (length (r ++ js "ns"))) as [m Hm]. exists m. unfold parsePromDuration. rewrite trim_id.
  - assert (Hn : seqb text [] = false) by (apply seqb_neq; by rewrite Et). by rewrite Hn, Hlen, Hm.
  - rewrite Et. intros d [= <-]. by apply digit_not_space.
  - unfold text. intros d. rewrite last_app. by intros [= <-].
Qed.

Lemma duration_kept t ns :
  0 <= ns <= 2 ^ 63 -> repr (ns * U) ->
  if ns mod 10 ^ 6 =? 0 then parsePromDuration t (formatPromDuration (int ns)) = duration_ok (int ns)
  else exists m, parsePromDuration t (formatPromDuration (int ns)) = duration_refused m.
Proof.
  intros Hns Hr. destruct (Z.eqb_spec (ns mod 10 ^ 6) 0) as [Hms|Hms].
  - rewrite <- (app_nil_r (formatPromDuration _)). by apply (duration_roundtrip t ns [] []).
  - assert (Hnz : ns <> 0) by (intros ->; done). unfold formatPromDuration. change (isFinite (int ns)) with true. cbn [negb]. rewrite neqb_int, nltb_int.
    rewrite (proj2 (Z.eqb_neq _ _) Hnz), (proj2 (Z.ltb_ge _ _)) by lia.
    change [js "d"; js "h"; js "m"; js "s"; js "ms"] with (unit_name <$> [2; 3; 4; 5; 6]%nat).
    rewrite format_units_text by (try lia; repeat constructor; lia). destruct (find _ _) as [i|] eqn:E.
    + exfalso. apply Hms. apply find_some in E as [Hi Hdiv%Z.eqb_eq].
      assert (Hu : unit_ns i mod 10 ^ 6 = 0) by (simpl in Hi; destruct Hi as [<-|[<-|[<-|[<-|[<-|[]]]]]]; vm_compute; reflexivity).
      assert (Hi7 : (i < 7)%nat) by (simpl in Hi; lia). destruct (unit_facts i Hi7) as (_ & _ & _ & _ & _ & Hp).
      apply Z.mod_divide; [lia|]. apply Z.divide_trans with (unit_ns i); apply Z.mod_divide; lia || done.
    + apply nanoseconds_refused; [|pose proof U_pos; nia]. split; [done|]. pose proof U_OVERFLOW64. pose proof U_pos.
      rewrite Z.abs_mul, (Z.abs_eq U), (Z.abs_eq ns) by lia. nia.
Qed.

Lemma nonneg_term x y n : nonneg x -> nonneg y -> 0 < n -> nonneg (x + y * int n)%num.
Proof.
  intros Hx Hy Hn. pose proof U_pos. assert (nonneg (y * int n)%num) as Hm.
  { destruct y as [|neg|z]; [done| |]; simpl in *.
    - subst. rewrite (proj2 (Z.eqb_neq _ _)), (proj2 (Z.ltb_ge _ _)) by nia. done.
    - apply round64_nonneg; [done|nia]. }
  destruct x as [|nx|zx], (y * int n)%num as [|ny|zy]; simpl in *; subst; try done. apply round64_nonneg; lia.
Qed.

Lemma digits_value_nonneg s : Forall (fun c => is_digit c = true) s -> 0 <= digits_value s.
Proof.
  intros Hs. unfold digits_value. apply (fold_left_inv (fun a => 0 <= a)); [done|]. intros a c Hc Ha.
  pose proof (proj1 (Forall_forall _ _) Hs c Hc) as Hd. simpl in Hd. unfold is_digit in Hd. lia.
Qed.

Lemma length_DURATION_UNITS : length DURATION_UNITS = 7%nat.
Proof. reflexivity. Qed.

Lemma duration_terms_nonneg t s fuel rest last ns ns' :
  nonneg ns -> duration_terms t s fuel rest last ns = inr ns' -> nonneg ns'.
Proof.
  revert rest last ns. induction fuel as [|fuel IH]; intros rest last ns Hns; destruct rest as [|c rest];
    cbn [duration_terms]; [by intros [= <-]..|].
  pose proof (span_eq is_digit (c :: rest)) as [_ Hd]. destruct (span is_digit (c :: rest)) as [ds r]. cbn [fst] in Hd.
  destruct (seqb ds []) eqn:Eds; [discriminate|]. apply seqb_neq in Eds. destruct (span is_lower r) as [u r'].
  destruct (seqb u []); [discriminate|]. destruct (findIndex _ _) as [i|] eqn:Ei; [|discriminate]. destruct (_ <=? _); [discriminate|].
  apply findIndex_Some in Ei as (x & Hx & _ & _). rewrite Hx.
  pose proof (lookup_lt_Some _ _ _ Hx) as Hi. rewrite length_DURATION_UNITS in Hi.
  destruct (unit_facts i Hi) as (_ & Hl & _ & _ & _ & Hp). rewrite Hx in Hl. injection Hl as ->. cbn [snd]. apply IH.
  apply nonneg_term; [done| |lia]. rewrite number_of_digits by done. unfold round_decimal.
  change (0 <=? 0) with true. cbn match. apply round64_nonneg; [lia|]. pose proof (digits_value_nonneg ds Hd). pose proof U_pos. nia.
Qed.

(** What a box accepts is never a lost number: a count of nanoseconds between zero and the bound of the store. *)
Theorem accepted_duration_bounded t text ns :
  parsePromDuration t text = duration_ok ns -> exists z, ns = Fin z /\ 0 <= z <= 2 ^ 63 * U.
Proof.
  unfold parsePromDuration. destruct (seqb (trim text) []); [intros [= <-]; exists 0; split; [done|pose proof U_pos; lia]|].
  destruct (duration_terms _ _ _ _ _ _) as [m|n] eqn:E; [done|].
  assert (Hn : nonneg n) by (eapply duration_terms_nonneg; [|exact E]; simpl; lia).
  destruct (negb (isFinite n) || _) eqn:Eb; [done|]. intros [= <-].
  apply orb_false_iff in Eb as [Ef Em]. destruct n as [| |z]; [discriminate Ef..|]. exists z. split; [reflexivity|].
  rewrite MAX_DURATION_NS_int in Em. unfold int in Em. cbn [nltb] in Em. unfold nonneg in Hn. split; [exact Hn|by apply Z.ltb_ge].
Qed.

(** ** Drafts: what is proved *)

(** A value written under a key of a schema. *)
Definition put (out : list (jstr * value)) (k : jstr) (v : value) : list (jstr * value) :=
  match split_unit 46 k with
  | head :: tail :: _ => obj_set out head (VObj (obj_set (match mget out head with Some (VObj o) => o | _ => [] end) tail v))
  | _ => obj_set out k v
  end.

Definition place_one (out : list (jstr * value)) (fv : ParamField * option value) : list (jstr * value) :=
  match fv.2 with Some v => put out (f_key fv.1) v | None => out end.

(** The parameters of a rule that holds the values [vals] of its kind's fields. *)
Definition place (fields : list ParamField) (vals : list (option value)) : list (jstr * value) :=
  fold_left place_one (zip fields vals) [].

(** A value a field holds: a finite number where the field is numeric, elsewhere a text that is not blank and has no
    white space around it. *)
Definition canonical (f : ParamField) (v : value) : Prop :=
  let numeric := bool_decide (f_type f = p_number) || f_numeric f in
  match v with
  | VNum n => numeric = true /\ exists z, n = Fin z /\ double z
  | VStr s => numeric = false /\ s <> [] /\ trim s = s
  | _ => False
  end.

(** Its text is typed back to the value. *)
Lemma canonical_typed f v :
  canonical f v -> param_text v <> [] /\ trim (param_text v) = param_text v /\ param_value f (param_text v) = v.
Proof.
  unfold canonical, param_value. destruct v as [| | |n|s| |]; try done.
  - intros [-> (z & -> & Hd)]. cbn [param_text string_of_value]. rewrite number_roundtrip by done.
    destruct (num_to_string_trimmed z Hd). by split_and!.
  - intros (-> & Hne & Ht). by split_and!.
Qed.

(** The lookup of a field's text in the draft, fields having different keys. *)
Lemma mget_fold_fields {A} (g : ParamField -> A) fields (m : list (jstr * A)) k :
  mget (fold_left (fun ps f => obj_set ps (f_key f) (g f)) fields m) k =
    match find (fun f => seqb (f_key f) k) (rev fields) with Some f => Some (g f) | None => mget m k end.
Proof.
  revert m. induction fields as [|f fields IH]; intros m; [done|]. simpl. rewrite IH, find_app_b.
  destruct (find _ (rev fields)); [done|]. simpl. rewrite mget_obj_set.
  destruct (seqb (f_key f) k) eqn:E; [apply seqb_eq in E as <-; by rewrite decide_True|].
  apply seqb_neq in E. by rewrite decide_False by congruence.
Qed.

Lemma find_own_field fields f :
  NoDup (f_key <$> fields) -> f ∈ fields -> find (fun g => seqb (f_key g) (f_key f)) (rev fields) = Some f.
Proof.
  intros Hn Hf. destruct (find _ _) as [g|] eqn:E.
  - apply find_some in E as [Hg Ek%seqb_eq]. f_equal. apply (NoDup_fmap_eq f_key fields); [done| |done|done].
    apply list_elem_of_In, in_rev. done.
  - exfalso. pose proof (find_none _ _ E f ltac:(apply in_rev; rewrite rev_involutive; by apply list_elem_of_In)) as Hne.
    simpl in Hne. by apply seqb_neq in Hne.
Qed.

(** A field whose text is in the draft puts its value back. *)
Lemma params_step_put ps out f v :
  canonical f v -> mget ps (f_key f) = Some (param_text v) -> params_step ps out f = put out (f_key f) v.
Proof.
  intros (Hne & Ht & Hv)%canonical_typed Hg. unfold params_step, put. rewrite Hg. cbn [default from_option id]. rewrite Ht.
  rewrite (proj2 (seqb_neq _ _) Hne), Hv. reflexivity.
Qed.

Lemma params_step_skip ps out f : mget ps (f_key f) = Some [] -> params_step ps out f = out.
Proof. intros Hg. unfold params_step. rewrite Hg. reflexivity. Qed.

Definition holds (f : ParamField) (o : option value) : Prop := match o with Some v => canonical f v | None => True end.

Lemma params_rebuilt ps fields vals out :
  Forall2 holds fields vals ->
  (forall f o, (f, o) ∈ zip fields vals -> mget ps (f_key f) = Some (match o with Some v => param_text v | None => [] end)) ->
  fold_left (params_step ps) fields out = fold_left place_one (zip fields vals) out.
Proof.
  intros H2. revert out. induction H2 as [|f o fields vals Hh H2 IH]; intros out Hg; [done|]. simpl.
  rewrite IH by (intros f' o' Hin; apply Hg; by right). f_equal.
  pose proof (Hg f o ltac:(left)) as Hfo. unfold place_one. simpl. destruct o as [v|].
  - by apply params_step_put.
  - by apply params_step_skip.
Qed.

(** Every kind of the table: its keys differ, and reading a field of placed parameters gives its value. *)
Definition reads_back (fields : list ParamField) : Prop :=
  NoDup (f_key <$> fields) /\
  forall vals, length vals = length fields -> Forall2 (fun f o => readParam (place fields vals) (f_key f) = default VUndef o) fields vals.

Lemma nodup_keys fields : bool_decide (NoDup (f_key <$> fields)) = true -> NoDup (f_key <$> fields).
Proof. apply bool_decide_eq_true_1. Qed.

Ltac reads_back_tac :=
  split; [apply nodup_keys; vm_compute; reflexivity|];
  intros vals Hlen; repeat (destruct vals as [|[?|] vals]; try discriminate Hlen); repeat constructor.

Lemma kinds_read_back : Forall (fun e => reads_back e.2) KIND_PARAMS.
Proof. unfold KIND_PARAMS. repeat (apply Forall_cons; split; [cbn [snd]|]); [reads_back_tac..|apply Forall_nil_2]. Qed.

Lemma fields_read_back kind fields : paramFieldsFor kind = Some fields -> reads_back fields.
Proof.
  unfold paramFieldsFor, table_lookup. destruct (mget KIND_PARAMS kind) as [fs|] eqn:E.
  - intros [= <-]. apply (proj1 (Forall_forall _ _) kinds_read_back (kind, fs)). by apply mget_in.
  - destruct (existsb _ _); [discriminate|]. intros [= <-]. split; [constructor|]. intros [|]; [constructor|discriminate].
Qed.

(** Labels as the store holds them: in an object's own order, under names the form keeps. *)
Definition stored_map (m : list (jstr * jstr)) : Prop :=
  own_ordered m /\ Forall (fun k => k <> [] /\ trim k = k /\ k <> js "__proto__") m.*1.

Lemma mapFrom_pairsFrom m : stored_map m -> mapFrom (pairsFrom m) = m.
Proof.
  intros [Ho Hk]. rewrite <- (obj_set_rebuild m Ho) at 2. unfold mapFrom, pairsFrom. clear Ho.
  generalize (@nil (jstr * jstr)) as acc. induction m as [|[k v] m IH]; intros acc; [done|]. simpl.
  apply Forall_cons in Hk as [(Hne & Ht & Hp) Hk]. rewrite IH by done. f_equal. unfold map_step. cbn [key pvalue]. simpl in *.
  by rewrite Ht, (proj2 (seqb_neq _ _) Hne), (proj2 (seqb_neq _ _) Hp).
Qed.

(** The draft's texts of a stored rule's parameters. *)
Lemma draft_params_get fields vals ps f o :
  NoDup (f_key <$> fields) -> (f, o) ∈ zip fields vals ->
  Forall2 (fun f o => readParam ps (f_key f) = default VUndef o) fields vals ->
  mget (fold_left (fun m f => obj_set m (f_key f) (param_text (readParam ps (f_key f)))) fields []) (f_key f) =
    Some (match o with Some v => param_text v | None => [] end).
Proof.
  intros Hn Hin H2. rewrite (mget_fold_fields (fun f => param_text (readParam ps (f_key f)))).
  apply elem_of_lookup_zip_with in Hin as (i & f' & o' & [= <- <-] & Hf & Ho).
  rewrite find_own_field by (eauto using list_elem_of_lookup_2).
  rewrite (Forall2_lookup_lr _ _ _ _ _ _ H2 Hf Ho). by destruct o.
Qed.


(** ** Label rows: what is proved *)

(** A row the map keeps. *)
Definition kept_row (p : Pair) : bool := negb (seqb (trim (key p)) [] || seqb (trim (key p)) (js "__proto__")).

Lemma mapFrom_snoc ps p : mapFrom (ps ++ [p]) = map_step (mapFrom ps) p.
Proof. unfold mapFrom. by rewrite fold_left_app. Qed.

(** The map holds under a name the value of the last row of that name. *)
Lemma mapFrom_get ps k :
  mget (mapFrom ps) k = pvalue <$> last (List.filter (fun p => kept_row p && seqb (trim (key p)) k) ps).
Proof.
  induction ps as [|p ps IH] using rev_ind; [done|]. rewrite mapFrom_snoc, List.filter_app. unfold map_step. simpl.
  unfold kept_row at 2. destruct (seqb (trim (key p)) [] || _); simpl; [by rewrite app_nil_r|].
  rewrite mget_obj_set. destruct (seqb (trim (key p)) k) eqn:E.
  - apply seqb_eq in E as <-. rewrite decide_True by done. simpl. by rewrite last_snoc.
  - apply seqb_neq in E. rewrite decide_False by congruence. by rewrite app_nil_r.
Qed.

Lemma duplicate_from_None seen ps :
  duplicate_from seen ps = None ->
  NoDup (trim ∘ key <$> List.filter (fun p => negb (seqb (trim (key p)) [])) ps) /\
  Forall (fun p => trim (key p) ∉ seen) (List.filter (fun p => negb (seqb (trim (key p)) [])) ps).
Proof.
  revert seen. induction ps as [|p ps IH]; intros seen; simpl; [intros _; split; constructor|].
  destruct (seqb (trim (key p)) []); simpl; [by apply IH|]. destruct (shas seen _) eqn:E; [done|].
  apply not_true_iff_false in E. rewrite shas_spec in E. intros [Hn Hf]%IH. split.
  - constructor; [|done]. intros (p' & Ek & Hp')%list_elem_of_fmap. simpl in Ek.
    pose proof (proj1 (Forall_forall _ _) Hf p' Hp') as Hout. simpl in Hout. rewrite elem_of_sadd in Hout. rewrite <- Ek in Hout. tauto.
  - constructor; [done|]. eapply Forall_impl; [exact Hf|]. simpl. intros p' Hp'. rewrite elem_of_sadd in Hp'. tauto.
Qed.

(** A form without a repeated name loses no row. *)
Lemma no_duplicate_keeps_rows ps p :
  duplicateKey ps = None -> p ∈ ps -> kept_row p = true -> mget (mapFrom ps) (trim (key p)) = Some (pvalue p).
Proof.
  intros [Hn _]%duplicate_from_None Hp Hk. rewrite mapFrom_get. set (l := List.filter _ ps).
  assert (Hpl : p ∈ l) by (apply elem_of_filter_b; split; [done|]; rewrite Hk; by apply seqb_eq).
  destruct (last l) as [p'|] eqn:El; [|by apply last_None in El; rewrite El in Hpl; apply not_elem_of_nil in Hpl].
  apply last_Some_elem_of, elem_of_filter_b in El as [Hp' [Hk' Ek%seqb_eq]%andb_true_iff]. simpl. do 2 f_equal.
  assert (Hf : forall x, x ∈ ps -> kept_row x = true -> x ∈ List.filter (fun p => negb (seqb (trim (key p)) [])) ps).
  { intros x Hx Hkx. apply elem_of_filter_b. split; [done|]. unfold kept_row in Hkx. by destruct (seqb (trim (key x)) []). }
  apply (NoDup_fmap_eq _ _ _ _ Hn); [by apply Hf|by apply Hf|done].
Qed.

Lemma mapFrom_keys ps k : is_Some (mget (mapFrom ps) k) -> exists p, p ∈ ps /\ trim (key p) = k.
Proof.
  rewrite mapFrom_get. intros [v Hv]. apply fmap_Some in Hv as (p & El & _).
  apply last_Some_elem_of, elem_of_filter_b in El as [Hp [_ Ek%seqb_eq]%andb_true_iff]. eauto.
Qed.

Module AlertingWitness.
Definition vals : list (option value) :=
  [Some (VStr (js "udp")); Some (VNum (dec 95 2)); Some (VNum (dec 125 1)); None; Some (VStr (js "zone-b"))].
Definition rule : AlertRule :=
  {| r_id := js "r1"; r_name := js "slow"; r_kind := js "zone-latency";
     r_params := [(js "protocol", VStr (js "udp")); (js "quantile", VNum (dec 95 2)); (js "thresholdMs", VNum (dec 125 1));
                  (js "destZone", VStr (js "zone-b"))];
     r_severity := js "warning"; r_forNs := int 5400000000000; r_labels := [(js "team", js "net")]; r_annotations := [];
     r_enabled := true |}.
Definition fields : list ParamField := default [] (mget KIND_PARAMS (js "zone-latency")).

Lemma vals_hold : Forall2 holds fields vals.
Proof.
  assert (Htext : forall f s, bool_decide (f_type f = p_number) || f_numeric f = false -> s <> [] -> trim s = s -> canonical f (VStr s)) by done.
  assert (Hnum : forall f m k, bool_decide (f_type f = p_number) || f_numeric f = true -> 0 <= k -> isFinite (dec m k) = true -> canonical f (VNum (dec m k))).
  { intros f m k Hf Hk Hd. split; [done|]. by apply double_dec. }
  apply Forall2_cons_2; [apply Htext; [vm_compute; reflexivity|discriminate|vm_compute; reflexivity]|].
  apply Forall2_cons_2; [apply Hnum; [vm_compute; reflexivity|lia|vm_compute; reflexivity]|].
  apply Forall2_cons_2; [apply Hnum; [vm_compute; reflexivity|lia|vm_compute; reflexivity]|].
  apply Forall2_cons_2; [exact I|].
  apply Forall2_cons_2; [apply Htext; [vm_compute; reflexivity|discriminate|vm_compute; reflexivity]|].
  apply Forall2_nil_2.
Defined.

End AlertingWitness.
