(* ===== verification/SubmitGuard.v ===== *)
(** The guard every form submits through ([web/src/hooks/use-submit-guard.ts]): one request in flight. *)
From S2P Require Import Prelude.

Record guard := { inFlight : bool; submitting : bool }.

Definition guard_idle : guard := {| inFlight := false; submitting := false |}.

(** [begin]: whether the slot was claimed, and the guard. *)
Definition begin (g : guard) : bool * guard :=
  if inFlight g then (false, g) else (true, {| inFlight := true; submitting := true |}).

Definition end_ (g : guard) : guard := guard_idle.

(** What a press of a form's button does: the errors it shows, and the request it sends. *)
Record press (E R : Type) := { shown : option E; sent_req : option R; after : guard }.
Arguments shown {E R} _. Arguments sent_req {E R} _. Arguments after {E R} _.

(** A handler that checks the form, claims the slot and sends. *)
Definition guarded {E R} (check : E + R) (g : guard) : press E R :=
  match check with
  | inl e => {| shown := Some e; sent_req := None; after := g |}
  | inr r => let '(claimed, g') := begin g in
             {| shown := None; sent_req := if claimed then Some r else None; after := g' |}
  end.

(** A press sends only what passed the checks, and never while a request is in flight. *)
Lemma guarded_sends {E R} (check : E + R) g r :
  sent_req (guarded check g) = Some r <-> check = inr r /\ inFlight g = false.
Proof.
  unfold guarded, begin. destruct check as [e|r']; simpl; [naive_solver|]. destruct (inFlight g); naive_solver.
Qed.

Lemma guarded_claims {E R} (check : E + R) g r :
  sent_req (guarded check g) = Some r -> inFlight (after (guarded check g)) = true.
Proof. unfold guarded, begin. destruct check; simpl; [done|]. by destruct (inFlight g). Qed.
