(* ===== verification/RuleForm.v ===== *)
(** The rule builder ([RuleForm] of [web/src/pages/alerting.tsx]): the form as a
    state machine of edits, debounced previews and submissions, and what it can send. *)
From S2P Require Import Prelude JsNum JsString JsCollections JsValue JsFormat JsUrl JsJson Alerting SubmitGuard.
Local Open Scope Z_scope.

(** ** The form *)

(** What the debounced preview of the current effect is at. *)
Inductive preview_phase := phase_none | phase_debounce | phase_asked.

Record form := {
  initial : option AlertRule;
  draft : RuleDraft;
  phase : preview_phase;
  preview : option bool;             (* the [rejected] flag of the last answer *)
  previewError : option jstr;
  previewLoading : bool;
  rejectedKey : option jstr;
  formError : option (jstr * option jstr);
  submitGuard : guard;
  sent : list AlertRuleRequest;      (* requests handed to the API, newest first *)
}.

Section Form.
Context (t : Translate).

(** The parameters, where the kind is one the table can answer. *)
Definition draft_params (d : RuleDraft) : list (jstr * value) := default [] (paramsFromDraft (kind d) (params d)).

Definition fields_of (d : RuleDraft) : list ParamField := default [] (paramFieldsFor (kind d)).

Definition key_of (k : jstr) (ps : list (jstr * value)) (ls : list (jstr * jstr)) : jstr :=
  default [] (json_stringify (VObj [(js "kind", VStr k); (js "params", VObj ps);
                                    (js "labels", VObj ((fun kv => (kv.1, VStr kv.2)) <$> ls))])).

Definition previewKey (d : RuleDraft) : jstr := key_of (kind d) (draft_params d) (mapFrom (labels d)).

Definition previewReady (d : RuleDraft) : bool :=
  forallb (fun f => negb (f_required f) || negb (seqb (trim (default [] (mget (params d) (f_key f)))) [])) (fields_of d).

(** The effect that runs when the key or the readiness changed, its predecessor cancelled. *)
Definition preview_effect (f : form) : form :=
  if negb (previewReady (draft f)) then
    {| initial := initial f; draft := draft f; phase := phase_none; preview := None; previewError := None;
       previewLoading := false; rejectedKey := None; formError := formError f; submitGuard := submitGuard f; sent := sent f |}
  else
    {| initial := initial f; draft := draft f; phase := phase_debounce; preview := preview f; previewError := previewError f;
       previewLoading := true; rejectedKey := rejectedKey f; formError := formError f; submitGuard := submitGuard f; sent := sent f |}.

(** [None]: rendering the form throws. *)
Definition mount (rule : option AlertRule) : option form :=
  d ← draftFrom rule;
  Some (preview_effect {| initial := rule; draft := d; phase := phase_none; preview := None; previewError := None;
    previewLoading := false; rejectedKey := None; formError := None; submitGuard := guard_idle; sent := [] |}).

Definition set_draft (d : RuleDraft) (f : form) : form :=
  {| initial := initial f; draft := d; phase := phase f; preview := preview f; previewError := previewError f;
     previewLoading := previewLoading f; rejectedKey := rejectedKey f; formError := formError f;
     submitGuard := submitGuard f; sent := sent f |}.

(** An edit, its render and the effect it may run. *)
Definition edit (d : RuleDraft) (f : form) : option form :=
  match paramFieldsFor (kind d) with
  | None => None
  | Some _ =>
      let f' := set_draft d f in
      Some (if seqb (previewKey d) (previewKey (draft f)) && Bool.eqb (previewReady d) (previewReady (draft f))
            then f' else preview_effect f')
  end.

(** The debounce elapses: the preview of the current body is asked for. *)
Definition timer_fires (f : form) : form :=
  match phase f with
  | phase_debounce =>
      {| initial := initial f; draft := draft f; phase := phase_asked; preview := preview f; previewError := previewError f;
         previewLoading := previewLoading f; rejectedKey := rejectedKey f; formError := formError f;
         submitGuard := submitGuard f; sent := sent f |}
  | _ => f
  end.

Definition preview_answered (rejected : bool) (f : form) : form :=
  match phase f with
  | phase_asked =>
      {| initial := initial f; draft := draft f; phase := phase_none; preview := Some rejected; previewError := None;
         previewLoading := false; rejectedKey := if rejected then Some (previewKey (draft f)) else None;
         formError := formError f; submitGuard := submitGuard f; sent := sent f |}
  | _ => f
  end.

Definition preview_failed (message : jstr) (f : form) : form :=
  match phase f with
  | phase_asked =>
      {| initial := initial f; draft := draft f; phase := phase_none; preview := None; previewError := Some message;
         previewLoading := false; rejectedKey := None; formError := formError f; submitGuard := submitGuard f; sent := sent f |}
  | _ => f
  end.

Definition exprRejected (f : form) : bool :=
  match rejectedKey f with Some k => seqb k (previewKey (draft f)) | None => false end.

Definition reservedMessage (d : RuleDraft) : option jstr :=
  head (omap (fun p => reservedLabelMessage (trim (key p))) (labels d)).

Definition refuse (e : option (jstr * option jstr)) (f : form) : form :=
  {| initial := initial f; draft := draft f; phase := phase f; preview := preview f; previewError := previewError f;
     previewLoading := previewLoading f; rejectedKey := rejectedKey f; formError := e; submitGuard := submitGuard f;
     sent := sent f |}.

Definition is_some {A} (o : option A) : bool := match o with Some _ => true | None => false end.

Definition handleSubmit (f : form) : form :=
  let d := draft f in
  let f' := refuse None f in
  if exprRejected f then f'
  else if is_some (reservedMessage d) then f'
  else if is_some (duplicateKey (labels d)) || is_some (duplicateKey (annotations d)) then f'
  else if seqb (trim (name d)) [] then refuse (Some (t (js "form.nameRequired") [], Some (js "name"))) f
  else match parsePromDuration t (forText d) with
  | duration_refused message => refuse (Some (message, Some (js "for"))) f
  | duration_ok ns =>
      let '(claimed, g) := begin (submitGuard f) in
      match claimed, requestFromDraft d ns with
      | true, Some req =>
          {| initial := initial f; draft := d; phase := phase f; preview := preview f; previewError := previewError f;
             previewLoading := previewLoading f; rejectedKey := rejectedKey f; formError := None; submitGuard := g;
             sent := req :: sent f |}
      | _, _ => f'
      end
  end.

(** The request failed with the sentence shown. *)
Definition submit_failed (message : jstr) (f : form) : form :=
  if inFlight (submitGuard f) then
    {| initial := initial f; draft := draft f; phase := phase f; preview := preview f; previewError := previewError f;
       previewLoading := previewLoading f; rejectedKey := rejectedKey f; formError := Some (message, problemField message);
       submitGuard := end_ (submitGuard f); sent := sent f |}
  else f.

(** The keys that have a place to render an error. *)
Definition last_part (k : jstr) : jstr := default k (last (split_unit 46 k)).
Definition placeableFields (d : RuleDraft) : list jstr :=
  [js "name"; js "severity"; js "for"] ++ (last_part ∘ f_key <$> fields_of d).

Definition errorFor (f : form) (k : jstr) : option jstr :=
  match formError f with
  | Some (message, Some fld) =>
      if seqb fld [] then None
      else if seqb fld k || seqb fld (last_part k) then Some message else None
  | _ => None
  end.

Definition bannerError (f : form) : option jstr :=
  match formError f with
  | Some (message, Some fld) => if existsb (seqb fld) (placeableFields (draft f)) then None else Some message
  | Some (message, None) => Some message
  | None => None
  end.

(** What happens to a mounted form; a request that succeeds unmounts it. *)
Inductive form_event :=
  | ev_edit (d : RuleDraft)
  | ev_timer
  | ev_answer (rejected : bool)
  | ev_preview_failed (message : jstr)
  | ev_submit
  | ev_submit_failed (message : jstr).

Definition form_step (f : form) (e : form_event) : option form :=
  match e with
  | ev_edit d => edit d f
  | ev_timer => Some (timer_fires f)
  | ev_answer rejected => Some (preview_answered rejected f)
  | ev_preview_failed message => Some (preview_failed message f)
  | ev_submit => Some (handleSubmit f)
  | ev_submit_failed message => Some (submit_failed message f)
  end.

Fixpoint form_run (f : form) (es : list form_event) : option form :=
  match es with [] => Some f | e :: es' => f' ← form_step f e; form_run f' es' end.

(** ** What the form can send *)

(** A press on the form [g] that sends [q]: every check of the handler passed, and the request is the draft's own. *)
Definition passes (g : form) (q : AlertRuleRequest) : Prop :=
  exprRejected g = false /\ inFlight (submitGuard g) = false /\ trim (name (draft g)) <> [] /\ reservedMessage (draft g) = None /\
  duplicateKey (labels (draft g)) = None /\ duplicateKey (annotations (draft g)) = None /\
  parsePromDuration t (forText (draft g)) = duration_ok (q_forNs q) /\ requestFromDraft (draft g) (q_forNs q) = Some q.

Lemma requestFromDraft_forNs d ns q : requestFromDraft d ns = Some q -> q_forNs q = ns.
Proof. unfold requestFromDraft. destruct (paramsFromDraft _ _); [|discriminate]. cbn [mbind option_bind]. by intros <-%Some_inj. Qed.

Lemma handleSubmit_sends g :
  sent (handleSubmit g) = sent g \/ exists q, sent (handleSubmit g) = q :: sent g /\ passes g q.
Proof.
  unfold handleSubmit. cbv zeta. destruct (exprRejected g) eqn:Ex; [by left|].
  destruct (reservedMessage _) eqn:Er; [by left|]. destruct (duplicateKey (labels _)) eqn:El; [by left|].
  destruct (duplicateKey (annotations _)) eqn:Ea; [by left|]. cbn [is_some orb].
  destruct (seqb (trim _) []) eqn:En; [by left|]. destruct (parsePromDuration _ _) as [ns|m] eqn:Ep; [|by left].
  unfold begin. destruct (inFlight (submitGuard g)) eqn:Ef; [by left|].
  destruct (requestFromDraft _ _) as [q|] eqn:Eq; [|by left]. right. exists q. split; [done|].
  pose proof (requestFromDraft_forNs _ _ _ Eq) as En'. unfold passes. rewrite En'. apply seqb_neq in En. done.
Qed.

(** No other event sends. *)
Lemma form_step_quiet f e f' : e <> ev_submit -> form_step f e = Some f' -> sent f' = sent f.
Proof.
  intros Hne. destruct e as [d| |r|m| |m]; cbn [form_step]; try done.
  - unfold edit. destruct (paramFieldsFor (kind d)); [|discriminate]. intros <-%Some_inj. destruct (_ && _); [done|].
    unfold preview_effect. by destruct (negb _).
  - intros <-%Some_inj. unfold timer_fires. by destruct (phase f).
  - intros <-%Some_inj. unfold preview_answered. by destruct (phase f).
  - intros <-%Some_inj. unfold preview_failed. by destruct (phase f).
  - intros <-%Some_inj. unfold submit_failed. by destruct (inFlight _).
Qed.

Lemma form_run_app f es1 es2 : form_run f (es1 ++ es2) = f' ← form_run f es1; form_run f' es2.
Proof. revert f. induction es1 as [|e es1 IH]; intros f; [done|]. simpl. destruct (form_step f e); [by apply IH|done]. Qed.

(** Each request was sent by a press of the history, on the form as it was then. *)
Definition submitted (f0 : form) (es : list form_event) (q : AlertRuleRequest) : Prop :=
  exists before after g, es = before ++ ev_submit :: after /\ form_run f0 before = Some g /\ passes g q.

Lemma form_run_sent f0 es f : sent f0 = [] -> form_run f0 es = Some f -> Forall (submitted f0 es) (sent f).
Proof.
  intros H0. revert f. induction es as [|e es IH] using rev_ind; intros f; [intros <-%Some_inj; rewrite H0; constructor|].
  rewrite form_run_app. destruct (form_run f0 es) as [g|] eqn:Eg; [|discriminate]. cbn [mbind option_bind form_run].
  destruct (form_step g e) as [g'|] eqn:Es; [|discriminate]. intros <-%Some_inj.
  assert (Hold : Forall (submitted f0 (es ++ [e])) (sent g)).
  { apply (Forall_impl _ _ _ (IH g eq_refl)). intros q (before & after & h & -> & Hh). exists before, (after ++ [e]), h. by rewrite <- app_assoc. }
  assert (He : e = ev_submit \/ e <> ev_submit) by (destruct e; auto; by right). destruct He as [->|Hne]; [|by rewrite (form_step_quiet _ _ _ Hne Es)].
  apply Some_inj in Es as <-. destruct (handleSubmit_sends g) as [->|(q & -> & Hq)]; [done|]. constructor; [|done].
  exists es, [], g. done.
Qed.

Definition failures (es : list form_event) : nat :=
  length (List.filter (fun e => match e with ev_submit_failed _ => true | _ => false end) es).

(** [n] submissions have failed so far. *)
Record form_ok (n : nat) (f : form) : Prop := {
  fo_count : (length (sent f) <= n + if inFlight (submitGuard f) then 1 else 0)%nat;
  fo_guard : submitting (submitGuard f) = inFlight (submitGuard f);
  fo_loading : previewLoading f = true <-> phase f <> phase_none;
  fo_ready : phase f <> phase_none -> previewReady (draft f) = true;
}.

Lemma preview_effect_ok n f :
  (length (sent f) <= n + if inFlight (submitGuard f) then 1 else 0)%nat ->
  submitting (submitGuard f) = inFlight (submitGuard f) -> form_ok n (preview_effect f).
Proof.
  intros Hc Hg. unfold preview_effect. destruct (previewReady (draft f)) eqn:E; constructor; simpl; auto; try done.
Qed.

Lemma edit_ok n d f f' : form_ok n f -> edit d f = Some f' -> form_ok n f'.
Proof.
  intros [Hc Hg Hl Hr]. unfold edit. destruct (paramFieldsFor (kind d)); [|discriminate]. intros <-%Some_inj.
  destruct (seqb _ _ && _) eqn:E; [|by apply preview_effect_ok].
  apply andb_true_iff in E as [_ E%Bool.eqb_prop]. constructor; simpl; auto. intros Hp. rewrite E. by apply Hr.
Qed.

Lemma refuse_ok n e f : form_ok n f -> form_ok n (refuse e f).
Proof. intros []. by constructor. Qed.

Lemma handleSubmit_ok n f : form_ok n f -> form_ok n (handleSubmit f).
Proof.
  intros Hok. unfold handleSubmit. cbv zeta. destruct (exprRejected f); [by apply refuse_ok|].
  destruct (is_some _); [by apply refuse_ok|]. destruct (_ || _); [by apply refuse_ok|].
  destruct (seqb (trim _) []); [by apply refuse_ok|]. destruct (parsePromDuration _ _) as [ns|m]; [|by apply refuse_ok].
  unfold begin. destruct (inFlight (submitGuard f)) eqn:Ef; [by apply refuse_ok|].
  destruct (requestFromDraft _ _) as [req|]; [|by apply refuse_ok]. destruct Hok as [Hc Hg Hl Hr]. rewrite Ef in Hc.
  constructor; simpl; auto. lia.
Qed.

Lemma form_step_ok n f e f' :
  form_ok n f -> form_step f e = Some f' -> form_ok (n + failures [e]) f'.
Proof.
  intros Hok. unfold failures. destruct e as [d| |r|m| |m]; cbn [form_step List.filter length]; rewrite ?Nat.add_0_r; [by apply edit_ok| | | | |];
    intros [= <-].
  - unfold timer_fires. destruct Hok as [Hc Hg Hl Hr]. destruct (phase f) eqn:E; try (constructor; simpl; rewrite ?E; auto; done).
    constructor; simpl; auto. split; [done|]. intros _. by apply Hl.
  - unfold preview_answered. destruct Hok as [Hc Hg Hl Hr]. destruct (phase f) eqn:E; constructor; simpl; rewrite ?E; auto; done.
  - unfold preview_failed. destruct Hok as [Hc Hg Hl Hr]. destruct (phase f) eqn:E; constructor; simpl; rewrite ?E; auto; done.
  - by apply handleSubmit_ok.
  - unfold submit_failed. destruct Hok as [Hc Hg Hl Hr]. destruct (inFlight (submitGuard f)) eqn:E;
      (constructor; simpl; [|rewrite ?E; congruence|done|done]); rewrite ?E; lia.
Qed.

Lemma form_run_ok n f es f' : form_ok n f -> form_run f es = Some f' -> form_ok (n + failures es) f'.
Proof.
  revert n f. induction es as [|e es IH]; intros n f Hok; simpl form_run; [intros [= <-]; unfold failures; simpl; by rewrite Nat.add_0_r|].
  destruct (form_step f e) as [f1|] eqn:E; [|discriminate]. cbn [mbind option_bind]. intros Hrun.
  pose proof (IH _ _ (form_step_ok _ _ _ _ Hok E) Hrun) as H.
  assert (n + failures [e] + failures es = n + failures (e :: es))%nat as <-; [|done].
  unfold failures. simpl. destruct e; simpl; lia.
Qed.

Lemma mount_ok rule f : mount rule = Some f -> form_ok 0 f.
Proof.
  unfold mount. destruct (draftFrom rule); [|discriminate]. cbn [mbind option_bind]. intros [= <-].
  apply preview_effect_ok; simpl; [lia|done].
Qed.

Lemma mount_sent rule f : mount rule = Some f -> sent f = [].
Proof.
  unfold mount. destruct (draftFrom rule); [|discriminate]. cbn [mbind option_bind]. intros <-%Some_inj. unfold preview_effect. by destruct (negb _).
Qed.

(** The rows of a form as a map: one entry for every row with a usable name, and no other; [__proto__] is not usable, an
    assignment to it makes no entry. *)
Definition rows_kept (rows : list Pair) (m : list (jstr * jstr)) : Prop :=
  forall k v, mget m k = Some v <-> exists p, p ∈ rows /\ kept_row p = true /\ trim (key p) = k /\ pvalue p = v.

Definition row_names (rows : list Pair) : list jstr := trim ∘ key <$> List.filter (fun p => negb (seqb (trim (key p)) [])) rows.

Lemma mapFrom_rows_kept rows : duplicateKey rows = None -> rows_kept rows (mapFrom rows).
Proof.
  intros Hd k v. split; [|intros (p & Hp & Hk & <- & <-); by apply no_duplicate_keeps_rows].
  rewrite mapFrom_get. intros (p & El & ->)%fmap_Some. apply last_Some_elem_of, elem_of_filter_b in El as [Hp [Hk Ek%seqb_eq]%andb_true_iff].
  by exists p.
Qed.

Lemma row_names_distinct rows : duplicateKey rows = None -> NoDup (row_names rows).
Proof. by intros [Hn _]%duplicate_from_None. Qed.

Lemma reservedMessage_rows d : reservedMessage d = None -> Forall (fun p => trim (key p) ∉ RESERVED_LABEL_NAMES) (labels d).
Proof.
  intros Hres. apply Forall_forall. intros p Hp Hin. assert (Hin' : reservedLabelMessage (trim (key p)) <> None).
  { unfold reservedLabelMessage. rewrite (proj2 (existsb_elem _ _)); [done|]. exists (trim (key p)). split; [done|]. by apply seqb_eq. }
  destruct (reservedLabelMessage _) as [m|] eqn:Em; [|done].
  assert (Hom : m ∈ omap (fun p => reservedLabelMessage (trim (key p))) (labels d)) by (apply list_elem_of_omap; eauto).
  unfold reservedMessage in Hres. destruct (omap _ _); [by apply not_elem_of_nil in Hom|done].
Qed.

(** C14: whatever is typed, previewed and pressed, every request the rule builder sends was sent by one of the presses, and
    is the rule that was on the form at that press: its name, which is not blank, kind, severity and switch, the
    parameters read off its boxes, and the duration its [for] box reads as, between zero and the bound of the store.
    No two rows of its labels, or of its annotations, had one name and no label a reserved one; and the labels sent
    are exactly the rows with a usable name, each with its value, and so the annotations (a row named [__proto__] is
    the exception: it passes the checks and is not sent).  A second request leaves only after the one before it
    failed. *)
Theorem form_sends_only_valid rule f es f' :
  mount rule = Some f -> form_run f es = Some f' ->
  (length (sent f') <= S (failures es))%nat /\
  forall q, q ∈ sent f' -> exists before after g,
    es = before ++ ev_submit :: after /\ form_run f before = Some g /\ let d := draft g in
    q_name q = name d /\ trim (name d) <> [] /\ q_kind q = kind d /\ q_severity q = severity d /\ q_enabled q = enabled d /\
    paramsFromDraft (kind d) (params d) = Some (q_params q) /\
    parsePromDuration t (forText d) = duration_ok (q_forNs q) /\ (exists z, q_forNs q = Fin z /\ 0 <= z <= 2 ^ 63 * U) /\
    Forall (fun p => trim (key p) ∉ RESERVED_LABEL_NAMES) (labels d) /\ NoDup (row_names (labels d)) /\ NoDup (row_names (annotations d)) /\
    rows_kept (labels d) (q_labels q) /\ rows_kept (annotations d) (q_annotations q).
Proof.
  intros Hm Hrun. destruct (form_run_ok 0 f es f' (mount_ok _ _ Hm) Hrun) as [Hc _ _ _]. split.
  { destruct (inFlight _); lia. }
  intros q Hq. pose proof (form_run_sent f es f' (mount_sent _ _ Hm) Hrun) as Hs.
  destruct (proj1 (Forall_forall _ _) Hs q Hq) as (before & after & g & Ees & Hg & _ & _ & Hn & Hres & Hl & Ha & Hdur & Hreq).
  exists before, after, g. split; [done|]. split; [done|]. cbv zeta. unfold requestFromDraft in Hreq.
  destruct (paramsFromDraft _ _) as [ps|] eqn:Eps; [|discriminate]. apply Some_inj in Hreq. rewrite <- Hreq. clear Hq Hs.
  cbn [q_name q_kind q_severity q_enabled q_params q_forNs q_labels q_annotations].
  split_and!; try done; [by eapply accepted_duration_bounded|by apply reservedMessage_rows|by apply row_names_distinct|
    by apply row_names_distinct|by apply mapFrom_rows_kept|by apply mapFrom_rows_kept].
Qed.

(** ** What a rejection blocks *)

Definition request_key (q : AlertRuleRequest) : jstr := key_of (q_kind q) (q_params q) (q_labels q).

Lemma request_previewKey d ns q : requestFromDraft d ns = Some q -> request_key q = previewKey d.
Proof.
  unfold requestFromDraft, previewKey, draft_params, request_key. destruct (paramsFromDraft _ _); [|discriminate].
  cbn [mbind option_bind]. intros <-%Some_inj. reflexivity.
Qed.

(** Events that bring no verdict; edits that leave a required box of the form empty. *)
Definition no_verdict (e : form_event) : Prop := match e with ev_answer _ | ev_preview_failed _ => False | _ => True end.
Definition leaves_incomplete (e : form_event) : bool := match e with ev_edit d => negb (previewReady d) | _ => false end.

(** The block of the rejected key [k], while it stands: it is held, and its form is complete. *)
Definition blocks (k : jstr) (f : form) : Prop := rejectedKey f = Some k /\ previewReady (draft f) = true.

Lemma blocked_step k f e f' :
  blocks k f -> no_verdict e -> form_step f e = Some f' ->
  (if leaves_incomplete e then rejectedKey f' = None /\ previewReady (draft f') = false else blocks k f') /\
  exists new, sent f' = new ++ sent f /\ Forall (fun q => request_key q <> k) new.
Proof.
  intros [Hk Hr] Hv Hs. split.
  - destruct e as [d| |r|m| |m]; cbn [form_step leaves_incomplete no_verdict] in *; try done.
    + unfold edit in Hs. destruct (paramFieldsFor (kind d)); [|discriminate]. apply Some_inj in Hs as <-.
      rewrite Hr. destruct (previewReady d) eqn:Ed; cbn [negb].
      * unfold blocks. destruct (_ && _); [done|]. unfold preview_effect. cbn. by rewrite Ed.
      * rewrite andb_false_r. unfold preview_effect. cbn. by rewrite Ed.
    + apply Some_inj in Hs as <-. unfold blocks, timer_fires. by destruct (phase f).
    + apply Some_inj in Hs as <-. unfold blocks, handleSubmit. cbv zeta. by repeat case_match.
    + apply Some_inj in Hs as <-. unfold blocks, submit_failed. by destruct (inFlight _).
  - assert (He : e = ev_submit \/ e <> ev_submit) by (destruct e; auto; by right). destruct He as [->|Hne].
    2:{ exists []. split; [by apply (form_step_quiet _ e)|constructor]. }
    apply Some_inj in Hs as <-. destruct (handleSubmit_sends f) as [->|(q & -> & Hx & Hq)]; [exists []; split; [done|constructor]|].
    exists [q]. split; [done|]. constructor; [|constructor]. destruct Hq as (_ & _ & _ & _ & _ & _ & Hq). rewrite (request_previewKey _ _ _ Hq).
    unfold exprRejected in Hx. rewrite Hk in Hx. apply seqb_neq in Hx. congruence.
Qed.

(** A block that was lifted stays lifted without a verdict. *)
Lemma lifted_step f e f' : rejectedKey f = None -> no_verdict e -> form_step f e = Some f' -> rejectedKey f' = None.
Proof.
  intros Hk Hv Hs. destruct e as [d| |r|m| |m]; cbn [form_step no_verdict] in *; try done.
  - unfold edit in Hs. destruct (paramFieldsFor (kind d)); [|discriminate]. apply Some_inj in Hs as <-.
    destruct (_ && _); [done|]. unfold preview_effect. by destruct (negb _).
  - apply Some_inj in Hs as <-. unfold timer_fires. by destruct (phase f).
  - apply Some_inj in Hs as <-. unfold handleSubmit. cbv zeta. by repeat case_match.
  - apply Some_inj in Hs as <-. unfold submit_failed. by destruct (inFlight _).
Qed.

Lemma form_run_grows f es f' : form_run f es = Some f' -> exists new, sent f' = new ++ sent f.
Proof.
  revert f. induction es as [|e es IH]; intros f; cbn [form_run]; [intros <-%Some_inj; by exists []|].
  destruct (form_step f e) as [g|] eqn:E; [|discriminate]. cbn [mbind option_bind]. intros [new ->]%IH.
  assert (He : e = ev_submit \/ e <> ev_submit) by (destruct e; auto; by right). destruct He as [->|Hne].
  - apply Some_inj in E as <-. destruct (handleSubmit_sends f) as [->|(q & -> & _)]; [by exists new|]. exists (new ++ [q]). by rewrite <- app_assoc.
  - exists new. by rewrite (form_step_quiet _ _ _ Hne E).
Qed.

Lemma blocked_run k f es f' :
  blocks k f -> Forall no_verdict es -> form_run f es = Some f' ->
  rejectedKey f' = (if existsb leaves_incomplete es then None else Some k) /\
  exists new, sent f' = new ++ sent f /\ (existsb leaves_incomplete es = false -> Forall (fun q => request_key q <> k) new).
Proof.
  intros Hb Hv. revert f Hb. induction Hv as [|e es He Hv IH]; intros f Hb; cbn [form_run existsb].
  { intros <-%Some_inj. split; [by destruct Hb|]. exists []. split; [done|constructor]. }
  destruct (form_step f e) as [g|] eqn:E; [|discriminate]. cbn [mbind option_bind]. intros Hrun.
  destruct (blocked_step k f e g Hb He E) as [Hg (new1 & Hs1 & Hn1)]. destruct (leaves_incomplete e); cbn [orb].
  - split; [|destruct (form_run_grows g es f' Hrun) as [new ->]; exists (new ++ new1); by rewrite Hs1, app_assoc].
    destruct Hg as [Hg _]. clear -Hv Hrun Hg. revert g Hg Hrun. induction Hv as [|e es He Hv IH]; intros g Hg; cbn [form_run]; [by intros <-%Some_inj|].
    destruct (form_step g e) as [h|] eqn:E; [|discriminate]. cbn [mbind option_bind]. apply IH. by apply (lifted_step g e).
  - destruct (IH g Hg Hrun) as [Hk (new & Hs & Hn)]. split; [done|]. exists (new ++ new1). rewrite Hs, Hs1, app_assoc.
    split; [done|]. intros Hx. apply Forall_app. auto.
Qed.

(** C30: what a rejected preview blocks, and for how long.  On a form reached from its mounting, when the preview of the
    expression on it comes back refused, then until another verdict arrives, whatever is edited, pressed and answered,
    that expression stays blocked exactly as long as no edit leaves a required box empty: as long as that holds, no
    request carries it.  (The condition is needed: emptying a box forgets the rejection, and the same expression typed
    again is sent if it is saved before its new preview is answered.) *)
Theorem refused_expression_not_saved rule f0 before f es f' :
  mount rule = Some f0 -> form_run f0 before = Some f -> phase f = phase_asked ->
  Forall no_verdict es -> form_run (preview_answered true f) es = Some f' ->
  rejectedKey f' = (if existsb leaves_incomplete es then None else Some (previewKey (draft f))) /\
  exists new, sent f' = new ++ sent f /\
    (existsb leaves_incomplete es = false -> Forall (fun q => request_key q <> previewKey (draft f)) new).
Proof.
  intros Hm Hb Hp Hv Hrun. destruct (form_run_ok 0 f0 before f (mount_ok _ _ Hm) Hb) as [_ _ _ Hr].
  assert (Hs : sent (preview_answered true f) = sent f) by (unfold preview_answered; by rewrite Hp).
  rewrite <- Hs. apply blocked_run; [|done|done]. unfold blocks, preview_answered. rewrite Hp. cbn. split; [done|]. apply Hr. congruence.
Qed.
End Form.

(** A rule on DNS failures, refused once, then saved under another threshold. *)
Module RuleFormWitness.
Definition en : Translate := fun k _ => k.
Definition with_threshold (v : string) : RuleDraft :=
  {| name := js "dns"; kind := js "dns-failures"; params := [(js "thresholdPercent", js v)]; severity := js "warning";
     forText := js "5m"; labels := [{| key := js " team "; pvalue := js "net" |}]; annotations := []; enabled := true |}.
Definition before : list form_event := [ev_edit (with_threshold "500"); ev_timer].
Definition after_refusal : list form_event := [ev_submit; ev_edit (with_threshold "5"); ev_submit; ev_submit].
Definition asked : form := match mount None with Some f => default f (form_run en f before) | None => preview_effect
  {| initial := None; draft := with_threshold "5"; phase := phase_none; preview := None; previewError := None;
     previewLoading := false; rejectedKey := None; formError := None; submitGuard := guard_idle; sent := [] |} end.
Definition saved : form := default asked (form_run en (preview_answered true asked) after_refusal).

Definition blank : form := default asked (mount None).

Lemma refused_expression_not_saved_witness :
  length (sent saved) = 1%nat /\ rejectedKey saved = Some (previewKey (draft asked)) /\
  exists new, sent saved = new ++ sent asked /\
    (existsb leaves_incomplete after_refusal = false -> Forall (fun q => request_key q <> previewKey (draft asked)) new).
Proof.
  split; [vm_compute; reflexivity|].
  assert (E : existsb leaves_incomplete after_refusal = false) by (vm_compute; reflexivity).
  destruct (refused_expression_not_saved en None blank before asked after_refusal saved) as [Hk Hn].
  - vm_compute. reflexivity.
  - vm_compute. reflexivity.
  - vm_compute. reflexivity.
  - repeat constructor.
  - vm_compute. reflexivity.
  - rewrite E in Hk. split; [exact Hk|exact Hn].
Defined.

(** The same expression, typed again after its box was emptied, is sent although no preview has judged it since. *)
Example emptied_box_forgets :
  let es := [ev_edit (with_threshold ""); ev_edit (with_threshold "500"); ev_submit] in
  (fun f => request_key <$> sent f) <$> form_run en (preview_answered true asked) es = Some [previewKey (draft asked)] /\
  Forall no_verdict es.
Proof. split; [vm_compute; reflexivity|repeat constructor]. Qed.

Definition all_events : list form_event := before ++ [ev_answer true] ++ after_refusal.

(** One request, with its label row under the trimmed name. *)
Lemma form_sends_only_valid_witness :
  q_labels <$> sent saved = [[(js "team", js "net")]] /\ (length (sent saved) <= S (failures all_events))%nat /\
  forall q, q ∈ sent saved -> exists es1 es2 g,
    all_events = es1 ++ ev_submit :: es2 /\ form_run en blank es1 = Some g /\ rows_kept (labels (draft g)) (q_labels q).
Proof.
  split; [vm_compute; reflexivity|].
  destruct (form_sends_only_valid en None blank all_events saved) as [Hn Hq]; [vm_compute; reflexivity|vm_compute; reflexivity|].
  split; [exact Hn|]. intros q Hin. destruct (Hq q Hin) as (es1 & es2 & g & Hes & Hg & Hd).
  exists es1, es2, g. split; [exact Hes|]. split; [exact Hg|]. apply Hd.
Defined.
End RuleFormWitness.
