(* ===== verification/Targets.v ===== *)
(** Targets, check definitions and schedules ([web/src/pages/targets.tsx]): the tab in the address, the placing of a
    refusal, the label and interval grammars, the kinds a definition can be scheduled as, and the three forms'
    checks. *)
From S2P Require Import Prelude JsNum JsString JsCollections JsValue JsDate JsFormat JsUrl JsJson SubmitGuard Utils.
Local Open Scope Z_scope.

(** ** The tab in the address *)

Definition TABS : list (jstr * jstr) :=
  [(js "targets", js "tab.targets"); (js "definitions", js "tab.definitions"); (js "schedules", js "tab.schedules")].

Definition VIEW_PARAM : jstr := js "view".

Definition tabFromSearch (search : jstr) : jstr :=
  match qs_get (qs_parse search) VIEW_PARAM with
  | Some raw => if existsb (fun tb => seqb tb.1 raw) TABS then raw else js "targets"
  | None => js "targets"
  end.

(** [select]: the address pushed, if one is; the tab shown. *)
Definition select_tab (next : jstr) (u : Url) (tab : jstr) : option Url * jstr :=
  if bool_decide (qs_get (params u) VIEW_PARAM = Some next) then (None, tab)
  else
    let ps := if seqb next (js "targets") then qs_delete (params u) VIEW_PARAM else qs_set (params u) VIEW_PARAM next in
    (Some {| pathname := pathname u; params := ps; hash := hash u |}, next).

(** ** What runs toward something that is no node *)

Definition EXTERNAL_CONTINUOUS_TYPES : list jstr := [js "tcp"; js "icmp"; js "dns"; js "http"].
Definition EXTERNAL_RUN_TYPES : list jstr := [js "tcp"; js "icmp"; js "mtr"].

Definition probesNodesOnly (ty : jstr) : bool :=
  negb (existsb (seqb ty) EXTERNAL_CONTINUOUS_TYPES) && negb (existsb (seqb ty) EXTERNAL_RUN_TYPES).

(** ** Refusals *)

Definition TARGET_FIELD_PHRASES : list (jstr * jstr) :=
  [(js "labels", js "labels"); (js "address", js "address"); (js "kind", js "kind"); (js "name", js "name")].

Definition SCHEDULE_FIELD_PHRASES : list (jstr * jstr) :=
  [(js "definitionId", js "definition id"); (js "runAt", js "run at"); (js "intervalNs", js "interval"); (js "kind", js "kind")].

Definition DEFINITION_FIELD_PHRASES : list (jstr * jstr) :=
  [(js "destinationTargetId", js "destination target id"); (js "destinationAddress", js "destination address");
   (js "destinationKind", js "destination kind"); (js "sourceSelection", js "source selection");
   (js "checkType", js "check type"); (js "params", js "params"); (js "plane", js "plane"); (js "name", js "name")].

(** The part of a problem a form reads; [None] in its place is an error that is no [ApiError]. *)
Record Problem := { detail : option jstr; title : option jstr }.

Section Refusals.
Context (toLowerCase : jstr -> jstr).

Definition fieldForDetail (detail : jstr) (phrases : list (jstr * jstr)) : option jstr :=
  fst <$> find (fun p => includes (toLowerCase detail) p.2) phrases.

(** A form's errors, by field. *)
Definition errorsFromProblem (err : option Problem) (phrases : list (jstr * jstr)) (fallback : jstr) : list (jstr * jstr) :=
  match err with
  | None => [(js "form", fallback)]
  | Some p =>
      let said := trim (match detail p with Some d => d | None => default [] (title p) end) in
      let d := if seqb said [] then fallback else said in
      match fieldForDetail d phrases with Some field => [(field, d)] | None => [(js "form", d)] end
  end.
End Refusals.

(** ** Labels *)

(** One fragment: nothing, a pair, or the fragment that is none. *)
Definition label_part (raw : jstr) : jstr + option (jstr * jstr) :=
  let part := trim raw in
  if seqb part [] then inr None
  else match indexOf part [61] with
  | None | Some O => inl part
  | Some eq => inr (Some (trim (take eq part), trim (drop (S eq) part)))
  end.

(** [inl part] is the [LabelSyntaxError] of a fragment; a write to [__proto__] changes nothing. *)
Fixpoint labels_from (out : list (jstr * jstr)) (raws : list jstr) : jstr + list (jstr * jstr) :=
  match raws with
  | [] => inr out
  | raw :: raws' =>
      match label_part raw with
      | inl part => inl part
      | inr None => labels_from out raws'
      | inr (Some (k, v)) => labels_from (if seqb k (js "__proto__") then out else obj_set out k v) raws'
      end
  end.

Definition parseLabels (text : jstr) : jstr + list (jstr * jstr) := labels_from [] (split_unit 44 text).

Definition label_text (kv : jstr * jstr) : jstr := kv.1 ++ [61] ++ kv.2.

Definition formatLabels (labels : option (list (jstr * jstr))) : jstr :=
  match labels with None => [] | Some ls => join (js ", ") (label_text <$> ls) end.

(** ** Params and kinds *)

(** [dict] holds the keys of the English dictionary. *)
Definition kindLabel (dict : list jstr) (group value : jstr) (t : Translate) : jstr :=
  let key := js "kind." ++ group ++ js "." ++ value in
  if existsb (seqb key) dict then t key [] else value.

(** [JSON_parse]: [None] where it throws. *)
Definition tryParseParams (JSON_parse : jstr -> option value) (text : jstr) : jstr + option value :=
  let trimmed := trim text in
  if seqb trimmed [] then inr None
  else match JSON_parse trimmed with
  | Some (VObj fs) => inr (Some (VObj fs))
  | Some _ => inl (js "definitions.form.paramsNotObject")
  | None => inl (js "definitions.form.paramsNotJson")
  end.

(** ** Cadences *)

Inductive IntervalUnit := iu_second | iu_minute | iu_hour.

Definition fmtIntervalNs (ns : number) : jstr :=
  if negb (isFinite ns) || (ns =? int 0)%num then js "—"
  else
    let seconds := (ns / int 1000000000)%num in
    if (seconds <? int 60)%num then num_to_string (number_of_string (toFixed seconds 3)) ++ js "s"
    else
      let minutes := (seconds / int 60)%num in
      if (minutes <? int 60)%num then num_to_string (number_of_string (toFixed minutes 2)) ++ js "m"
      else num_to_string (number_of_string (toFixed (minutes / int 60)%num 2)) ++ js "h".

Definition intervalParts (ns : number) : option (number * IntervalUnit) :=
  if negb (isFinite ns) || (ns =? int 0)%num then None
  else
    let seconds := (ns / int 1000000000)%num in
    if (seconds <? int 60)%num then Some (number_of_string (toFixed seconds 3), iu_second)
    else
      let minutes := (seconds / int 60)%num in
      if (minutes <? int 60)%num then Some (number_of_string (toFixed minutes 2), iu_minute)
      else Some (number_of_string (toFixed (minutes / int 60)%num 2), iu_hour).

Record CadencePhrases := { ph_interval : jstr -> jstr; ph_every : IntervalUnit -> jstr; ph_unit : IntervalUnit -> jstr }.

Definition fmtCadence (ns : number) (locale : jstr) (phrases : CadencePhrases) : jstr :=
  match intervalParts ns with
  | Some (value, unit) =>
      if seqb locale (js "en") then ph_interval phrases (fmtIntervalNs ns)
      else if (value =? int 1)%num then ph_every phrases unit
      else ph_interval phrases (num_to_string value ++ js " " ++ ph_unit phrases unit)
  | None => ph_interval phrases (fmtIntervalNs ns)
  end.

(** ** Schedules *)

Record Schedule := { s_definitionId : jstr; s_kind : jstr; s_intervalNs : number; s_runAt : option jstr; s_enabled : bool }.

Record ScheduleRequest := {
  q_definitionId : jstr; q_kind : jstr; q_intervalNs : option number; q_runAt : option jstr; q_enabled : bool;
}.

Record CheckDefinition := { d_id : jstr; d_name : jstr; d_checkType : jstr; d_destinationKind : jstr;
  d_destinationTargetId : jstr; d_destinationAddress : jstr }.

Record Target := { t_id : jstr; t_name : jstr }.

Definition unit_name (u : IntervalUnit) : jstr :=
  match u with iu_second => js "second" | iu_minute => js "minute" | iu_hour => js "hour" end.

Section Rows.
Context `{DateHost} (stampFull : Z -> jstr).

Definition fmtTime (timestamp : option jstr) : jstr :=
  match timestamp with
  | None | Some [] => js "—"
  | Some ts => match date_of_string ts with Some d => stampFull d | None => ts end
  end.

Definition cadence (s : Schedule) (locale : jstr) (t : Translate) : jstr :=
  if seqb (s_kind s) (js "interval") then
    fmtCadence (s_intervalNs s) locale {|
      ph_interval interval := t (js "schedules.cadence.interval") [(js "interval", VStr interval)];
      ph_every u := t (js "schedules.cadence.every." ++ unit_name u) [];
      ph_unit u := t (js "schedules.cadence.unit." ++ unit_name u) [] |}
  else if seqb (s_kind s) (js "once") then t (js "schedules.cadence.once") [(js "at", VStr (fmtTime (s_runAt s)))]
  else if seqb (s_kind s) (js "continuous") then t (js "schedules.cadence.continuous") []
  else s_kind s.
End Rows.

Definition destinationLabel (d : CheckDefinition) (targets : list Target) (t : Translate) : jstr :=
  if seqb (d_destinationKind d) (js "node") then t (js "definitions.destination.everyNode") []
  else if seqb (d_destinationKind d) (js "target") then
    match find (fun x => seqb (t_id x) (d_destinationTargetId d)) targets with
    | Some x => t_name x
    | None => d_destinationTargetId d
    end
  else if seqb (d_destinationKind d) (js "adhoc") then d_destinationAddress d
  else d_destinationKind d.

Definition SCHEDULE_KINDS : list jstr := [js "once"; js "interval"; js "continuous"].

Definition scheduleKindsFor (d : option CheckDefinition) : list jstr :=
  match d with
  | None => SCHEDULE_KINDS
  | Some d =>
      if seqb (d_destinationKind d) (js "node") then SCHEDULE_KINDS
      else List.filter (fun k => existsb (seqb (d_checkType d))
                                   (if seqb k (js "continuous") then EXTERNAL_CONTINUOUS_TYPES else EXTERNAL_RUN_TYPES))
             SCHEDULE_KINDS
  end.

Definition scheduleKindsHint (d : option CheckDefinition) (kinds : list jstr) (t : Translate) : option jstr :=
  match d with
  | None => None
  | Some d =>
      if (length kinds =? length SCHEDULE_KINDS)%nat then None
      else
        let vars := [(js "type", VStr (d_checkType d))] in
        match kinds with
        | [] => Some (t (js "schedules.form.kinds.nodesOnly") vars)
        | _ => Some (t (if existsb (seqb (js "continuous")) kinds then js "schedules.form.kinds.continuousOnly"
                        else js "schedules.form.kinds.runsOnly") vars)
        end
  end.

Definition scheduleRequestFrom (s : Schedule) (enabled : bool) : ScheduleRequest :=
  {| q_definitionId := s_definitionId s; q_kind := s_kind s;
     q_intervalNs := if seqb (s_kind s) (js "interval") then Some (s_intervalNs s) else None;
     q_runAt := if seqb (s_kind s) (js "once")
                then match s_runAt s with Some (_ :: _) => s_runAt s | _ => None end else None;
     q_enabled := enabled |}.

Definition MAX_SAFE_INTEGER : Z := 2 ^ 53 - 1.

Definition MAX_INTERVAL_SECONDS : number := nfloor (int MAX_SAFE_INTEGER / int 1000000000)%num.

(** [digits] or [digits.digits]. *)
Definition is_decimal (s : jstr) : bool :=
  let '(ip, r) := span is_digit s in
  negb (seqb ip []) &&
  match r with
  | [] => true
  | c :: r' => (c =? 46) && negb (seqb r' []) && forallb is_digit r'
  end.

Definition isSafeInteger (x : number) : bool :=
  isInteger x && (nabs x <=? int MAX_SAFE_INTEGER)%num.

Definition parseIntervalSeconds (text : jstr) : jstr + number :=
  let s := trim text in
  if negb (is_decimal s) then inl (js "schedules.form.error.interval")
  else
    let seconds := number_of_string s in
    if negb (seconds >? int 0)%num then inl (js "schedules.form.error.interval")
    else if (seconds >? MAX_INTERVAL_SECONDS)%num then inl (js "schedules.form.error.intervalRange")
    else
      let ns := nround (seconds * int 1000000000)%num in
      if negb (isSafeInteger ns) then inl (js "schedules.form.error.intervalRange") else inr ns.

Definition localDateTimeToIso `{DateHost} (value : jstr) : option jstr :=
  if seqb value [] then None else toISOString (date_of_string value).

(** ** The forms *)

(** A form's errors: at most one per field. *)
Abbreviation FieldErrors := (list (jstr * jstr)).

Record TargetRequest := { tq_name : jstr; tq_kind : jstr; tq_address : jstr; tq_labels : list (jstr * jstr) }.

Definition target_check (t : Translate) (name kind address labels : jstr) : FieldErrors + TargetRequest :=
  if seqb (trim name) [] then inl [(js "name", t (js "targets.form.nameRequired") [])]
  else match parseLabels labels with
  | inl part => inl [(js "labels", t (js "targets.form.labelsSyntax") [(js "part", VStr (json_quote part))])]
  | inr ls => inr {| tq_name := name; tq_kind := kind; tq_address := address; tq_labels := ls |}
  end.

Definition TargetForm_handleSubmit (t : Translate) (name kind address labels : jstr) (g : guard) : press FieldErrors TargetRequest :=
  guarded (target_check t name kind address labels) g.

(** The cells of the definition form. *)
Record definition_form := {
  df_new : bool; df_name : jstr; df_checkType : jstr; df_sourceSelection : jstr; df_destinationKind : jstr;
  df_destinationTargetId : jstr; df_destinationAddress : jstr; df_enabled : bool; df_paramsText : jstr;
}.

Record CheckDefinitionRequest := {
  cq_name : jstr; cq_sourceSelection : jstr; cq_destinationKind : jstr; cq_destinationTargetId : option jstr;
  cq_destinationAddress : option jstr; cq_checkType : jstr; cq_plane : jstr; cq_params : option value; cq_enabled : bool;
}.

Section Definitions.
Context (JSON_parse : jstr -> option value) (URL_hostname : jstr -> option jstr) (t tv : Translate).

Definition definition_draft (f : definition_form) : CheckDefinitionRequest :=
  {| cq_name := df_name f; cq_sourceSelection := df_sourceSelection f; cq_destinationKind := df_destinationKind f;
     cq_destinationTargetId := if seqb (df_destinationKind f) (js "target") then Some (df_destinationTargetId f) else None;
     cq_destinationAddress := if seqb (df_destinationKind f) (js "adhoc") then Some (df_destinationAddress f) else None;
     cq_checkType := df_checkType f; cq_plane := js "pod";
     cq_params := match tryParseParams JSON_parse (df_paramsText f) with inr v => v | inl _ => None end;
     cq_enabled := df_enabled f |}.

(** Whether the draft has what the projection endpoint validates. *)
Definition projectable (q : CheckDefinitionRequest) : bool :=
  negb (seqb (cq_name q) []) &&
  negb (seqb (cq_destinationKind q) (js "target") && seqb (default [] (cq_destinationTargetId q)) []) &&
  negb (seqb (cq_destinationKind q) (js "adhoc") && seqb (trim (default [] (cq_destinationAddress q))) []).

Definition unrunnable (f : definition_form) : bool :=
  probesNodesOnly (df_checkType f) && negb (seqb (df_destinationKind f) (js "node"))
  && (seqb (df_checkType f) (js "pmtu") || df_new f || df_enabled f).

(** [projection]: the [overLimit] of the last projection, where there is one. *)
Definition blocked (f : definition_form) (projection : option bool) : bool :=
  unrunnable f || (df_enabled f && bool_decide (projection = Some true)).

Definition definition_check (f : definition_form) : FieldErrors + CheckDefinitionRequest :=
  if seqb (trim (df_name f)) [] then inl [(js "name", t (js "definitions.form.nameRequired") [])]
  else match tryParseParams JSON_parse (df_paramsText f) with
  | inl messageKey => inl [(js "params", t messageKey [])]
  | inr _ =>
      if seqb (df_destinationKind f) (js "adhoc") && negb (seqb (trim (df_destinationAddress f)) [])
         && negb (isValidAdhocAddress URL_hostname (df_destinationAddress f))
      then inl [(js "destinationAddress", tv (js "adhoc.address") [])]
      else inr (definition_draft f)
  end.

Definition DefinitionForm_handleSubmit (f : definition_form) (g : guard) : press FieldErrors CheckDefinitionRequest :=
  guarded (definition_check f) g.
End Definitions.

(** The cells of the schedule form; [sf_runAt] is the moment picked. *)
Record schedule_form := {
  sf_definitionId : jstr; sf_kind : jstr; sf_intervalSeconds : jstr; sf_runAt : date; sf_picked : bool; sf_enabled : bool;
}.

Definition definition_of (definitions : list CheckDefinition) (f : schedule_form) : option CheckDefinition :=
  find (fun d => seqb (d_id d) (sf_definitionId f)) definitions.

Definition unschedulable (definitions : list CheckDefinition) (f : schedule_form) : bool :=
  match scheduleKindsFor (definition_of definitions f) with [] => true | _ => false end.

Definition effectiveKind (definitions : list CheckDefinition) (f : schedule_form) : jstr :=
  match scheduleKindsFor (definition_of definitions f) with
  | [] => sf_kind f
  | k0 :: ks => if existsb (seqb (sf_kind f)) (k0 :: ks) then sf_kind f else k0
  end.

(** Editing a field takes its error and the form's with it. *)
Definition clear_errors (field : jstr) (errors : FieldErrors) : FieldErrors :=
  List.filter (fun e => negb (seqb e.1 field) && negb (seqb e.1 (js "form"))) errors.

Section ScheduleForm.
Context (t : Translate) (definitions : list CheckDefinition).

(** The runAt of a [once] schedule; [None] is the [RangeError] of an invalid date. *)
Definition schedule_check (f : schedule_form) (now : number) : option (FieldErrors + ScheduleRequest) :=
  if seqb (sf_definitionId f) [] then Some (inl [(js "definitionId", t (js "schedules.form.definitionRequired") [])])
  else
    let k := effectiveKind definitions f in
    let req ns at_ := {| q_definitionId := sf_definitionId f; q_kind := k; q_intervalNs := ns; q_runAt := at_; q_enabled := sf_enabled f |} in
    if seqb k (js "interval") then
      match parseIntervalSeconds (sf_intervalSeconds f) with
      | inl messageKey => Some (inl [(js "intervalNs", t messageKey [(js "max", VNum MAX_INTERVAL_SECONDS)])])
      | inr ns => Some (inr (req (Some ns) None))
      end
    else if seqb k (js "once") then
      if negb (sf_picked f) then Some (inl [(js "runAt", t (js "schedules.form.runAtRequired") [])])
      else if (getTime (sf_runAt f) <=? now)%num then Some (inl [(js "runAt", t (js "schedules.form.error.runAtPast") [])])
      else iso ← toISOString (sf_runAt f); Some (inr (req None (Some iso)))
    else Some (inr (req None None)).

Definition ScheduleForm_handleSubmit (f : schedule_form) (now : number) (g : guard) : option (press FieldErrors ScheduleRequest) :=
  c ← schedule_check f now; Some (guarded c g).
End ScheduleForm.

(** ** What is proved *)

(** A tab picked is the tab the pushed address names, and the default leaves the address clean. *)
Theorem tab_roundtrip next u tab :
  next ∈ TABS.*1 -> Forall wf_pair (params u) ->
  match select_tab next u tab with
  | (Some u', tab') => tab' = next /\ tabFromSearch (63 :: qs_print (params u')) = next
  | (None, tab') => tab' = tab /\ qs_get (params u) VIEW_PARAM = Some next
  end.
Proof.
  intros Hn Hwf. unfold select_tab. destruct (bool_decide _) eqn:E; [by apply bool_decide_eq_true_1 in E|].
  split; [done|]. cbn [params].
  assert (Hcase : next = js "targets" \/ next = js "definitions" \/ next = js "schedules").
  { simpl in Hn. rewrite !elem_of_cons in Hn. destruct Hn as [->|[->|[->|Hn]]]; [auto..|by apply not_elem_of_nil in Hn]. }
  assert (Hw : wf_pair (VIEW_PARAM, next)).
  { split; [apply ascii_wf; vm_compute; reflexivity|].
    destruct Hcase as [->|[->| ->]]; apply ascii_wf; vm_compute; reflexivity. }
  unfold tabFromSearch. destruct (seqb next (js "targets")) eqn:Et.
  - apply seqb_eq in Et as ->. rewrite qs_parse_print by (apply Forall_filter_b; exact Hwf). by rewrite qs_get_delete.
  - rewrite qs_parse_print by (by apply qs_set_wf). rewrite qs_get_set_eq.
    destruct Hcase as [->|[->| ->]]; vm_compute; reflexivity.
Qed.

(** Labels a text field can carry. *)
Definition label_ok (kv : jstr * jstr) : Prop :=
  kv.1 <> [] /\ trim kv.1 = kv.1 /\ 61 ∉ kv.1 /\ 44 ∉ kv.1 /\ kv.1 <> js "__proto__" /\ trim kv.2 = kv.2 /\ 44 ∉ kv.2.

Lemma label_text_trim kv pre : label_ok kv -> Forall (fun c => is_space c = true) pre -> trim (pre ++ label_text kv) = label_text kv.
Proof.
  intros (Hne & Hk & _ & _ & _ & Hv & _) Hpre. rewrite <- (app_nil_r (label_text kv)) at 1. apply trim_around; [done|constructor| | |].
  - unfold label_text. destruct kv.1; [done|discriminate].
  - intros c Hc. apply (trim_head kv.1). rewrite Hk. unfold label_text in Hc. destruct kv.1; [done|exact Hc].
  - intros c Hc. unfold label_text in Hc. rewrite !last_app in Hc. destruct (last kv.2) as [x|] eqn:E.
    + injection Hc as ->. apply (trim_last kv.2). by rewrite Hv.
    + simpl in Hc. injection Hc as <-. reflexivity.
Qed.

Lemma label_part_text kv pre :
  label_ok kv -> Forall (fun c => is_space c = true) pre -> label_part (pre ++ label_text kv) = inr (Some kv).
Proof.
  intros Hok Hpre. unfold label_part. rewrite label_text_trim by done.
  destruct Hok as (Hne & Hk & H61 & _ & _ & Hv & _). destruct kv as [k v]. cbn [fst snd] in *. unfold label_text. cbn [fst snd].
  rewrite (proj2 (seqb_neq _ _)) by (destruct k; [done|discriminate]).
  change ([61] ++ v) with (61 :: v). rewrite indexOf_unit_app by done.
  destruct (length k) as [|n] eqn:El; [by destruct k|]. rewrite <- El, take_app_length.
  rewrite (cons_middle 61 k v), app_assoc. replace (S (length k)) with (length (k ++ [61])) by (rewrite length_app; simpl; lia).
  by rewrite drop_app_length, Hk, Hv.
Qed.

Lemma split_labels (w : jstr) (ws : list jstr) :
  Forall (fun w => 44 ∉ w) (w :: ws) -> split_unit 44 (join (js ", ") (w :: ws)) = w :: ((fun w => 32 :: w) <$> ws).
Proof.
  intros [Hw Hws]%Forall_cons.
  assert (Hgen : forall pre, 44 ∉ pre ++ w -> split_unit 44 (pre ++ join (js ", ") (w :: ws)) = (pre ++ w) :: ((fun w => 32 :: w) <$> ws)).
  { clear Hw. revert w. induction Hws as [|w' ws Hw' Hws IH]; intros w pre Hp.
    - simpl. by apply split_unit_single.
    - change (join (js ", ") (w :: w' :: ws)) with (w ++ 44 :: [32] ++ join (js ", ") (w' :: ws)).
      rewrite app_assoc, split_unit_app by done. rewrite fmap_cons. f_equal. apply (IH w' [32]).
      intros [E|Hin]%elem_of_cons; [discriminate E|done]. }
  by apply (Hgen []).
Qed.

Lemma label_text_no_comma kv : label_ok kv -> 44 ∉ label_text kv.
Proof.
  intros (_ & _ & _ & Hk & _ & _ & Hv). unfold label_text. rewrite !elem_of_app, list_elem_of_singleton. intros [|[E|]]; [done|discriminate E|done].
Qed.

Lemma labels_from_ok ls raws out :
  Forall label_ok ls ->
  Forall2 (fun raw kv => exists pre, raw = pre ++ label_text kv /\ Forall (fun c => is_space c = true) pre) raws ls ->
  labels_from out raws = inr (fold_left (fun m kv => obj_set m kv.1 kv.2) ls out).
Proof.
  intros Hok H2. revert out Hok. induction H2 as [|raw kv raws ls (pre & -> & Hpre) H2 IH]; intros out; [done|].
  intros [Hkv Hok]%Forall_cons. cbn [labels_from]. rewrite label_part_text by done.
  destruct kv as [k v]. destruct (Hkv) as (_ & _ & _ & _ & Hp & _). cbn [fst] in Hp.
  rewrite (proj2 (seqb_neq _ _) Hp), IH by done. reflexivity.
Qed.

(** The label box shows what it saves: labels whose names hold no comma and no equals sign and whose values hold no
    comma, none of them padded with white space, are printed into a text that reads back to the same labels, in the
    same order. *)
Theorem labels_roundtrip ls :
  own_ordered ls -> Forall label_ok ls -> parseLabels (formatLabels (Some ls)) = inr ls.
Proof.
  intros Ho Hok. unfold parseLabels, formatLabels. destruct ls as [|kv ls]; [reflexivity|]. rewrite fmap_cons, split_labels.
  - rewrite (labels_from_ok (kv :: ls)); [by rewrite obj_set_rebuild|done|]. constructor; [by exists []|].
    apply Forall_cons in Hok as [_ Hok]. clear Ho. induction ls as [|kv' ls IH]; [constructor|].
    apply Forall_cons in Hok as [_ Hok]. constructor; [exists [32]; split; [done|by repeat constructor]|by apply IH].
  - change (label_text kv :: (label_text <$> ls)) with (label_text <$> (kv :: ls)). apply Forall_fmap.
    eapply Forall_impl; [exact Hok|]. intros x Hx. by apply label_text_no_comma.
Qed.

Lemma labels_roundtrip_witness :
  let ls := [(js "team", js "net"); (js "note", js "a=b c")] in parseLabels (formatLabels (Some ls)) = inr ls.
Proof.
  apply (labels_roundtrip [(js "team", js "net"); (js "note", js "a=b c")]).
  - split; [apply (bool_decide_eq_true_1 (NoDup _)); vm_compute; reflexivity|repeat constructor].
  - repeat constructor; cbn [fst snd]; try (apply includes_unit_false); try (apply seqb_neq); vm_compute; reflexivity.
Defined.

(** A value with a comma does not survive: it is read as another label, or refused. *)
Example comma_in_a_value :
  parseLabels (formatLabels (Some [(js "note", js "a, b=c")])) = inr [(js "note", js "a"); (js "b", js "c")] /\
  parseLabels (formatLabels (Some [(js "note", js "a, b")])) = inl (js "b").
Proof. split; vm_compute; reflexivity. Qed.

(** ** Schedules: what is proved *)

Lemma MAX_INTERVAL_SECONDS_int : MAX_INTERVAL_SECONDS = int 9007199.
Proof. vm_compute. reflexivity. Qed.

(** What the interval box may hold: a plain decimal above zero and within the range. *)
Definition interval_ok (text : jstr) : Prop :=
  is_decimal (trim text) = true /\ (number_of_string (trim text) >? int 0)%num = true /\
  (number_of_string (trim text) >? MAX_INTERVAL_SECONDS)%num = false.

(** The nanoseconds of a number of seconds in the range: whole, held exactly, and at least one from half of one up. *)
Lemma interval_ns x :
  isNaN x = false -> (x >? int 0)%num = true -> (x >? MAX_INTERVAL_SECONDS)%num = false ->
  exists z, nround (x * int 1000000000)%num = int z /\ 0 <= z <= MAX_SAFE_INTEGER /\
    (0 < z <-> (Fin (2 ^ 1073) <=? x * int 1000000000)%num = true).
Proof.
  intros Hn Hpos Hmax. rewrite MAX_INTERVAL_SECONDS_int in Hmax. pose proof U_pos as HU.
  destruct x as [|[]|s]; try discriminate; unfold int in Hpos, Hmax; cbn [nltb] in Hpos, Hmax.
  apply Z.ltb_lt in Hpos. apply Z.ltb_ge in Hmax.
  assert (Hs : forall k, Z.abs k <= 9007199000000000 -> safe k) by (unfold safe; lia).
  destruct (nmul_int_between 1000000000 s 0 9007199000000000) as (q & Eq & Hq); [by apply Hs|by apply Hs|lia|].
  assert (Ec : (Fin s * int 1000000000)%num = Fin q) by (rewrite <- Eq; unfold int; cbn [nmul]; by rewrite Z.mul_comm).
  rewrite Ec. cbn [nround]. exists ((2 * q + U) / (2 * U)). split; [reflexivity|]. rewrite nleb_fin, Z.leb_le.
  assert (EU : 2 * 2 ^ 1073 = U) by reflexivity. clear -Hq HU EU. unfold MAX_SAFE_INTEGER. revert Hq HU EU. generalize U, (2 ^ 1073). intros u h Hq HU EU.
  split; [split; [apply Z.div_pos; lia|]|].
  - enough ((2 * q + u) / (2 * u) < 9007199000000001) by lia. apply Z.div_lt_upper_bound; lia.
  - split; intros H; [|apply Z.div_str_pos; lia].
    destruct (Z.le_gt_cases h q); [done|]. rewrite Z.div_small in H by lia. lia.
Qed.

Lemma safe_integer_int z : Z.abs z <= MAX_SAFE_INTEGER -> isSafeInteger (int z) = true.
Proof.
  intros Hz. unfold isSafeInteger. rewrite isInteger_int. change (nabs (int z)) with (Fin (Z.abs (z * U))).
  pose proof U_pos. unfold int. rewrite nleb_fin, Z.abs_mul, (Z.abs_eq U) by lia. cbn [andb]. apply Z.leb_le. nia.
Qed.

(** The box is refused exactly where it holds no such decimal, and the last check of the parser never refuses. *)
Lemma interval_reading text :
  match parseIntervalSeconds text with
  | inl _ => ~ interval_ok text
  | inr ns => interval_ok text /\
      exists z, ns = int z /\ nround (number_of_string (trim text) * int 1000000000)%num = int z /\ 0 <= z <= MAX_SAFE_INTEGER /\
        (0 < z <-> (Fin (2 ^ 1073) <=? number_of_string (trim text) * int 1000000000)%num = true)
  end.
Proof.
  unfold parseIntervalSeconds, interval_ok. cbv zeta. destruct (is_decimal _); cbn [negb]; [|by intros [? _]].
  generalize (number_of_string (trim text)) as x. intros x. destruct (x >? int 0)%num eqn:Epos; cbn [negb]; [|by intros (_ & ? & _)].
  destruct (x >? MAX_INTERVAL_SECONDS)%num eqn:Emax; [by intros (_ & _ & ?)|].
  destruct (interval_ns x) as (z & Ez & Hz & Hpos); [destruct x; [discriminate Epos|reflexivity|reflexivity]|exact Epos|exact Emax|]. rewrite Ez, safe_integer_int by lia. cbn [negb].
  split; [split_and!; reflexivity|]. exists z. split_and!; [reflexivity|reflexivity|apply Hz|apply Hz|exact Hpos].
Qed.

(** A whole number of seconds a schedule holds is what its edit box reads back. *)
Theorem whole_seconds_roundtrip k :
  0 < k <= 9007199 ->
  parseIntervalSeconds (num_to_string (int (k * 1000000000) / int 1000000000)%num) = inr (int (k * 1000000000)).
Proof.
  intros Hk. assert (Hs : safe k) by (unfold safe; lia).
  rewrite ndiv_exact, num_to_string_int by (try apply safe_exact; done || lia).
  unfold string_of_Z. rewrite (proj2 (Z.ltb_ge k 0)) by lia. pose proof (digits_all_digits k ltac:(lia)) as Hd.
  pose proof (digits_nonempty k) as Hn. unfold parseIntervalSeconds.
  assert (Et : trim (digits k) = digits k).
  { apply trim_id; intros c Hc; apply digit_not_space, (proj1 (Forall_forall _ _) Hd);
      [by apply head_Some_elem_of|by apply last_Some_elem_of]. }
  assert (Ed : is_decimal (digits k) = true).
  { unfold is_decimal. rewrite <- (app_nil_r (digits k)), span_app by done. by rewrite (proj2 (seqb_neq _ _) Hn). }
  rewrite Et, Ed, number_of_digits_int, MAX_INTERVAL_SECONDS_int, !nltb_int by (done || lia).
  rewrite (proj2 (Z.ltb_lt 0 k)), (proj2 (Z.ltb_ge 9007199 k)) by lia. cbn [negb].
  rewrite nmul_int by (unfold safe; lia). rewrite nround_int. unfold isSafeInteger, MAX_SAFE_INTEGER.
  rewrite isInteger_int. change (nabs (int (k * 1000000000))) with (Fin (Z.abs (k * 1000000000 * U))).
  pose proof U_pos. unfold int at 1. rewrite nleb_fin, Z.abs_eq by nia. rewrite (proj2 (Z.leb_le _ _)) by nia. done.
Qed.

Lemma effectiveKind_offered definitions f :
  unschedulable definitions f = false -> effectiveKind definitions f ∈ scheduleKindsFor (definition_of definitions f).
Proof.
  unfold unschedulable, effectiveKind. destruct (scheduleKindsFor _) as [|k0 ks]; [discriminate|]. intros _.
  destruct (existsb _ _) eqn:E; [|left]. apply existsb_elem in E as (x & Hx & ->%seqb_eq). done.
Qed.

(** The kinds offered are those the definition's path serves. *)
Lemma scheduleKindsFor_served d k :
  k ∈ scheduleKindsFor (Some d) -> d_destinationKind d <> js "node" ->
  d_checkType d ∈ (if seqb k (js "continuous") then EXTERNAL_CONTINUOUS_TYPES else EXTERNAL_RUN_TYPES).
Proof.
  intros Hk Hn. unfold scheduleKindsFor in Hk. rewrite (proj2 (seqb_neq _ _) Hn) in Hk.
  apply elem_of_filter_b in Hk as [_ (x & Hx & ->%seqb_eq)%existsb_elem]. done.
Qed.

(** The request a form stands for: the fields of its kind and no others. *)
Definition well_formed_schedule `{DateHost} (definitions : list CheckDefinition) (f : schedule_form) (now : number) (q : ScheduleRequest) : Prop :=
  q_definitionId q = sf_definitionId f /\ q_definitionId q <> [] /\ q_enabled q = sf_enabled f /\ q_kind q = effectiveKind definitions f /\
  ((q_kind q = js "interval" /\ q_runAt q = None /\ interval_ok (sf_intervalSeconds f) /\
      exists z, q_intervalNs q = Some (int z) /\ nround (number_of_string (trim (sf_intervalSeconds f)) * int 1000000000)%num = int z /\
        0 <= z <= MAX_SAFE_INTEGER /\
        (0 < z <-> (Fin (2 ^ 1073) <=? number_of_string (trim (sf_intervalSeconds f)) * int 1000000000)%num = true)) \/
   (q_kind q = js "once" /\ q_intervalNs q = None /\
      exists iso at_, q_runAt q = Some iso /\ sf_runAt f = Some at_ /\ Date_parse iso = Some at_ /\ (int at_ <=? now)%num = false) \/
   (q_kind q <> js "interval" /\ q_kind q <> js "once" /\ q_intervalNs q = None /\ q_runAt q = None)).

(** The one field a form is refused for. *)
Definition refused_field (definitions : list CheckDefinition) (f : schedule_form) (now : number) (field : jstr) : Prop :=
  (field = js "definitionId" /\ sf_definitionId f = []) \/
  (field = js "intervalNs" /\ sf_definitionId f <> [] /\ effectiveKind definitions f = js "interval" /\ ~ interval_ok (sf_intervalSeconds f)) \/
  (field = js "runAt" /\ sf_definitionId f <> [] /\ effectiveKind definitions f = js "once" /\
     (sf_picked f = false \/ (getTime (sf_runAt f) <=? now)%num = true)).

Lemma schedule_check_spec `{DateHost} t definitions f now :
  valid_date (sf_runAt f) ->
  match schedule_check t definitions f now with
  | None => effectiveKind definitions f = js "once" /\ sf_picked f = true /\ sf_runAt f = None
  | Some (inl errors) => exists field message, errors = [(field, message)] /\ refused_field definitions f now field
  | Some (inr q) => well_formed_schedule definitions f now q
  end.
Proof.
  intros Hv. unfold schedule_check, refused_field, well_formed_schedule. destruct (seqb (sf_definitionId f) []) eqn:Ed.
  { apply seqb_eq in Ed. do 2 eexists. split; [reflexivity|]. by left. }
  apply seqb_neq in Ed. cbv zeta. destruct (seqb (effectiveKind definitions f) (js "interval")) eqn:Ei.
  { apply seqb_eq in Ei. pose proof (interval_reading (sf_intervalSeconds f)) as Hr. destruct (parseIntervalSeconds _) as [m|ns].
    - do 2 eexists. split; [reflexivity|]. right. by left.
    - destruct Hr as (Hok & z & -> & Hz). split_and!; [done..|]. left. split_and!; [done..|]. by exists z. }
  destruct (seqb (effectiveKind definitions f) (js "once")) eqn:Eo.
  2:{ apply seqb_neq in Ei, Eo. split_and!; [done..|]. right. right. done. }
  apply seqb_eq in Eo. destruct (sf_picked f) eqn:Ep; cbn [negb].
  2:{ do 2 eexists. split; [reflexivity|]. right. right. auto. }
  destruct (_ <=? now)%num eqn:En; [do 2 eexists; split; [reflexivity|]; right; right; auto|].
  destruct (sf_runAt f) as [at_|]; [|done]. cbn [toISOString fmap option_fmap option_map mbind option_bind].
  split_and!; [done..|]. right. left. split_and!; [done..|]. exists (iso_string at_), at_. split_and!; [done|done|by apply Date_parse_iso|done].
Qed.

(** C18: what a press of the schedule form does.  It is refused for one field, with that field's error alone and nothing
    sent, exactly where no definition is picked, the interval box holds no plain decimal above zero and within the range,
    or a one-off has no moment or one that has passed; otherwise it sends, once, the request the form stands for: an
    interval carries whole nanoseconds that a double holds exactly and no moment, above zero from half a nanosecond up
    (a smaller text, which the check for zero lets through, is sent as zero); a one-off carries its moment, readable and
    after now, and no interval; a continuous one neither.  The kind sent is one the definition was offered, and toward
    anything but a node its check type is one that path runs.  Only a one-off whose stored moment cannot be read throws. *)
Theorem schedule_form_wellformed `{DateHost} t definitions f now g :
  valid_date (sf_runAt f) -> unschedulable definitions f = false ->
  match ScheduleForm_handleSubmit t definitions f now g with
  | None => effectiveKind definitions f = js "once" /\ sf_picked f = true /\ sf_runAt f = None
  | Some p =>
      match sent_req p with
      | None =>
          (exists field message, shown p = Some [(field, message)] /\ refused_field definitions f now field /\ after p = g) \/
          (shown p = None /\ inFlight g = true)
      | Some q =>
          shown p = None /\ inFlight g = false /\ inFlight (after p) = true /\
          well_formed_schedule definitions f now q /\ q_kind q ∈ scheduleKindsFor (definition_of definitions f) /\ q_kind q ∈ SCHEDULE_KINDS /\
          (forall d, definition_of definitions f = Some d -> d_destinationKind d <> js "node" ->
             d_checkType d ∈ (if seqb (q_kind q) (js "continuous") then EXTERNAL_CONTINUOUS_TYPES else EXTERNAL_RUN_TYPES))
      end
  end.
Proof.
  intros Hv Hu. pose proof (effectiveKind_offered _ _ Hu) as Hk. pose proof (schedule_check_spec t definitions f now Hv) as Hc.
  unfold ScheduleForm_handleSubmit. destruct (schedule_check t definitions f now) as [[errors|q]|]; cbn [mbind option_bind]; [| |done].
  { destruct Hc as (field & message & -> & Hf). cbn. left. by exists field, message. }
  unfold guarded, begin. destruct (inFlight g) eqn:Eg; cbn; [by right|]. split_and!; try done; destruct Hc as (_ & _ & _ & -> & _).
  - done.
  - unfold scheduleKindsFor in Hk. destruct (definition_of definitions f) as [d|]; [|done].
    destruct (seqb (d_destinationKind d) (js "node")); [done|]. by apply elem_of_filter_b in Hk as [Hk _].
  - intros d Hd. rewrite Hd in Hk. by apply scheduleKindsFor_served.
Qed.

(** A positive text below half a nanosecond passes the check for zero and is rounded to it. *)
Example interval_rounds_to_zero : parseIntervalSeconds (js "0.0000000001") = inr (int 0).
Proof. vm_compute. reflexivity. Qed.

Module TargetsWitness.
Definition dns : CheckDefinition :=
  {| d_id := js "d1"; d_name := js "edge"; d_checkType := js "tcp"; d_destinationKind := js "adhoc";
     d_destinationTargetId := []; d_destinationAddress := js "10.0.0.1:80" |}.
Definition every_half_minute : schedule_form :=
  {| sf_definitionId := js "d1"; sf_kind := js "interval"; sf_intervalSeconds := js " 30.5 "; sf_runAt := None;
     sf_picked := false; sf_enabled := true |}.
Definition sent_schedule : ScheduleRequest :=
  {| q_definitionId := js "d1"; q_kind := js "interval"; q_intervalNs := Some (int 30500000000); q_runAt := None; q_enabled := true |}.
Definition pressed : press (list (jstr * jstr)) ScheduleRequest :=
  {| shown := None; sent_req := Some sent_schedule; after := {| inFlight := true; submitting := true |} |}.

Definition every_nothing : schedule_form :=
  {| sf_definitionId := js "d1"; sf_kind := js "interval"; sf_intervalSeconds := js "0.0"; sf_runAt := None; sf_picked := false; sf_enabled := true |}.

(** One form is sent, with its thirty and a half seconds in nanoseconds; a zero is refused under its box. *)
Lemma schedule_form_wellformed_witness :
  (exists z, q_intervalNs sent_schedule = Some (int z) /\ 0 < z) /\
  exists field message, (ScheduleForm_handleSubmit (fun k _ => k) [dns] every_nothing (int 0) guard_idle ≫= shown) = Some [(field, message)] /\
    refused_field [dns] every_nothing (int 0) field.
Proof.
  pose proof (schedule_form_wellformed (H := iso_host) (fun k _ => k) [dns] every_half_minute (int 0) guard_idle I ltac:(vm_compute; reflexivity)) as H1.
  pose proof (schedule_form_wellformed (H := iso_host) (fun k _ => k) [dns] every_nothing (int 0) guard_idle I ltac:(vm_compute; reflexivity)) as H2.
  assert (E1 : ScheduleForm_handleSubmit (fun k _ => k) [dns] every_half_minute (int 0) guard_idle = Some pressed) by (vm_compute; reflexivity).
  rewrite E1 in H1. split.
  - destruct H1 as (_ & _ & _ & (_ & _ & _ & _ & [(_ & _ & _ & z & Ez & _ & _ & Hz)|[(Hk & _)|(Hk & _)]]) & _);
      [|vm_compute in Hk; discriminate Hk|exfalso; apply Hk; reflexivity].
    exists z. split; [exact Ez|]. apply Hz. vm_compute. reflexivity.
  - destruct (ScheduleForm_handleSubmit (fun k _ => k) [dns] every_nothing (int 0) guard_idle) as [p|] eqn:E2;
      [|vm_compute in E2; discriminate E2].
    assert (E3 : sent_req p = None) by (vm_compute in E2; apply (inj Some) in E2 as <-; reflexivity). rewrite E3 in H2.
    destruct H2 as [(field & message & Hs & Hr & _)|[_ Hg]]; [|vm_compute in Hg; discriminate Hg].
    exists field, message. split; [exact Hs|exact Hr].
Defined.
End TargetsWitness.
