(* ===== verification/Diagnostics.v ===== *)
(** Ad-hoc runs ([web/src/pages/diagnostics.tsx], and the Runner pane of [web/src/pages/mtr.tsx]): the run form, the
    request it builds and the gates in front of it, saving a run as a definition, and the run history as a paged
    pane. *)
From S2P Require Import Prelude JsNum JsString JsCollections JsValue JsDate JsFormat JsUrl Utils RunSamples Agents SubmitGuard Targets PagedLoader.
Local Open Scope Z_scope.

(** ** Pairs *)

Definition MAX_PAIRS : Z := 400.

(** The pairs of two lists of names, a node against itself left out. *)
Definition estimatePairCount (sources destinations : list jstr) : Z :=
  fold_left (fun count s =>
      fold_left (fun count d => if seqb s d then count else count + 1) (set_of_list destinations) count)
    (set_of_list sources) 0.

Definition estimateRawPairCount (sources destinations : list jstr) : Z :=
  Z.of_nat (length sources) * Z.of_nat (length destinations).

Definition toggleName (l : list jstr) (name : jstr) : list jstr :=
  if existsb (seqb name) l then List.filter (fun n => negb (seqb n name)) l else l ++ [name].

(** ** Durations and cadences on offer *)

Record preset := { p_value : jstr; p_label : jstr; p_ns : number }.
Definition preset_of (value label : string) (ns : Z) : preset := {| p_value := js value; p_label := js label; p_ns := int ns |}.

Definition RUN_DURATIONS : list preset :=
  [preset_of "instant" "Instant" 0; preset_of "1m" "1m" (60 * 10 ^ 9); preset_of "5m" "5m" (300 * 10 ^ 9);
   preset_of "15m" "15m" (900 * 10 ^ 9); preset_of "1h" "1h" (3600 * 10 ^ 9); preset_of "6h" "6h" (21600 * 10 ^ 9);
   preset_of "24h" "24h" (86400 * 10 ^ 9)].

Definition ns_for (presets : list preset) (value : jstr) : number :=
  match find (fun d => seqb (p_value d) value) presets with Some d => p_ns d | None => int 0 end.

Definition durationNsFor (value : jstr) : number := ns_for RUN_DURATIONS value.

Definition RUN_SAMPLE_INTERVALS : list preset :=
  [preset_of "auto" "Auto" 0; preset_of "1s" "1s" (10 ^ 9); preset_of "5s" "5s" (5 * 10 ^ 9);
   preset_of "15s" "15s" (15 * 10 ^ 9); preset_of "30s" "30s" (30 * 10 ^ 9); preset_of "1m" "1m" (60 * 10 ^ 9);
   preset_of "5m" "5m" (300 * 10 ^ 9); preset_of "15m" "15m" (900 * 10 ^ 9)].

Definition sampleIntervalNsFor (value : jstr) : number := ns_for RUN_SAMPLE_INTERVALS value.

Definition sampleIntervalOptionsFor (durationNs : number) : list preset :=
  if negb (durationNs >? int 0)%num then take 1 RUN_SAMPLE_INTERVALS
  else List.filter (fun o => (p_ns o =? int 0)%num || (p_ns o <=? durationNs)%num) RUN_SAMPLE_INTERVALS.

(** ** The external destination *)

Inductive AdhocShape := hostPort | hostOnly | unsupported.
Inductive AdhocIssue := issue_unsupported | issue_shape | issue_url.

(** The entries of the table; [None] is a name it does not hold. *)
Definition ADHOC_SHAPE (checkType : jstr) : option AdhocShape :=
  mget [(js "tcp", hostPort); (js "udp", unsupported); (js "icmp", hostOnly); (js "mtr", hostOnly);
        (js "dns", unsupported); (js "http", unsupported); (js "pmtu", unsupported)] checkType.

Definition ADHOC_PLACEHOLDER (shape : AdhocShape) : list jstr :=
  match shape with
  | hostPort => [js "example.test"; js "10.0.0.1:8443"]
  | hostOnly => [js "example.test"; js "10.0.0.1"]
  | unsupported => []
  end.

Definition adhocPlaceholder (shape : AdhocShape) (or : jstr) : jstr :=
  join (js " " ++ or ++ js " ") (ADHOC_PLACEHOLDER shape).

(** A text that starts with http:// or https://, whatever the case. *)
Definition is_http_url (value : jstr) : bool :=
  startsWith (ascii_lower value) (js "http://") || startsWith (ascii_lower value) (js "https://").

(** ** The request *)

Inductive DestinationKind := dk_node | dk_target | dk_adhoc.
#[export] Instance DestinationKind_eq_dec : EqDecision DestinationKind.
Proof. solve_decision. Defined.

Record RunCreateRequest := {
  rq_type : jstr; rq_plane : jstr; rq_sources : list jstr; rq_destinations : list jstr; rq_durationNs : option number;
  rq_sampleIntervalNs : option number; rq_destinationKind : option DestinationKind; rq_destinationTargetId : option jstr;
  rq_destinationAddress : option jstr;
}.

Definition buildRunRequest (ty : jstr) (sources destinations : list jstr) (kind : DestinationKind)
    (targetId address : jstr) (durationNs sampleIntervalNs : number) : RunCreateRequest :=
  let timed := (durationNs >? int 0)%num in
  {| rq_type := ty; rq_plane := js "pod"; rq_sources := sources;
     rq_destinations := if decide (kind = dk_node) then destinations else [];
     rq_durationNs := if timed then Some durationNs else None;
     rq_sampleIntervalNs := if timed && (sampleIntervalNs >? int 0)%num then Some sampleIntervalNs else None;
     rq_destinationKind := match kind with dk_node => None | _ => Some kind end;
     rq_destinationTargetId := match kind with dk_target => Some targetId | _ => None end;
     rq_destinationAddress := match kind with dk_adhoc => Some address | _ => None end |}.

(** What a caption calls an adjustment. *)
Definition adjustment_text (a : CadenceAdjustment) : jstr :=
  match a with unadjusted => [] | cap => js "cap" | round => js "round" end.

Definition cadenceCaption (t : Translate) (locale : jstr) (plan : PlannedCadence) (checkType durationValue prefix : jstr) : jstr :=
  let budgetNs := perPairBudgetNs checkType in
  let label := match find (fun d => seqb (p_value d) durationValue) RUN_DURATIONS with Some d => p_label d | None => [] end in
  let vars := [(js "interval", VStr (formatCadenceProse (plan_intervalNs plan) locale));
               (js "requested", VStr (formatCadenceProse (plan_requestedNs plan) locale)); (js "label", VStr label);
               (js "samples", VNum (plan_samplesPerPair plan)); (js "budget", VStr (formatCadenceProse budgetNs locale))] in
  let base := t (prefix ++ js ".interval" ++ if (budgetNs >? int 0)%num then js "." ++ checkType else []) vars in
  let adjusted := adjustment_text (plan_adjusted plan) in
  if seqb adjusted [] || (plan_requestedNs plan <=? int 0)%num then base
  else t (prefix ++ js ".adjusted." ++ adjusted) vars ++ js " " ++ base.

(** ** The run form *)

(** The form's cells, with the nodes and the Time Machine's guard it is drawn with. *)
Record run_form := {
  rf_type : jstr; rf_sourcesAll : bool; rf_destinationsAll : bool; rf_sources : list jstr; rf_destinations : list jstr;
  rf_destinationKind : DestinationKind; rf_destinationTargetId : jstr; rf_destinationAddress : jstr; rf_duration : jstr;
  rf_sampleInterval : jstr; rf_nodeNames : list jstr; rf_writesDisabled : bool;
}.

Section RunForm.
Context (URL_hostname : jstr -> option jstr).

Definition adhocAddressIssue (checkType raw : jstr) : option AdhocIssue :=
  match ADHOC_SHAPE checkType with
  | Some unsupported => Some issue_unsupported
  | _ =>
      let value := trim raw in
      if seqb value [] then None
      else if negb (isValidAdhocAddress URL_hostname value) then Some issue_shape
      else if is_http_url value then Some issue_url
      else None
  end.

Definition external (f : run_form) : bool := negb (bool_decide (rf_destinationKind f = dk_node)).
Definition resolvedSources (f : run_form) : list jstr := if rf_sourcesAll f then rf_nodeNames f else rf_sources f.
Definition resolvedDestinations (f : run_form) : list jstr := if rf_destinationsAll f then rf_nodeNames f else rf_destinations f.

Definition incompleteDestination (f : run_form) : bool :=
  match rf_destinationKind f with
  | dk_node => false
  | dk_target => seqb (rf_destinationTargetId f) []
  | dk_adhoc => seqb (trim (rf_destinationAddress f)) []
  end.

Definition pairCount (f : run_form) : Z :=
  if incompleteDestination f then 0
  else if external f then Z.of_nat (length (set_of_list (resolvedSources f)))
  else estimatePairCount (resolvedSources f) (resolvedDestinations f).

Definition rawPairCount (f : run_form) : Z :=
  if external f then Z.of_nat (length (resolvedSources f))
  else estimateRawPairCount (resolvedSources f) (resolvedDestinations f).

Definition overLimit (f : run_form) : bool := MAX_PAIRS <? rawPairCount f.
Definition noPairs (f : run_form) : bool := pairCount f =? 0.

Definition is_nil {A} (l : list A) : bool := match l with [] => true | _ => false end.

(** Which side is missing, as the key of its sentence. *)
Definition pairsReason (f : run_form) : option jstr :=
  if negb (noPairs f) then None
  else if is_nil (resolvedSources f) then Some (js "pairs.noSources")
  else match rf_destinationKind f with
  | dk_target => if seqb (rf_destinationTargetId f) [] then Some (js "pairs.noTarget")
                 else Some (if negb (is_nil (resolvedDestinations f)) then js "pairs.selfOnly" else js "pairs.noDestinations")
  | dk_adhoc => if seqb (trim (rf_destinationAddress f)) [] then Some (js "pairs.noAddress")
                else Some (if negb (is_nil (resolvedDestinations f)) then js "pairs.selfOnly" else js "pairs.noDestinations")
  | dk_node => Some (if negb (is_nil (resolvedDestinations f)) then js "pairs.selfOnly" else js "pairs.noDestinations")
  end.

Definition adhocIssue (f : run_form) : option AdhocIssue :=
  if external f
  then adhocAddressIssue (rf_type f) (if decide (rf_destinationKind f = dk_adhoc) then rf_destinationAddress f else [])
  else None.

Definition intervalValue (f : run_form) : jstr :=
  if existsb (fun o => seqb (p_value o) (rf_sampleInterval f)) (sampleIntervalOptionsFor (durationNsFor (rf_duration f)))
  then rf_sampleInterval f else js "auto".

Definition runRequest (f : run_form) : RunCreateRequest :=
  buildRunRequest (rf_type f) (if rf_sourcesAll f then [] else rf_sources f)
    (if rf_destinationsAll f then [] else rf_destinations f) (rf_destinationKind f) (rf_destinationTargetId f)
    (trim (rf_destinationAddress f)) (durationNsFor (rf_duration f)) (sampleIntervalNsFor (intervalValue f)).

Definition run_plan (f : run_form) : PlannedCadence :=
  planCadenceFor (durationNsFor (rf_duration f)) (rf_type f) (VNum (int (pairCount f)))
    (VNum (len (resolvedSources f))) (sampleIntervalNsFor (intervalValue f)).

(** The button is live. *)
Definition can_run (f : run_form) : bool :=
  negb (overLimit f || noPairs f || incompleteDestination f || bool_decide (is_Some (adhocIssue f)) || rf_writesDisabled f).

(** A press of a live button; the request's own errors come back later. *)
Definition RunForm_handleSubmit (f : run_form) (g : guard) : press unit RunCreateRequest := guarded (inr (runRequest f)) g.

(** ** The Runner pane *)

Definition runner_request (f : run_form) : RunCreateRequest :=
  buildRunRequest (js "mtr") (if rf_sourcesAll f then [] else rf_sources f)
    (if rf_destinationsAll f then [] else rf_destinations f) (rf_destinationKind f) (rf_destinationTargetId f)
    (trim (rf_destinationAddress f)) (durationNsFor (rf_duration f)) (sampleIntervalNsFor (intervalValue f)).

(** [pending]: the topology has not answered yet. *)
Definition runner_noPairs (pending : bool) (f : run_form) : bool := negb pending && (pairCount f =? 0).

Definition runner_can_run (pending : bool) (f : run_form) : bool :=
  negb (runner_noPairs pending f || incompleteDestination f || rf_writesDisabled f).

Definition runner_pairsReason (pending : bool) (f : run_form) : option jstr :=
  if negb (runner_noPairs pending f) then None
  else if is_nil (resolvedSources f) then Some (js "runner.noPairs")
  else match rf_destinationKind f with
  | dk_target => Some (if seqb (rf_destinationTargetId f) [] then js "runner.noTarget" else js "runner.noDestinations")
  | dk_adhoc => Some (if seqb (trim (rf_destinationAddress f)) [] then js "runner.noAddress" else js "runner.noDestinations")
  | dk_node => Some (js "runner.noDestinations")
  end.

(** ** Save as definition *)

Section Save.
Context (toLowerCase : jstr -> jstr) (t tv : Translate).

Definition kind_text (k : DestinationKind) : jstr :=
  match k with dk_node => js "node" | dk_target => js "target" | dk_adhoc => js "adhoc" end.

(** The draft; [address] arrives trimmed. *)
Definition save_draft (name checkType : jstr) (kind : DestinationKind) (targetId address : jstr) : CheckDefinitionRequest :=
  {| cq_name := name; cq_sourceSelection := js "all"; cq_destinationKind := kind_text kind;
     cq_destinationTargetId := if decide (kind = dk_target) then Some targetId else None;
     cq_destinationAddress := if decide (kind = dk_adhoc) then Some address else None;
     cq_checkType := checkType; cq_plane := js "pod"; cq_params := None; cq_enabled := true |}.

Definition save_check (name checkType : jstr) (kind : DestinationKind) (targetId address : jstr) :
    list (jstr * jstr) + CheckDefinitionRequest :=
  if seqb (trim name) [] then inl [(js "name", t (js "definition.nameRequired") [])]
  else if bool_decide (kind = dk_adhoc) && negb (seqb address []) && negb (isValidAdhocAddress URL_hostname address)
  then inl [(js "destination", tv (js "adhoc.address") [])]
  else inr (save_draft (trim name) checkType kind targetId address).

(** Where the refusal of a save is shown: [None] is an error that is no [ApiError], [Some said] what it said. *)
Definition save_refused (err : option jstr) : list (jstr * jstr) :=
  match err with
  | None => [(js "form", t (js "definition.saveFailed") [])]
  | Some detail =>
      match fieldForDetail toLowerCase detail DEFINITION_FIELD_PHRASES with
      | Some field =>
          if seqb field (js "name") then [(js "name", detail)]
          else if seqb field (js "destinationTargetId") || seqb field (js "destinationAddress") then [(js "destination", detail)]
          else [(js "form", detail)]
      | None => [(js "form", detail)]
      end
  end.
End Save.
End RunForm.

(** ** The run history *)

Record RunSummary := { rs_id : jstr; rs_type : jstr; rs_status : jstr; rs_pairOk : value; rs_pairTotal : value }.

Definition finite_value (v : value) : bool := match v with VNum n => isFinite n | _ => false end.

Definition okOfTotal (t : Translate) (r : RunSummary) : jstr :=
  if negb (finite_value (rs_pairOk r)) || negb (finite_value (rs_pairTotal r)) then js "—"
  else t (js "history.run.okOfTotal") [(js "ok", rs_pairOk r); (js "total", rs_pairTotal r)].

(** The filters of the list, "" for none. *)
Record run_filters := { typeFilter : jstr; statusFilter : jstr }.

Definition matches (f : run_filters) (r : RunSummary) : Prop :=
  (typeFilter f = [] \/ rs_type r = typeFilter f) /\ (statusFilter f = [] \/ rs_status r = statusFilter f).

(** [loadRuns] is a paged pane: an older page is appended, and a new filter keeps the rows until its answer. *)
#[export] Instance run_pane : Pane run_filters RunSummary.
Proof.
  refine {| merge prev next := prev ++ next; clears := false; belongs := matches; good _ := True |}; [|done|done].
  intros prev next r. by rewrite elem_of_app.
Defined.

Definition loadRuns : loader run_filters RunSummary -> loader run_filters RunSummary -> Prop := loader_step.

(** ** Pairs: what is proved *)

Lemma pairs_of_source s l n :
  NoDup l -> fold_left (fun count d => if seqb s d then count else count + 1) l n
             = n + Z.of_nat (length l) - (if bool_decide (s ∈ l) then 1 else 0).
Proof.
  intros Hn. revert n. induction Hn as [|d l Hd Hn IH]; intros n; simpl fold_left; [simpl; lia|]. rewrite IH. clear IH.
  destruct (seqb s d) eqn:E.
  - apply seqb_eq in E as <-. rewrite (bool_decide_eq_false_2 _ Hd), bool_decide_eq_true_2 by left. simpl length. lia.
  - apply seqb_neq in E. rewrite (bool_decide_ext (s ∈ d :: l) (s ∈ l)) by (rewrite elem_of_cons; naive_solver).
    simpl length. lia.
Qed.

(** The estimate is the product of the two sets less the nodes on both sides, never above the product the server
    gates on. *)
Theorem estimatePairCount_formula sources destinations :
  let S := set_of_list sources in let D := set_of_list destinations in
  estimatePairCount sources destinations
    = Z.of_nat (length S) * Z.of_nat (length D) - Z.of_nat (length (List.filter (fun s => bool_decide (s ∈ D)) S)) /\
  0 <= estimatePairCount sources destinations <= estimateRawPairCount sources destinations.
Proof.
  cbv zeta. set (D := set_of_list destinations). assert (HD : NoDup D) by apply NoDup_set_of_list.
  assert (Hgen : forall l n, fold_left (fun count s => fold_left (fun count d => if seqb s d then count else count + 1) D count) l n
    = n + Z.of_nat (length l) * Z.of_nat (length D) - Z.of_nat (length (List.filter (fun s => bool_decide (s ∈ D)) l))).
  { induction l as [|s l IH]; intros n; simpl fold_left; [simpl; lia|]. rewrite IH, pairs_of_source by done. simpl List.filter.
    destruct (bool_decide (s ∈ D)); simpl length; lia. }
  unfold estimatePairCount. fold D. rewrite Hgen. split; [lia|]. unfold estimateRawPairCount.
  set (S := set_of_list sources). pose proof (length_set_of_list_le sources) as HS. pose proof (length_set_of_list_le destinations) as HDl.
  fold S in HS. fold D in HDl. assert (Hf : (length (List.filter (fun s => bool_decide (s ∈ D)) S) <= length S * length D)%nat).
  { destruct D as [|d D']; [|pose proof (List.filter_length_le (fun s => bool_decide (s ∈ d :: D')) S); simpl; nia].
    enough (List.filter (fun s => bool_decide (s ∈ [])) S = []) as -> by (simpl; lia).
    clear. induction S as [|s S IH]; [done|]. cbn [List.filter]. by destruct (bool_decide_reflect (s ∈ [])) as [Hs%not_elem_of_nil|_]. }
  assert (length S * length D <= length sources * length destinations)%nat by (apply Nat.mul_le_mono; done). lia.
Qed.

(** ** The request: what is proved *)

Definition preset_within (lo hi : Z) (p : preset) : Prop := exists z, p_ns p = int z /\ (z = 0 \/ lo <= z <= hi).

Lemma durations_within : Forall (preset_within (60 * 10 ^ 9) (86400 * 10 ^ 9)) RUN_DURATIONS.
Proof. repeat (apply Forall_cons; split; [eexists; split; [reflexivity|lia]|]). constructor. Qed.

Lemma intervals_within : Forall (preset_within (10 ^ 9) (900 * 10 ^ 9)) RUN_SAMPLE_INTERVALS.
Proof. repeat (apply Forall_cons; split; [eexists; split; [reflexivity|lia]|]). constructor. Qed.

Lemma duration_cases v : exists d, durationNsFor v = int d /\ (d = 0 \/ 60 * 10 ^ 9 <= d <= 86400 * 10 ^ 9).
Proof.
  unfold durationNsFor, ns_for. destruct (find _ _) as [p|] eqn:E; [|exists 0; auto].
  apply find_some in E as [Hp%list_elem_of_In _]. apply (proj1 (Forall_forall _ _) durations_within p Hp).
Qed.

Lemma ns_for_own presets o :
  NoDup (p_value <$> presets) -> o ∈ presets -> ns_for presets (p_value o) = p_ns o.
Proof.
  intros Hn Ho. unfold ns_for. destruct (find _ _) as [p|] eqn:E.
  - apply find_some in E as [Hp%list_elem_of_In Ev%seqb_eq]. by rewrite (NoDup_fmap_eq p_value presets p o Hn Hp Ho Ev).
  - exfalso. apply list_elem_of_In in Ho. pose proof (find_none _ _ E o Ho) as Hne. simpl in Hne. by apply seqb_neq in Hne.
Qed.

Lemma intervals_distinct : NoDup (p_value <$> RUN_SAMPLE_INTERVALS).
Proof. apply (bool_decide_eq_true_1 (NoDup _)). vm_compute. reflexivity. Qed.

(** The cadence asked for is none, or between a second and the duration. *)
Lemma interval_fits f d :
  durationNsFor (rf_duration f) = int d ->
  exists i, sampleIntervalNsFor (intervalValue f) = int i /\ (i = 0 \/ 10 ^ 9 <= i <= d).
Proof.
  intros Hd. unfold intervalValue. destruct (existsb _ _) eqn:E; [|exists 0; split; [vm_compute; reflexivity|auto]].
  apply existsb_elem in E as (o & Ho & <-%seqb_eq). rewrite Hd in Ho. unfold sampleIntervalOptionsFor in Ho.
  rewrite nltb_int in Ho. destruct (Z.ltb_spec 0 d) as [Hpos|Hneg]; cbn [negb] in Ho.
  - apply elem_of_filter_b in Ho as [Ho Hfit]. unfold sampleIntervalNsFor. rewrite ns_for_own by (done || apply intervals_distinct).
    destruct (proj1 (Forall_forall _ _) intervals_within o Ho) as (i & Ei & Hi). rewrite Ei in *. exists i. split; [done|].
    rewrite neqb_int, nleb_int in Hfit. lia.
  - change (take 1 RUN_SAMPLE_INTERVALS) with [preset_of "auto" "Auto" 0] in Ho. apply list_elem_of_singleton in Ho as ->.
    exists 0. split; [vm_compute; reflexivity|auto].
Qed.

(** What the server accepts of the timing of a run. *)
Definition timing_ok (q : RunCreateRequest) : Prop :=
  match rq_durationNs q with
  | None => rq_sampleIntervalNs q = None
  | Some d => exists z, d = int z /\ 10 * 10 ^ 9 <= z <= 86400 * 10 ^ 9 /\
      match rq_sampleIntervalNs q with None => True | Some i => exists y, i = int y /\ 10 ^ 9 <= y <= z end
  end.

Lemma timing_built ty ss ds k tid addr f :
  timing_ok (buildRunRequest ty ss ds k tid addr (durationNsFor (rf_duration f)) (sampleIntervalNsFor (intervalValue f))).
Proof.
  destruct (duration_cases (rf_duration f)) as (d & Ed & Hd). destruct (interval_fits f d Ed) as (i & Ei & Hi).
  rewrite Ed, Ei. unfold timing_ok, buildRunRequest. cbn [rq_durationNs rq_sampleIntervalNs]. rewrite !nltb_int.
  destruct (Z.ltb_spec 0 d); cbn [andb]; [|done]. exists d. split_and!; [done|lia|lia|].
  destruct (Z.ltb_spec 0 i); [|done]. exists i. split; [done|lia].
Qed.

(** ... and of its destination: the mesh, one target, or one address, never a mix. *)
Definition destination_ok (URL_hostname : jstr -> option jstr) (q : RunCreateRequest) : Prop :=
  match rq_destinationKind q with
  | None => rq_destinationTargetId q = None /\ rq_destinationAddress q = None
  | Some dk_node => False
  | Some dk_target =>
      rq_destinations q = [] /\ rq_type q ∈ EXTERNAL_RUN_TYPES /\ rq_destinationAddress q = None /\
      exists i, rq_destinationTargetId q = Some i /\ i <> []
  | Some dk_adhoc =>
      rq_destinations q = [] /\ rq_type q ∈ EXTERNAL_RUN_TYPES /\ rq_destinationTargetId q = None /\
      exists a, rq_destinationAddress q = Some a /\ a <> [] /\ isValidAdhocAddress URL_hostname a = true /\ is_http_url a = false
  end.

Lemma supported_type ty : ty ∈ CHECK_TYPES -> ADHOC_SHAPE ty <> Some unsupported -> ty ∈ EXTERNAL_RUN_TYPES.
Proof.
  unfold CHECK_TYPES. intros Hty. repeat (apply elem_of_cons in Hty as [->|Hty];
    [intros Hs; first [by destruct Hs | apply (bool_decide_eq_true_1 (_ ∈ EXTERNAL_RUN_TYPES)); vm_compute; reflexivity]|]).
  by apply not_elem_of_nil in Hty.
Qed.

Section Sent.
Context (URL_hostname : jstr -> option jstr).

(** An address with nothing to complain about is a host, or a host and port, of a type that takes one. *)
Lemma address_accepted ty raw :
  ty ∈ CHECK_TYPES -> adhocAddressIssue URL_hostname ty raw = None ->
  ty ∈ EXTERNAL_RUN_TYPES /\
  (trim raw <> [] -> isValidAdhocAddress URL_hostname (trim raw) = true /\ is_http_url (trim raw) = false).
Proof.
  intros Hty Hi. unfold adhocAddressIssue in Hi. split.
  - apply supported_type; [done|]. intros E. rewrite E in Hi. discriminate Hi.
  - intros Hne%seqb_neq. destruct (ADHOC_SHAPE ty) as [[]|]; rewrite ?Hne in Hi; try discriminate Hi;
      (destruct (isValidAdhocAddress _ _); [|discriminate Hi]; by destruct (is_http_url _); [discriminate Hi|]).
Qed.

Lemma can_run_spec f :
  can_run URL_hostname f = true ->
  rawPairCount f <= MAX_PAIRS /\ pairCount f <> 0 /\ incompleteDestination f = false /\
  adhocIssue URL_hostname f = None /\ rf_writesDisabled f = false.
Proof.
  unfold can_run, overLimit, noPairs. intros H. apply negb_true_iff in H.
  repeat (apply orb_false_elim in H as [H ?]). split_and!; [by apply Z.ltb_ge|by apply Z.eqb_neq|done| |done].
  destruct (adhocIssue URL_hostname f); [|done]. by rewrite bool_decide_eq_true_2 in *.
Qed.

Lemma pairCount_nonneg f : 0 <= pairCount f.
Proof.
  unfold pairCount. destruct (incompleteDestination f), (external f); try lia.
  apply (estimatePairCount_formula (resolvedSources f) (resolvedDestinations f)).
Qed.

Lemma destination_built f :
  rf_type f ∈ CHECK_TYPES -> incompleteDestination f = false -> adhocIssue URL_hostname f = None ->
  destination_ok URL_hostname (runRequest f).
Proof.
  intros Hty Hc Hi. unfold destination_ok, runRequest, buildRunRequest. unfold incompleteDestination in Hc.
  unfold adhocIssue, external in Hi. destruct (rf_destinationKind f) eqn:Ek; cbn in Hi |- *; [done| |].
  - destruct (address_accepted _ _ Hty Hi) as [Hx _]. split_and!; try done. eexists. split; [done|]. by apply seqb_neq.
  - destruct (address_accepted _ _ Hty Hi) as [Hx Ha]. apply seqb_neq in Hc. split_and!; try done.
    eexists. split_and!; [done|done|apply Ha, Hc|apply Ha, Hc].
Qed.

(** ** The pairs a request names *)

(** An empty list of names stands for every node ([Spec] in [internal/console/checks]). *)
Definition everyone (nodes names : list jstr) : list jstr := match names with [] => nodes | _ => names end.

(** The pairs of a request, for a cluster of these nodes: across the mesh every source against every destination but
    itself, or every source against the one target or address. *)
Definition run_pairs (nodes : list jstr) (q : RunCreateRequest) : list (jstr * jstr) :=
  let sources := set_of_list (everyone nodes (rq_sources q)) in
  match rq_destinationKind q with
  | None => sources ≫= fun s => (s,.) <$> List.filter (fun d => negb (seqb s d)) (set_of_list (everyone nodes (rq_destinations q)))
  | Some _ => (fun s => (s, default (default [] (rq_destinationAddress q)) (rq_destinationTargetId q))) <$> sources
  end.

(** The product the server gates on. *)
Definition raw_pairs (nodes : list jstr) (q : RunCreateRequest) : Z :=
  match rq_destinationKind q with
  | None => estimateRawPairCount (everyone nodes (rq_sources q)) (everyone nodes (rq_destinations q))
  | Some _ => Z.of_nat (length (everyone nodes (rq_sources q)))
  end.

Lemma estimatePairCount_counts sources destinations :
  estimatePairCount sources destinations
  = Z.of_nat (length (set_of_list sources ≫= fun s => (s,.) <$> List.filter (fun d => negb (seqb s d)) (set_of_list destinations))).
Proof.
  unfold estimatePairCount. set (D := set_of_list destinations).
  assert (Hin : forall s l n, fold_left (fun count d => if seqb s d then count else count + 1) l n
    = n + Z.of_nat (length (List.filter (fun d => negb (seqb s d)) l))).
  { intros s l. induction l as [|d l IH]; intros n; simpl fold_left; [simpl; lia|]. rewrite IH. simpl List.filter.
    destruct (seqb s d); simpl length; lia. }
  enough (H : forall l n, fold_left (fun count s => fold_left (fun count d => if seqb s d then count else count + 1) D count) l n
    = n + Z.of_nat (length (l ≫= fun s => (s,.) <$> List.filter (fun d => negb (seqb s d)) D))) by (by rewrite H).
  induction l as [|s l IH]; intros n; simpl fold_left; [simpl; lia|]. rewrite IH, Hin. csimpl. rewrite length_app, length_fmap. lia.
Qed.

(** A form with pairs has names on each side it needs, so an empty list is sent for "all" and for nothing else. *)
Lemma sides_named f :
  pairCount f <> 0 ->
  everyone (rf_nodeNames f) (rq_sources (runRequest f)) = resolvedSources f /\
  (rf_destinationKind f = dk_node -> everyone (rf_nodeNames f) (rq_destinations (runRequest f)) = resolvedDestinations f).
Proof.
  unfold pairCount. destruct (incompleteDestination f); [done|]. intros Hp.
  assert (Hne : resolvedSources f <> [] /\ (rf_destinationKind f = dk_node -> resolvedDestinations f <> [])).
  { split; [intros E; rewrite E in Hp; by destruct (external f)|]. intros Ek E. unfold external in Hp. rewrite Ek in Hp. cbn [negb bool_decide] in Hp.
    rewrite bool_decide_eq_true_2 in Hp by done. cbn [negb] in Hp. rewrite E, estimatePairCount_counts in Hp. cbn in Hp.
    apply Hp. clear. induction (set_of_list (resolvedSources f)) as [|x l IH]; [done|]. by csimpl. }
  unfold resolvedSources, resolvedDestinations, runRequest, buildRunRequest, everyone in *. cbn [rq_sources rq_destinations].
  destruct Hne as [Hs Hd]. split.
  - destruct (rf_sourcesAll f); [done|]. by destruct (rf_sources f).
  - intros Ek. specialize (Hd Ek). rewrite decide_True by done. destruct (rf_destinationsAll f); [done|]. by destruct (rf_destinations f).
Qed.

Lemma pairs_built f :
  incompleteDestination f = false -> pairCount f <> 0 ->
  Z.of_nat (length (run_pairs (rf_nodeNames f) (runRequest f))) = pairCount f /\ raw_pairs (rf_nodeNames f) (runRequest f) = rawPairCount f.
Proof.
  intros Hi Hp. destruct (sides_named f Hp) as [Hs Hd]. unfold run_pairs, raw_pairs, pairCount, rawPairCount, external. rewrite Hi, Hs.
  destruct (rf_destinationKind f) eqn:Ek; unfold runRequest, buildRunRequest at 1 2 3; rewrite Ek; cbn [rq_destinationKind];
    [|by rewrite length_fmap..]. change (negb (bool_decide (dk_node = dk_node))) with false. cbv iota.
  unfold runRequest in Hd. rewrite Ek in Hd. by rewrite Hd, estimatePairCount_counts by done.
Qed.

(** C17: what a live run button sends is the run the form shows, and one the server can take.  Its timing is instant, or a
    duration from a preset with a cadence of at least a second and at most that duration; its destination is the mesh,
    one registered target, or one address that is a host or a host and port and no URL, each with the other fields empty
    and with a check type that takes it.  Its sources are the nodes ticked, or an empty list that stands for all of them,
    and likewise its destinations across the mesh; so for the cluster the form is drawn with, the pairs the request
    itself names are as many as the form counts, at least one, and the product the server gates on is at most 400.
    It is sent only while no earlier one is in flight, and takes the guard. *)
Theorem run_request_wellformed f g q :
  rf_type f ∈ CHECK_TYPES -> can_run URL_hostname f = true -> sent_req (RunForm_handleSubmit f g) = Some q ->
  timing_ok q /\ destination_ok URL_hostname q /\
  rq_type q = rf_type f /\ rq_sources q = (if rf_sourcesAll f then [] else rf_sources f) /\
  everyone (rf_nodeNames f) (rq_sources q) = resolvedSources f /\
  (rf_destinationKind f = dk_node -> rq_destinations q = (if rf_destinationsAll f then [] else rf_destinations f) /\
     everyone (rf_nodeNames f) (rq_destinations q) = resolvedDestinations f) /\
  Z.of_nat (length (run_pairs (rf_nodeNames f) q)) = pairCount f /\ 1 <= pairCount f /\ raw_pairs (rf_nodeNames f) q <= MAX_PAIRS /\
  rf_writesDisabled f = false /\ inFlight g = false /\ inFlight (after (RunForm_handleSubmit f g)) = true.
Proof.
  intros Hty Hc Hs. unfold RunForm_handleSubmit in *. pose proof Hs as [<-%(inj inr) Hg]%guarded_sends. destruct (can_run_spec f Hc) as (Hr & Hp & Hd & Hi & Hw).
  pose proof (pairCount_nonneg f). destruct (sides_named f Hp) as [Hsrc Hdst]. destruct (pairs_built f Hd Hp) as [Hn Hraw].
  split_and!; [apply timing_built|by apply destination_built|done|done|done| |done|lia|by rewrite Hraw|done|done|by apply (guarded_claims _ _ _ Hs)].
  intros Ek. split; [|by apply Hdst]. cbn [runRequest buildRunRequest rq_destinations]. by rewrite decide_True.
Qed.
End Sent.

(** ** The run history: what is proved *)

(** Whatever filters are picked, whatever older pages are asked for or retried, and in whatever order the answers
    and the failures of all those requests come back, a list that is not loading shows only runs of the type and the
    status the two filters read now. *)
Theorem runs_match_filters (h : loader run_filters RunSummary) r :
  rtc loadRuns unselected h -> loading h = false -> r ∈ rows h ->
  exists f, query h = Some f /\ matches f r.
Proof. intros Hr Hl. apply (shows_query (H := run_pane) h r Hr). by left. Qed.

Module DiagnosticsWitness.
Definition no_url (_ : jstr) : option jstr := None.

Definition form (names : list jstr) (k : DestinationKind) (addr : string) : run_form :=
  {| rf_type := js "tcp"; rf_sourcesAll := true; rf_destinationsAll := true; rf_sources := []; rf_destinations := [];
     rf_destinationKind := k; rf_destinationTargetId := []; rf_destinationAddress := js addr; rf_duration := js "5m";
     rf_sampleInterval := js "30s"; rf_nodeNames := names; rf_writesDisabled := false |}.

Definition two_nodes : run_form := form [js "a"; js "b"] dk_adhoc " 10.0.0.1:8443 ".
Definition free : guard := {| inFlight := false; submitting := false |}.

(** Two of three nodes ticked against all of them. *)
Definition two_of_three : run_form :=
  {| rf_type := js "tcp"; rf_sourcesAll := false; rf_destinationsAll := true; rf_sources := [js "b"; js "c"]; rf_destinations := [js "a"];
     rf_destinationKind := dk_node; rf_destinationTargetId := []; rf_destinationAddress := []; rf_duration := js "5m";
     rf_sampleInterval := js "30s"; rf_nodeNames := [js "a"; js "b"; js "c"]; rf_writesDisabled := false |}.

Lemma run_request_wellformed_witness :
  (timing_ok (runRequest two_nodes) /\ rq_destinationAddress (runRequest two_nodes) = Some (js "10.0.0.1:8443")) /\
  (run_pairs [js "a"; js "b"; js "c"] (runRequest two_of_three) =
     [(js "b", js "a"); (js "b", js "c"); (js "c", js "a"); (js "c", js "b")] /\
   Z.of_nat (length (run_pairs [js "a"; js "b"; js "c"] (runRequest two_of_three))) = pairCount two_of_three).
Proof.
  split; split; [|vm_compute; reflexivity|vm_compute; reflexivity|].
  - destruct (run_request_wellformed no_url two_nodes free (runRequest two_nodes)) as [H _]; [left|vm_compute; reflexivity|reflexivity|exact H].
  - destruct (run_request_wellformed no_url two_of_three free (runRequest two_of_three)) as (_ & _ & _ & _ & _ & _ & H & _);
      [left|vm_compute; reflexivity|reflexivity|exact H].
Defined.

(** The Runner pane has no such gate: over the limit of pairs its button stays live while the form's does not. *)
Example runner_over_limit :
  let nodes := map (fun n => js "n" ++ digits (Z.of_nat n)) (seq 1 21) in
  let f := form nodes dk_node "" in
  rawPairCount f = 441 /\ can_run no_url f = false /\ runner_can_run false f = true.
Proof. vm_compute. auto. Qed.

Definition run_of (i ty : string) : RunSummary :=
  {| rs_id := js i; rs_type := js ty; rs_status := js "done"; rs_pairOk := VNum (int 1); rs_pairTotal := VNum (int 2) |}.
Definition of_type (ty : string) : run_filters := {| typeFilter := js ty; statusFilter := [] |}.
Definition asked : loader run_filters RunSummary :=
  select (H := run_pane) (Some (of_type "mtr")) (select (H := run_pane) (Some (of_type "tcp")) unselected).
Definition req (n : nat) (ty : string) : request run_filters := {| r_ticket := n; r_query := of_type ty; r_cursor := None |}.
Definition tcp_last : loader run_filters RunSummary :=
  answered (H := run_pane) (req 1 "tcp") [run_of "t" "tcp"] [] (answered (H := run_pane) (req 2 "mtr") [run_of "m" "mtr"] [] asked).

Lemma tcp_last_reachable : rtc loadRuns unselected tcp_last.
Proof.
  eapply rtc_l; [apply (step_select (H := run_pane) (Some (of_type "tcp")))|].
  eapply rtc_l; [apply (step_select (H := run_pane) (Some (of_type "mtr")))|].
  eapply rtc_l; [apply step_network, (step_answer (H := run_pane) (req 2 "mtr") [run_of "m" "mtr"] [])|
    eapply rtc_l; [apply step_network, (step_answer (H := run_pane) (req 1 "tcp") [run_of "t" "tcp"] [])|apply rtc_refl]].
  - left.
  - constructor; [|constructor]. split; [right; reflexivity|left; reflexivity].
  - exact I.
  - left.
  - constructor; [|constructor]. split; [right; reflexivity|left; reflexivity].
  - exact I.
Defined.

Lemma runs_match_filters_witness :
  rows tcp_last = [run_of "m" "mtr"] /\ exists f, query tcp_last = Some f /\ matches f (run_of "m" "mtr").
Proof.
  split; [vm_compute; reflexivity|].
  apply (runs_match_filters tcp_last (run_of "m" "mtr") tcp_last_reachable); [reflexivity|left].
Defined.
End DiagnosticsWitness.
