(* ===== verification/Api.v ===== *)
(** The REST client ([web/src/lib/api.ts]): the one fetch every function goes through, with its CSRF header and its
    redirect to the sign-in page, the reading of an answer, the error predicates, the walks that follow a cursor, and
    every endpoint.

    A call is a computation over the browser, which records what was sent and where it was navigated to.  The network
    is a parameter: what answers a request may depend on everything sent before it. *)
From S2P Require Import Prelude JsNum JsString JsCollections JsValue JsDate JsFormat JsUrl JsJson TimeMachine.
Local Open Scope Z_scope.

(** ** Text of an address *)

(** A byte of an escape, inside a UTF-8 sequence or at its start. *)
Definition strict_byte (st : option utf8_state) (b : Z) : option (list Z * option utf8_state) :=
  match st with
  | None => match start_byte b with ([c], None) => if b <? 0x80 then Some ([c], None) else None | r => Some r end
  | Some s => if (lower s <=? b) && (b <=? upper s) then Some (utf8_step st b) else None
  end.

(** [decodeURIComponent(s)]; [None] is the [URIError] of a malformed escape. *)
Fixpoint uri_decode (st : option utf8_state) (s : jstr) {struct s} : option jstr :=
  match s with
  | [] => match st with None => Some [] | Some _ => None end
  | c :: r =>
      if c =? 37 then
        match r with
        | h :: l :: r' =>
            hi ← hex_val h; lo ← hex_val l; '(out, st') ← strict_byte st (hi * 16 + lo);
            t ← uri_decode st' r'; Some (units_of out ++ t)
        | _ => None
        end
      else match st with None => t ← uri_decode None r; Some (c :: t) | Some _ => None end
  end.

Definition decodeURIComponent (s : jstr) : option jstr := uri_decode None s.

(** ** Requests, answers, errors *)

Record http_request := {
  input : jstr; method : jstr; headers : list (jstr * jstr); credentials : jstr; body : option jstr;
}.

(** [json] is what [resp.json()] resolves to, [None] where it rejects. *)
Record response := { status : Z; statusText : jstr; content_type : option jstr; json : option value }.

Definition resp_ok (r : response) : bool := (200 <=? status r) && (status r <=? 299).

(** What a call throws: an [ApiError] with its problem, or anything else. *)
Inductive thrown := ApiError (problem : value) | Failure.

Record browser := {
  cookie : jstr; loc_pathname : jstr; loc_search : jstr; sent : list http_request; navigated : list jstr;
}.

Definition client (A : Type) : Type := browser -> (thrown + A) * browser.

#[export] Instance client_ret : MRet client := fun A a w => (inr a, w).
#[export] Instance client_bind : MBind client :=
  fun A B k m w => match m w with (inl e, w') => (inl e, w') | (inr a, w') => k a w' end.

Definition throw {A} (e : thrown) : client A := fun w => (inl e, w).
Definition from_option_client {A} (o : option A) : client A := match o with Some a => mret a | None => throw Failure end.

(** [a ?? b]. *)
Definition nullish (a b : value) : value := match a with VUndef | VNull => b | _ => a end.

(** [new ApiError(problem)]: the message of the error is read off the problem. *)
Definition api_error (problem : value) : thrown :=
  match problem with
  | VNull | VUndef => Failure
  | _ => if to_string_throws (nullish (vget problem (js "detail")) (vget problem (js "title"))) then Failure
         else ApiError problem
  end.

(** ** What an error says *)

Definition problem_field (e : thrown) (k : jstr) : option value := match e with ApiError p => Some (vget p k) | Failure => None end.

Definition isSettledClientError (e : thrown) : bool :=
  match problem_field e (js "status") with
  | None | Some VUndef => false
  | Some s => (number_of_value s >=? int 400)%num && (number_of_value s <? int 500)%num
              && negb match s with VNum n => (n =? int 429)%num | _ => false end
  end.

(** [v === s] for a text and for a number. *)
Definition is_text (v : value) (s : jstr) : bool := match v with VStr t => seqb t s | _ => false end.
Definition is_number (v : value) (n : Z) : bool := match v with VNum x => (x =? int n)%num | _ => false end.

Definition status_title (e : thrown) (s : Z) (title : jstr) : bool :=
  match e with
  | ApiError p => is_number (vget p (js "status")) s && is_text (vget p (js "title")) title
  | Failure => false
  end.

Definition isAuthUnavailable (e : thrown) : bool := status_title e 503 (js "authentication unavailable").
Definition isWrongCurrentPassword (e : thrown) : bool := status_title e 401 (js "invalid credentials").

Definition retryUnlessClientError (failureCount : Z) (e : thrown) : bool :=
  negb (isSettledClientError e) && (failureCount <? 1).

Definition PROBLEM_TYPE_UNREADABLE : jstr := js "urn:kconmon-ng:client:unreadable-body".
Definition UNREADABLE_BODY : jstr := js "the server's answer could not be read".

Definition unreadable (s : Z) : value :=
  VObj [(js "type", VStr PROBLEM_TYPE_UNREADABLE); (js "title", VStr UNREADABLE_BODY); (js "status", VNum (int s))].

Definition isServerSentence (e : thrown) : bool :=
  match e with ApiError p => negb (is_text (vget p (js "type")) PROBLEM_TYPE_UNREADABLE) | Failure => false end.

(** [s?.trim() ?? ""]; [None] is the [TypeError] of a value without [trim]. *)
Definition said (v : value) : option jstr :=
  match v with VUndef | VNull => Some [] | VStr s => Some (trim s) | _ => None end.

Definition queryErrorMessage (e : thrown) (fallback : jstr) : option jstr :=
  match e with
  | Failure => Some fallback
  | ApiError p =>
      detail ← said (vget p (js "detail")); title ← said (vget p (js "title"));
      Some (default fallback (find (fun s => negb (seqb s [])) [detail; title]))
  end.

(** ** Cookies and headers *)

(** [s.split("cd")] for a separator of two units. *)
Fixpoint split_two (c d : Z) (s : jstr) {struct s} : list jstr :=
  match s with
  | [] => [[]]
  | x :: r =>
      let more := match split_two c d r with w :: ws => (x :: w) :: ws | [] => [[x]] end in
      match r with
      | y :: r' => if (x =? c) && (y =? d) then [] :: split_two c d r' else more
      | [] => more
      end
  end.

(** The parts of [document.cookie], in order; [None] is a [URIError]. *)
Fixpoint cookie_value (name : jstr) (parts : list jstr) : option (option jstr) :=
  match parts with
  | [] => Some None
  | part :: parts' =>
      match indexOf part [61] with
      | None => cookie_value name parts'
      | Some eq =>
          k ← decodeURIComponent (take eq part);
          if seqb k name then Some <$> decodeURIComponent (drop (S eq) part) else cookie_value name parts'
      end
  end.

Definition readCookie (name : jstr) (w : browser) : option (option jstr) := cookie_value name (split_two 59 32 (cookie w)).

Definition LOGIN_PATH : jstr := js "/login".
Definition CSRF_COOKIE_NAME : jstr := js "csrf".
Definition CSRF_HEADER_NAME : jstr := js "X-CSRF-Token".
Definition MUTATING_METHODS : list jstr := [js "POST"; js "PUT"; js "PATCH"; js "DELETE"].
Definition NO_REDIRECT_ON_401 : list jstr := [js "/api/v1/auth/login"; js "/api/v1/auth/password"].

(** A header's value: bytes, without blanks around them, and no line break inside; [None] is a [TypeError]. *)
Definition is_blank (c : Z) : bool := (c =? 9) || (c =? 10) || (c =? 13) || (c =? 32).
Fixpoint strip_blanks (s : jstr) : jstr :=
  match s with x :: s' => if is_blank x then strip_blanks s' else s | [] => [] end.
Definition header_value (v : jstr) : option jstr :=
  let n := rev (strip_blanks (rev (strip_blanks v))) in
  if forallb (fun c => c <=? 255) v && negb (existsb (fun c => (c =? 0) || (c =? 10) || (c =? 13)) n) then Some n else None.

(** Header names are kept in lower case. *)
Definition headers_set (hs : list (jstr * jstr)) (name v : jstr) : option (list (jstr * jstr)) :=
  mset hs (ascii_lower name) <$> header_value v.

(** ** The one fetch *)

Section Client.
Context `{DateHost} (network : list http_request -> http_request -> option response).

Definition get_browser : client browser := fun w => (inr w, w).

Definition navigate (path : jstr) : client unit := fun w =>
  (inr tt, {| cookie := cookie w; loc_pathname := loc_pathname w; loc_search := loc_search w; sent := sent w;
              navigated := navigated w ++ [path] |}).

Definition goTo (path : jstr) : client unit := navigate path.

Definition redirectToLogin : client unit :=
  w ← get_browser;
  if seqb (loc_pathname w) LOGIN_PATH then mret tt
  else
    let target := loc_pathname w ++ loc_search w in
    if seqb target (js "/") then navigate LOGIN_PATH
    else enc ← from_option_client (uri_component target); navigate (LOGIN_PATH ++ js "?returnTo=" ++ enc).

(** The browser's own [fetch]: it sends, and answers or rejects. *)
Definition fetch (r : http_request) : client response := fun w =>
  (match network (sent w) r with Some resp => inr resp | None => inl Failure end,
   {| cookie := cookie w; loc_pathname := loc_pathname w; loc_search := loc_search w; sent := sent w ++ [r];
      navigated := navigated w |}).

Definition csrf_headers (m : jstr) (hs : list (jstr * jstr)) : client (list (jstr * jstr)) :=
  if existsb (seqb m) MUTATING_METHODS then
    w ← get_browser; csrf ← from_option_client (readCookie CSRF_COOKIE_NAME w);
    match csrf with
    | Some (c :: v) => from_option_client (headers_set hs CSRF_HEADER_NAME (c :: v))
    | _ => mret hs
    end
  else mret hs.

(** [meth], [hs] and [b] are the fields of [init]; an absent method is GET. *)
Definition apiFetch (inp : jstr) (meth : option jstr) (hs : list (jstr * jstr)) (b : option jstr) : client response :=
  hs' ← csrf_headers (toUpperCase (default (js "GET") meth)) hs;
  resp ← fetch {| input := inp; method := default (js "GET") meth; headers := hs'; credentials := js "same-origin"; body := b |};
  if (status resp =? 401) && negb (existsb (seqb inp) NO_REDIRECT_ON_401) then redirectToLogin ;; mret resp else mret resp.

(** ** Reading an answer *)

Definition status_error (r : response) : thrown :=
  if seqb (statusText r) [] then api_error (unreadable (status r))
  else api_error (VObj [(js "type", VStr (js "about:blank")); (js "title", VStr (statusText r)); (js "status", VNum (int (status r)))]).

Definition handle (r : response) : thrown + value :=
  if resp_ok r then
    match json r with None => inl (api_error (unreadable (status r))) | Some v => inr v end
  else
    let ct := default [] (content_type r) in
    if includes ct (js "problem+json") then
      match json r with Some problem => inl (api_error problem) | None => inl (status_error r) end
    else if includes ct (js "json") then
      match json r with
      | Some v => if is_text (vget v (js "status")) (js "error") then inr v else inl (status_error r)
      | None => inl (status_error r)
      end
    else inl (status_error r).

Definition handleVoid (r : response) : thrown + unit :=
  if resp_ok r then inr tt
  else
    let ct := default [] (content_type r) in
    if includes ct (js "problem+json") then
      match json r with Some problem => inl (api_error problem) | None => inl (status_error r) end
    else inl (status_error r).

Definition lift {A} (x : thrown + A) : client A := fun w => (x, w).

(** The three shapes of an endpoint: a read, a write with a JSON body, a write that answers nothing. *)
Definition get_json (inp : jstr) : client value := r ← apiFetch inp None [] None; lift (handle r).

Definition json_headers : list (jstr * jstr) := [(js "content-type", js "application/json")].

Definition send_json (m inp : jstr) (req : value) : client value :=
  r ← apiFetch inp (Some m) json_headers (json_stringify req); lift (handle r).

Definition send_json_void (m inp : jstr) (req : value) : client unit :=
  r ← apiFetch inp (Some m) json_headers (json_stringify req); lift (handleVoid r).

Definition send_void (m inp : jstr) : client unit := r ← apiFetch inp (Some m) [] None; lift (handleVoid r).

(** [`${base}${encodeURIComponent(id)}${rest}`]. *)
Definition with_id {A} (base id rest : jstr) (k : jstr -> client A) : client A :=
  enc ← from_option_client (uri_component id); k (base ++ enc ++ rest).

(** ** Query strings *)

Definition set_text (qs : list (jstr * jstr)) (k : jstr) (o : option jstr) : list (jstr * jstr) :=
  match o with Some (c :: s) => qs_set qs k (c :: s) | _ => qs end.

Definition set_defined (qs : list (jstr * jstr)) (k : jstr) (o : option jstr) : list (jstr * jstr) :=
  match o with Some s => qs_set qs k s | None => qs end.

Definition set_number (qs : list (jstr * jstr)) (k : jstr) (o : option number) : list (jstr * jstr) :=
  match o with Some n => qs_set qs k (num_to_string n) | None => qs end.

(** [None] is the [RangeError] of an invalid date. *)
Definition set_date (qs : list (jstr * jstr)) (k : jstr) (o : option date) : option (list (jstr * jstr)) :=
  match o with Some d => qs_set qs k <$> toISOString d | None => Some qs end.

Definition with_query (path : jstr) (qs : list (jstr * jstr)) : jstr :=
  if seqb (qs_print qs) [] then path else path ++ js "?" ++ qs_print qs.

(** [{ ...t, k: t.k ?? d, ... }]; [Failure] is the [TypeError] of reading a member of null. *)
Definition normalized (defaults : list (jstr * value)) (t : value) : client value :=
  match t with
  | VUndef | VNull => throw Failure
  | _ => mret (VObj (fold_left (fun o kd => obj_set o kd.1 (nullish (vget t kd.1) kd.2)) defaults (object_entries t)))
  end.

(** ** Reads of the fleet *)

Definition getTopology (at_ : option date) : client value :=
  suffix ← match at_ with
           | Some d => s ← from_option_client (formatAtParam d); e ← from_option_client (uri_component s); mret (js "?at=" ++ e)
           | None => mret []
           end;
  t ← get_json (js "/api/v1/topology" ++ suffix); normalized [(js "nodes", VArr []); (js "agents", VArr [])] t.

Definition getVersion : client value := get_json (js "/api/v1/version").
Definition getConfig : client value := get_json (js "/api/v1/config").
Definition getMe : client value := get_json (js "/api/v1/auth/me").

Definition login (username password : jstr) : client unit :=
  send_json_void (js "POST") (js "/api/v1/auth/login") (VObj [(js "username", VStr username); (js "password", VStr password)]).

Definition logout : client unit := send_void (js "POST") (js "/api/v1/auth/logout").

Record EventQuery := {
  ev_types : list jstr; ev_scope : option jstr; ev_scopeNode : option jstr; ev_from : option date; ev_to : option date;
  ev_limit : option number; ev_cursor : option jstr;
}.

Definition event_params (q : EventQuery) : option (list (jstr * jstr)) :=
  let qs := fold_left (fun qs t => qs_append qs (js "type") t) (ev_types q) [] in
  let qs := set_text qs (js "scope") (ev_scope q) in
  let qs := set_text qs (js "scopeNode") (ev_scopeNode q) in
  qs ← set_date qs (js "from") (ev_from q);
  qs ← set_date qs (js "to") (ev_to q);
  let qs := set_number qs (js "limit") (ev_limit q) in
  Some (set_text qs (js "cursor") (ev_cursor q)).

Definition getEvents (q : EventQuery) : client value :=
  qs ← from_option_client (event_params q);
  p ← get_json (with_query (js "/api/v1/events") qs);
  normalized [(js "events", VArr []); (js "nextCursor", VStr [])] p.

Definition getMatrix (protocol plane : jstr) : client value :=
  m ← get_json (js "/api/v1/matrix?" ++ qs_print [(js "protocol", protocol); (js "plane", plane)]);
  normalized [(js "nodes", VArr []); (js "cells", VArr [])] m.

Definition promqlQuery (query : jstr) (time : option date) : client value :=
  fields ← match time with
           | Some d => t ← from_option_client (toISOString d); mret [(js "time", VStr t)]
           | None => mret []
           end;
  send_json (js "POST") (js "/api/v1/promql/query") (VObj ((js "query", VStr query) :: fields)).

Definition promqlQueryRange (query : jstr) (start end_ : date) (stepNs : number) : client value :=
  s ← from_option_client (toISOString start); e ← from_option_client (toISOString end_);
  send_json (js "POST") (js "/api/v1/promql/query_range")
    (VObj [(js "query", VStr query); (js "start", VStr s); (js "end", VStr e); (js "step", VNum stepNs)]).

(** ** Runs *)

Definition createRun (req : value) : client value := send_json (js "POST") (js "/api/v1/runs") req.
Definition createZonePairRuns (req : value) : client value := send_json (js "POST") (js "/api/v1/runs/zone-pair") req.
Definition getRun (id : jstr) : client value := with_id (js "/api/v1/runs/") id [] get_json.
Definition cancelRun (id : jstr) : client unit := with_id (js "/api/v1/runs/") id (js "/cancel") (send_void (js "POST")).

Definition getRuns (type_ status_ cursor : option jstr) (limit : option number) : client value :=
  let qs := set_text [] (js "type") type_ in
  let qs := set_text qs (js "status") status_ in
  let qs := set_text qs (js "cursor") cursor in
  let qs := set_number qs (js "limit") limit in
  get_json (with_query (js "/api/v1/runs") qs).

(** ** Following a cursor *)

Definition MAX_COLLECT_PAGES : nat := 50.

Section Collect.
Context {P T : Type} (fetchPage : option jstr -> client P) (rowsOf : P -> thrown + list T) (cursorOf : P -> option jstr).

Fixpoint collect (n : nat) (cursor : option jstr) (items : list T) : client (list T * bool) :=
  match n with
  | O => mret (items, true)
  | S n' =>
      page ← fetchPage cursor; rows ← lift (rowsOf page);
      match cursorOf page with
      | None => mret (items ++ rows, false)
      | Some c => collect n' (Some c) (items ++ rows)
      end
  end.

(** The items, and whether the walk was cut short. *)
Definition collectPages : client (list T * bool) := collect MAX_COLLECT_PAGES None [].
End Collect.

Definition truthy (v : value) : bool :=
  match v with
  | VUndef | VNull => false
  | VBool b => b
  | VNum n => negb (isNaN n || (n =? int 0)%num)
  | VStr s => negb (seqb s [])
  | _ => true
  end.

(** [page.k ?? []], spread; [Failure] is a [TypeError]. *)
Definition page_rows (k : jstr) (page : value) : thrown + list value :=
  match page with
  | VUndef | VNull => inl Failure
  | _ =>
      match vget page k with
      | VUndef | VNull => inr []
      | VArr l => inr l
      | VStr s => inr ((fun c => VStr (units_of [c])) <$> code_points s)
      | _ => inl Failure
      end
  end.

(** [page.nextCursor || undefined], as the text a query string makes of it. *)
Definition page_cursor (page : value) : option jstr :=
  let c := vget page (js "nextCursor") in if truthy c then Some (string_of_value c) else None.

(** ** Targets, definitions, schedules *)

Definition listTargets (kind : option jstr) (limit : option number) (cursor : option jstr) : client value :=
  let qs := set_text [] (js "kind") kind in
  let qs := set_number qs (js "limit") limit in
  let qs := set_text qs (js "cursor") cursor in
  get_json (with_query (js "/api/v1/targets") qs).

Definition listAllTargets (kind : option jstr) (limit : option number) : client (list value * bool) :=
  collectPages (fun cursor => listTargets kind limit cursor) (page_rows (js "targets")) page_cursor.

Definition getTarget (id : jstr) : client value := with_id (js "/api/v1/targets/") id [] get_json.
Definition createTarget (req : value) : client value := send_json (js "POST") (js "/api/v1/targets") req.
Definition updateTarget (id : jstr) (req : value) : client value :=
  with_id (js "/api/v1/targets/") id [] (fun inp => send_json (js "PUT") inp req).
Definition deleteTarget (id : jstr) : client unit := with_id (js "/api/v1/targets/") id [] (send_void (js "DELETE")).

Definition bool_text (b : bool) : jstr := if b then js "true" else js "false".

Definition listChecks (targetId : option jstr) (enabled : option bool) (limit : option number) (cursor : option jstr) : client value :=
  let qs := set_text [] (js "targetId") targetId in
  let qs := set_defined qs (js "enabled") (bool_text <$> enabled) in
  let qs := set_number qs (js "limit") limit in
  let qs := set_text qs (js "cursor") cursor in
  get_json (with_query (js "/api/v1/checks") qs).

Definition listAllChecks (targetId : option jstr) (enabled : option bool) (limit : option number) : client (list value * bool) :=
  collectPages (fun cursor => listChecks targetId enabled limit cursor) (page_rows (js "definitions")) page_cursor.

Definition createCheck (req : value) : client value := send_json (js "POST") (js "/api/v1/checks") req.
Definition updateCheck (id : jstr) (req : value) : client value :=
  with_id (js "/api/v1/checks/") id [] (fun inp => send_json (js "PUT") inp req).
Definition deleteCheck (id : jstr) : client unit := with_id (js "/api/v1/checks/") id [] (send_void (js "DELETE")).
Definition checksProjection (req : value) : client value := send_json (js "POST") (js "/api/v1/checks/projection") req.

Definition listSchedules (definitionId : option jstr) (limit : option number) (cursor : option jstr) : client value :=
  let qs := set_text [] (js "definitionId") definitionId in
  let qs := set_number qs (js "limit") limit in
  let qs := set_text qs (js "cursor") cursor in
  get_json (with_query (js "/api/v1/schedules") qs).

Definition listAllSchedules (definitionId : option jstr) (limit : option number) : client (list value * bool) :=
  collectPages (fun cursor => listSchedules definitionId limit cursor) (page_rows (js "schedules")) page_cursor.

Definition createSchedule (req : value) : client value := send_json (js "POST") (js "/api/v1/schedules") req.
Definition updateSchedule (id : jstr) (req : value) : client value :=
  with_id (js "/api/v1/schedules/") id [] (fun inp => send_json (js "PUT") inp req).
Definition deleteSchedule (id : jstr) : client unit := with_id (js "/api/v1/schedules/") id [] (send_void (js "DELETE")).

(** ** Path history *)

Definition MTR_DESTINATIONS_LIMIT : Z := 500.

Definition getMTRDestinations : client (list value * bool) :=
  collectPages (fun cursor =>
      get_json (js "/api/v1/mtr/destinations?" ++
        qs_print (set_text [(js "limit", num_to_string (int MTR_DESTINATIONS_LIMIT))] (js "cursor") cursor)))
    (page_rows (js "destinations")) page_cursor.

Definition getMTRSnapshots (source destination : jstr) (limit : option number) (cursor : option jstr) : client value :=
  let qs := set_number [(js "source", source); (js "destination", destination)] (js "limit") limit in
  get_json (js "/api/v1/mtr/snapshots?" ++ qs_print (set_text qs (js "cursor") cursor)).

Definition MTR_SNAPSHOTS_LIMIT : Z := 500.

Definition listAllMTRSnapshots (source destination : jstr) : client (list value * bool) :=
  collectPages (fun cursor => getMTRSnapshots source destination (Some (int MTR_SNAPSHOTS_LIMIT)) cursor)
    (page_rows (js "snapshots")) page_cursor.

Definition getMTRSnapshot (id : jstr) (enrich : bool) : client value :=
  with_id (js "/api/v1/mtr/snapshots/") id (if enrich then js "?enrich=true" else []) get_json.

Definition listPathTraces (id : jstr) (limit : option number) (cursor : option jstr) : client value :=
  let qs := set_text (set_number [] (js "limit") limit) (js "cursor") cursor in
  with_id (js "/api/v1/mtr/snapshots/") id (with_query (js "/traces") qs) get_json.

(** ** Annotations, cluster events, incidents, maintenance, audit *)

Definition listAnnotations (from to : option date) (scope : option jstr) (limit : option number) (cursor : option jstr) : client value :=
  qs ← from_option_client (set_date [] (js "from") from);
  qs ← from_option_client (set_date qs (js "to") to);
  let qs := set_defined qs (js "scope") scope in
  let qs := set_number qs (js "limit") limit in
  get_json (with_query (js "/api/v1/annotations") (set_text qs (js "cursor") cursor)).

Definition createAnnotation (req : value) : client value := send_json (js "POST") (js "/api/v1/annotations") req.
Definition deleteAnnotation (id : jstr) : client unit := with_id (js "/api/v1/annotations/") id [] (send_void (js "DELETE")).

Definition getK8sEvents (name kind type_ : option jstr) (from to : option date) (limit : option number) (cursor : option jstr) : client value :=
  let qs := set_text [] (js "name") name in
  let qs := set_text qs (js "kind") kind in
  let qs := set_text qs (js "type") type_ in
  qs ← from_option_client (set_date qs (js "from") from);
  qs ← from_option_client (set_date qs (js "to") to);
  let qs := set_number qs (js "limit") limit in
  get_json (with_query (js "/api/v1/k8s-events") (set_text qs (js "cursor") cursor)).

Record IncidentQuery := {
  in_status : option jstr; in_scope : option jstr; in_from : option date; in_to : option date; in_limit : option number;
}.

Definition getIncidents (q : IncidentQuery) (cursor : option jstr) : client value :=
  let qs := set_text [] (js "status") (in_status q) in
  let qs := set_defined qs (js "scope") (in_scope q) in
  qs ← from_option_client (set_date qs (js "from") (in_from q));
  qs ← from_option_client (set_date qs (js "to") (in_to q));
  let qs := set_number qs (js "limit") (in_limit q) in
  p ← get_json (with_query (js "/api/v1/incidents") (set_text qs (js "cursor") cursor));
  normalized [(js "incidents", VArr []); (js "nextCursor", VStr [])] p.

(** The rows of a page that are kept, until [want] are held: the incidents so far, and whether that is enough. *)
Fixpoint scan_rows (keep : value -> bool) (want : Z) (rows incidents : list value) : list value * bool :=
  match rows with
  | [] => (incidents, false)
  | row :: rows' =>
      if negb (keep row) then scan_rows keep want rows' incidents
      else
        let incidents' := incidents ++ [row] in
        if want <=? Z.of_nat (length incidents') then (incidents', true) else scan_rows keep want rows' incidents'
  end.

Fixpoint scan (q : IncidentQuery) (keep : value -> bool) (want : Z) (n : nat) (cursor : option jstr) (incidents : list value) :
    client (list value * bool) :=
  match n with
  | O => mret (incidents, true)
  | S n' =>
      page ← getIncidents q cursor; rows ← lift (page_rows (js "incidents") page);
      let '(incidents', enough) := scan_rows keep want rows incidents in
      if enough then mret (incidents', false)
      else match page_cursor page with
      | None => mret (incidents', false)
      | Some c => scan q keep want n' (Some c) incidents'
      end
  end.

Definition scanIncidents (q : IncidentQuery) (keep : value -> bool) (want : Z) : client (list value * bool) :=
  scan q keep want MAX_COLLECT_PAGES None [].

Definition getIncident (id : jstr) : client value := with_id (js "/api/v1/incidents/") id [] get_json.
Definition createIncident (req : value) : client value := send_json (js "POST") (js "/api/v1/incidents") req.
Definition patchIncident (id : jstr) (req : value) : client value :=
  with_id (js "/api/v1/incidents/") id [] (fun inp => send_json (js "PATCH") inp req).
Definition deleteIncident (id : jstr) : client unit := with_id (js "/api/v1/incidents/") id [] (send_void (js "DELETE")).

Definition getMaintenance (scope : option jstr) (from to : option date) (limit : option number) (cursor : option jstr) : client value :=
  let qs := set_defined [] (js "scope") scope in
  qs ← from_option_client (set_date qs (js "from") from);
  qs ← from_option_client (set_date qs (js "to") to);
  let qs := set_number qs (js "limit") limit in
  get_json (with_query (js "/api/v1/maintenance") (set_text qs (js "cursor") cursor)).

Definition createMaintenance (req : value) : client value := send_json (js "POST") (js "/api/v1/maintenance") req.
Definition deleteMaintenance (id : jstr) : client unit := with_id (js "/api/v1/maintenance/") id [] (send_void (js "DELETE")).

Definition getAuditEntries (subjectKind subjectId : option jstr) (limit : option number) (cursor : option jstr) : client value :=
  let qs := set_text [] (js "subjectKind") subjectKind in
  let qs := set_text qs (js "subjectId") subjectId in
  let qs := set_number qs (js "limit") limit in
  get_json (with_query (js "/api/v1/audit") (set_text qs (js "cursor") cursor)).

(** ** Webhooks, tokens, users, the configuration bundle *)

Definition listWebhooks : client value := get_json (js "/api/v1/webhooks").
Definition createWebhook (req : value) : client value := send_json (js "POST") (js "/api/v1/webhooks") req.
Definition updateWebhook (id : jstr) (req : value) : client value :=
  with_id (js "/api/v1/webhooks/") id [] (fun inp => send_json (js "PUT") inp req).
Definition deleteWebhook (id : jstr) : client unit := with_id (js "/api/v1/webhooks/") id [] (send_void (js "DELETE")).
Definition testWebhook (id : jstr) : client unit := with_id (js "/api/v1/webhooks/") id (js "/test") (send_void (js "POST")).

Definition listTokens : client value := l ← get_json (js "/api/v1/tokens"); normalized [(js "tokens", VArr [])] l.
Definition createToken (req : value) : client value := send_json (js "POST") (js "/api/v1/tokens") req.
Definition deleteToken (id : jstr) : client unit := with_id (js "/api/v1/tokens/") id [] (send_void (js "DELETE")).

(** [l.k ?? []]. *)
Definition member_or_empty (k : jstr) (l : value) : client value :=
  match l with VUndef | VNull => throw Failure | _ => mret (nullish (vget l k) (VArr [])) end.

Definition listUsers : client value := l ← get_json (js "/api/v1/users"); member_or_empty (js "users") l.
Definition createUser (req : value) : client value := send_json (js "POST") (js "/api/v1/users") req.
Definition updateUser (id : jstr) (patch : value) : client value :=
  with_id (js "/api/v1/users/") id [] (fun inp => send_json (js "PATCH") inp patch).
Definition deleteUser (id : jstr) : client unit := with_id (js "/api/v1/users/") id [] (send_void (js "DELETE")).
Definition resetUserPassword (id password : jstr) : client unit :=
  with_id (js "/api/v1/users/") id (js "/password")
    (fun inp => send_json_void (js "POST") inp (VObj [(js "password", VStr password)])).

(** [m.catch(h)]. *)
Definition catch_ {A} (m : client A) (h : thrown -> client A) : client A :=
  fun w => match m w with (inl e, w') => h e w' | r => r end.

Definition changeOwnPassword (currentPassword newPassword : jstr) : client unit :=
  catch_ (send_json_void (js "POST") (js "/api/v1/auth/password")
            (VObj [(js "currentPassword", VStr currentPassword); (js "newPassword", VStr newPassword)]))
    (fun err =>
       match problem_field err (js "status") with
       | Some s => if is_number s 401 && negb (isWrongCurrentPassword err) then redirectToLogin ;; throw err else throw err
       | None => throw err
       end).

Definition listRoles : client value := l ← get_json (js "/api/v1/rbac/roles"); member_or_empty (js "roles") l.
Definition exportConfig : client value := get_json (js "/api/v1/export").

(** A collection of an import's result: its lists of errors and warnings are never null. *)
Definition normalized_collection (v : value) : value :=
  match v with
  | VObj fs =>
      if mhas fs (js "created")
      then VObj (obj_set (obj_set fs (js "errors") (nullish (vget v (js "errors")) (VArr [])))
                   (js "warnings") (nullish (vget v (js "warnings")) (VArr [])))
      else v
  | _ => v
  end.

Definition import_result (res : value) : value := VObj (prod_map Datatypes.id normalized_collection <$> object_entries res).

Definition importConfig (bundle : value) (dryRun : bool) : client value :=
  res ← send_json (js "POST") (js "/api/v1/import") (VObj [(js "dryRun", VBool dryRun); (js "bundle", bundle)]);
  mret (import_result res).

(** ** Alert rules and alerts *)

Definition listAlertRules : client value := get_json (js "/api/v1/alert-rules").
Definition createAlertRule (req : value) : client value := send_json (js "POST") (js "/api/v1/alert-rules") req.
Definition updateAlertRule (id : jstr) (req : value) : client value :=
  with_id (js "/api/v1/alert-rules/") id [] (fun inp => send_json (js "PUT") inp req).
Definition deleteAlertRule (id : jstr) : client unit := with_id (js "/api/v1/alert-rules/") id [] (send_void (js "DELETE")).
Definition syncAlertRules (id : jstr) : client value :=
  with_id (js "/api/v1/alert-rules/") id (js "/sync")
    (fun inp => r ← apiFetch inp (Some (js "POST")) [] None; lift (handle r)).
Definition previewAlertRule (req : value) : client value := send_json (js "POST") (js "/api/v1/alert-rules/preview") req.
Definition listForeignAlertRules : client value := get_json (js "/api/v1/alert-rules/foreign").
Definition importForeignAlertRules (name : jstr) : client value :=
  send_json (js "POST") (js "/api/v1/alert-rules/import") (VObj [(js "name", VStr name)]).
Definition listAlerts : client value := get_json (js "/api/v1/alerts?managedOnly=true").
End Client.

(** ** What every call keeps *)

(** The names of the cells a call may not touch. *)
Definition same_page (w w' : browser) : Prop :=
  cookie w' = cookie w /\ loc_pathname w' = loc_pathname w /\ loc_search w' = loc_search w.

Definition API_PREFIX : jstr := js "/api/v1/".
Definition csrf_name : jstr := ascii_lower CSRF_HEADER_NAME.

Definition mutates (m : jstr) : bool := existsb (seqb (toUpperCase m)) MUTATING_METHODS.

(** A request the server can trust: to its own API, with the session, and with the token of the session exactly when
    it changes something. *)
Record request_ok (w : browser) (r : http_request) : Prop := {
  ok_prefix : startsWith (input r) API_PREFIX = true;
  ok_credentials : credentials r = js "same-origin";
  ok_token tok : mutates (method r) = true -> readCookie CSRF_COOKIE_NAME w = Some (Some tok) -> tok <> [] ->
    exists v, header_value tok = Some v /\ mget (headers r) csrf_name = Some v;
  ok_silent : mutates (method r) = false -> mget (headers r) csrf_name = None;
}.

(** Where the reader is sent to sign in. *)
Definition login_address (w : browser) : option jstr :=
  let target := loc_pathname w ++ loc_search w in
  if seqb target (js "/") then Some LOGIN_PATH
  else enc ← uri_component target; Some (LOGIN_PATH ++ js "?returnTo=" ++ enc).

Definition safe_call {A} (c : client A) : Prop :=
  forall w, exists rs ns,
    same_page w (c w).2 /\ sent (c w).2 = sent w ++ rs /\ navigated (c w).2 = navigated w ++ ns /\
    Forall (request_ok w) rs /\
    Forall (fun a => loc_pathname w <> LOGIN_PATH /\ login_address w = Some a) ns.

Lemma same_page_refl w : same_page w w. Proof. done. Qed.
Lemma same_page_trans w1 w2 w3 : same_page w1 w2 -> same_page w2 w3 -> same_page w1 w3.
Proof. unfold same_page. intuition congruence. Qed.

Lemma request_ok_page w w' r : same_page w w' -> request_ok w' r -> request_ok w r.
Proof. intros (Hc & _ & _) [H1 H2 H3 H4]. split; [done|done| |done]. intros tok. unfold readCookie. rewrite <- Hc. apply H3. Qed.

Lemma login_address_page w w' : same_page w w' -> login_address w' = login_address w.
Proof. intros (_ & Hp & Hs). unfold login_address. by rewrite Hp, Hs. Qed.

Create HintDb api.

Lemma bind_run {A B} (m : client A) (k : A -> client B) w :
  (m ≫= k) w = match m w with (inl e, w') => (inl e, w') | (inr a, w') => k a w' end.
Proof. reflexivity. Qed.

(** Nothing sent, nothing navigated. *)
Lemma safe_pure {A} (c : client A) : (forall w, (c w).2 = w) -> safe_call c.
Proof.
  intros H w. exists [], []. rewrite H, !app_nil_r. by split_and!.
Qed.

Lemma safe_ret {A} (a : A) : safe_call (mret a). Proof. by apply safe_pure. Qed.
Lemma safe_throw {A} e : safe_call (throw (A := A) e). Proof. by apply safe_pure. Qed.
Lemma safe_lift {A} (x : thrown + A) : safe_call (lift x). Proof. by apply safe_pure. Qed.
Lemma safe_option {A} (o : option A) : safe_call (from_option_client o). Proof. by apply safe_pure; destruct o. Qed.
Lemma safe_browser : safe_call get_browser. Proof. by apply safe_pure. Qed.

Lemma safe_bind {A B} (m : client A) (k : A -> client B) : safe_call m -> (forall a, safe_call (k a)) -> safe_call (m ≫= k).
Proof.
  intros Hm Hk w. unfold mbind, client_bind. destruct (Hm w) as (rs & ns & Hp & Hs & Hn & Hr & Hl).
  destruct (m w) as [[e|a] w'] eqn:E; cbn [snd] in *; [by exists rs, ns|].
  destruct (Hk a w') as (rs' & ns' & Hp' & Hs' & Hn' & Hr' & Hl'). exists (rs ++ rs'), (ns ++ ns').
  split_and!; [by eapply same_page_trans|by rewrite Hs', Hs, app_assoc|by rewrite Hn', Hn, app_assoc| |].
  - apply Forall_app; split; [done|]. apply (Forall_impl _ _ _ Hr'). eauto using request_ok_page.
  - apply Forall_app; split; [done|]. apply (Forall_impl _ _ _ Hl'). intros a'. rewrite (login_address_page w w' Hp).
    by rewrite (proj1 (proj2 Hp)).
Qed.

#[export] Hint Resolve safe_ret safe_throw safe_lift safe_option safe_browser : api.

Lemma safe_redirect : safe_call redirectToLogin.
Proof.
  intros w. unfold redirectToLogin, mbind, client_bind, get_browser. destruct (seqb (loc_pathname w) LOGIN_PATH) eqn:El.
  { exists [], []. rewrite !app_nil_r. by split_and!. }
  apply seqb_neq in El. unfold safe_call, login_address. destruct (seqb (loc_pathname w ++ loc_search w) (js "/")) eqn:Et.
  - exists [], [LOGIN_PATH]. rewrite app_nil_r. split_and!; try done. by constructor.
  - destruct (uri_component _) as [enc|]; cbn [from_option_client throw mret client_ret navigate snd option_bind mbind].
    + exists [], [LOGIN_PATH ++ js "?returnTo=" ++ enc]. rewrite app_nil_r. split_and!; try done. by constructor.
    + exists [], []. rewrite !app_nil_r. by split_and!.
Qed.

Section Safety.
Context `{DateHost} (network : list http_request -> http_request -> option response).

(** The headers a request leaves with. *)
Lemma csrf_headers_spec m hs w :
  (csrf_headers m hs w).2 = w /\
  (forall hs', (csrf_headers m hs w).1 = inr hs' ->
     if existsb (seqb m) MUTATING_METHODS
     then match readCookie CSRF_COOKIE_NAME w with
          | Some (Some (c :: v)) => exists n, header_value (c :: v) = Some n /\ hs' = mset hs csrf_name n
          | Some _ => hs' = hs
          | None => False
          end
     else hs' = hs).
Proof.
  unfold csrf_headers. destruct (existsb _ _); [|split; [done|by intros ? [= <-]]].
  unfold mbind, client_bind, get_browser, from_option_client.
  destruct (readCookie _ w) as [[[|c v]|]|]; try (split; [reflexivity|intros hs' Eh; (discriminate Eh || by injection Eh as <-)]).
  unfold headers_set, mret, client_ret, throw. fold csrf_name. cbn beta iota. destruct (header_value (c :: v)) as [n|]; (split; [reflexivity|]); intros hs' Eh;
    [|discriminate Eh].
  injection Eh as <-. by exists n.
Qed.

Lemma apiFetch_safe inp meth hs b :
  startsWith inp API_PREFIX = true -> mget hs csrf_name = None -> safe_call (apiFetch network inp meth hs b).
Proof.
  intros Hi Hh w. unfold apiFetch. rewrite bind_run.
  pose proof (csrf_headers_spec (toUpperCase (default (js "GET") meth)) hs w) as [Hw Hs].
  destruct (csrf_headers _ hs w) as [[e|hs'] w']; cbn [fst snd] in Hw, Hs; subst w'.
  { exists [], []. rewrite !app_nil_r. by split_and!. }
  specialize (Hs hs' eq_refl). set (r := Build_http_request _ _ _ _ _).
  assert (Hr : request_ok w r).
  { split; [done|done| |].
    - intros tok Hm Hc Hne. change (mutates (method r)) with (existsb (seqb (toUpperCase (default (js "GET") meth))) MUTATING_METHODS) in Hm.
      rewrite Hm, Hc in Hs. destruct tok as [|c v]; [done|]. destruct Hs as (n & Hn & ->). exists n. split; [done|].
      apply mget_mset_eq.
    - intros Hm. change (mutates (method r)) with (existsb (seqb (toUpperCase (default (js "GET") meth))) MUTATING_METHODS) in Hm.
      rewrite Hm in Hs. by rewrite <- Hs in Hh. }
  rewrite bind_run. unfold fetch at 1 2 3. set (w1 := Build_browser _ _ _ _ _).
  destruct (network (sent w) r) as [resp|]; [|exists [r], []; rewrite app_nil_r; by split_and!; try constructor].
  assert (Hrest : safe_call (if (status resp =? 401) && negb (existsb (seqb inp) NO_REDIRECT_ON_401)
                        then redirectToLogin ;; mret resp else mret resp)).
  { destruct (_ && _); [apply safe_bind; [apply safe_redirect|auto with api]|auto with api]. }
  destruct (Hrest w1) as (rs & ns & Hp & Hse & Hna & Hro & Hnav). exists (r :: rs), ns.
  split_and!; [by eapply same_page_trans|by rewrite Hse; simpl; rewrite <- app_assoc|done|..].
  - constructor; [done|]. apply (Forall_impl _ _ _ Hro). intros r'. by apply request_ok_page.
  - done.
Qed.

Lemma get_json_safe inp : startsWith inp API_PREFIX = true -> safe_call (get_json network inp).
Proof. intros Hi. apply safe_bind; [by apply apiFetch_safe|auto with api]. Qed.

Lemma json_headers_free : mget json_headers csrf_name = None. Proof. vm_compute. reflexivity. Qed.

Lemma send_json_safe m inp req : startsWith inp API_PREFIX = true -> safe_call (send_json network m inp req).
Proof. intros Hi. apply safe_bind; [apply apiFetch_safe; [done|apply json_headers_free]|auto with api]. Qed.

Lemma send_json_void_safe m inp req : startsWith inp API_PREFIX = true -> safe_call (send_json_void network m inp req).
Proof. intros Hi. apply safe_bind; [apply apiFetch_safe; [done|apply json_headers_free]|auto with api]. Qed.

Lemma send_void_safe m inp : startsWith inp API_PREFIX = true -> safe_call (send_void network m inp).
Proof. intros Hi. apply safe_bind; [by apply apiFetch_safe|auto with api]. Qed.

Lemma with_id_safe {A} base id rest (k : jstr -> client A) :
  startsWith base API_PREFIX = true -> (forall inp, startsWith inp API_PREFIX = true -> safe_call (k inp)) ->
  safe_call (with_id base id rest k).
Proof. intros Hb Hk. apply safe_bind; [auto with api|]. intros enc. apply Hk. by apply startsWith_app_r. Qed.

Lemma with_query_prefix path qs : startsWith path API_PREFIX = true -> startsWith (with_query path qs) API_PREFIX = true.
Proof. intros Hp. unfold with_query. destruct (seqb _ _); [done|]. by apply startsWith_app_r. Qed.

Lemma normalized_safe defaults t : safe_call (normalized defaults t).
Proof. unfold normalized. destruct t; auto with api. Qed.

Lemma member_or_empty_safe k l : safe_call (member_or_empty k l).
Proof. unfold member_or_empty. destruct l; auto with api. Qed.

Lemma collect_safe {P T} (fetchPage : option jstr -> client P) (rowsOf : P -> thrown + list T) cursorOf n c items :
  (forall c, safe_call (fetchPage c)) -> safe_call (collect fetchPage rowsOf cursorOf n c items).
Proof.
  intros Hf. revert c items. induction n as [|n IH]; intros c items; simpl; [auto with api|].
  apply safe_bind; [done|]. intros page. apply safe_bind; [auto with api|]. intros rows. destruct (cursorOf page); auto with api.
Qed.

Lemma safe_catch {A} (m : client A) h : safe_call m -> (forall e, safe_call (h e)) -> safe_call (catch_ m h).
Proof.
  intros Hm Hh w. unfold catch_. destruct (Hm w) as (rs & ns & Hp & Hs & Hn & Hr & Hl).
  destruct (m w) as [[e|a] w'] eqn:E; cbn [snd] in *; [|by exists rs, ns].
  pose proof (safe_bind (fun w => (inr tt, (m w).2)) (fun _ => h e) Hm (fun _ => Hh e) w) as Hb.
  rewrite bind_run, E in Hb. exact Hb.
Qed.
End Safety.

#[export] Hint Resolve get_json_safe send_json_safe send_json_void_safe send_void_safe with_id_safe with_query_prefix
  normalized_safe member_or_empty_safe collect_safe safe_redirect : api.
#[export] Hint Extern 1 (startsWith (_ ++ _) API_PREFIX = true) => apply startsWith_app_r : api.
#[export] Hint Extern 2 (startsWith (js _) API_PREFIX = true) => vm_compute; reflexivity : api.
#[export] Hint Extern 1 (safe_call (_ ≫= _)) => apply safe_bind : api.

Section Endpoints.
Context `{DateHost} (network : list http_request -> http_request -> option response).

(** Everything that answers a value, that answers nothing, and that walks a listing, whatever it is given. *)
Inductive reads : client value -> Prop :=
  | r_topology a : reads (getTopology network a)
  | r_version : reads (getVersion network)
  | r_config : reads (getConfig network)
  | r_me : reads (getMe network)
  | r_events q : reads (getEvents network q)
  | r_matrix p l : reads (getMatrix network p l)
  | r_query q t : reads (promqlQuery network q t)
  | r_range q s e n : reads (promqlQueryRange network q s e n)
  | r_run i : reads (getRun network i)
  | r_runs t s c l : reads (getRuns network t s c l)
  | r_targets k l c : reads (listTargets network k l c)
  | r_target i : reads (getTarget network i)
  | r_checks t e l c : reads (listChecks network t e l c)
  | r_schedules d l c : reads (listSchedules network d l c)
  | r_snapshots s d l c : reads (getMTRSnapshots network s d l c)
  | r_snapshot i e : reads (getMTRSnapshot network i e)
  | r_traces i l c : reads (listPathTraces network i l c)
  | r_annotations f t s l c : reads (listAnnotations network f t s l c)
  | r_k8s n k y f t l c : reads (getK8sEvents network n k y f t l c)
  | r_incidents q c : reads (getIncidents network q c)
  | r_incident i : reads (getIncident network i)
  | r_maintenance s f t l c : reads (getMaintenance network s f t l c)
  | r_audit k i l c : reads (getAuditEntries network k i l c)
  | r_webhooks : reads (listWebhooks network)
  | r_tokens : reads (listTokens network)
  | r_users : reads (listUsers network)
  | r_roles : reads (listRoles network)
  | r_export : reads (exportConfig network)
  | r_rules : reads (listAlertRules network)
  | r_foreign : reads (listForeignAlertRules network)
  | r_alerts : reads (listAlerts network).

Inductive writes : client value -> Prop :=
  | w_run q : writes (createRun network q)
  | w_zones q : writes (createZonePairRuns network q)
  | w_target q : writes (createTarget network q)
  | w_target_put i q : writes (updateTarget network i q)
  | w_check q : writes (createCheck network q)
  | w_check_put i q : writes (updateCheck network i q)
  | w_projection q : writes (checksProjection network q)
  | w_schedule q : writes (createSchedule network q)
  | w_schedule_put i q : writes (updateSchedule network i q)
  | w_annotation q : writes (createAnnotation network q)
  | w_incident q : writes (createIncident network q)
  | w_incident_patch i q : writes (patchIncident network i q)
  | w_maintenance q : writes (createMaintenance network q)
  | w_webhook q : writes (createWebhook network q)
  | w_webhook_put i q : writes (updateWebhook network i q)
  | w_token q : writes (createToken network q)
  | w_user q : writes (createUser network q)
  | w_user_patch i q : writes (updateUser network i q)
  | w_import b d : writes (importConfig network b d)
  | w_rule q : writes (createAlertRule network q)
  | w_rule_put i q : writes (updateAlertRule network i q)
  | w_sync i : writes (syncAlertRules network i)
  | w_preview q : writes (previewAlertRule network q)
  | w_foreign n : writes (importForeignAlertRules network n).

Inductive acts : client unit -> Prop :=
  | a_login u p : acts (login network u p)
  | a_logout : acts (logout network)
  | a_cancel i : acts (cancelRun network i)
  | a_target i : acts (deleteTarget network i)
  | a_check i : acts (deleteCheck network i)
  | a_schedule i : acts (deleteSchedule network i)
  | a_annotation i : acts (deleteAnnotation network i)
  | a_incident i : acts (deleteIncident network i)
  | a_maintenance i : acts (deleteMaintenance network i)
  | a_webhook i : acts (deleteWebhook network i)
  | a_test i : acts (testWebhook network i)
  | a_token i : acts (deleteToken network i)
  | a_user i : acts (deleteUser network i)
  | a_reset i p : acts (resetUserPassword network i p)
  | a_password c n : acts (changeOwnPassword network c n)
  | a_rule i : acts (deleteAlertRule network i).

Inductive walks : client (list value * bool) -> Prop :=
  | l_targets k l : walks (listAllTargets network k l)
  | l_checks t e l : walks (listAllChecks network t e l)
  | l_schedules d l : walks (listAllSchedules network d l)
  | l_destinations : walks (getMTRDestinations network)
  | l_snapshots s d : walks (listAllMTRSnapshots network s d)
  | l_scan q k n : walks (scanIncidents network q k n).

Lemma reads_safe c : reads c -> safe_call c.
Proof.
  destruct 1;
    unfold getTopology, getVersion, getConfig, getMe, getEvents, getMatrix, promqlQuery, promqlQueryRange, getRun, getRuns,
      listTargets, getTarget, listChecks, listSchedules, getMTRSnapshots, getMTRSnapshot, listPathTraces, listAnnotations,
      getK8sEvents, getIncidents, getIncident, getMaintenance, getAuditEntries, listWebhooks, listTokens, listUsers,
      listRoles, exportConfig, listAlertRules, listForeignAlertRules, listAlerts;
    try match goal with |- context [match ?o with Some _ => _ | None => _ end ≫= _] => destruct o end;
    auto 12 with api.
Qed.

Lemma writes_safe c : writes c -> safe_call c.
Proof.
  destruct 1;
    unfold createRun, createZonePairRuns, createTarget, updateTarget, createCheck, updateCheck, checksProjection,
      createSchedule, updateSchedule, createAnnotation, createIncident, patchIncident, createMaintenance, createWebhook,
      updateWebhook, createToken, createUser, updateUser, importConfig, createAlertRule, updateAlertRule,
      previewAlertRule, importForeignAlertRules; auto 12 with api.
  apply with_id_safe; [vm_compute; reflexivity|]. intros inp Hi. apply safe_bind; [by apply apiFetch_safe|auto with api].
Qed.

Lemma changeOwnPassword_safe c n : safe_call (changeOwnPassword network c n).
Proof.
  apply safe_catch; [apply send_json_void_safe; vm_compute; reflexivity|]. intros e.
  destruct (problem_field e _) as [v|]; [|apply safe_throw]. destruct (is_number v 401 && _); [|apply safe_throw].
  apply safe_bind; [apply safe_redirect|intros _; apply safe_throw].
Qed.

Lemma acts_safe c : acts c -> safe_call c.
Proof.
  destruct 1; try apply changeOwnPassword_safe;
    unfold login, logout, cancelRun, deleteTarget, deleteCheck, deleteSchedule, deleteAnnotation, deleteIncident,
      deleteMaintenance, deleteWebhook, testWebhook, deleteToken, deleteUser, resetUserPassword, deleteAlertRule;
    auto 12 with api.
Qed.

Lemma scan_safe q keep want n c items : safe_call (scan network q keep want n c items).
Proof.
  revert c items. induction n as [|n IH]; intros c items; cbn [scan]; [auto with api|].
  apply safe_bind; [apply reads_safe; constructor|]. intros page. apply safe_bind; [auto with api|]. intros rows.
  destruct (scan_rows _ _ _ _) as [kept []]; [auto with api|]. destruct (page_cursor page); auto with api.
Qed.

Lemma walks_safe c : walks c -> safe_call c.
Proof.
  destruct 1 as [k l|t e l|d l| |s d|q k n]; [apply collect_safe; intros c..|apply scan_safe].
  - apply reads_safe, r_targets.
  - apply reads_safe, r_checks.
  - apply reads_safe, r_schedules.
  - apply get_json_safe, startsWith_app_r. vm_compute. reflexivity.
  - apply reads_safe, r_snapshots.
Qed.

(** C20: whatever endpoint is called, with whatever arguments and over whatever network, every request it sends goes to
    this console's own API with the session's credentials; one that changes something carries the CSRF token of the
    cookie, byte for byte, whenever there is one, and one that only reads never does; and the only place the reader is
    ever sent to is the sign-in page, with the present address to come back to, and only from another page. *)
Theorem every_call_is_safe :
  (forall c, reads c -> safe_call c) /\ (forall c, writes c -> safe_call c) /\ (forall c, acts c -> safe_call c) /\
  (forall c, walks c -> safe_call c).
Proof. split_and!; [apply reads_safe|apply writes_safe|apply acts_safe|apply walks_safe]. Qed.
End Endpoints.

(** ** Reading an answer: what is proved *)

(** What the client itself says of an answer: its status line, or that it could not be read. *)
Definition invented (r : response) (p : value) : Prop :=
  vget p (js "status") = VNum (int (status r)) /\
  ((vget p (js "type") = VStr PROBLEM_TYPE_UNREADABLE /\ vget p (js "title") = VStr UNREADABLE_BODY) \/
   (vget p (js "type") = VStr (js "about:blank") /\ vget p (js "title") = VStr (statusText r) /\ statusText r <> [])).

Lemma unreadable_error s : api_error (unreadable s) = ApiError (unreadable s).
Proof. reflexivity. Qed.

Lemma unreadable_invented r : invented r (unreadable (status r)).
Proof. split; [reflexivity|left; split; reflexivity]. Qed.

Lemma status_error_invented r : exists p, status_error r = ApiError p /\ invented r p.
Proof.
  unfold status_error. destruct (seqb (statusText r) []) eqn:E; [exists (unreadable (status r)); split; [done|apply unreadable_invented]|].
  eexists. split; [reflexivity|]. apply seqb_neq in E. split; [reflexivity|right; split_and!; [reflexivity..|done]].
Qed.

(** What an answer has to hand over: its JSON, of a success or of a Prometheus error envelope. *)
Definition hands_over (r : response) (v : value) : Prop :=
  json r = Some v /\
  (resp_ok r = true \/
   resp_ok r = false /\ includes (default [] (content_type r)) (js "problem+json") = false /\
   includes (default [] (content_type r)) (js "json") = true /\ vget v (js "status") = VStr (js "error")).

(** What a refusal says of itself: its problem document. *)
Definition explains (r : response) (p : value) : Prop :=
  json r = Some p /\ resp_ok r = false /\ includes (default [] (content_type r)) (js "problem+json") = true.

Lemma is_text_eq v s : is_text v s = true <-> v = VStr s.
Proof. unfold is_text. destruct v; split; intros E; try discriminate E; [by apply seqb_eq in E as ->|injection E as ->; by apply seqb_eq]. Qed.

(** What a read does, by what the answer carries. *)
Lemma handle_cases r :
  (exists v, hands_over r v /\ handle r = inr v) \/
  (exists p, explains r p /\ (forall v, ~ hands_over r v) /\ handle r = inl (api_error p)) \/
  ((forall v, ~ hands_over r v) /\ (forall p, ~ explains r p) /\
   handle r = inl (if resp_ok r then api_error (unreadable (status r)) else status_error r)).
Proof.
  unfold handle, hands_over, explains. destruct (resp_ok r).
  { destruct (json r) as [v|]; [left; exists v; auto|]. right. right. split_and!; [by intros v [? _]|by intros v [? _]|done]. }
  destruct (includes _ (js "problem+json")) eqn:Ep.
  { right. assert (Hn : forall v o, ~ (o = Some v /\ (false = true \/ false = false /\ true = false /\ includes (default [] (content_type r)) (js "json") = true /\
      vget v (js "status") = VStr (js "error")))) by (intros v o (_ & [?|(_ & ? & _)]); done).
    destruct (json r) as [p|]; [left; exists p|right]; (split_and!; try done); by intros v [? _]. }
  destruct (includes _ (js "json")) eqn:Ej.
  2:{ right. right. split_and!; [by intros v (_ & [?|(_ & _ & ? & _)])|by intros v (_ & _ & ?)|done]. }
  destruct (json r) as [v|]; [|right; right; split_and!; [by intros v [? _]|by intros v [? _]|done]].
  destruct (is_text _ _) eqn:Et.
  - left. exists v. apply is_text_eq in Et. split_and!; auto.
  - right. right. split_and!; [|by intros p (_ & _ & ?)|done].
    intros w ([= <-] & [?|(_ & _ & _ & E%is_text_eq)]); [done|congruence].
Qed.

Lemma hands_over_unique r v w : hands_over r v -> hands_over r w -> v = w.
Proof. intros [E _] [E' _]. congruence. Qed.

Lemma explains_unique r p q : explains r p -> explains r q -> p = q.
Proof. intros [E _] [E' _]. congruence. Qed.

(** C29: an answer is never lost or misread.  A read returns exactly the JSON the answer hands over, of a success or of a
    Prometheus error envelope.  It throws exactly otherwise: the refusal's own problem document if it has one; where
    it has none, a problem of the client's own that carries the status of that very answer, and the words of the status
    line, or that the answer could not be read where there are none (and always for a success without JSON).  A problem
    document is thrown as itself, except one that is null or whose detail or title cannot be printed: making the error
    fails, and what is thrown is a plain failure.  A write without an answer succeeds exactly on a success, and
    otherwise throws the problem document, or the words of the status line, as a read does. *)
Theorem handle_accounts r :
  let own := if resp_ok r then ApiError (unreadable (status r)) else status_error r in
  (forall v, handle r = inr v <-> hands_over r v) /\
  (forall e, handle r = inl e <->
     (forall v, ~ hands_over r v) /\ ((exists p, explains r p /\ e = api_error p) \/ (forall p, ~ explains r p) /\ e = own)) /\
  (exists p, own = ApiError p /\ invented r p) /\
  (forall p, api_error p = ApiError p \/
     api_error p = Failure /\ (p = VNull \/ p = VUndef \/ to_string_throws (nullish (vget p (js "detail")) (vget p (js "title"))) = true)) /\
  (handleVoid r = inr tt <-> resp_ok r = true) /\
  (forall e, handleVoid r = inl e <->
     resp_ok r = false /\ ((exists p, explains r p /\ e = api_error p) \/ (forall p, ~ explains r p) /\ e = status_error r)).
Proof.
  cbv zeta. split; [|split; [|split; [|split; [|split]]]].
  - intros v. destruct (handle_cases r) as [(w & Hw & E)|[(p & Hp & Hn & E)|(Hn & Hp & E)]]; rewrite E; split.
    + by intros [= <-].
    + intros Hv. by rewrite (hands_over_unique r v w).
    + done.
    + by intros ?%Hn.
    + done.
    + by intros ?%Hn.
  - intros e. destruct (handle_cases r) as [(w & Hw & E)|[(p & Hp & Hn & E)|(Hn & Hp & E)]]; rewrite E; split.
    + done.
    + intros [Hv _]. by destruct (Hv w).
    + intros [= <-]. split; [done|]. left. eauto.
    + intros [_ [(q & Hq & ->)|[Hq _]]]; [by rewrite (explains_unique r p q)|by destruct (Hq p)].
    + intros [= <-]. split; [done|]. right. split; [done|]. by destruct (resp_ok r).
    + intros [_ [(q & Hq & _)|[_ ->]]]; [by destruct (Hp q)|]. by destruct (resp_ok r).
  - destruct (resp_ok r); [eexists; split; [done|apply unreadable_invented]|apply status_error_invented].
  - intros p. unfold api_error. destruct p; auto; destruct (to_string_throws _); auto.
  - unfold handleVoid. destruct (resp_ok r); [done|]. by repeat case_match.
  - intros e. unfold handleVoid, explains. destruct (resp_ok r); [split; [done|by intros [? _]]|].
    destruct (includes _ (js "problem+json")); [destruct (json r) as [p|]|]; (split; [intros [= <-]; split; [done|]|intros [_ H]; f_equal]).
    + left. eauto.
    + destruct H as [(q & ([= ->] & _) & ->)|[H _]]; [done|]. by destruct (H p).
    + right. split; [by intros p [? _]|done].
    + by destruct H as [(q & [? _] & _)|[_ ->]].
    + right. split; [by intros p (_ & _ & ?)|done].
    + by destruct H as [(q & (_ & _ & ?) & _)|[_ ->]].
Qed.

(** An answer that could not be read is none of the server's sentences, yet the message of the failure is the
    client's own line and not the caller's. *)
Example unreadable_is_not_the_fallback :
  let e := ApiError (unreadable 502) in
  isServerSentence e = false /\ queryErrorMessage e (js "Save failed") = Some UNREADABLE_BODY.
Proof. split; vm_compute; reflexivity. Qed.

(** Otherwise the message is what the server said, detail first, and the caller's sentence where it said nothing. *)
Theorem queryErrorMessage_spec p fallback m :
  queryErrorMessage (ApiError p) fallback = Some m ->
  exists d t, said (vget p (js "detail")) = Some d /\ said (vget p (js "title")) = Some t /\
    m = (if seqb d [] then if seqb t [] then fallback else t else d) /\ (fallback <> [] -> m <> []).
Proof.
  unfold queryErrorMessage. destruct (said (vget p (js "detail"))) as [d|]; [|done].
  destruct (said (vget p (js "title"))) as [t|]; [|done]. intros E. cbn [mbind option_bind find default] in E.
  exists d, t. split_and!; [done|done|..]; destruct (seqb d []) eqn:Ed, (seqb t []) eqn:Et; cbn in E; rewrite ?Ed, ?Et in E;
    cbn in E; injection E as <-; try done; intros _; by apply seqb_neq.
Qed.

(** ** Following a cursor: what is proved *)

(** What a server sees of a request's address. *)
Definition path_of (inp : jstr) : jstr := match indexOf inp [63] with Some i => take i inp | None => inp end.
Definition query_of (inp : jstr) : list (jstr * jstr) := match indexOf inp [63] with Some i => qs_parse (drop i inp) | None => [] end.

Lemma qs_print_nil qs : qs_print qs = [] -> qs = [].
Proof.
  destruct qs as [|p qs]; [done|]. intros E. exfalso. unfold qs_print in E. cbn [fmap list_fmap join] in E.
  assert (Hl : (0 < length (qs_pair p))%nat) by (unfold qs_pair; rewrite !length_app; simpl; lia).
  apply (f_equal length) in E. destruct (qs_pair <$> qs); rewrite ?length_app in E; simpl in E; lia.
Qed.

Lemma with_query_read path qs :
  63 ∉ path -> Forall wf_pair qs -> path_of (with_query path qs) = path /\ query_of (with_query path qs) = qs.
Proof.
  intros Hp Hq. unfold with_query, path_of, query_of. destruct (seqb (qs_print qs) []) eqn:E.
  - apply seqb_eq, qs_print_nil in E as ->. by rewrite (proj2 (indexOf_unit_None 63 path) Hp).
  - change (js "?" ++ qs_print qs) with (63 :: qs_print qs). rewrite (indexOf_unit_app 63 path (qs_print qs)) by done.
    rewrite take_app_length, drop_app_length. by rewrite qs_parse_print.
Qed.

(** A listing behind an opaque cursor: the pages in order, and the token of each page but the first. *)
Record listing := { chunks : list (list value); tok : nat -> jstr }.

Definition listing_ok (L : listing) : Prop := chunks L <> [] /\ forall k, tok L k <> [] /\ well_formed (tok L k).

Definition inventory (L : listing) : list value := concat (chunks L).

Definition cursor_at (L : listing) (k : nat) : option jstr := match k with O => None | S _ => Some (tok L k) end.
Definition next_at (L : listing) (k : nat) : option jstr := if bool_decide (S k < length (chunks L))%nat then cursor_at L (S k) else None.

Definition page_at (key : jstr) (L : listing) (k : nat) : response :=
  {| status := 200; statusText := js "OK"; content_type := Some (js "application/json");
     json := Some (VObj [(key, VArr (nth k (chunks L) [])); (js "nextCursor", VStr (default [] (next_at L k)))]) |}.

(** The server of a listing: whatever else it is asked, a read of its path with the cursor of a page answers that
    page. *)
Definition keyset_server (network : list http_request -> http_request -> option response) (path key : jstr) (L : listing) : Prop :=
  forall hist r k, path_of (input r) = path -> (k < length (chunks L))%nat ->
    qs_get (query_of (input r)) (js "cursor") = cursor_at L k -> network hist r = Some (page_at key L k).

(** A walk reads the listing page by page: each fetch answers its page, and only sends one request. *)
Definition fetches (fetch_ : option jstr -> client value) (key : jstr) (L : listing) : Prop :=
  forall k w, (k < length (chunks L))%nat ->
    exists page w', fetch_ (cursor_at L k) w = (inr page, w') /\ length (sent w') = S (length (sent w)) /\
      page_rows key page = inr (nth k (chunks L) []) /\ page_cursor page = next_at L k.

Lemma next_at_last L k : (k < length (chunks L))%nat -> (next_at L k = None <-> (S k = length (chunks L))).
Proof. intros Hk. unfold next_at. case_bool_decide; [split; [done|lia]|split; [lia|done]]. Qed.

Lemma drop_nth {A} (l : list A) k d : (k < length l)%nat -> drop k l = nth k l d :: drop (S k) l.
Proof. revert k. induction l as [|x l IH]; intros [|k] Hk; simpl in *; try lia; [done|]. apply IH. lia. Qed.

Lemma collect_chunks fetch_ key L n k items w :
  fetches fetch_ key L -> (k < length (chunks L))%nat ->
  exists w', collect fetch_ (page_rows key) page_cursor n (cursor_at L k) items w
    = (inr (items ++ concat (take n (drop k (chunks L))), bool_decide (k + n < length (chunks L))%nat), w') /\
    length (sent w') = (length (sent w) + Nat.min n (length (chunks L) - k))%nat.
Proof.
  intros Hf. revert k items w. induction n as [|n IH]; intros k items w Hk.
  { exists w. cbn [collect]. rewrite app_nil_r, bool_decide_eq_true_2 by lia. split; [done|lia]. }
  destruct (Hf k w Hk) as (page & w1 & Ef & El & Er & Ec). rewrite (drop_nth _ k [] Hk). cbn [collect take concat].
  rewrite bind_run, Ef, bind_run, Er. cbn [lift]. rewrite Ec. destruct (next_at L k) as [c|] eqn:En.
  - assert (Hk' : (S k < length (chunks L))%nat).
    { destruct (decide (S k = length (chunks L))) as [E|]; [|lia]. apply (next_at_last L k Hk) in E. congruence. }
    assert (Some c = cursor_at L (S k)) as -> by (rewrite <- En; unfold next_at; by rewrite bool_decide_eq_true_2).
    destruct (IH (S k) (items ++ nth k (chunks L) []) w1 Hk') as (w' & E & Hl). exists w'. rewrite E, <- app_assoc.
    rewrite (bool_decide_ext (S k + n < length (chunks L))%nat (k + S n < length (chunks L))%nat) by lia. split; [done|lia].
  - apply (next_at_last L k Hk) in En. exists w1. rewrite drop_ge by lia. rewrite take_nil. cbn [concat]. rewrite app_nil_r.
    rewrite bool_decide_eq_false_2 by lia. split; [done|lia].
Qed.

Lemma page_read key L k :
  key <> js "nextCursor" -> (forall j, tok L j <> []) ->
  let page := VObj [(key, VArr (nth k (chunks L) [])); (js "nextCursor", VStr (default [] (next_at L k)))] in
  page_rows key page = inr (nth k (chunks L) []) /\ page_cursor page = next_at L k.
Proof.
  intros Hk Ht page. unfold page. split.
  - unfold page_rows, vget. cbn [mget]. by rewrite decide_True by done.
  - unfold page_cursor, vget. cbn [mget]. rewrite decide_False by done. rewrite decide_True by done.
    unfold next_at, cursor_at. case_bool_decide; cbn [from_option truthy string_of_value]; unfold Datatypes.id; [|done].
    unfold truthy. rewrite (proj2 (seqb_neq _ _) (Ht (S k))). reflexivity.
Qed.

Section Listing.
Context `{DateHost} (network : list http_request -> http_request -> option response).

(** A read that the network answers, and not with a lost session. *)
Lemma get_json_run inp w resp :
  let r := {| input := inp; method := js "GET"; headers := []; credentials := js "same-origin"; body := None |} in
  network (sent w) r = Some resp -> status resp <> 401 ->
  exists w', get_json network inp w = (handle resp, w') /\ length (sent w') = S (length (sent w)).
Proof.
  intros r Hn Hs. unfold get_json, apiFetch. rewrite !bind_run.
  assert (csrf_headers (toUpperCase (default (js "GET") None)) [] w = (inr [], w)) as -> by (vm_compute; reflexivity).
  rewrite bind_run. unfold fetch. cbn [default]. fold r. rewrite Hn, (proj2 (Z.eqb_neq _ _) Hs). cbn [andb mret client_ret lift].
  eexists. split; [reflexivity|]. cbn [sent]. rewrite length_app. simpl. lia.
Qed.

Lemma get_page path key L inp k w :
  keyset_server network path key L -> (k < length (chunks L))%nat -> path_of inp = path ->
  qs_get (query_of inp) (js "cursor") = cursor_at L k ->
  exists w', get_json network inp w = (inr (VObj [(key, VArr (nth k (chunks L) [])); (js "nextCursor", VStr (default [] (next_at L k)))]), w') /\
    length (sent w') = S (length (sent w)).
Proof.
  intros Hnet Hk Hp Hq. destruct (get_json_run inp w (page_at key L k)) as (w' & E & Hl); [by apply Hnet|done|].
  exists w'. split; [|done]. rewrite E. reflexivity.
Qed.

Lemma set_text_wf qs k o : Forall wf_pair qs -> well_formed k -> (forall s, o = Some s -> well_formed s) -> Forall wf_pair (set_text qs k o).
Proof. intros Hq Hk Ho. destruct o as [[|c s]|]; simpl; [done| |done]. apply qs_set_wf; [done|]. split; [done|by apply Ho]. Qed.

Lemma set_text_get_eq qs k s : s <> [] -> qs_get (set_text qs k (Some s)) k = Some s.
Proof. destruct s; [done|]. intros _. apply qs_get_set_eq. Qed.

Lemma set_text_get_ne qs k k' o : k <> k' -> qs_get (set_text qs k o) k' = qs_get qs k'.
Proof. intros Hk. destruct o as [[|c s]|]; [done| |done]. by apply qs_get_set_ne. Qed.

Lemma string_of_int_wf z : safe z -> well_formed (num_to_string (int z)).
Proof.
  intros Hz. rewrite num_to_string_int by done. unfold string_of_Z.
  assert (Hd : forall y, 0 <= y -> Forall (fun c => 0 <= c < 0xD800) (digits y)).
  { intros y Hy. apply (Forall_impl _ _ _ (digits_all_digits y Hy)). unfold is_digit. intros c ?. lia. }
  apply well_formed_units. destruct (Z.ltb_spec z 0); [constructor; [lia|]|]; apply Hd; lia.
Qed.

(** The cursor is the last parameter set: it is read back, and an earlier one is none. *)
Lemma cursor_param qs L k :
  listing_ok L -> Forall wf_pair qs -> qs_get qs (js "cursor") = None ->
  Forall wf_pair (set_text qs (js "cursor") (cursor_at L k)) /\
  qs_get (set_text qs (js "cursor") (cursor_at L k)) (js "cursor") = cursor_at L k.
Proof.
  intros [_ Ht] Hq Hn. split.
  - apply set_text_wf; [done|apply ascii_wf; vm_compute; reflexivity|]. intros s. destruct k; [done|]. intros [= <-]. apply Ht.
  - destruct k as [|k]; [done|]. apply set_text_get_eq, Ht.
Qed.

Lemma fetches_query path key L qs :
  keyset_server network path key L -> listing_ok L -> 63 ∉ path -> key <> js "nextCursor" ->
  Forall wf_pair qs -> qs_get qs (js "cursor") = None ->
  fetches (fun c => get_json network (with_query path (set_text qs (js "cursor") c))) key L.
Proof.
  intros Hnet HL Hp Hkey Hq Hn k w Hk. destruct (cursor_param qs L k HL Hq Hn) as [Hwf Hc].
  destruct (with_query_read path _ Hp Hwf) as [Epath Equery].
  destruct (get_page path key L (with_query path (set_text qs (js "cursor") (cursor_at L k))) k w Hnet Hk Epath) as (w' & E & Hl);
    [by rewrite Equery|]. destruct (page_read key L k Hkey ltac:(intros j; apply HL)) as [Er Ec]. eauto 10.
Qed.
End Listing.

Ltac key_wf := apply ascii_wf; vm_compute; reflexivity.
Ltac key_ne := apply seqb_neq; vm_compute; reflexivity.

Section Walks.
Context `{DateHost} (network : list http_request -> http_request -> option response).

(** The whole listing where it has at most fifty pages, and its first fifty pages and a word about it otherwise; one
    request a page. *)
Definition walks_listing (c : client (list value * bool)) (L : listing) : Prop :=
  forall w, exists items truncated w', c w = (inr (items, truncated), w') /\
    items = concat (take 50 (chunks L)) /\ (truncated = true <-> (50 < length (chunks L))%nat) /\
    (truncated = false -> items = inventory L) /\
    length (sent w') = (length (sent w) + Nat.min 50 (length (chunks L)))%nat.

Lemma collectPages_walks fetch_ key L :
  fetches fetch_ key L -> chunks L <> [] -> walks_listing (collectPages fetch_ (page_rows key) page_cursor) L.
Proof.
  intros Hf HL w. assert (Hl : (0 < length (chunks L))%nat) by (destruct (chunks L); [done|simpl; lia]).
  destruct (collect_chunks fetch_ key L MAX_COLLECT_PAGES 0 [] w Hf Hl) as (w' & E & Hs).
  eexists _, _, w'. split; [exact E|]. rewrite drop_0. split_and!; [done|by rewrite bool_decide_eq_true|..].
  - rewrite bool_decide_eq_false. intros Hle. unfold inventory. cbn [app]. rewrite take_ge by lia. done.
  - rewrite Hs. unfold MAX_COLLECT_PAGES. lia.
Qed.

Definition opt_wf (o : option jstr) : Prop := forall s, o = Some s -> well_formed s.
Definition opt_safe (o : option Z) : Prop := forall z, o = Some z -> safe z.

Lemma set_number_wf qs k o : Forall wf_pair qs -> well_formed k -> opt_safe o -> Forall wf_pair (set_number qs k (int <$> o)).
Proof. intros Hq Hk Ho. destruct o as [z|]; simpl; [|done]. apply qs_set_wf; [done|]. split; [done|by apply string_of_int_wf, Ho]. Qed.

Lemma set_number_get_ne qs k k' o : k <> k' -> qs_get (set_number qs k o) k' = qs_get qs k'.
Proof. intros Hk. destruct o; [|done]. by apply qs_get_set_ne. Qed.

Lemma set_defined_wf qs k o : Forall wf_pair qs -> well_formed k -> opt_wf o -> Forall wf_pair (set_defined qs k o).
Proof. intros Hq Hk Ho. destruct o as [s|]; simpl; [|done]. apply qs_set_wf; [done|]. split; [done|by apply Ho]. Qed.

Lemma set_defined_get_ne qs k k' o : k <> k' -> qs_get (set_defined qs k o) k' = qs_get qs k'.
Proof. intros Hk. destruct o; [|done]. by apply qs_get_set_ne. Qed.

Lemma bool_text_wf e : opt_wf (bool_text <$> e).
Proof. intros s. destruct e as [[]|]; simpl; [..|done]; intros [= <-]; apply ascii_wf; vm_compute; reflexivity. Qed.

Ltac listing_params :=
  repeat first [apply set_text_wf | apply set_number_wf | apply set_defined_wf | apply Forall_nil_2 | key_wf | apply bool_text_wf | assumption].
Ltac no_cursor :=
  repeat first [rewrite set_text_get_ne by key_ne | rewrite set_number_get_ne by key_ne | rewrite set_defined_get_ne by key_ne];
  reflexivity.

Lemma query_walk path key L qs fetch_ :
  (forall c, fetch_ c = get_json network (with_query path (set_text qs (js "cursor") c))) ->
  keyset_server network path key L -> listing_ok L -> 63 ∉ path -> key <> js "nextCursor" ->
  Forall wf_pair qs -> qs_get qs (js "cursor") = None ->
  walks_listing (collectPages fetch_ (page_rows key) page_cursor) L.
Proof.
  intros Hf Hnet HL Hp Hk Hq Hc. apply collectPages_walks; [|apply HL]. intros k w Hlt. rewrite Hf.
  by apply (fetches_query network path key L qs).
Qed.

Lemma question_query lit path qs c :
  lit = path ++ js "?" -> qs <> [] ->
  get_json network (lit ++ qs_print (set_text qs (js "cursor") c)) = get_json network (with_query path (set_text qs (js "cursor") c)).
Proof.
  intros -> Hq. unfold with_query. destruct (seqb _ []) eqn:E; [|by rewrite <- app_assoc]. exfalso. apply seqb_eq, qs_print_nil in E.
  destruct c as [[|x s]|]; simpl in E; try done. destruct qs as [|[k v] qs]; [done|]. simpl in E. destruct (decide _); done.
Qed.

(** C28: a listing the console shows as whole is whole.  Against a server that hands out its targets, its check
    definitions, its schedules, its traced pairs or the routes of a pair page by page behind an opaque cursor, whatever
    the pages and the cursors are and whatever was asked before, the walk ends, sends one request a page and never
    more than fifty, and returns every row once and in the server's order; it says it was cut short exactly when there
    were more than fifty pages, and then returns the first fifty. *)
Theorem listings_are_whole kind targetId definitionId source destination (enabled : option bool) (limit : option Z) L :
  listing_ok L -> opt_wf kind -> opt_wf targetId -> opt_wf definitionId -> well_formed source -> well_formed destination ->
  opt_safe limit ->
  (keyset_server network (js "/api/v1/targets") (js "targets") L -> walks_listing (listAllTargets network kind (int <$> limit)) L) /\
  (keyset_server network (js "/api/v1/checks") (js "definitions") L ->
     walks_listing (listAllChecks network targetId enabled (int <$> limit)) L) /\
  (keyset_server network (js "/api/v1/schedules") (js "schedules") L ->
     walks_listing (listAllSchedules network definitionId (int <$> limit)) L) /\
  (keyset_server network (js "/api/v1/mtr/destinations") (js "destinations") L -> walks_listing (getMTRDestinations network) L) /\
  (keyset_server network (js "/api/v1/mtr/snapshots") (js "snapshots") L ->
     walks_listing (listAllMTRSnapshots network source destination) L).
Proof.
  intros HL Hk Ht Hd Hs Hds Hl.
  assert (Hq : forall s : jstr, forallb (fun c => negb (c =? 63)) s = true -> 63 ∉ s).
  { intros s Hf%forallb_Forall Hin. apply (proj1 (Forall_forall _ _) Hf) in Hin. simpl in Hin. lia. }
  split_and!; intros Hnet.
  - eapply query_walk; [reflexivity|exact Hnet|done|apply Hq; vm_compute; reflexivity|key_ne|listing_params|no_cursor].
  - eapply query_walk; [reflexivity|exact Hnet|done|apply Hq; vm_compute; reflexivity|key_ne|listing_params|no_cursor].
  - eapply query_walk; [reflexivity|exact Hnet|done|apply Hq; vm_compute; reflexivity|key_ne|listing_params|no_cursor].
  - eapply query_walk; [|exact Hnet|done|apply Hq; vm_compute; reflexivity|key_ne| |].
    + intros c. apply question_query; [vm_compute; reflexivity|discriminate].
    + apply Forall_cons_2; [split; [key_wf|apply ascii_wf; vm_compute; reflexivity]|apply Forall_nil_2].
    + vm_compute. reflexivity.
  - eapply query_walk; [|exact Hnet|done|apply Hq; vm_compute; reflexivity|key_ne| |].
    + intros c. apply question_query; [vm_compute; reflexivity|]. intros E. apply (f_equal (fun l => mget l (js "source"))) in E.
      revert E. change (mget (set_number [(js "source", source); (js "destination", destination)] (js "limit") (Some (int MTR_SNAPSHOTS_LIMIT))) (js "source"))
        with (qs_get (set_number [(js "source", source); (js "destination", destination)] (js "limit") (Some (int MTR_SNAPSHOTS_LIMIT))) (js "source")).
      rewrite set_number_get_ne by key_ne. unfold qs_get. cbn [mget]. rewrite decide_True by reflexivity. discriminate.
    + apply (set_number_wf _ _ (Some MTR_SNAPSHOTS_LIMIT)); [|key_wf|intros z <-%(inj Some); unfold safe, MTR_SNAPSHOTS_LIMIT; lia].
      apply Forall_cons_2; [split; [key_wf|assumption]|]. apply Forall_cons_2; [split; [key_wf|assumption]|apply Forall_nil_2].
    + rewrite set_number_get_ne by key_ne. unfold qs_get. cbn [mget]. rewrite !decide_False by key_ne. reflexivity.
Qed.
End Walks.

(** ** Scanning for what is kept: what is proved *)

(** How many rows end a scan: one, at least. *)
Definition enough_rows (want : Z) : nat := Z.to_nat (Z.max 1 want).

Lemma scan_rows_spec keep want rows acc :
  (length acc < enough_rows want)%nat ->
  scan_rows keep want rows acc
  = (acc ++ take (enough_rows want - length acc) (List.filter keep rows),
     bool_decide (enough_rows want <= length acc + length (List.filter keep rows))%nat).
Proof.
  revert acc. induction rows as [|row rows IH]; intros acc Ha; cbn [scan_rows List.filter].
  { rewrite take_nil, app_nil_r, bool_decide_eq_false_2 by (simpl; lia). done. }
  destruct (keep row); cbn [negb]; [|by apply IH]. rewrite length_app. cbn [length].
  destruct (Z.leb_spec want (Z.of_nat (length acc + 1))) as [Hw|Hw].
  - assert (enough_rows want = S (length acc)) as -> by (unfold enough_rows in *; lia).
    rewrite bool_decide_eq_true_2 by lia. replace (S (length acc) - length acc)%nat with 1%nat by lia. done.
  - rewrite IH by (rewrite length_app; unfold enough_rows; simpl; lia). rewrite length_app. cbn [length]. rewrite <- app_assoc. cbn [app].
    replace (enough_rows want - length acc)%nat with (S (enough_rows want - (length acc + 1))) by (unfold enough_rows in *; lia).
    cbn [take]. f_equal. apply bool_decide_ext. lia.
Qed.

Section Scan.
Context `{DateHost} (network : list http_request -> http_request -> option response).
Context (q : IncidentQuery) (keep : value -> bool) (want : Z) (L : listing).
Hypothesis Hpages : fetches (getIncidents network q) (js "incidents") L.

Lemma scan_chunks n k acc w :
  (k < length (chunks L))%nat -> (length acc < enough_rows want)%nat ->
  let found := List.filter keep (concat (take n (drop k (chunks L)))) in
  exists w', scan network q keep want n (cursor_at L k) acc w
    = (inr (acc ++ take (enough_rows want - length acc) found,
            bool_decide (k + n < length (chunks L))%nat && bool_decide (length acc + length found < enough_rows want)%nat), w').
Proof.
  revert k acc w. induction n as [|n IH]; intros k acc w Hk Ha; cbv zeta.
  { exists w. rewrite take_0. cbn [concat List.filter length]. rewrite take_nil, app_nil_r, !bool_decide_eq_true_2 by lia. done. }
  destruct (Hpages k w Hk) as (page & w1 & Ef & _ & Er & Ec). rewrite (drop_nth _ k [] Hk). rewrite firstn_cons. cbn [scan concat].
  rewrite bind_run, Ef, bind_run, Er. cbn [lift]. set (rows := nth k (chunks L) []).
  rewrite scan_rows_spec by done. rewrite List.filter_app, length_app, take_app.
  case_bool_decide as Hen.
  - exists w1. rewrite (bool_decide_eq_false_2 (_ + (_ + _) < _)%nat) by lia. rewrite andb_false_r.
    replace (enough_rows want - length acc - length (List.filter keep rows))%nat with 0%nat by lia. rewrite take_0, app_nil_r. done.
  - rewrite (take_ge (List.filter keep rows)) by lia. rewrite Ec. destruct (next_at L k) as [c|] eqn:En.
    + assert (Hk' : (S k < length (chunks L))%nat).
      { destruct (decide (S k = length (chunks L))) as [E|]; [|lia]. apply (next_at_last L k Hk) in E. congruence. }
      assert (Some c = cursor_at L (S k)) as -> by (rewrite <- En; unfold next_at; by rewrite bool_decide_eq_true_2).
      destruct (IH (S k) (acc ++ List.filter keep rows) w1 Hk' ltac:(rewrite length_app; lia)) as (w' & E). exists w'. cbv zeta in E.
      rewrite E, length_app, <- app_assoc. rewrite (bool_decide_ext (S k + n < length (chunks L))%nat (k + S n < length (chunks L))%nat) by lia.
      rewrite Nat.sub_add_distr. rewrite (Nat.add_assoc (length acc)). done.
    + apply (next_at_last L k Hk) in En. exists w1. rewrite drop_ge by lia. rewrite take_nil. cbn [concat List.filter]. rewrite take_nil, app_nil_r.
      rewrite (bool_decide_eq_false_2 (k + S n < _)%nat) by lia. done.
Qed.
End Scan.

(** The filters of an incident list a server can be asked for. *)
Definition incident_query_ok (q : IncidentQuery) : Prop :=
  opt_wf (in_status q) /\ opt_wf (in_scope q) /\ (forall d, in_from q = Some d -> is_Some d) /\
  (forall d, in_to q = Some d -> is_Some d) /\ (forall n, in_limit q = Some n -> exists z, n = int z /\ safe z).

Lemma set_date_run qs k o :
  Forall wf_pair qs -> well_formed k -> (forall d, o = Some d -> is_Some d) ->
  exists qs', set_date qs k o = Some qs' /\ Forall wf_pair qs' /\ forall k', k <> k' -> qs_get qs' k' = qs_get qs k'.
Proof.
  intros Hq Hk Ho. destruct o as [d|]; [|by exists qs]. destruct (Ho d eq_refl) as [t ->]. exists (qs_set qs k (iso_string t)).
  split; [done|]. split; [|intros k' Hne; by apply qs_get_set_ne]. apply qs_set_wf; [done|]. split; [done|].
  apply well_formed_units. apply (Forall_impl _ _ _ (iso_string_ascii t)). intros c ?. lia.
Qed.

Lemma set_limit_wf qs k o :
  Forall wf_pair qs -> well_formed k -> (forall n, o = Some n -> exists z, n = int z /\ safe z) -> Forall wf_pair (set_number qs k o).
Proof.
  intros Hq Hk Ho. destruct o as [n|]; [|done]. destruct (Ho n eq_refl) as (z & -> & Hz).
  apply (set_number_wf qs k (Some z)); [done|done|]. by intros z' <-%(inj Some).
Qed.

Lemma normalized_page L k :
  (forall j, tok L j <> []) ->
  exists page, (forall w, normalized [(js "incidents", VArr []); (js "nextCursor", VStr [])]
      (VObj [(js "incidents", VArr (nth k (chunks L) [])); (js "nextCursor", VStr (default [] (next_at L k)))]) w = (inr page, w)) /\
    page_rows (js "incidents") page = inr (nth k (chunks L) []) /\ page_cursor page = next_at L k.
Proof.
  intros Ht. eexists. split; [intros w; reflexivity|].
  set (fs := [(js "incidents", VArr (nth k (chunks L) [])); (js "nextCursor", VStr (default [] (next_at L k)))]).
  assert (Hne : js "incidents" <> js "nextCursor") by key_ne.
  assert (E1 : vget (VObj fs) (js "incidents") = VArr (nth k (chunks L) [])).
  { unfold vget, fs. cbn [mget]. by rewrite decide_True by done. }
  assert (E2 : vget (VObj fs) (js "nextCursor") = VStr (default [] (next_at L k))).
  { unfold vget, fs. cbn [mget]. rewrite decide_False by done. by rewrite decide_True by done. }
  cbn [fold_left fst snd object_entries]. rewrite E1, E2. cbn [nullish]. destruct (page_read (js "incidents") L k Hne Ht) as [Er Ec].
  unfold page_rows, page_cursor in *. split.
  - unfold vget at 1. rewrite !mget_obj_set. rewrite decide_False by done. rewrite decide_True by done. done.
  - fold fs in Ec. rewrite E2 in Ec. etransitivity; [|exact Ec]. unfold vget. rewrite mget_obj_set, decide_True by done. reflexivity.
Qed.

Section Incidents.
Context `{DateHost} (network : list http_request -> http_request -> option response).

Lemma incidents_fetched q L :
  keyset_server network (js "/api/v1/incidents") (js "incidents") L -> listing_ok L -> incident_query_ok q ->
  fetches (getIncidents network q) (js "incidents") L.
Proof.
  intros Hnet HL (Hs & Hsc & Hf & Ht & Hl) k w Hk.
  set (qs0 := set_defined (set_text [] (js "status") (in_status q)) (js "scope") (in_scope q)).
  assert (Hw0 : Forall wf_pair qs0) by (apply set_defined_wf; [apply set_text_wf; [apply Forall_nil_2|key_wf|done]|key_wf|done]).
  assert (Hc0 : qs_get qs0 (js "cursor") = None) by (unfold qs0; rewrite set_defined_get_ne, set_text_get_ne by key_ne; done).
  destruct (set_date_run qs0 (js "from") (in_from q) Hw0 ltac:(key_wf) Hf) as (qs1 & E1 & Hw1 & Hc1).
  destruct (set_date_run qs1 (js "to") (in_to q) Hw1 ltac:(key_wf) Ht) as (qs2 & E2 & Hw2 & Hc2).
  set (qs3 := set_number qs2 (js "limit") (in_limit q)).
  assert (Hw3 : Forall wf_pair qs3) by (apply set_limit_wf; [done|key_wf|done]).
  assert (Hc3 : qs_get qs3 (js "cursor") = None) by (unfold qs3; rewrite set_number_get_ne, Hc2, Hc1 by key_ne; done).
  destruct (cursor_param qs3 L k HL Hw3 Hc3) as [Hwf Hc]. set (inp := with_query (js "/api/v1/incidents") (set_text qs3 (js "cursor") (cursor_at L k))).
  destruct (with_query_read (js "/api/v1/incidents") _ ltac:(apply indexOf_unit_None; vm_compute; reflexivity) Hwf) as [Epath Equery].
  destruct (get_page network (js "/api/v1/incidents") (js "incidents") L inp k w Hnet Hk Epath) as (w' & E & El); [unfold inp; by rewrite Equery|].
  destruct (normalized_page L k ltac:(intros j; apply HL)) as (page & Ep & Er & Ec). exists page, w'. split_and!; [|done|done|done].
  unfold getIncidents. cbv zeta. fold qs0. rewrite E1. cbn [from_option_client]. rewrite bind_run. cbn [mret client_ret].
  rewrite E2. cbn [from_option_client]. rewrite bind_run. cbn [mret client_ret]. fold qs3. fold inp. rewrite bind_run, E. apply Ep.
Qed.

(** Scanning the incidents finds what a look at the whole list would.  Against a server that hands out its incidents
    page by page, the scan returns, in the server's order, the first [want] incidents that are kept (one where [want]
    is below one), or all of them where there are fewer; it says it was cut short exactly when there are more than
    fifty pages and the first fifty hold too few, and what it then returns is what those fifty hold. *)
Theorem scanIncidents_spec q keep want L w :
  keyset_server network (js "/api/v1/incidents") (js "incidents") L -> listing_ok L -> incident_query_ok q ->
  let found := List.filter keep (concat (take 50 (chunks L))) in
  exists truncated w', scanIncidents network q keep want w = (inr (take (enough_rows want) found, truncated), w') /\
    (truncated = true <-> (50 < length (chunks L))%nat /\ (length found < enough_rows want)%nat) /\
    (truncated = false -> take (enough_rows want) found = take (enough_rows want) (List.filter keep (inventory L))).
Proof.
  intros Hnet HL Hq found. assert (Hl : (0 < length (chunks L))%nat) by (destruct HL as [HL _]; destruct (chunks L); [done|simpl; lia]).
  assert (He : (length (@nil value) < enough_rows want)%nat) by (unfold enough_rows; simpl; lia).
  destruct (scan_chunks network q keep want L (incidents_fetched q L Hnet HL Hq) MAX_COLLECT_PAGES 0 [] w Hl He) as (w' & E). cbv zeta in E.
  rewrite drop_0 in E. change MAX_COLLECT_PAGES with 50%nat in E. fold found in E. rewrite Nat.sub_0_r in E.
  eexists _, w'. split; [exact E|]. rewrite andb_true_iff, andb_false_iff, !bool_decide_eq_true, !bool_decide_eq_false. split; [simpl; lia|].
  intros Hor. destruct (decide (50 < length (chunks L))%nat) as [Hm|Hm].
  - unfold inventory. rewrite <- (take_drop 50 (chunks L)) at 1. rewrite concat_app, List.filter_app. fold found. symmetry.
    apply take_app_le. simpl in Hor. lia.
  - unfold inventory, found. by rewrite (take_ge (chunks L)) by lia.
Qed.
End Incidents.

(** ** Sessions that end: what is proved *)

Section Session.
Context (network : list http_request -> http_request -> option response).

Lemma csrf_headers_browser m hs w : (csrf_headers m hs w).2 = w.
Proof. apply csrf_headers_spec. Qed.

Lemma redirect_run w :
  match redirectToLogin w with
  | (inr _, w') =>
      navigated w' = navigated w ++ (if seqb (loc_pathname w) LOGIN_PATH then [] else option_list (login_address w))
  | (inl _, w') => login_address w = None
  end.
Proof.
  unfold redirectToLogin. rewrite bind_run. cbn [get_browser]. unfold login_address.
  destruct (seqb (loc_pathname w) LOGIN_PATH); [by rewrite app_nil_r|].
  destruct (seqb (loc_pathname w ++ loc_search w) (js "/")); [reflexivity|]. rewrite bind_run.
  destruct (uri_component _) as [enc|]; reflexivity.
Qed.

(** An answer that came back sent the reader to sign in exactly when it was a 401 on a path where that means a lost
    session, and the reader was not there already. *)
Lemma apiFetch_redirects inp meth hs b w resp w' :
  apiFetch network inp meth hs b w = (inr resp, w') ->
  navigated w' = navigated w ++
    (if (status resp =? 401) && negb (existsb (seqb inp) NO_REDIRECT_ON_401) && negb (seqb (loc_pathname w) LOGIN_PATH)
     then option_list (login_address w) else []).
Proof.
  unfold apiFetch. rewrite bind_run. pose proof (csrf_headers_browser (toUpperCase (default (js "GET") meth)) hs w) as Hw.
  destruct (csrf_headers _ hs w) as [[e|hs'] w0]; cbn [snd] in Hw; subst w0; [done|].
  rewrite bind_run. unfold fetch. destruct (network _ _) as [r|]; [|done].
  set (w1 := Build_browser _ _ _ _ _). destruct ((status r =? 401) && _) eqn:E.
  - rewrite bind_run. pose proof (redirect_run w1) as Hr. destruct (redirectToLogin w1) as [[e|[]] w2]; [done|].
    intros [= <- <-]. rewrite Hr, E. cbn [andb]. change (navigated w1) with (navigated w). change (loc_pathname w1) with (loc_pathname w).
    change (login_address w1) with (login_address w). by destruct (seqb (loc_pathname w) LOGIN_PATH).
  - intros Hr. injection Hr as <- <-. rewrite E. cbn [andb]. by rewrite app_nil_r.
Qed.
End Session.

(** What an import reports of a collection can always be listed. *)
Theorem import_result_lists res k fs :
  (k, VObj fs) ∈ object_entries res -> mhas fs (js "created") = true ->
  exists fs', (k, VObj fs') ∈ object_entries (import_result res) /\
    (forall f, f = js "errors" \/ f = js "warnings" -> vget (VObj fs') f = nullish (vget (VObj fs) f) (VArr [])) /\
    (forall f, f <> js "errors" -> f <> js "warnings" -> vget (VObj fs') f = vget (VObj fs) f).
Proof.
  intros Hin Hc. eexists. split.
  - unfold import_result. cbn [object_entries]. apply (list_elem_of_fmap_2 (prod_map Datatypes.id normalized_collection)) in Hin.
    unfold prod_map in Hin. cbn [fst snd normalized_collection] in Hin. rewrite Hc in Hin. exact Hin.
  - assert (Hne : js "errors" <> js "warnings") by key_ne.
    split; [intros f [->| ->]|intros f H1 H2]; unfold vget at 1; rewrite !mget_obj_set.
    + rewrite decide_False by done. by rewrite decide_True by done.
    + by rewrite decide_True by done.
    + rewrite !decide_False by done. done.
Qed.

Module ApiWitness.
#[local] Existing Instance iso_host.

Definition page_ok (v : value) : response :=
  {| status := 200; statusText := js "OK"; content_type := Some (js "application/json"); json := Some v |}.

(** Three pages of one row each behind the cursors c1 and c2. *)
Definition three : listing :=
  {| chunks := [[VStr (js "a")]; [VStr (js "b")]; [VStr (js "c")]]; tok k := 99 :: digits (Z.of_nat k) |}.

Definition page_number (inp : jstr) : nat :=
  match qs_get (query_of inp) (js "cursor") with
  | None => 0%nat
  | Some c => default 3%nat (findIndex (fun k => seqb (99 :: digits (Z.of_nat k)) c) (seq 0 3))
  end.

Definition server (key : jstr) : list http_request -> http_request -> option response :=
  fun _ r => Some (page_at key three (page_number (input r))).

Lemma three_ok : listing_ok three.
Proof.
  split; [discriminate|]. intros k. split; [discriminate|]. apply well_formed_units. constructor; [lia|].
  apply (Forall_impl _ _ _ (digits_all_digits (Z.of_nat k) ltac:(lia))). unfold is_digit. intros c ?. lia.
Defined.

Lemma server_serves path key : keyset_server (server key) path key three.
Proof.
  intros hist r k _ Hk E. unfold server, page_number. rewrite E. destruct k as [|[|[|k]]]; try reflexivity. simpl in Hk. lia.
Defined.

Definition reader : browser :=
  {| cookie := js "theme=dark; csrf=t%2Bk"; loc_pathname := js "/targets"; loc_search := []; sent := []; navigated := [] |}.

Lemma listings_are_whole_witness :
  walks_listing (listAllTargets (server (js "targets")) None None) three /\
  (listAllTargets (server (js "targets")) None None reader).1 = inr ([VStr (js "a"); VStr (js "b"); VStr (js "c")], false).
Proof.
  split; [|vm_compute; reflexivity].
  destruct (listings_are_whole (server (js "targets")) None None None [] [] None None three three_ok) as [Hw _].
  - intros s Hs. discriminate Hs.
  - intros s Hs. discriminate Hs.
  - intros s Hs. discriminate Hs.
  - exists []. by split.
  - exists []. by split.
  - intros z Hz. discriminate Hz.
  - exact (Hw (server_serves _ _)).
Defined.

Definition no_filter : IncidentQuery := {| in_status := None; in_scope := None; in_from := None; in_to := None; in_limit := None |}.
Definition not_a (v : value) : bool := negb (is_text v (js "a")).

Lemma scanIncidents_spec_witness :
  exists truncated w', scanIncidents (server (js "incidents")) no_filter not_a 1 reader = (inr ([VStr (js "b")], truncated), w') /\
    truncated = false.
Proof.
  destruct (scanIncidents_spec (server (js "incidents")) no_filter not_a 1 three reader (server_serves _ _) three_ok) as (t & w' & E & Ht & _).
  - split_and!; intros x Hx; discriminate Hx.
  - exists t, w'. split; [exact E|]. destruct t; [|reflexivity]. destruct (proj1 Ht eq_refl) as [Hc _]. simpl in Hc. lia.
Defined.

(** A write leaves with the token the cookie holds, decoded; a read without. *)
Example token_sent :
  headers <$> sent (createRun (server []) (VObj []) reader).2
  = [[(js "content-type", js "application/json"); (js "x-csrf-token", js "t+k")]] /\
  headers <$> sent (getVersion (server []) reader).2 = [[]].
Proof. split; vm_compute; reflexivity. Qed.

(** The guarantee of every call, at a write: the request it sent carries the token. *)
Lemma every_call_is_safe_witness :
  exists r v, sent (createRun (server []) (VObj []) reader).2 = [r] /\ header_value (js "t+k") = Some v /\
    mget (headers r) csrf_name = Some v.
Proof.
  destruct (every_call_is_safe (server [])) as (_ & Hw & _). destruct (Hw _ (w_run (server []) (VObj [])) reader) as (rs & ns & _ & Hs & _ & Hr & _).
  change (sent reader) with (@nil http_request) in Hs. cbn [app] in Hs. rewrite <- Hs in Hr. clear Hs rs ns.
  set (r := {| input := js "/api/v1/runs"; method := js "POST"; headers := mset json_headers csrf_name (js "t+k");
               credentials := js "same-origin"; body := Some (js "{}") |}).
  assert (E : sent (createRun (server []) (VObj []) reader).2 = [r]) by (vm_compute; reflexivity). rewrite E in *.
  inversion Hr as [|? ? Hok _]. destruct (ok_token reader r Hok (js "t+k")) as (v & Hv & Hm).
  - vm_compute; reflexivity.
  - vm_compute; reflexivity.
  - discriminate.
  - exists r, v. split; [reflexivity|split; [exact Hv|exact Hm]].
Defined.

(** A foreign cookie whose name is no escape stops every write before it is sent. *)
Example foreign_cookie_stops_writes :
  let w := {| cookie := js "100%=1; csrf=t"; loc_pathname := js "/"; loc_search := []; sent := []; navigated := [] |} in
  createRun (server []) (VObj []) w = (inl Failure, w).
Proof. vm_compute. reflexivity. Qed.
End ApiWitness.
