(* ===== verification/Login.v ===== *)
(** Signing in ([web/src/pages/login.tsx]) and who is signed in ([web/src/hooks/use-auth.ts], [use-capabilities.ts]):
    where the reader is sent after the form, over the part of the URL parser that decides it.

    A text that names no scheme and no host is resolved here, path, query and fragment, as the URL standard writes it;
    one that names them is the host's to read, the class [UrlHost]. *)
From S2P Require Import Prelude JsNum JsString JsCollections JsValue JsDate JsUrl JsJson Api.
Local Open Scope Z_scope.

(** ** The URL parser against an origin *)

Record url_parts := { u_origin : jstr; u_pathname : jstr; u_search : jstr; u_hash : jstr }.

(** [strip] and [remove]: blanks and controls around the text, tabs and line breaks inside it. *)
Definition is_c0_or_space (c : Z) : bool := c <=? 32.
Fixpoint strip_controls (s : jstr) : jstr :=
  match s with c :: r => if is_c0_or_space c then strip_controls r else s | [] => [] end.
Definition is_tab_or_newline (c : Z) : bool := (c =? 9) || (c =? 10) || (c =? 13).
Definition url_input (raw : jstr) : jstr :=
  List.filter (fun c => negb (is_tab_or_newline c)) (rev (strip_controls (rev (strip_controls raw)))).

(** The characters each component escapes, besides the controls and everything beyond ASCII. *)
Definition in_query_set (c : Z) : bool := (c =? 32) || (c =? 34) || (c =? 35) || (c =? 60) || (c =? 62).
Definition in_special_query_set (c : Z) : bool := in_query_set c || (c =? 39).
Definition in_path_set (c : Z) : bool := in_query_set c || (c =? 63) || (c =? 94) || (c =? 96) || (c =? 123) || (c =? 125).
Definition in_fragment_set (c : Z) : bool := (c =? 32) || (c =? 34) || (c =? 60) || (c =? 62) || (c =? 96).

Definition kept (in_set : Z -> bool) (c : Z) : bool := (32 <=? c) && (c <=? 126) && negb (in_set c).

Definition url_escape (in_set : Z -> bool) (s : jstr) : jstr :=
  code_points s ≫= fun c => if kept in_set c then [c] else utf8_bytes c ≫= percent.

Definition is_slash (c : Z) : bool := (c =? 47) || (c =? 92).

(** A dot may be written as an escape. *)
Definition is_dot (seg : jstr) : bool := existsb (seqb (ascii_lower seg)) [js "."; js "%2e"].
Definition is_dots (seg : jstr) : bool := existsb (seqb (ascii_lower seg)) [js ".."; js ".%2e"; js "%2e."; js "%2e%2e"].

Fixpoint split_slash (s : jstr) : list jstr :=
  match s with
  | [] => [[]]
  | c :: r => if is_slash c then [] :: split_slash r
              else match split_slash r with w :: ws => (c :: w) :: ws | [] => [[c]] end
  end.

(** The path so far and the segments still to read; the last one has no slash behind it. *)
Fixpoint path_from (path segs : list jstr) : list jstr :=
  match segs with
  | [] => path
  | seg :: segs' =>
      let closes := match segs' with [] => true | _ => false end in
      if is_dots seg then path_from (take (length path - 1) path ++ if closes then [[]] else []) segs'
      else if is_dot seg then path_from (path ++ if closes then [[]] else []) segs'
      else path_from (path ++ [seg]) segs'
  end.

Definition not_query_mark (c : Z) : bool := negb ((c =? 63) || (c =? 35)).

(** The text after its path: query and fragment, each with its mark, an empty one as nothing. *)
Definition tail_parts (s : jstr) : jstr * jstr :=
  let '(q, f) := match s with
                 | c :: r => if c =? 63 then span (fun c => negb (c =? 35)) r else ([], s)
                 | [] => ([], [])
                 end in
  let mark m t := match t with [] => [] | _ => m :: t end in
  (mark 63 (url_escape in_special_query_set q), mark 35 (url_escape in_fragment_set (drop 1 f))).

Definition resolve_path (origin s : jstr) : url_parts :=
  let '(p, rest) := span not_query_mark s in
  let segs := match p with c :: p' => if is_slash c then split_slash p' else split_slash p | [] => [[]] end in
  let '(q, h) := tail_parts rest in
  {| u_origin := origin; u_pathname := [47] ++ join [47] (path_from [] (url_escape in_path_set <$> segs)); u_search := q; u_hash := h |}.

(** A scheme, or two slashes, is for the host. *)
Definition scheme_char (c : Z) : bool := is_alpha c || is_digit c || (c =? 43) || (c =? 45) || (c =? 46).
Definition names_host (s : jstr) : bool :=
  match s with
  | a :: b :: _ => is_slash a && is_slash b
  | _ => false
  end ||
  match s with
  | a :: _ => is_alpha a && match (span scheme_char s).2 with c :: _ => c =? 58 | [] => false end
  | [] => false
  end.

Definition url_text (u : url_parts) : jstr := u_pathname u ++ u_search u ++ u_hash u.

(** An address as the standard's serializer writes it: a path of segments that need no escape and are no dots, a query
    and a fragment that need none either. *)
Definition clean_segment (seg : jstr) : Prop :=
  Forall (fun c => kept in_path_set c = true /\ is_slash c = false) seg /\ is_dot seg = false /\ is_dots seg = false.
Definition clean_part (mark : Z) (in_set : Z -> bool) (s : jstr) : Prop :=
  s = [] \/ exists q, q <> [] /\ Forall (fun c => kept in_set c = true) q /\ s = mark :: q.

Record url_clean (u : url_parts) : Prop := {
  clean_path : exists segs, segs <> [] /\ Forall clean_segment segs /\ u_pathname u = 47 :: join [47] segs;
  clean_query : clean_part 63 in_special_query_set (u_search u);
  clean_fragment : clean_part 35 in_fragment_set (u_hash u);
}.

(** [new URL(raw, origin)] of a text with a scheme or a host; [None] is its [TypeError].  An address of the page's own
    origin whose path is not opaque (the path of a [blob:] address is) is written as the standard's serializer does. *)
Class UrlHost := {
  parse_absolute : jstr -> jstr -> option url_parts;
  absolute_clean origin raw u :
    parse_absolute origin raw = Some u -> u_origin u = origin -> startsWith (u_pathname u) [47] = true -> url_clean u;
}.

Section Login.
Context `{UrlHost}.

Definition new_URL (raw origin : jstr) : option url_parts :=
  let s := url_input raw in
  if names_host s then parse_absolute origin s else Some (resolve_path origin s).

(** ** The page *)

Definition currentReturnTo (search origin : jstr) : jstr :=
  match qs_get (qs_parse search) (js "returnTo") with
  | None => js "/"
  | Some raw =>
      match new_URL raw origin with
      | None => js "/"
      | Some url =>
          if negb (seqb (u_origin url) origin) then js "/"
          else if seqb (u_pathname url) LOGIN_PATH then js "/"
          else u_pathname url ++ u_search url ++ u_hash url
      end
  end.

(** The OIDC link. *)
Definition oidc_href (search origin : jstr) : option jstr :=
  enc ← uri_component (currentReturnTo search origin); Some (js "/api/v1/auth/oidc/start?returnTo=" ++ enc).

(** [mode] of the configuration; [None] while it is pending. *)
Definition redirectHome (mode : option (option jstr)) : bool :=
  match mode with Some (Some m) => seqb m (js "header") || seqb m (js "anonymous") | _ => false end.

(** The field a submit lacks. *)
Definition missing_field (username password : jstr) : option jstr :=
  if seqb username [] then Some (js "username") else if seqb password [] then Some (js "password") else None.

(** What a failed sign-in says. *)
Definition login_error (e : thrown) (fallback : jstr) : option jstr :=
  match e with
  | ApiError p => d ← said (vget p (js "detail")); t ← said (vget p (js "title")); Some (default fallback (find (fun s => negb (seqb s [])) [d; t]))
  | Failure => Some fallback
  end.

(** A submit: nothing while a field is missing; the error shown, if any, and whether the reader is sent on. *)
Definition handleSubmit `{DateHost} (network : list http_request -> http_request -> option response) (origin fallback username password : jstr) (w : browser) :
    option (option jstr) * browser :=
  match missing_field username password with
  | Some _ => (Some None, w)
  | None =>
      match login network username password w with
      | (inr _, w') => let '(_, w'') := goTo (currentReturnTo (loc_search w') origin) w' in (Some None, w'')
      | (inl e, w') => (Some <$> login_error e fallback, w')
      end
  end.

(** ** Who is signed in *)

(** [permissions?.includes(p) ?? false] of what GET /auth/me answered. *)
Definition can (permissions : option (list jstr)) (p : jstr) : bool := match permissions with Some l => existsb (seqb p) l | None => false end.
Definition isAnonymous (me : option value) : bool :=
  match me with Some v => is_text (vget (vget v (js "subject")) (js "kind")) (js "anonymous") | None => false end.

(** [data?.capabilities?.includes("events") ?? false], and whether the query answered. *)
Definition useCapabilities (capabilities : option (list jstr)) (isPending : bool) : bool * bool :=
  (can capabilities (js "events"), negb isPending).

(** The configuration read so far, if any, and the query's error: whether there is a database, whether that is known,
    and the error to show. *)
Definition useDatabaseAvailable {E} (configured : option (option bool)) (isPending : bool) (queryError : option E) : bool * bool * option E :=
  (default false (configured ≫= Datatypes.id), negb isPending, match configured with None => queryError | Some _ => None end).
End Login.

(** ** Escapes: what is proved *)

Definition printed (c : Z) : Prop := 33 <= c <= 126.

(** Whatever units a text is made of, its code points are ones. *)
Definition code_unit (c : Z) : Prop := 0 <= c < 65536.

Lemma code_points_scalar s : Forall code_unit s -> Forall scalar (code_points s).
Proof.
  assert (H : forall n s, (length s <= n)%nat -> Forall code_unit s -> Forall scalar (code_points s)); [|by eapply H].
  clear s. unfold code_unit. induction n as [|n IH]; intros [|c r] Hn Hs; simpl in Hn; try (constructor || lia).
  inversion Hs as [|? ? Hc Hr]; subst. cbn [code_points]. assert (Hrest : Forall scalar (code_points r)) by (apply IH; [lia|done]).
  destruct (is_high c) eqn:Eh.
  - destruct r as [|d r']; [apply Forall_singleton, scalar_range; lia|]. destruct (is_low d) eqn:El; [|by constructor; [apply scalar_range; lia|]].
    inversion Hr as [|? ? Hd Hr']; subst. simpl in Hn. constructor; [|apply IH; [lia|done]]. unfold is_high, is_low in *. apply scalar_range. lia.
  - constructor; [|done]. destruct (is_low c) eqn:El; apply scalar_range; unfold is_high, is_low in *; lia.
Qed.

Lemma well_formed_code_units s : well_formed s -> Forall code_unit s.
Proof.
  intros (cps & Hc & ->). unfold units_of. induction Hc as [|c cps [[H0 H1] _] _ IH]; csimpl; [constructor|].
  apply Forall_app. split; [|done]. unfold units_of_code_point, code_unit. destruct (Z.ltb_spec c 0x10000); [apply Forall_singleton; lia|].
  pose proof (Z.div_mod (c - 65536) 1024 ltac:(lia)). pose proof (Z.mod_pos_bound (c - 65536) 1024 ltac:(lia)).
  repeat constructor; lia.
Qed.

Lemma code_points_ascii s : Forall (fun c => 0 <= c < 128) s -> code_points s = s.
Proof.
  induction 1 as [|c s Hc _ IH]; [done|]. cbn [code_points]. unfold is_high, is_low. zcases. cbn [andb]. by rewrite IH.
Qed.

Lemma escape_kept in_set s : Forall (fun c => kept in_set c = true) s -> url_escape in_set s = s.
Proof.
  intros Hs. unfold url_escape. rewrite code_points_ascii by (apply (Forall_impl _ _ _ Hs); unfold kept; intros c ?; lia).
  induction Hs as [|c s Hc _ IH]; csimpl; [done|]. by rewrite Hc, IH.
Qed.

(** A property of units, and of everything beyond ASCII, is one of code points. *)
Lemma code_points_Forall (P : Z -> Prop) s : (forall c, 128 <= c -> P c) -> Forall P s -> Forall P (code_points s).
Proof.
  intros HP. assert (H : forall n s, (length s <= n)%nat -> Forall P s -> Forall P (code_points s)); [|by eapply H].
  clear s. induction n as [|n IH]; intros [|c r] Hn Hs; simpl in Hn; try (constructor || lia).
  inversion Hs as [|? ? Hc Hr]; subst. cbn [code_points]. assert (Hrest : Forall P (code_points r)) by (apply IH; [lia|done]).
  destruct (is_high c) eqn:Eh.
  - destruct r as [|d r']; [apply Forall_singleton, HP; lia|]. destruct (is_low d) eqn:El; [|by constructor; [apply HP; lia|]].
    inversion Hr as [|? ? Hd Hr']; subst. simpl in Hn. constructor; [|apply IH; [lia|done]]. unfold is_high, is_low in *. apply HP. lia.
  - constructor; [|done]. destruct (is_low c) eqn:El; [apply HP; lia|done].
Qed.

(** What an escape is written with: a percent sign and hexadecimal digits, which no component escapes. *)
Definition escape_units : list Z := js "%0123456789ABCDEF".

Lemma percent_units b : byte b -> Forall (fun c => c ∈ escape_units) (percent b).
Proof.
  unfold byte. intros Hb. pose proof (Z.div_mod b 16 ltac:(lia)). pose proof (Z.mod_pos_bound b 16 ltac:(lia)).
  assert (Hd : forall d, 0 <= d < 16 -> hex_digit d ∈ escape_units).
  { intros d Hd. assert (Hall : forallb (fun d => bool_decide (hex_digit (Z.of_nat d) ∈ escape_units)) (List.seq 0 16) = true) by (vm_compute; reflexivity).
    rewrite List.forallb_forall in Hall. specialize (Hall (Z.to_nat d) ltac:(apply in_seq; lia)). apply bool_decide_eq_true in Hall.
    by rewrite Z2Nat.id in Hall by lia. }
  unfold percent. apply Forall_cons; split; [left|]. apply Forall_cons; split; [apply Hd; lia|]. apply Forall_singleton, Hd. lia.
Qed.

Lemma escape_Forall (P : Z -> Prop) in_set s :
  Forall code_unit s -> (forall c, c ∈ escape_units -> P c) -> Forall (fun c => kept in_set c = true -> P c) (code_points s) ->
  Forall P (url_escape in_set s).
Proof.
  intros Hs%code_points_scalar Hesc HP. unfold url_escape. revert HP.
  induction Hs as [|c cps Hc _ IH]; intros HP; csimpl; [constructor|]. inversion HP; subst. apply Forall_app. split; [|by apply IH].
  destruct (kept in_set c) eqn:E; [apply Forall_singleton; auto|].
  pose proof (utf8_encode_bytes [c] ltac:(by apply Forall_singleton)) as Hb. unfold utf8_encode in Hb. csimpl in Hb. rewrite app_nil_r in Hb.
  induction Hb as [|b bs Hb _ IHb]; [constructor|]. change ((b :: bs) ≫= percent) with (percent b ++ (bs ≫= percent)). apply Forall_app. split; [|done].
  apply (Forall_impl _ _ _ (percent_units b Hb)). exact Hesc.
Qed.

Lemma escape_is_kept in_set s : forallb (kept in_set) escape_units = true -> Forall code_unit s -> Forall (fun c => kept in_set c = true) (url_escape in_set s).
Proof.
  intros Hset Hs. apply escape_Forall; [done| |by apply Forall_forall]. apply Forall_forall. by apply forallb_Forall.
Qed.

Lemma escape_no_slash in_set s : Forall code_unit s -> Forall (fun c => is_slash c = false) s -> Forall (fun c => is_slash c = false) (url_escape in_set s).
Proof.
  intros Hu Hs. apply escape_Forall; [done| |].
  - apply Forall_forall, (List.Forall_forall (fun c => is_slash c = false)). intros c Hc. apply negb_true_iff.
    revert c Hc. apply (proj1 (List.forallb_forall (fun c => negb (is_slash c)) escape_units)). vm_compute. reflexivity.
  - eapply Forall_impl; [apply (code_points_Forall (fun c => is_slash c = false) s)|]; [|done|by intros]. unfold is_slash. intros c ?. lia.
Qed.

(** ** Where a text leads: what is proved *)

Lemma strip_controls_suffix (P : Z -> Prop) s : Forall P s -> Forall P (strip_controls s).
Proof. induction 1 as [|c s Hc Hs IH]; cbn [strip_controls]; [constructor|]. destruct (is_c0_or_space c); [done|by constructor]. Qed.

Lemma url_input_units s : Forall code_unit s -> Forall code_unit (url_input s).
Proof. intros Hs. unfold url_input. apply Forall_filter_b, Forall_rev, strip_controls_suffix, Forall_rev, strip_controls_suffix, Hs. Qed.

Lemma strip_controls_printed s : Forall printed s -> strip_controls s = s.
Proof.
  intros Hs. destruct Hs as [|c s Hc _]; [done|]. cbn [strip_controls]. unfold is_c0_or_space, printed in *.
  by rewrite (proj2 (Z.leb_gt c 32)) by lia.
Qed.

Lemma url_input_printed s : Forall printed s -> url_input s = s.
Proof.
  intros Hs. unfold url_input. rewrite (strip_controls_printed s) by done. rewrite strip_controls_printed by by apply Forall_rev.
  rewrite rev_involutive. apply List.forallb_filter_id, forallb_Forall. apply (Forall_impl _ _ _ Hs).
  unfold printed, is_tab_or_newline. intros c ?. lia.
Qed.

Lemma split_slash_Forall (P : Z -> Prop) s : Forall P s -> Forall (Forall P) (split_slash s).
Proof.
  induction 1 as [|x s Hx Hs IH]; [repeat constructor|]. cbn [split_slash]. destruct (is_slash x); [by constructor|].
  destruct (split_slash s) as [|w ws]; [repeat constructor; done|]. inversion IH; subst. repeat (constructor; try done).
Qed.

Lemma join_Forall (P : Z -> Prop) c ws : P c -> Forall (Forall P) ws -> Forall P (join [c] ws).
Proof.
  intros Hc. induction 1 as [|w ws Hw Hws IH]; [constructor|]. destruct ws as [|w' ws]; [done|].
  change (join [c] (w :: w' :: ws)) with (w ++ [c] ++ join [c] (w' :: ws)). rewrite !Forall_app, Forall_singleton. done.
Qed.

Lemma span_Forall (P : Z -> Prop) p s : Forall P s -> Forall P (span p s).1 /\ Forall P (span p s).2.
Proof. destruct (span_eq p s) as [E _]. rewrite E at 1. by rewrite Forall_app. Qed.

Lemma split_slash_join segs : segs <> [] -> Forall (Forall (fun c => is_slash c = false)) segs -> split_slash (join [47] segs) = segs.
Proof.
  intros Hne Hs. induction Hs as [|w ws Hw Hws IH]; [done|]. clear Hne.
  assert (Hone : forall t, split_slash (w ++ 47 :: t) = w :: split_slash t).
  { intros t. induction Hw as [|c w Hc Hw IHw]; [done|]. cbn [app split_slash]. by rewrite Hc, IHw. }
  destruct ws as [|w' ws].
  - cbn [join]. clear -Hw. induction Hw as [|c w Hc Hw IHw]; [done|]. cbn [split_slash]. by rewrite Hc, IHw.
  - change (join [47] (w :: w' :: ws)) with (w ++ 47 :: join [47] (w' :: ws)). by rewrite Hone, IH.
Qed.

Lemma path_from_clean path segs :
  Forall (fun s => is_dot s = false /\ is_dots s = false) segs -> path_from path segs = path ++ segs.
Proof.
  intros Hs. revert path. induction Hs as [|s segs [H1 H2] _ IH]; intros path; cbn [path_from]; [by rewrite app_nil_r|].
  by rewrite H1, H2, IH, <- app_assoc.
Qed.

Lemma split_slash_no_slash s : Forall (Forall (fun c => is_slash c = false)) (split_slash s).
Proof.
  induction s as [|c s IH]; [repeat constructor|]. cbn [split_slash]. destruct (is_slash c) eqn:E; [by constructor|].
  destruct (split_slash s) as [|w ws]; [repeat constructor; done|]. inversion IH; subst. by repeat constructor.
Qed.

Lemma split_slash_not_nil s : split_slash s <> [].
Proof. destruct s as [|c s]; [done|]. cbn [split_slash]. destruct (is_slash c); [done|]. by destruct (split_slash s). Qed.

(** The query and the fragment are found again. *)
Lemma tail_parts_kept search hash :
  clean_part 63 in_special_query_set search -> clean_part 35 in_fragment_set hash -> tail_parts (search ++ hash) = (search, hash).
Proof.
  intros Hq Hh.
  assert (Hf : exists f, url_escape in_fragment_set f = f /\ hash = match f with [] => [] | _ => 35 :: f end /\ drop 1 hash = f /\ (forall c, head hash = Some c -> c = 35)).
  { destruct Hh as [->|(f & Hn & Hk & ->)]; [by exists []|]. exists f. split_and!; [by apply escape_kept|by destruct f|done|by intros c [= <-]]. }
  destruct Hf as (f & Ef & Eh & Ed & Hhead). unfold tail_parts. destruct Hq as [->|(q & Hqn & Hqk & ->)]; cbn [app].
  - destruct hash as [|c hash']; [reflexivity|]. rewrite (Hhead c eq_refl) in *. change (35 =? 63) with false. cbv iota.
    rewrite Ed, Ef, Eh. reflexivity.
  - change (63 =? 63) with true. cbv iota. rewrite span_app.
    + rewrite escape_kept, Ed, Ef, Eh by done. by destruct q.
    + apply (Forall_impl _ _ _ Hqk). unfold kept, in_special_query_set, in_query_set. intros c ?. lia.
    + intros c Hc. by rewrite (Hhead c Hc).
Qed.

Lemma path_from_clean_segments path segs :
  Forall clean_segment path -> Forall (Forall (fun c => kept in_path_set c = true /\ is_slash c = false)) segs ->
  Forall clean_segment (path_from path segs).
Proof.
  assert (Hn : clean_segment []) by (split; [constructor|split; reflexivity]).
  intros Hp Hs. revert path Hp. induction Hs as [|seg segs Hseg _ IH]; intros path Hp; cbn [path_from]; [done|].
  destruct (is_dots seg) eqn:E1; [|destruct (is_dot seg) eqn:E2]; apply IH, Forall_app; split; try done.
  - by apply Forall_take.
  - destruct segs; repeat constructor; done.
  - destruct segs; repeat constructor; done.
  - apply Forall_singleton. by split.
Qed.

Lemma path_from_not_nil path segs : segs <> [] -> path_from path segs <> [].
Proof.
  assert (Happ : forall (l : list jstr) x, l ++ [x] <> []) by (intros [] x; done).
  revert path. induction segs as [|seg segs IH]; intros path Hne; [done|]. clear Hne. cbn [path_from].
  destruct segs as [|seg' segs]; [cbn [path_from]; destruct (is_dots seg); [|destruct (is_dot seg)]; apply Happ|].
  destruct (is_dots seg); [|destruct (is_dot seg)]; by apply IH.
Qed.

Lemma tail_parts_clean s :
  Forall code_unit s -> clean_part 63 in_special_query_set (tail_parts s).1 /\ clean_part 35 in_fragment_set (tail_parts s).2.
Proof.
  intros Hs. unfold tail_parts.
  set (qf := match s with c :: r => if c =? 63 then span (fun c => negb (c =? 35)) r else ([], s) | [] => ([], []) end).
  assert (Hqf : Forall code_unit qf.1 /\ Forall code_unit qf.2).
  { unfold qf. destruct s as [|c r]; [done|]. inversion Hs; subst. destruct (c =? 63); [by apply span_Forall|by split]. }
  destruct qf as [q f]. destruct Hqf as [Hq Hf]. cbn [fst snd] in *.
  pose proof (escape_is_kept in_special_query_set q eq_refl Hq) as E1.
  pose proof (escape_is_kept in_fragment_set (drop 1 f) eq_refl ltac:(by apply Forall_drop)) as E2.
  split.
  - destruct (url_escape in_special_query_set q) as [|x l]; [by left|]. right. by exists (x :: l).
  - destruct (url_escape in_fragment_set (drop 1 f)) as [|x l]; [by left|]. right. by exists (x :: l).
Qed.

(** What a text without a host resolves to is written as the serializer does. *)
Lemma resolve_path_clean origin s : Forall code_unit s -> url_clean (resolve_path origin s).
Proof.
  intros Hs. unfold resolve_path. destruct (span_Forall code_unit not_query_mark s Hs) as [Hp Hr].
  destruct (span not_query_mark s) as [p rest]. cbn [fst snd] in *.
  set (segs := match p with c :: p' => _ | [] => _ end).
  assert (Hsegs : Forall (Forall code_unit) segs /\ Forall (Forall (fun c => is_slash c = false)) segs /\ segs <> []).
  { unfold segs. destruct p as [|c p']; [split_and!; [repeat constructor|repeat constructor|done]|]. inversion Hp; subst.
    destruct (is_slash c); (split_and!; [by apply split_slash_Forall|apply split_slash_no_slash|apply split_slash_not_nil]). }
  destruct Hsegs as (Hu & Hno & Hne). destruct (tail_parts_clean rest Hr) as [Hq Hh]. destruct (tail_parts rest) as [q h].
  split; [|done|done]. exists (path_from [] (url_escape in_path_set <$> segs)). split_and!.
  - apply path_from_not_nil. by destruct segs.
  - apply path_from_clean_segments; [constructor|]. apply Forall_fmap. apply Forall_forall. intros seg Hseg.
    apply Forall_and. split; [apply escape_is_kept|apply escape_no_slash]; [reflexivity|..].
    + by apply (proj1 (Forall_forall _ _) Hu).
    + by apply (proj1 (Forall_forall _ _) Hu).
    + by apply (proj1 (Forall_forall _ _) Hno).
  - done.
Qed.

(** The parser leaves such an address alone. *)
Lemma resolve_clean u : url_clean u -> resolve_path (u_origin u) (url_text u) = u.
Proof.
  destruct u as [origin pathname search hash]. unfold url_text. cbn [u_origin u_pathname u_search u_hash].
  intros [(segs & Hne & Hsegs & Ep) Hq Hh]. cbn [u_origin u_pathname u_search u_hash] in *. subst pathname. unfold resolve_path.
  assert (Hclean : Forall (Forall (fun c => kept in_path_set c = true /\ is_slash c = false)) segs) by (apply (Forall_impl _ _ _ Hsegs); by intros s []).
  rewrite span_app.
  2:{ constructor; [reflexivity|]. apply join_Forall; [reflexivity|]. apply (Forall_impl _ _ _ Hclean). intros s Hs. apply (Forall_impl _ _ _ Hs).
      unfold not_query_mark, kept, in_path_set, in_query_set. intros c [? _]. lia. }
  2:{ intros c Hc. destruct Hq as [->|(q & _ & _ & ->)]; [destruct Hh as [->|(f & _ & _ & ->)]; [done|]|]; injection Hc as <-; reflexivity. }
  cbn [is_slash]. change (is_slash 47) with true. cbv iota. rewrite split_slash_join;
    [|done|apply (Forall_impl _ _ _ Hclean); intros s Hs; apply (Forall_impl _ _ _ Hs); by intros c []].
  assert (url_escape in_path_set <$> segs = segs) as ->.
  { rewrite <- (list_fmap_id segs) at 2. apply list_fmap_ext. intros i s Hs. apply escape_kept.
    apply list_elem_of_lookup_2, (proj1 (Forall_forall _ _) Hclean) in Hs. apply (Forall_impl _ _ _ Hs). by intros c []. }
  rewrite path_from_clean by (apply (Forall_impl _ _ _ Hsegs); by intros s (_ & ? & ?)).
  rewrite tail_parts_kept by done. reflexivity.
Qed.

Lemma url_clean_printed u : url_clean u -> Forall printed (url_text u).
Proof.
  intros [(segs & _ & Hsegs & Ep) Hq Hh]. unfold url_text. rewrite Ep, !Forall_app. split_and!.
  - constructor; [unfold printed; lia|]. apply join_Forall; [unfold printed; lia|]. apply (Forall_impl _ _ _ Hsegs). intros s [Hs _].
    apply (Forall_impl _ _ _ Hs). unfold kept, in_path_set, in_query_set, printed. intros c [? _]. lia.
  - destruct Hq as [->|(q & _ & Hqk & ->)]; [constructor|]. constructor; [unfold printed; lia|]. apply (Forall_impl _ _ _ Hqk).
    unfold kept, in_special_query_set, in_query_set, printed. intros c ?. lia.
  - destruct Hh as [->|(q & _ & Hqk & ->)]; [constructor|]. constructor; [unfold printed; lia|]. apply (Forall_impl _ _ _ Hqk).
    unfold kept, in_fragment_set, printed. intros c ?. lia.
Qed.

Section Return.
Context `{UrlHost}.

(** A printed path with one leading slash leads to this origin. *)
Lemma one_slash_stays origin r :
  Forall printed (47 :: r) -> (forall c, head r = Some c -> is_slash c = false) ->
  new_URL (47 :: r) origin = Some (resolve_path origin (47 :: r)).
Proof.
  intros Hp Hr. unfold new_URL. rewrite url_input_printed by done.
  assert (names_host (47 :: r) = false) as ->; [|done].
  unfold names_host. destruct r as [|c r]; [reflexivity|]. rewrite (Hr c eq_refl). reflexivity.
Qed.

(** An address of this origin with a path is written as the serializer does, wherever it was read. *)
Lemma new_URL_clean raw origin u :
  well_formed raw -> new_URL raw origin = Some u -> u_origin u = origin -> startsWith (u_pathname u) [47] = true -> url_clean u.
Proof.
  intros Hw Eu Ho Hs. unfold new_URL in Eu. destruct (names_host (url_input raw)); [by apply (absolute_clean origin _ _ Eu)|].
  apply (inj Some) in Eu as <-. by apply resolve_path_clean, url_input_units, well_formed_code_units.
Qed.

Lemma query_value_wf search k v : well_formed search -> qs_get (qs_parse search) k = Some v -> well_formed v.
Proof. intros Hw Hv. apply qs_parse_wf in Hw. apply mget_in in Hv. apply (proj1 (Forall_forall _ _) Hw _ Hv). Qed.

(** Reading an address again: one slash leads to the address itself, two name a host. *)
Lemma url_text_reread origin u r :
  url_clean u -> u_origin u = origin -> u_pathname u = 47 :: r ->
  new_URL (url_text u) origin = if bool_decide (head r = Some 47) then parse_absolute origin (url_text u) else Some u.
Proof.
  intros Hc Ho Ep. pose proof (url_clean_printed u Hc) as Hp. case_bool_decide as Hh.
  - unfold new_URL. rewrite url_input_printed by done. unfold url_text at 1. rewrite Ep. destruct r as [|c r]; [done|]. by injection Hh as ->.
  - assert (Et : url_text u = 47 :: r ++ u_search u ++ u_hash u) by (unfold url_text; by rewrite Ep).
    rewrite <- (resolve_clean u Hc) at 2. rewrite Ho. rewrite Et in *. apply one_slash_stays; [done|]. intros c Hhc.
    destruct Hc as [(segs & _ & Hsegs & Ep') Hq Hf]. destruct r as [|d r].
    + cbn [app] in Hhc. destruct Hq as [E|(q & _ & _ & E)]; rewrite E in Hhc; cbn in Hhc; [|by injection Hhc as <-].
      destruct Hf as [E'|(q & _ & _ & E')]; rewrite E' in Hhc; [done|by injection Hhc as <-].
    + cbn in Hhc. injection Hhc as <-. cbn [head] in Hh. rewrite Ep in Ep'. injection Ep' as Ej.
      assert (Hd : Forall (fun c => is_slash c = false \/ c = 47) (d :: r)).
      { rewrite Ej. apply join_Forall; [by right|]. apply (Forall_impl _ _ _ Hsegs). intros w [Hw _]. apply (Forall_impl _ _ _ Hw). intros x [_ ?]. by left. }
      inversion Hd as [|? ? [?|?] _]; subst; done.
Qed.

(** C37: Where a sign-in leads.  The page answers home when it was given no address, or one the URL parser cannot read,
    or one it places on another origin (a script or data address is one), or the sign-in page itself; any other address
    it was given it answers, as path, query and fragment.  The browser reads that text again: when the path begins with
    one slash, it arrives at the very address that was checked, so on this origin and not at the sign-in page.  When the
    path begins with two slashes the text is handed to the parser as one that names a host, and the guarantee is lost:
    [/.//evil.example] is such an address. *)
Theorem returnTo_stays search origin :
  well_formed search ->
  let to := currentReturnTo search origin in
  match qs_get (qs_parse search) (js "returnTo") ≫= fun raw => new_URL raw origin with
  | None => to = js "/"
  | Some u =>
      (u_origin u <> origin \/ u_pathname u = LOGIN_PATH -> to = js "/") /\
      (u_origin u = origin -> u_pathname u <> LOGIN_PATH ->
         to = url_text u /\
         forall r, u_pathname u = 47 :: r ->
           new_URL to origin = if bool_decide (head r = Some 47) then parse_absolute origin to else Some u)
  end.
Proof.
  intros Hw. cbv zeta. destruct (qs_get _ _) as [raw|] eqn:Eraw; cbn [mbind option_bind]; [|unfold currentReturnTo; by rewrite Eraw].
  destruct (new_URL raw origin) as [u|] eqn:Eu; [|unfold currentReturnTo; by rewrite Eraw, Eu].
  assert (Eto : currentReturnTo search origin = if negb (seqb (u_origin u) origin) then js "/" else if seqb (u_pathname u) LOGIN_PATH then js "/" else url_text u)
    by (unfold currentReturnTo; by rewrite Eraw, Eu).
  split.
  - intros [Ho%seqb_neq|Hl%seqb_eq]; rewrite Eto; [by rewrite Ho|]. destruct (negb _); [done|]. by rewrite Hl.
  - intros Ho Hl. rewrite (proj2 (seqb_eq _ _) Ho), (proj2 (seqb_neq _ _) Hl) in Eto. split; [exact Eto|].
    intros r Er. rewrite Eto. apply url_text_reread; [|done|done]. apply (new_URL_clean raw origin); [|done|done|by rewrite Er].
    by apply (query_value_wf search (js "returnTo")).
Qed.

(** ** Coming back *)

(** An address of the application as the browser holds it: a path of clean segments, and a query. *)
Record location_ok (pathname search : jstr) : Prop := {
  loc_path : exists segs, segs <> [] /\ Forall clean_segment segs /\ pathname = 47 :: join [47] segs;
  loc_one_slash : forall c, head (drop 1 pathname) = Some c -> is_slash c = false;
  loc_query : search = [] \/ exists q, q <> [] /\ Forall (fun c => kept in_special_query_set c = true) q /\ search = 63 :: q;
}.

Lemma location_clean origin pathname search :
  location_ok pathname search -> url_clean {| u_origin := origin; u_pathname := pathname; u_search := search; u_hash := [] |}.
Proof. intros [Hp _ Hq]. split; [done|done|by left]. Qed.

Lemma resolve_location origin pathname search :
  location_ok pathname search ->
  resolve_path origin (pathname ++ search) = {| u_origin := origin; u_pathname := pathname; u_search := search; u_hash := [] |}.
Proof. intros Hl. rewrite <- (resolve_clean _ (location_clean origin _ _ Hl)). unfold url_text. cbn. by rewrite app_nil_r. Qed.

Lemma location_printed pathname search : location_ok pathname search -> Forall printed (pathname ++ search).
Proof. intros Hl. pose proof (url_clean_printed _ (location_clean [] _ _ Hl)) as Hp. unfold url_text in Hp. cbn in Hp. by rewrite app_nil_r in Hp. Qed.

Lemma printed_wf s : Forall printed s -> well_formed s.
Proof. intros Hs. apply well_formed_units. apply (Forall_impl _ _ _ Hs). unfold printed. intros c ?. lia. Qed.

(** The sign-in page opened for an address leads back to it. *)
Lemma returnTo_location origin pathname search :
  location_ok pathname search -> pathname <> LOGIN_PATH ->
  currentReturnTo (js "?returnTo=" ++ encodeURIComponent (pathname ++ search)) origin = pathname ++ search.
Proof.
  intros Hl Hne. pose proof (location_printed _ _ Hl) as Hp. unfold currentReturnTo.
  change (js "?returnTo=" ++ encodeURIComponent (pathname ++ search)) with (63 :: js "returnTo" ++ [61] ++ encodeURIComponent (pathname ++ search)).
  rewrite qs_parse_uri; [|apply ascii_wf; vm_compute; reflexivity|vm_compute; reflexivity|by apply printed_wf].
  unfold qs_get. cbn [mget]. rewrite decide_True by done.
  destruct (loc_path _ _ Hl) as (segs & _ & _ & Ep). pose proof (loc_one_slash _ _ Hl) as Hs. rewrite Ep in Hs. cbn [drop] in Hs.
  assert (E : new_URL (pathname ++ search) origin = Some (resolve_path origin (pathname ++ search))).
  { rewrite Ep in Hp |- *. cbn [app] in *. apply one_slash_stays; [done|]. intros c Hc. destruct (join [47] segs) as [|d t]; [|by apply Hs].
    cbn [app] in Hc. destruct (loc_query _ _ Hl) as [->|(q & _ & _ & ->)]; [done|]. injection Hc as <-. reflexivity. }
  rewrite E, resolve_location by done. cbn [u_origin u_pathname u_search u_hash]. rewrite (proj2 (seqb_eq origin origin) eq_refl). cbn [negb].
  rewrite (proj2 (seqb_neq _ _) Hne). by rewrite app_nil_r.
Qed.

(** C27: a session that ends costs the reader nothing but the sign-in.  When any request is answered with a 401 that means
    a lost session, on any page but the sign-in page, the browser is sent to the sign-in page once, and signing in
    there leads back to the very path and query the reader was at. *)
Theorem sign_in_returns_here (network : list http_request -> http_request -> option response) inp meth hs b w resp w' origin :
  apiFetch network inp meth hs b w = (inr resp, w') -> status resp = 401 -> inp ∉ NO_REDIRECT_ON_401 ->
  location_ok (loc_pathname w) (loc_search w) -> loc_pathname w <> LOGIN_PATH ->
  exists search, navigated w' = navigated w ++ [LOGIN_PATH ++ search] /\
    currentReturnTo search origin = loc_pathname w ++ loc_search w.
Proof.
  intros Hf Hst Hex Hl Hne. apply apiFetch_redirects in Hf. rewrite Hst in Hf.
  assert (existsb (seqb inp) NO_REDIRECT_ON_401 = false) as Hx.
  { apply not_true_iff_false. intros (x & Hx & ->%seqb_eq)%existsb_elem. done. }
  rewrite Hx, (proj2 (seqb_neq _ _) Hne) in Hf. cbn [Z.eqb Pos.eqb negb andb] in Hf. unfold login_address in Hf.
  destruct (seqb (loc_pathname w ++ loc_search w) (js "/")) eqn:E.
  - exists []. rewrite app_nil_r. split; [exact Hf|]. apply seqb_eq in E. by rewrite E.
  - rewrite uri_component_wf in Hf by by apply printed_wf, location_printed.
    exists (js "?returnTo=" ++ encodeURIComponent (loc_pathname w ++ loc_search w)). split; [exact Hf|]. by apply returnTo_location.
Qed.
End Return.

Module LoginWitness.
(** A host that reads two slashes, a name and nothing else. *)
Definition other_origin (s : jstr) : jstr := js "https://" ++ (span (fun c => negb (c =? 47)) (drop 2 s)).1.

#[local] Instance plain_host : UrlHost.
Proof.
  refine {| parse_absolute origin s :=
              if startsWith s (js "//") then Some {| u_origin := other_origin s; u_pathname := js "/"; u_search := []; u_hash := [] |} else None |}.
  intros origin raw u E _ _. destruct (startsWith raw (js "//")); [|discriminate E]. apply (inj Some) in E as <-.
  split; [|by left|by left]. exists [[]]. split; [done|]. split; [|reflexivity]. apply Forall_singleton. split; [constructor|split; reflexivity].
Defined.

Definition console : jstr := js "https://console.example".
Definition matrix : url_parts :=
  {| u_origin := console; u_pathname := js "/matrix"; u_search := js "?at=1"; u_hash := js "#top" |}.

Lemma returnTo_stays_witness :
  currentReturnTo (js "?returnTo=%2Fa%2F..%2Fmatrix%3Fat%3D1%23top") console = js "/matrix?at=1#top" /\
  new_URL (js "/matrix?at=1#top") console = Some matrix /\
  currentReturnTo (js "?returnTo=%2F%2Fevil.example%2Fx") console = js "/".
Proof.
  pose proof (returnTo_stays (js "?returnTo=%2Fa%2F..%2Fmatrix%3Fat%3D1%23top") console (ascii_wf (js "?returnTo=%2Fa%2F..%2Fmatrix%3Fat%3D1%23top") eq_refl)) as H.
  pose proof (returnTo_stays (js "?returnTo=%2F%2Fevil.example%2Fx") console (ascii_wf (js "?returnTo=%2F%2Fevil.example%2Fx") eq_refl)) as H'. cbv zeta in H, H'.
  assert (E : (qs_get (qs_parse (js "?returnTo=%2Fa%2F..%2Fmatrix%3Fat%3D1%23top")) (js "returnTo") ≫= fun raw => new_URL raw console) = Some matrix)
    by (vm_compute; reflexivity).
  assert (E' : (qs_get (qs_parse (js "?returnTo=%2F%2Fevil.example%2Fx")) (js "returnTo") ≫= fun raw => new_URL raw console)
    = Some {| u_origin := js "https://evil.example"; u_pathname := js "/"; u_search := []; u_hash := [] |}) by (vm_compute; reflexivity).
  rewrite E in H. rewrite E' in H'. destruct H as [_ H], H' as [H' _].
  destruct H as [Ht Hr]; [reflexivity|discriminate|]. split; [exact Ht|]. split; [|apply H'; left; discriminate].
  specialize (Hr (js "matrix") eq_refl). rewrite Ht in Hr. exact Hr.
Defined.

(** The path [/.//evil.example] is on this origin when it is checked, and is another host when it is followed. *)
Example dot_segment_leaves :
  let t := currentReturnTo (js "?returnTo=%2F.%2F%2Fevil.example") console in
  t = js "//evil.example" /\ u_origin <$> new_URL t console = Some (js "https://evil.example").
Proof. split; vm_compute; reflexivity. Qed.

Definition lost : list http_request -> http_request -> option response :=
  fun _ _ => Some {| status := 401; statusText := []; content_type := None; json := None |}.
Definition reader : browser :=
  {| cookie := []; loc_pathname := js "/nodes/a"; loc_search := js "?at=1"; sent := []; navigated := [] |}.

Lemma reader_location : location_ok (js "/nodes/a") (js "?at=1").
Proof.
  split.
  - exists [js "nodes"; js "a"]. split; [discriminate|]. split; [|vm_compute; reflexivity].
    repeat constructor; try (vm_compute; reflexivity).
  - intros c Hc. injection Hc as <-. reflexivity.
  - right. exists (js "at=1"). split; [discriminate|]. split; [|vm_compute; reflexivity]. apply forallb_Forall. vm_compute. reflexivity.
Defined.

Lemma sign_in_returns_here_witness :
  exists search, navigated (apiFetch lost (js "/api/v1/version") None [] None reader).2 = [LOGIN_PATH ++ search] /\
    currentReturnTo search console = js "/nodes/a?at=1".
Proof.
  apply (sign_in_returns_here lost (js "/api/v1/version") None [] None reader
    {| status := 401; statusText := []; content_type := None; json := None |}
    (apiFetch lost (js "/api/v1/version") None [] None reader).2 console).
  - vm_compute. reflexivity.
  - reflexivity.
  - apply (bool_decide_eq_true_1 (_ ∉ _)). vm_compute. reflexivity.
  - exact reader_location.
  - discriminate.
Defined.
End LoginWitness.
