(* ===== verification/Overview.v ===== *)
(** The Overview page ([web/src/pages/overview.tsx]): the summary of a matrix, the ranking of its worst pairs, the
    verdict over every protocol, the nodes tile, ages, the firing alerts, and what each panel shows. *)
From S2P Require Import Prelude JsNum JsString JsCollections JsValue JsDate JsFormat JsJson Matrix InvestigationScope Api.
Local Open Scope Z_scope.

(** ** The summary *)

Record TopoNode := { tn_name : jstr; tn_ready : bool }.

(** What the page reads of the topology; [t_agents] are the node names of the agents. *)
Record Topology := {
  t_nodes : list TopoNode; t_agents : list jstr; t_historical : bool; t_truncated : bool; t_unfoldableEvents : option number;
}.

Record OverviewSummary := {
  totalNodes : Z; readyNodes : Z; pairsTotal : Z; pairsScored : Z; pairsFailing : Z; pairsDegraded : Z; worstPairs : list MatrixCell;
}.

Definition TIER_RANK (t : CellTier) : Z := match t with bad => 0 | warn => 1 | ok => 2 | unknown => 3 end.

Definition compareWorst (a b : MatrixCell) : number :=
  let ta := TIER_RANK (cellTier (Some a)) in
  let tb := TIER_RANK (cellTier (Some b)) in
  if negb (ta =? tb) then int (ta - tb)
  else
    let sa := default (int 0) (severityRatio (Some a)) in
    let sb := default (int 0) (severityRatio (Some b)) in
    if negb (sa =? sb)%num then (sb - sa)%num
    else (default (int 0) (rttP95 b) - default (int 0) (rttP95 a))%num.

Definition isScored (c : MatrixCell) : bool := is_finite (failRatio c).

Definition count {A} (l : list A) : Z := Z.of_nat (length l).

Definition is_tier (t : CellTier) (c : MatrixCell) : bool := bool_decide (cellTier (Some c) = t).

Definition summarize (m : Matrix) (topo : option Topology) : OverviewSummary :=
  let measured := List.filter (fun c => isMeasured (Some c)) (m_cells m) in
  let scored := List.filter isScored (m_cells m) in
  let failing := List.filter (is_tier bad) scored in
  let degraded := List.filter (is_tier warn) scored in
  {| totalNodes := match topo with Some t => count (t_nodes t) | None => count (m_nodes m) end;
     readyNodes := match topo with Some t => count (List.filter tn_ready (t_nodes t)) | None => count (m_nodes m) end;
     pairsTotal := count measured; pairsScored := count scored; pairsFailing := count failing; pairsDegraded := count degraded;
     worstPairs := take 5 (js_sort compareWorst (failing ++ degraded)) |}.

(** ** The nodes tile *)

Inductive NodesTile :=
  | tile_loading
  | tile_unavailable
  | tile_counts (ready total : Z)
  | tile_noInventory (nodes : Z) (from_agents : bool).

Definition nodesTile (topo : option Topology) (loading : bool) (matrix : option Matrix) : NodesTile :=
  match topo with
  | None => if loading then tile_loading else tile_unavailable
  | Some t =>
      if 0 <? count (t_nodes t) then tile_counts (count (List.filter tn_ready (t_nodes t))) (count (t_nodes t))
      else
        let fromAgents := count (set_of_list (t_agents t)) in
        if 0 <? fromAgents then tile_noInventory fromAgents true
        else
          let fromMatrix := match matrix with Some m => count (m_nodes m) | None => 0 end in
          if 0 <? fromMatrix then tile_noInventory fromMatrix false else tile_counts 0 0
  end.

Definition foldBounds (topo : option Topology) (t : Translate) : option jstr :=
  match topo with
  | Some tp =>
      if negb (t_historical tp) then None
      else
        let unfoldable := default (int 0) (t_unfoldableEvents tp) in
        let lines := (if t_truncated tp then [t (js "tiles.nodesReady.bounded.truncated") []] else []) ++
                     (if (unfoldable >? int 0)%num then [t (js "tiles.nodesReady.bounded.unfoldable") [(js "count", VNum unfoldable)]] else []) in
        match lines with [] => None | _ => Some (join (js " ") lines) end
  | None => None
  end.

(** ** The verdict *)

Inductive Tone := tone_warn | tone_bad.
Record statement := { text : jstr; tone : option Tone }.

Definition num (n : Z) : list (jstr * value) := [(js "count", VNum (int n))].

Definition healthStatement (s : OverviewSummary) (t : Translate) : option statement :=
  if pairsScored s =? 0 then None
  else if 0 <? pairsFailing s then
    Some {| text := t (if pairsFailing s =? 1 then js "health.failing.one" else js "health.failing.many") (num (pairsFailing s)); tone := Some tone_bad |}
  else if 0 <? pairsDegraded s then
    Some {| text := t (if pairsDegraded s =? 1 then js "health.degraded.one" else js "health.degraded.many") (num (pairsDegraded s)); tone := Some tone_warn |}
  else if pairsScored s <? pairsTotal s then Some {| text := t (js "health.healthy.scoped") (num (pairsScored s)); tone := None |}
  else Some {| text := t (if pairsTotal s =? 1 then js "health.healthy.one" else js "health.healthy.many") (num (pairsTotal s)); tone := None |}.

Record PlaneSummary := { protocol : Protocol; summary : OverviewSummary }.

(** The plane held so far, with its two counts. *)
Definition dirty_step (best : option (Protocol * Z * Z)) (p : PlaneSummary) : option (Protocol * Z * Z) :=
  let failing := pairsFailing (summary p) in
  let degraded := pairsDegraded (summary p) in
  if (failing =? 0) && (degraded =? 0) then best
  else match best with
  | None => Some (protocol p, failing, degraded)
  | Some (_, bf, bd) => if (bf <? failing) || ((failing =? bf) && (bd <? degraded)) then Some (protocol p, failing, degraded) else best
  end.

Definition worstDirtyPlane (planes : list PlaneSummary) : option Protocol :=
  (fun b => b.1.1) <$> fold_left dirty_step planes None.

(** The first plane with the largest count, where one is above zero. *)
Definition most (f : OverviewSummary -> Z) (planes : list PlaneSummary) : option PlaneSummary :=
  fold_left (fun best p => if match best with Some b => f (summary b) | None => 0 end <? f (summary p) then Some p else best) planes None.

Definition plane_vars (n : Z) (p : PlaneSummary) : list (jstr * value) :=
  [(js "count", VNum (int n)); (js "plane", VStr (toUpperCase (protocol_string (protocol p))))].

Definition crossPlaneStatement (planes : list PlaneSummary) (complete : bool) (t : Translate) : option statement :=
  match most pairsFailing planes with
  | Some p =>
      let n := pairsFailing (summary p) in
      Some {| text := t (if n =? 1 then js "health.failing.one.plane" else js "health.failing.many.plane") (plane_vars n p); tone := Some tone_bad |}
  | None =>
      match most pairsDegraded planes with
      | Some p =>
          let n := pairsDegraded (summary p) in
          Some {| text := t (if n =? 1 then js "health.degraded.one.plane" else js "health.degraded.many.plane") (plane_vars n p); tone := Some tone_warn |}
      | None =>
          if negb complete then None
          else match most pairsScored planes with Some p => healthStatement (summary p) t | None => None end
      end
  end.


(** ** Ages *)

Section Ages.
Context `{DateHost}.

Definition fmtAge (iso : jstr) (now : date) (t : Translate) : jstr :=
  match date_of_string iso with
  | None => js "—"
  | Some then_ =>
      let counted (key : jstr) (n : number) := t key [(js "count", VNum n)] in
      let seconds := nmax (int 0) (nround ((getTime now - int then_) / int 1000)) in
      if (seconds <? int 60)%num then counted (js "age.seconds") seconds
      else
        let minutes := nround (seconds / int 60)%num in
        if (minutes <? int 60)%num then counted (js "age.minutes") minutes
        else
          let hours := nround (minutes / int 60)%num in
          if (hours <? int 48)%num then counted (js "age.hours") hours
          else counted (js "age.days") (nround (hours / int 24)%num)
  end.

(** ** Firing alerts *)

(** [severity] and [activeAt] are [None] when the key is absent. *)
Record Alert := { al_name : jstr; al_state : jstr; al_severity : option jstr; al_activeAt : option jstr; al_labels : value }.

Definition ALERT_SEVERITY_RANK : list (jstr * Z) := [(js "critical", 0); (js "warning", 1); (js "info", 2)].

Definition FIRING_ALERTS_LIMIT : nat := 8.

(** [ALERT_SEVERITY_RANK[a.severity] ?? 3]; [inr] is an inherited member of the table, which is not a number. *)
Definition alert_rank (a : Alert) : Z + jstr :=
  default (inl (Z.of_nat (length ALERT_SEVERITY_RANK))) (table_lookup ALERT_SEVERITY_RANK (default (js "undefined") (al_severity a))).

Definition rank_number (r : Z + jstr) : number := match r with inl n => int n | inr _ => NaN end.

Definition started (a : Alert) : number :=
  match al_activeAt a with None => Inf false | Some at_ => parse_ms at_ end.

Definition compareFiring (x y : Alert) : number :=
  if negb (bool_decide (alert_rank x = alert_rank y)) then (rank_number (alert_rank x) - rank_number (alert_rank y))%num
  else if negb (started x =? started y)%num then (if (started x <? started y)%num then int (-1) else int 1)
  else if sltb (al_name x) (al_name y) then int (-1) else if sltb (al_name y) (al_name x) then int 1 else int 0.

Definition sortFiringAlerts (alerts : list Alert) : list Alert := js_sort compareFiring alerts.

Definition alertLabels (a : Alert) : value := match al_labels a with VObj f => VObj f | VArr l => VArr l | _ => VObj [] end.

Definition alertSeverity (a : Alert) : jstr := match al_severity a with Some s => trim s | None => [] end.

Inductive AlertsView :=
  | av_engaged | av_denied | av_server (e : thrown) | av_error | av_loading | av_noPrometheus | av_empty
  | av_rows (shown : list Alert) (hidden : Z).

(** What the card reads: the session, the Time Machine, the query. *)
Record AlertsQuery := {
  aq_engaged : bool; aq_me : bool; aq_canRead : bool; aq_isLoading : bool; aq_error : option thrown;
  aq_promConfigured : option bool; aq_alerts : option (list Alert);
}.

Definition aq_enabled (q : AlertsQuery) : bool := aq_me q && aq_canRead q && negb (aq_engaged q).

Definition firing (q : AlertsQuery) : list Alert :=
  sortFiringAlerts (List.filter (fun a => seqb (al_state a) (js "firing")) (default [] (aq_alerts q))).

Definition FiringAlerts (q : AlertsQuery) : AlertsView :=
  let alerts := firing q in
  let shown := take FIRING_ALERTS_LIMIT alerts in
  let hidden := count alerts - count shown in
  if aq_engaged q then av_engaged
  else if aq_me q && negb (aq_canRead q) then av_denied
  else match aq_error q with
  | Some e => if isServerSentence e then av_server e else av_error
  | None =>
      if negb (aq_enabled q) || aq_isLoading q then av_loading
      else if bool_decide (aq_promConfigured q = Some false) then av_noPrometheus
      else match alerts with [] => av_empty | _ => av_rows shown hidden end
  end.
End Ages.


(** ** The database panels *)

Inductive PanelView (A : Type) :=
  | pv_denied | pv_configFailed (message : option jstr) | pv_noDatabase | pv_error | pv_loading | pv_empty | pv_rows (rows : list A).
Arguments pv_denied {A}. Arguments pv_configFailed {A} _. Arguments pv_noDatabase {A}. Arguments pv_error {A}.
Arguments pv_loading {A}. Arguments pv_empty {A}. Arguments pv_rows {A} _.

(** What the open-incidents and recent-events cards read: the session, the database's availability, the query. *)
Record PanelQuery (A : Type) := {
  pq_me : bool; pq_canRead : bool; pq_available : bool; pq_resolved : bool; pq_configError : option thrown;
  pq_isError : bool; pq_isLoading : bool; pq_rows : option (list A);
}.
Arguments pq_me {A} _. Arguments pq_canRead {A} _. Arguments pq_available {A} _. Arguments pq_resolved {A} _.
Arguments pq_configError {A} _. Arguments pq_isError {A} _. Arguments pq_isLoading {A} _. Arguments pq_rows {A} _.

Definition pq_enabled {A} (q : PanelQuery A) : bool := pq_me q && pq_canRead q && pq_resolved q && pq_available q.

Definition PANEL_POLL_MS : Z := 15000.

Definition panel_refetch {A} (q : PanelQuery A) : option Z := if pq_enabled q then Some PANEL_POLL_MS else None.

Definition panel_view {A} (q : PanelQuery A) (t : Translate) : PanelView A :=
  if pq_me q && negb (pq_canRead q) then pv_denied
  else match pq_configError q with
  | Some e => pv_configFailed (queryErrorMessage e (t (js "config.failed.generic") []))
  | None =>
      if pq_resolved q && negb (pq_available q) then pv_noDatabase
      else if pq_isError q then pv_error
      else if negb (pq_enabled q) || pq_isLoading q then pv_loading
      else match default [] (pq_rows q) with [] => pv_empty | rows => pv_rows rows end
  end.

(** ** The page *)

#[local] Instance Protocol_eq_dec : EqDecision Protocol.
Proof. solve_decision. Defined.

Record MatrixData := { d_tcp : option Matrix; d_udp : option Matrix; d_icmp : option Matrix; d_pmtu : option Matrix }.

Definition byProtocol (d : MatrixData) (p : Protocol) : option Matrix :=
  match p with tcp => d_tcp d | udp => d_udp d | icmp => d_icmp d | pmtu => d_pmtu d end.

Definition planes_of (d : MatrixData) (topo : option Topology) : list PlaneSummary :=
  omap (fun p => (fun m => {| protocol := p; summary := summarize m topo |}) <$> byProtocol d p) PROTOCOLS.

Definition complete (d : MatrixData) : bool := forallb (fun p => bool_decide (is_Some (byProtocol d p))) PROTOCOLS.

Definition shown_protocol (picked : option Protocol) (planes : list PlaneSummary) : Protocol :=
  match picked with Some p => p | None => default tcp (worstDirtyPlane planes) end.

Definition shown_summary (planes : list PlaneSummary) (p : Protocol) : option OverviewSummary :=
  summary <$> List.find (fun s => bool_decide (protocol s = p)) planes.

Definition nodesValue (n : NodesTile) : jstr :=
  match n with
  | tile_counts ready total => string_of_Z ready ++ js "/" ++ string_of_Z total
  | tile_noInventory nodes _ => string_of_Z nodes
  | tile_loading => js "…"
  | tile_unavailable => js "—"
  end.

Definition nodesHint (n : NodesTile) (external : Z) (t : Translate) : option jstr :=
  match n with
  | tile_unavailable => Some (t (js "tiles.nodesReady.noTopology") [])
  | tile_noInventory _ from_agents => Some (t (if from_agents then js "tiles.nodesReady.fromAgents" else js "tiles.nodesReady.fromMatrix") [])
  | tile_counts _ _ =>
      if 0 <? external
      then Some (t (if external =? 1 then js "tiles.nodesReady.external.one" else js "tiles.nodesReady.external.many") (num external))
      else None
  | tile_loading => None
  end.

Definition noPairs (s : option OverviewSummary) : bool := match s with Some s => pairsTotal s =? 0 | None => false end.

(** [None] is the em-dash of a plane without a measured pair. *)
Definition pairsValue (s : option OverviewSummary) (n : Z) : option Z := if noPairs s then None else Some n.

Definition firstRun (isLive : bool) (planes : list PlaneSummary) (s : option OverviewSummary) : bool :=
  isLive && noPairs s && forallb (fun p => pairsTotal (summary p) =? 0) planes.

(** The body of the worst-pairs card. *)
Inductive WorstPairs :=
  | wp_noData | wp_unscored (total : Z) | wp_healthy | wp_table (pairs : list MatrixCell).

Definition worst_pairs_view (s : OverviewSummary) : WorstPairs :=
  match worstPairs s with
  | [] => if pairsTotal s =? 0 then wp_noData else if pairsScored s =? 0 then wp_unscored (pairsTotal s) else wp_healthy
  | pairs => wp_table pairs
  end.

(** The counts of the line that says how many of the measured pairs were ranked. *)
Definition scored_gap (s : OverviewSummary) : option (Z * Z) :=
  if (0 <? pairsScored s) && (pairsScored s <? pairsTotal s) then Some (pairsScored s, pairsTotal s) else None.

(** * Theorems *)

(** ** The worst pairs *)

Definition units (x : number) : Z := match x with Fin z => z | _ => 0 end.
Definition worst_ratio (c : MatrixCell) : number := default (int 0) (severityRatio (Some c)).
Definition worst_rtt (c : MatrixCell) : number := default (int 0) (rttP95 c).

(** [a] goes no later than [b]: its tier, then its worst ratio, then its round-trip time. *)
Definition no_better (a b : MatrixCell) : Prop :=
  let ra := TIER_RANK (cellTier (Some a)) in
  let rb := TIER_RANK (cellTier (Some b)) in
  let sa := units (worst_ratio a) in
  let sb := units (worst_ratio b) in
  ra < rb \/ ra = rb /\ (sb < sa \/ sa = sb /\ units (worst_rtt b) <= units (worst_rtt a)).

(** A pair the table can rank: it has a failure ratio, and its round-trip time is absent or finite. *)
Definition rankable (c : MatrixCell) : Prop := isScored c = true /\ isFinite (worst_rtt c) = true.

Lemma isFinite_units x : isFinite x = true -> x = Fin (units x).
Proof. by destruct x. Qed.

Lemma worst_ratio_finite c : isScored c = true -> isFinite (worst_ratio c) = true.
Proof.
  unfold isScored, is_finite, worst_ratio, severityRatio. rewrite bool_decide_eq_true. intros [f Hf]. cbn [omap list_omap]. rewrite Hf.
  unfold finite in *. destruct (failRatio c) as [n|]; [|discriminate Hf]. destruct (isFinite n) eqn:En; [|discriminate Hf].
  injection Hf as <-. destruct n as [| |x]; try discriminate En.
  destruct (lossRatio c) as [[| |y]|]; cbn [isFinite omap list_omap]; rewrite bool_decide_eq_false_2 by discriminate; [reflexivity..| |reflexivity].
  unfold nmaximum. cbn [fold_left default]. unfold id, nmax. cbn [isNaN orb nltb]. by destruct (x <? y).
Qed.

Lemma compareWorst_leb a b : rankable a -> rankable b -> cmp_leb compareWorst a b = true <-> no_better a b.
Proof.
  intros [Sa Ra] [Sb Rb]. apply worst_ratio_finite, isFinite_units in Sa. apply worst_ratio_finite, isFinite_units in Sb.
  apply isFinite_units in Ra. apply isFinite_units in Rb.
  unfold cmp_leb, compareWorst, no_better. cbv zeta. fold (worst_ratio a) (worst_ratio b) (worst_rtt a) (worst_rtt b).
  rewrite Sa, Sb, Ra, Rb. cbn [units]. generalize (TIER_RANK (cellTier (Some a))), (TIER_RANK (cellTier (Some b))). intros ra rb.
  generalize (units (worst_ratio a)), (units (worst_ratio b)), (units (worst_rtt a)), (units (worst_rtt b)). intros sa sb xa xb.
  rewrite negb_true_iff. destruct (Z.eqb_spec ra rb) as [->|Hr]; cbn [negb].
  - change (Fin sa =? Fin sb)%num with (sa =? sb). destruct (Z.eqb_spec sa sb) as [->|Hs]; cbn [negb]; rewrite (proj1 (nsub_sign _ _)); lia.
  - change (int 0) with (Fin 0). change (Fin 0 <? int (ra - rb))%num with (0 <? (ra - rb) * U). pose proof U_pos. rewrite Z.ltb_ge. split; intros; nia.
Qed.

Definition in_table (c : MatrixCell) : bool := isScored c && isProblemCell (Some c).

(** The two tiers, one after the other, are the problem cells. *)
Lemma problem_cells l :
  List.filter (is_tier bad) (List.filter isScored l) ++ List.filter (is_tier warn) (List.filter isScored l) ≡ₚ List.filter in_table l.
Proof.
  induction l as [|c l IH]; [done|]. cbn [List.filter]. unfold in_table at 1, isProblemCell. destruct (isScored c); cbn [andb]; [|done].
  cbn [List.filter]. change (is_tier bad c) with (bool_decide (cellTier (Some c) = bad)).
  change (is_tier warn c) with (bool_decide (cellTier (Some c) = warn)). destruct (cellTier (Some c)).
  - by rewrite !bool_decide_eq_false_2 by done.
  - rewrite bool_decide_eq_false_2, bool_decide_eq_true_2 by done. cbn [app]. rewrite <- Permutation_middle. by constructor.
  - rewrite bool_decide_eq_true_2, bool_decide_eq_false_2 by done. cbn [app]. by constructor.
  - by rewrite !bool_decide_eq_false_2 by done.
Qed.

Lemma count_filter_le {A} (f g : A -> bool) l : (forall x, f x = true -> g x = true) -> count (List.filter f l) <= count (List.filter g l).
Proof.
  intros Hfg. unfold count. induction l as [|x l IH]; [done|]. cbn [List.filter]. destruct (f x) eqn:E; [rewrite (Hfg _ E)|destruct (g x)]; cbn [length]; lia.
Qed.

Lemma no_better_total a b : no_better a b \/ no_better b a.
Proof. unfold no_better. lia. Qed.

Lemma no_better_trans a b c : no_better a b -> no_better b c -> no_better a c.
Proof. unfold no_better. lia. Qed.

Lemma worst_sorted l : Forall rankable l -> StronglySorted no_better (js_sort compareWorst l).
Proof. apply js_sort_sorted; [exact compareWorst_leb|exact no_better_total|exact no_better_trans]. Qed.

Lemma StronglySorted_split {A} (R : A -> A -> Prop) l k :
  StronglySorted R (l ++ k) -> StronglySorted R l /\ Forall (fun a => Forall (R a) k) l.
Proof.
  induction l as [|x l IH]; [by repeat constructor|]. cbn [app]. intros H. inversion H as [|?? Hs Hf]; subst.
  destruct (IH Hs) as [H1 H2]. apply Forall_app in Hf as [Hf1 Hf2]. split; by constructor.
Qed.

(** C38: The summary of a plane whose round-trip times are absent or finite: failing and degraded pairs are scored,
    scored pairs are measured, ready nodes are nodes; the table holds at most five of the scored problem pairs, all of
    them when there are no more than five, in the order red before amber, then by worst ratio, then by round-trip
    time; and no pair left out should have gone before one shown. *)
Theorem summarize_spec m topo :
  Forall (fun c => isFinite (worst_rtt c) = true) (m_cells m) ->
  let s := summarize m topo in
  pairsFailing s + pairsDegraded s <= pairsScored s <= pairsTotal s /\ readyNodes s <= totalNodes s /\
  count (worstPairs s) = Z.min 5 (pairsFailing s + pairsDegraded s) /\
  StronglySorted no_better (worstPairs s) /\
  exists rest, worstPairs s ++ rest ≡ₚ List.filter in_table (m_cells m) /\ Forall (fun shown => Forall (no_better shown) rest) (worstPairs s).
Proof.
  intros Hrtt s. subst s. unfold summarize. cbn [pairsFailing pairsDegraded pairsScored pairsTotal readyNodes totalNodes worstPairs].
  set (scored := List.filter isScored (m_cells m)). set (all := List.filter (is_tier bad) scored ++ List.filter (is_tier warn) scored).
  assert (Hp : all ≡ₚ List.filter in_table (m_cells m)) by apply problem_cells.
  assert (Hc : count (List.filter (is_tier bad) scored) + count (List.filter (is_tier warn) scored) = count all).
  { unfold all, count. rewrite length_app. lia. }
  assert (Hr : Forall rankable all).
  { rewrite Hp. apply Forall_forall. intros c [Hc' Ht]%elem_of_filter_b. unfold in_table in Ht. apply andb_true_iff in Ht as [Hs _].
    split; [done|]. by apply (proj1 (Forall_forall _ _) Hrtt). }
  pose proof (worst_sorted all Hr) as Hs. assert (Hl : length (js_sort compareWorst all) = length all) by apply length_sort_leb.
  rewrite <- (take_drop 5 (js_sort compareWorst all)) in Hs. apply StronglySorted_split in Hs as [Hs1 Hs2]. rewrite Hc.
  split_and!; [| | | |done|].
  - unfold count. rewrite (Permutation_length Hp). apply (count_filter_le in_table isScored). unfold in_table. by intros c [? _]%andb_true_iff.
  - apply count_filter_le. unfold isScored, isMeasured. by intros c ->.
  - destruct topo as [tp|]; [|done]. unfold count. pose proof (List.filter_length_le tn_ready (t_nodes tp)). lia.
  - unfold count. rewrite length_take, Hl. lia.
  - exists (drop 5 (js_sort compareWorst all)). split; [|done]. rewrite take_drop. unfold js_sort. by rewrite sort_leb_perm.
Qed.

(** ** The verdict *)

(** [p] has the largest count, above zero, of all planes. *)
Definition peak (f : OverviewSummary -> Z) (planes : list PlaneSummary) (p : PlaneSummary) : Prop :=
  p ∈ planes /\ 0 < f (summary p) /\ forall q, q ∈ planes -> f (summary q) <= f (summary p).

Definition none_above (f : OverviewSummary -> Z) (planes : list PlaneSummary) : Prop := forall q, q ∈ planes -> f (summary q) <= 0.

Lemma peak_snoc f l p q : f (summary q) <= f (summary p) -> peak f l p -> peak f (l ++ [q]) p.
Proof. intros Hq (Hp & H0 & Hm). split_and!; [by apply elem_of_app; left|done|]. intros r [Hr| ->%list_elem_of_singleton]%elem_of_app; auto. Qed.

Lemma most_spec f planes : match most f planes with Some p => peak f planes p | None => none_above f planes end.
Proof.
  induction planes as [|q l IH] using rev_ind; [by intros q ?%elem_of_nil|].
  unfold most in *. rewrite fold_left_app. cbn [fold_left]. destruct (fold_left _ l None) as [p|].
  - destruct (Z.ltb_spec (f (summary p)) (f (summary q))) as [Hlt|Hge]; [|by apply peak_snoc].
    destruct IH as (_ & H0 & Hm). split_and!; [apply elem_of_app; right; by apply list_elem_of_singleton|lia|].
    intros r [Hr%Hm| ->%list_elem_of_singleton]%elem_of_app; lia.
  - destruct (Z.ltb_spec 0 (f (summary q))) as [Hlt|Hge].
    + split_and!; [apply elem_of_app; right; by apply list_elem_of_singleton|done|].
      intros r [Hr%IH| ->%list_elem_of_singleton]%elem_of_app; lia.
    + intros r [Hr%IH| ->%list_elem_of_singleton]%elem_of_app; lia.
Qed.

Definition clean (s : OverviewSummary) : Prop := pairsFailing s = 0 /\ pairsDegraded s = 0.

(** [p] is not clean, and no plane has more failing pairs, nor as many failing and more degraded ones. *)
Definition dirtiest (planes : list PlaneSummary) (p : PlaneSummary) : Prop :=
  p ∈ planes /\ ~ clean (summary p) /\
  forall q, q ∈ planes ->
    pairsFailing (summary q) < pairsFailing (summary p) \/
    pairsFailing (summary q) = pairsFailing (summary p) /\ pairsDegraded (summary q) <= pairsDegraded (summary p).

Definition counted (s : OverviewSummary) : Prop := 0 <= pairsFailing s /\ 0 <= pairsDegraded s.

Definition held (p : PlaneSummary) : Protocol * Z * Z := (protocol p, pairsFailing (summary p), pairsDegraded (summary p)).

Lemma dirty_spec planes :
  (forall q, q ∈ planes -> counted (summary q)) ->
  match fold_left dirty_step planes None with
  | Some b => exists p, b = held p /\ dirtiest planes p
  | None => forall q, q ∈ planes -> clean (summary q)
  end.
Proof.
  induction planes as [|q l IH] using rev_ind; [by intros _ q ?%elem_of_nil|]. intros Hc.
  rewrite fold_left_app. cbn [fold_left]. specialize (IH (fun r Hr => Hc r (proj2 (elem_of_app _ _ _) (or_introl Hr)))).
  assert (Hq : q ∈ l ++ [q]) by (apply elem_of_app; right; by apply list_elem_of_singleton). pose proof (Hc q Hq) as [Hf Hd].
  unfold dirty_step at 1. destruct (Z.eqb_spec (pairsFailing (summary q)) 0) as [Ef|Ef], (Z.eqb_spec (pairsDegraded (summary q)) 0) as [Ed|Ed]; cbn [andb].
  { destruct (fold_left dirty_step l None) as [b|].
    - destruct IH as (p & -> & Hp & Hn & Hm). exists p. split; [done|]. split_and!; [by apply elem_of_app; left|done|].
      intros r [Hr| ->%list_elem_of_singleton]%elem_of_app; [auto|]. pose proof (Hc p (proj2 (elem_of_app _ _ _) (or_introl Hp))) as [? ?]. lia.
    - intros r [Hr| ->%list_elem_of_singleton]%elem_of_app; [auto|by split]. }
  all: assert (Hnc : ~ clean (summary q)) by (intros [? ?]; lia).
  all: destruct (fold_left dirty_step l None) as [b|];
    [|exists q; split; [done|]; split_and!; [done..|]; intros r [[? ?]%IH| ->%list_elem_of_singleton]%elem_of_app; lia].
  all: destruct IH as (p & -> & Hp & Hn & Hm); unfold held at 1; cbn [fst snd].
  all: destruct (Z.ltb_spec (pairsFailing (summary p)) (pairsFailing (summary q))), (Z.eqb_spec (pairsFailing (summary q)) (pairsFailing (summary p))),
    (Z.ltb_spec (pairsDegraded (summary p)) (pairsDegraded (summary q))); cbn [orb andb]; try lia.
  all: first
    [ exists q; split; [done|]; split_and!; [done..|]; intros r [?%Hm| ->%list_elem_of_singleton]%elem_of_app; lia
    | exists p; split; [done|]; split_and!; [by apply elem_of_app; left|done|]; intros r [?%Hm| ->%list_elem_of_singleton]%elem_of_app; lia ].
Qed.

Lemma elem_of_planes d topo q :
  q ∈ planes_of d topo <-> exists m, byProtocol d (protocol q) = Some m /\ summary q = summarize m topo.
Proof.
  unfold planes_of. rewrite list_elem_of_omap. split.
  - intros (p & _ & E). destruct (byProtocol d p) as [m|] eqn:Em; [|discriminate E]. injection E as <-. by exists m.
  - intros (m & Em & Es). exists (protocol q). split; [destruct (protocol q); set_solver|]. rewrite Em. cbn. rewrite <- Es. by destruct q.
Qed.

Lemma planes_counted d topo q : q ∈ planes_of d topo -> counted (summary q).
Proof. intros (m & _ & ->)%elem_of_planes. unfold counted, summarize, count. cbn [pairsFailing pairsDegraded]. lia. Qed.

(** The sentence of a troubled plane. *)
Definition trouble (one many : jstr) (t : Translate) (n : Z) (p : PlaneSummary) : jstr := t (if n =? 1 then one else many) (plane_vars n p).

(** The sentence of a healthy plane: about all measured pairs when all are scored, else about the scored ones. *)
Definition healthy (t : Translate) (s : OverviewSummary) : jstr :=
  if pairsScored s <? pairsTotal s then t (js "health.healthy.scoped") (num (pairsScored s))
  else t (if pairsTotal s =? 1 then js "health.healthy.one" else js "health.healthy.many") (num (pairsTotal s)).

(** C22: The header's verdict over the planes that answered.  A red sentence names a plane with the most failing pairs
    of all and its own count; an amber one is said only when nothing fails anywhere, and names a plane with the most
    degraded pairs; the healthy one only when all four planes answered and all are clean, about the plane with the
    most scored pairs; and nothing is said only when no plane is troubled and some plane is missing or nothing is
    scored.  Until a protocol is picked, the page opens on a plane with as many failing pairs as any, and on TCP when
    every plane is clean. *)
Theorem verdict d topo t :
  let planes := planes_of d topo in
  let all_clean := forall q, q ∈ planes -> clean (summary q) in
  match crossPlaneStatement planes (complete d) t with
  | Some {| text := x; tone := Some tone_bad |} =>
      exists p, peak pairsFailing planes p /\
        x = trouble (js "health.failing.one.plane") (js "health.failing.many.plane") t (pairsFailing (summary p)) p
  | Some {| text := x; tone := Some tone_warn |} =>
      none_above pairsFailing planes /\
      exists p, peak pairsDegraded planes p /\
        x = trouble (js "health.degraded.one.plane") (js "health.degraded.many.plane") t (pairsDegraded (summary p)) p
  | Some {| text := x; tone := None |} =>
      all_clean /\ (forall p, is_Some (byProtocol d p)) /\ exists p, peak pairsScored planes p /\ x = healthy t (summary p)
  | None => all_clean /\ ((exists p, byProtocol d p = None) \/ forall q, q ∈ planes -> pairsScored (summary q) = 0)
  end /\
  match worstDirtyPlane planes with
  | Some p => (exists q, dirtiest planes q /\ protocol q = p) /\ shown_protocol None planes = p
  | None => all_clean /\ shown_protocol None planes = tcp
  end.
Proof.
  intros planes all_clean. pose proof (planes_counted d topo) as Hc. fold planes in Hc. split.
  - assert (Hz : none_above pairsFailing planes -> none_above pairsDegraded planes -> all_clean).
    { intros H1 H2 q Hq. specialize (H1 q Hq). specialize (H2 q Hq). destruct (Hc q Hq). split; lia. }
    unfold crossPlaneStatement. pose proof (most_spec pairsFailing planes) as Hf. destruct (most pairsFailing planes) as [p|]; [by exists p|].
    pose proof (most_spec pairsDegraded planes) as Hd. destruct (most pairsDegraded planes) as [p|]; [split; [done|by exists p]|].
    specialize (Hz Hf Hd). destruct (complete d) eqn:Ec; cbn [negb].
    + assert (Hall : forall p, is_Some (byProtocol d p)).
      { unfold complete in Ec. rewrite forallb_forall in Ec. intros p. apply (bool_decide_eq_true (is_Some (byProtocol d p))), Ec. destruct p; simpl; auto. }
      pose proof (most_spec pairsScored planes) as Hs. destruct (most pairsScored planes) as [p|].
      * pose proof Hs as (Hp & H0 & _). destruct (Hz p Hp) as [E1 E2]. unfold healthStatement.
        rewrite (proj2 (Z.eqb_neq _ 0)) by lia. rewrite E1, E2. cbn [Z.ltb Z.compare].
        destruct (pairsScored (summary p) <? pairsTotal (summary p)) eqn:E; (split_and!; [done..|]; exists p; split; [done|]; unfold healthy; by rewrite E).
      * split; [done|]. right. intros q Hq. specialize (Hs q Hq). apply elem_of_planes in Hq as (m & _ & E).
        rewrite E in Hs |- *. revert Hs. unfold summarize, count. cbn [pairsScored]. lia.
    + split; [done|]. left. unfold complete in Ec. apply not_true_iff_false in Ec. destruct d as [[?|] [?|] [?|] [?|]]; try (by exists tcp); try (by exists udp); try (by exists icmp); try (by exists pmtu).
  - unfold worstDirtyPlane, shown_protocol, worstDirtyPlane. pose proof (dirty_spec planes Hc) as Hs.
    destruct (fold_left dirty_step planes None) as [b|]; [|done]. destruct Hs as (p & -> & Hp). split; [|done]. by exists p.
Qed.

(** ** The firing alerts *)

Section Firing.
Context `{DateHost}.

(** An alert the card can place: its severity is no inherited member of the table, and its start is absent or readable. *)
Definition placed_alert (a : Alert) : Prop := (exists n, alert_rank a = inl n) /\ isNaN (started a) = false.

Definition rank_of (a : Alert) : Z := match alert_rank a with inl n => n | inr _ => 0 end.

Definition start_key (a : Alert) : Z * Z := match started a with Fin z => (0, z) | Inf _ => (1, 0) | NaN => (0, 0) end.

(** Severity first, then the one firing longest, then by name; an alert without a start goes after those with one. *)
Definition no_later (x y : Alert) : Prop :=
  rank_of x < rank_of y \/ rank_of x = rank_of y /\
    ((start_key x).1 < (start_key y).1 \/ (start_key x).1 = (start_key y).1 /\
      ((start_key x).2 < (start_key y).2 \/ (start_key x).2 = (start_key y).2 /\ sltb (al_name y) (al_name x) = false)).

Lemma started_cases a : placed_alert a -> started a = Inf false \/ exists z, started a = Fin z.
Proof.
  intros [_ Hn]. unfold started in *. destruct (al_activeAt a) as [s|]; [|by left]. unfold parse_ms, getTime in *.
  destruct (Date_parse s) as [z|]; [|discriminate Hn]. right. by exists (z * U).
Qed.

Lemma compareFiring_leb x y : placed_alert x -> placed_alert y -> cmp_leb compareFiring x y = true <-> no_later x y.
Proof.
  intros Px Py. destruct (started_cases x Px) as [Ex|[zx Ex]], (started_cases y Py) as [Ey|[zy Ey]].
  all: destruct Px as [[n En] _], Py as [[k Ek] _].
  all: unfold cmp_leb, compareFiring, no_later, rank_of, start_key; rewrite En, Ek, Ex, Ey; cbn [fst snd rank_number].
  all: rewrite negb_true_iff; destruct (decide (n = k)) as [->|Hnk];
    [rewrite bool_decide_eq_true_2 by done|rewrite bool_decide_eq_false_2 by congruence; cbn [negb]; rewrite nsub_int_pos; lia]; cbn [negb neqb nltb].
  all: try (destruct (Z.eqb_spec zx zy) as [->|?]; cbn [negb]; [|destruct (Z.ltb_spec zx zy); cbn; split; intros ?; try done; lia]).
  all: destruct (sltb (al_name x) (al_name y)) eqn:E1; [pose proof (sltb_asym _ _ E1)|destruct (sltb (al_name y) (al_name x))]; cbn; split; intros; try done; try lia.
  all: right; split; [done|]; right; split; [done|]; right; by split.
Qed.

Lemma no_later_total x y : no_later x y \/ no_later y x.
Proof. unfold no_later. destruct (sltb (al_name y) (al_name x)) eqn:E; [pose proof (sltb_asym _ _ E) as E'; rewrite E'|]; destruct (start_key x), (start_key y); cbn; lia. Qed.

Lemma no_later_trans x y z : no_later x y -> no_later y z -> no_later x z.
Proof.
  unfold no_later. intros [H1|[H1 [H2|[H2 [H3|[H3 H4]]]]]] [K1|[K1 [K2|[K2 [K3|[K3 K4]]]]]]; try lia.
  right. split; [lia|]. right. split; [lia|]. right. split; [lia|]. destruct (sltb (al_name z) (al_name x)) eqn:E; [|done].
  destruct (sltb (al_name z) (al_name y)) eqn:Ezy; [done|]. destruct (sltb (al_name y) (al_name z)) eqn:Eyz.
  - by rewrite (sltb_trans _ _ _ Eyz E) in H4.
  - rewrite (sltb_total _ _ Ezy Eyz) in E. congruence.
Qed.

(** The rows of the card: the first eight firing alerts in the order above, with the number left out said; rows are
    shown to a signed-in reader who may read alerts, outside the Time Machine, and to nobody else. *)
Theorem FiringAlerts_rows q shown hidden :
  Forall placed_alert (default [] (aq_alerts q)) -> FiringAlerts q = av_rows shown hidden ->
  aq_me q = true /\ aq_canRead q = true /\ aq_engaged q = false /\
  exists rest, shown ++ rest ≡ₚ List.filter (fun a => seqb (al_state a) (js "firing")) (default [] (aq_alerts q)) /\
    hidden = count rest /\ count shown <= 8 /\ (rest <> [] -> count shown = 8) /\ StronglySorted no_later (shown ++ rest).
Proof.
  intros Hp. unfold FiringAlerts, aq_enabled.
  destruct (aq_engaged q); [done|]. destruct (aq_me q), (aq_canRead q); cbn [andb negb orb]; try done;
    (destruct (aq_error q) as [e|]; [by destruct (isServerSentence e)|]); [|done..].
  destruct (aq_isLoading q); [done|]. destruct (bool_decide _); [done|]. intros E.
  assert (take FIRING_ALERTS_LIMIT (firing q) = shown /\ count (firing q) - count (take FIRING_ALERTS_LIMIT (firing q)) = hidden) as [<- <-].
  { destruct (firing q); [done|]. by injection E. }
  split_and!; [done..|]. exists (drop FIRING_ALERTS_LIMIT (firing q)). rewrite take_drop. unfold count. rewrite length_take, length_drop.
  split_and!; [apply sort_leb_perm|unfold FIRING_ALERTS_LIMIT; lia..| |].
  - unfold FIRING_ALERTS_LIMIT. intros Hr. destruct (Nat.lt_ge_cases 8 (length (firing q))); [lia|]. destruct Hr. by apply drop_ge.
  - unfold firing, sortFiringAlerts. apply (Forall_filter_b _ (fun a => seqb (al_state a) (js "firing"))) in Hp. revert Hp. generalize (List.filter (fun a => seqb (al_state a) (js "firing")) (default [] (aq_alerts q))).
    intros l. apply js_sort_sorted; [exact compareFiring_leb|exact no_later_total|exact no_later_trans].
Qed.
End Firing.

Module OverviewWitness.
(** Two failing pairs of 100 %, one degraded, one that was never scored. *)
Definition cell (a b : string) (fail rtt : option number) : MatrixCell :=
  {| source := js a; destination := js b; failRatio := fail; rttP95 := rtt; lossRatio := None; mtuBytes := None; probeMtuBytes := None; recentFailRatio := None |}.

Definition m : Matrix :=
  {| m_protocol := tcp; m_nodes := [js "a"; js "b"]; m_timestamp := None;
     m_cells := [cell "a" "b" (Some (dec 5 2)) None; cell "b" "a" (Some (int 1)) (Some (int 5)); cell "a" "c" None (Some (int 9));
                 cell "c" "a" (Some (int 1)) (Some (int 7))] |}.

Lemma summarize_spec_witness :
  let s := summarize m None in
  worstPairs s = [cell "c" "a" (Some (int 1)) (Some (int 7)); cell "b" "a" (Some (int 1)) (Some (int 5)); cell "a" "b" (Some (dec 5 2)) None] /\
  StronglySorted no_better (worstPairs s).
Proof.
  split; [vm_compute; reflexivity|]. apply (summarize_spec m None). repeat constructor.
Defined.

(** The selector and the header can name different planes: with as many failing pairs on both, the header keeps the
    first plane and the selector takes the one with more degraded pairs. *)
Definition plane (p : Protocol) (failing degraded : Z) : PlaneSummary :=
  {| protocol := p; summary := {| totalNodes := 4; readyNodes := 4; pairsTotal := 12; pairsScored := 12; pairsFailing := failing;
                                  pairsDegraded := degraded; worstPairs := [] |} |}.

Example selector_leaves_the_verdict :
  let planes := [plane tcp 2 0; plane udp 2 5] in
  (protocol <$> most pairsFailing planes) = Some tcp /\ worstDirtyPlane planes = Some udp.
Proof. split; reflexivity. Qed.
End OverviewWitness.
