(* ===== verification/ConfigImport.v ===== *)
(** Configuration export and import ([web/src/pages/settings.tsx], [ExportImportSection]): the bundle a file must be,
    and the section as a machine of picks, file reads, imports and answers, where only the newest call may speak. *)
From S2P Require Import Prelude JsNum JsString JsCollections JsValue JsDate JsFormat JsNumText JsJson JsJsonText Api.
Local Open Scope Z_scope.

(** ** The bundle *)

Definition BUNDLE_VERSION : Z := 1.

(** [inl] is the message of a refused file. *)
Definition parseBundle (text : jstr) (t : Translate) : jstr + value :=
  match JSON_parse text with
  | None => inl (t (js "bundle.notJson") [])
  | Some parsed =>
      if negb (isRecord parsed) then inl (t (js "bundle.notObject") [])
      else
        let version := vget parsed (js "version") in
        if match version with VNum n => (n =? int BUNDLE_VERSION)%num | _ => false end then inr parsed
        else
          let found := match version with VUndef => VNull | v => v end in
          inl (t (js "bundle.versionMismatch")
                 [(js "expected", VNum (int BUNDLE_VERSION)); (js "found", VStr (default (js "undefined") (json_stringify found)))])
  end.

(** [None] is the [RangeError] of an invalid date. *)
Definition exportFilename (now : date) : option jstr :=
  iso ← toISOString now; Some (js "kconmon-ng-config-" ++ slice iso 0 10 ++ js ".json").

Definition EXPORT_SECTION_LABELS : list (jstr * jstr) :=
  [(js "targets", js "collection.targets"); (js "checkDefinitions", js "collection.checkDefinitions");
   (js "checkSchedules", js "collection.checkSchedules"); (js "alertRules", js "collection.alertRules");
   (js "webhooks", js "collection.webhooks"); (js "maintenanceWindows", js "collection.maintenanceWindows");
   (js "rbac", js "collection.rbac")].

(** The names are texts in a bundle of this build; any other value is shown as it came. *)
Definition omittedSections (b : value) (t : Translate) : list value :=
  match vget b (js "omitted") with
  | VArr names =>
      map (fun name => match name with
                       | VStr s => match mget EXPORT_SECTION_LABELS s with Some key => VStr (t key []) | None => name end
                       | _ => name
                       end) names
  | _ => []
  end.

(** Notes of one reason are one entry over all their names, in the order the reasons first appear. *)
Definition note_step (grouped : list (jstr * list jstr)) (note : jstr * jstr) : list (jstr * list jstr) :=
  let '(name, reason) := note in mset grouped reason (default [] (mget grouped reason) ++ [name]).

Definition group_notes (notes : list (jstr * jstr)) : list (jstr * list jstr) := fold_left note_step notes [].

Definition isClientRefusal (e : thrown) : bool :=
  match e with
  | ApiError p =>
      let status := vget p (js "status") in
      match status with
      | VUndef => false
      | _ => (number_of_value status >=? int 400)%num && (number_of_value status <? int 500)%num
             && negb (match status with VNum n => (n =? int 429)%num | _ => false end)
      end
  | Failure => false
  end.

(** ** The section *)

(** What a call in flight is waiting for: the text of a picked file, or the answer to an import. *)
Inductive waiting := Reading | Importing (b : value) (dryRun : bool).

(** [sent], [answers] and [invalidations] are what the server and the query cache have seen: the import requests, the
    answers that came back with the request they answer, and the refreshes of the cached lists. *)
Record section := {
  importSeq : nat; importing : bool; applying : bool; bundle : option value; fileName : option jstr;
  importError : option jstr; result : option value; inflight : list (nat * waiting);
  sent : list (value * bool); answers : list (value * bool * (thrown + value)); invalidations : nat;
}.

Definition opened : section :=
  {| importSeq := 0; importing := false; applying := false; bundle := None; fileName := None; importError := None;
     result := None; inflight := []; sent := []; answers := []; invalidations := 0 |}.

(** [runImport], up to the answer. *)
Definition runImport (b : value) (dryRun : bool) (s : section) : section :=
  let seq := S (importSeq s) in
  {| importSeq := seq; importing := true; applying := negb dryRun || applying s; bundle := bundle s; fileName := fileName s;
     importError := None; result := result s; inflight := inflight s ++ [(seq, Importing b dryRun)];
     sent := sent s ++ [(b, dryRun)]; answers := answers s; invalidations := invalidations s |}.

(** [handleFile], up to the text. *)
Definition handleFile (file : option jstr) (s : section) : section :=
  let seq := S (importSeq s) in
  {| importSeq := seq; importing := false; applying := applying s; bundle := None; fileName := file; importError := None;
     result := None; inflight := inflight s ++ match file with Some _ => [(seq, Reading)] | None => [] end;
     sent := sent s; answers := answers s; invalidations := invalidations s |}.

Definition settle (seq : nat) (s : section) : list (nat * waiting) := List.filter (fun c => negb (c.1 =? seq)%nat) (inflight s).

(** The rest of [handleFile]: the text of the file of call [seq]. *)
Definition file_read (seq : nat) (text : jstr) (t : Translate) (s : section) : section :=
  let s' := {| importSeq := importSeq s; importing := importing s; applying := applying s; bundle := bundle s; fileName := fileName s;
               importError := importError s; result := result s; inflight := settle seq s; sent := sent s; answers := answers s;
               invalidations := invalidations s |} in
  if negb (seq =? importSeq s)%nat then s'
  else match parseBundle text t with
  | inl message => {| importSeq := importSeq s'; importing := importing s'; applying := applying s'; bundle := bundle s'; fileName := fileName s';
                      importError := Some message; result := result s'; inflight := inflight s'; sent := sent s'; answers := answers s';
                      invalidations := invalidations s' |}
  | inr b => runImport b true
               {| importSeq := importSeq s'; importing := importing s'; applying := applying s'; bundle := Some b; fileName := fileName s';
                  importError := importError s'; result := result s'; inflight := inflight s'; sent := sent s'; answers := answers s';
                  invalidations := invalidations s' |}
  end.

(** Whether an answer to an import means the lists may have changed. *)
Definition may_have_written (a : value * bool * (thrown + value)) : bool :=
  negb a.1.2 && match a.2 with inl e => negb (isClientRefusal e) | inr _ => true end.

(** The rest of [runImport]: the answer to call [seq].  Where the error itself cannot be read the handler throws after
    its [finally], and the button keeps waiting. *)
Definition answered (seq : nat) (b : value) (dryRun : bool) (a : thrown + value) (t : Translate) (s : section) : section :=
  let live := (seq =? importSeq s)%nat in
  let said := match a with inl e => queryErrorMessage e (t (js "bundle.importRefused") []) | inr _ => None end in
  {| importSeq := importSeq s;
     importing := importing s && negb (live && match a with inl _ => bool_decide (is_Some said) | inr _ => true end);
     applying := applying s && dryRun; bundle := bundle s; fileName := fileName s;
     importError := if live then match said with Some m => Some m | None => importError s end else importError s;
     result := if live then match a with inr r => Some r | inl _ => result s end else result s;
     inflight := settle seq s; sent := sent s; answers := answers s ++ [(b, dryRun, a)];
     invalidations := invalidations s + if may_have_written (b, dryRun, a) then 1 else 0 |}.

Inductive event :=
  | Pick (file : option jstr)
  | FileRead (seq : nat) (text : jstr)
  | Apply
  | Answered (seq : nat) (a : thrown + value).

(** One event, while the Time Machine leaves the controls enabled; [None] where the control is disabled or the call is
    not in flight. *)
Definition step (t : Translate) (s : section) (e : event) : option section :=
  match e with
  | Pick file => if applying s then None else Some (handleFile file s)
  | FileRead seq text => match mget (inflight s) seq with Some Reading => Some (file_read seq text t s) | _ => None end
  | Apply => if importing s then None else b ← bundle s; Some (runImport b false s)
  | Answered seq a => match mget (inflight s) seq with Some (Importing b dryRun) => Some (answered seq b dryRun a t s) | _ => None end
  end.

Definition run (t : Translate) (es : list event) (s : section) : option section :=
  fold_left (fun o e => s ← o; step t s e) es (Some s).

(** [handleExport]: the text of the file that is downloaded. *)
Definition export_text (b : value) : option jstr := JSON_stringify_2 b.

(** * Theorems *)

Definition is_bundle (b : value) : Prop := isRecord b = true /\ vget b (js "version") = VNum (int BUNDLE_VERSION).

(** What a file that holds [b] is refused with. *)
Definition refusal (b : value) (t : Translate) : jstr :=
  if isRecord b then
    t (js "bundle.versionMismatch")
      [(js "expected", VNum (int BUNDLE_VERSION));
       (js "found", VStr (default (js "undefined") (json_stringify (match vget b (js "version") with VUndef => VNull | v => v end))))]
  else t (js "bundle.notObject") [].

Lemma parseBundle_ok text t b : parseBundle text t = inr b -> JSON_parse text = Some b /\ is_bundle b.
Proof.
  unfold parseBundle. destruct (JSON_parse text) as [v|]; [|done]. destruct (isRecord v) eqn:Er; cbn [negb]; [|done].
  destruct (vget v (js "version")) as [| | |n| | |] eqn:Ev; try done. destruct (n =? int BUNDLE_VERSION)%num eqn:En; [|done].
  intros [= <-]. split; [done|]. split; [done|]. rewrite Ev. f_equal. destruct n as [| |z]; [discriminate En..|].
  apply Z.eqb_eq in En. by rewrite En.
Qed.

(** What holds between events. *)
Record invariant (s : section) : Prop := {
  i_nodup : NoDup (inflight s).*1;
  i_bound : forall n w, (n, w) ∈ inflight s -> (n <= importSeq s)%nat;
  i_reading : (importSeq s, Reading) ∈ inflight s -> bundle s = None /\ importing s = false /\ result s = None;
  i_live : forall b d, (importSeq s, Importing b d) ∈ inflight s -> bundle s = Some b /\ importing s = true;
  i_apply : forall n b, (n, Importing b false) ∈ inflight s -> n = importSeq s /\ applying s = true;
  i_applying : applying s = true -> exists b, (importSeq s, Importing b false) ∈ inflight s;
  i_bundle : forall b, bundle s = Some b -> (b, true) ∈ sent s;
  i_sent : forall b d, (b, d) ∈ sent s -> (b, true) ∈ sent s /\ is_bundle b;
  i_result : forall r, result s = Some r -> exists b d, bundle s = Some b /\ (b, d, inr r) ∈ answers s;
  i_written : invalidations s = length (List.filter may_have_written (answers s));
}.

Lemma elem_of_waiting seq s n w : (n, w) ∈ settle seq s <-> (n, w) ∈ inflight s /\ n <> seq.
Proof. unfold settle. rewrite elem_of_filter_b. cbn [fst]. by rewrite negb_true_iff, Nat.eqb_neq. Qed.

Lemma NoDup_settle seq s : NoDup (inflight s).*1 -> NoDup (settle seq s).*1.
Proof. apply NoDup_fmap_filter_b. Qed.

(** A number names one call. *)
Lemma one_call s n w w' : invariant s -> (n, w) ∈ inflight s -> (n, w') ∈ inflight s -> w = w'.
Proof. intros Hi H1%mget_elem_of H2%mget_elem_of; [congruence|by apply i_nodup..]. Qed.

Lemma invariant_opened : invariant opened.
Proof. split; try done; cbn; try (by intros * ?%elem_of_nil); try (by intros ?%elem_of_nil). constructor. Qed.

(** A new call takes a fresh number. *)
Lemma fresh_call s n w : invariant s -> (n, w) ∈ inflight s -> n <> S (importSeq s).
Proof. intros Hi H%(i_bound s Hi). lia. Qed.

Lemma NoDup_call s w : invariant s -> NoDup (inflight s ++ [(S (importSeq s), w)]).*1.
Proof.
  intros Hi. rewrite fmap_app. apply NoDup_app. split_and!; [by apply i_nodup| |cbn; apply NoDup_singleton].
  intros n ([n' w'] & E & Hc)%list_elem_of_fmap Hn%list_elem_of_singleton. cbn in E, Hn. subst. by apply (fresh_call s _ _ Hi Hc).
Qed.

Lemma elem_of_call s w n w' : (n, w') ∈ inflight s ++ [(S (importSeq s), w)] <-> (n, w') ∈ inflight s \/ n = S (importSeq s) /\ w' = w.
Proof. rewrite elem_of_app, list_elem_of_singleton. split; (intros [H|H]; [by left|right]); [by injection H|destruct H; congruence]. Qed.

Ltac calls := repeat match goal with
  | H : _ ∈ _ ++ [_] |- _ => apply elem_of_call in H as [H|[? ?]]; simplify_eq
  | H : _ ∈ settle _ _ |- _ => apply elem_of_waiting in H as [H ?]
  end.

(** The section with a bundle loaded. *)
Definition load (b : value) (s : section) : section :=
  {| importSeq := importSeq s; importing := importing s; applying := applying s; bundle := Some b; fileName := fileName s;
     importError := importError s; result := result s; inflight := inflight s; sent := sent s; answers := answers s;
     invalidations := invalidations s |}.

Lemma load_same b s : bundle s = Some b -> load b s = s.
Proof. destruct s. unfold load. cbn. by intros ->. Qed.

(** Starting an import of the loaded bundle, which was or is now tried first. *)
Lemma invariant_runImport b dryRun s :
  invariant s -> (bundle s = Some b \/ result s = None) -> is_bundle b -> (dryRun = true \/ (b, true) ∈ sent s) ->
  (forall n b', (n, Importing b' false) ∉ inflight s) -> applying s = false ->
  invariant (runImport b dryRun (load b s)).
Proof.
  intros Hi Hb Hok Hdry Hno Ha. assert (Hs : (b, true) ∈ sent s ++ [(b, dryRun)]).
  { apply elem_of_app. destruct Hdry as [->|H]; [right; by apply list_elem_of_singleton|by left]. }
  split; unfold runImport, load; cbn [inflight importSeq bundle importing result applying sent answers invalidations].
  - by apply NoDup_call.
  - intros n w H. calls; [apply (i_bound s Hi) in H|]; lia.
  - intros H. calls. by destruct (fresh_call s _ _ Hi H).
  - intros b' d H. calls; [by destruct (fresh_call s _ _ Hi H)|done].
  - intros n b' H. calls; [by destruct (Hno n b')|done].
  - rewrite Ha, orb_false_r. intros Hd. destruct dryRun; [done|]. exists b. by apply elem_of_call; right.
  - by intros b' [= <-].
  - intros b' d [H|H%list_elem_of_singleton]%elem_of_app; [destruct (i_sent s Hi _ _ H); split; [by apply elem_of_app; left|done]|]. by injection H as -> ->.
  - intros r Hr. destruct Hb as [Hb|Hb]; [|congruence]. destruct (i_result s Hi r Hr) as (b' & d & Hb' & H). exists b', d. split; [congruence|done].
  - by apply i_written.
Qed.

Lemma no_apply s : invariant s -> applying s = false -> forall n b, (n, Importing b false) ∉ inflight s.
Proof. intros Hi Ha n b H. destruct (i_apply s Hi n b H). congruence. Qed.

Lemma invariant_handleFile file s : invariant s -> applying s = false -> invariant (handleFile file s).
Proof.
  intros Hi Ha. pose proof (no_apply s Hi Ha) as Hno.
  assert (Hcall : forall n w, (n, w) ∈ inflight (handleFile file s) -> (n, w) ∈ inflight s \/ n = S (importSeq s) /\ w = Reading).
  { intros n w. unfold handleFile. cbn [inflight]. destruct file; [by intros ?%elem_of_call|]. rewrite app_nil_r. by left. }
  split; cbn [handleFile importSeq bundle importing result applying sent answers invalidations].
  - unfold handleFile. cbn [inflight]. destruct file; [by apply NoDup_call|]. rewrite app_nil_r. by apply i_nodup.
  - intros n w [H%(i_bound s Hi)|[-> _]]%Hcall; lia.
  - done.
  - intros b d [H|[_ ?]]%Hcall; [by destruct (fresh_call s _ _ Hi H)|done].
  - intros n b [H|[_ ?]]%Hcall; [by destruct (Hno n b)|done].
  - by rewrite Ha.
  - done.
  - intros b d. apply (i_sent s Hi).
  - done.
  - by apply i_written.
Qed.

(** The section once call [seq] no longer waits. *)
Definition settled (seq : nat) (m : option jstr) (s : section) : section :=
  {| importSeq := importSeq s; importing := importing s; applying := applying s; bundle := bundle s; fileName := fileName s;
     importError := m; result := result s; inflight := settle seq s; sent := sent s; answers := answers s;
     invalidations := invalidations s |}.

Lemma invariant_settled seq m s : invariant s -> (seq, Reading) ∈ inflight s -> invariant (settled seq m s).
Proof.
  intros Hi Hr. split; unfold settled; cbn [inflight importSeq bundle importing result applying sent answers invalidations].
  - by apply NoDup_settle, i_nodup.
  - intros n w H. calls. by apply (i_bound s Hi) in H.
  - intros H. calls. by apply (i_reading s Hi).
  - intros b d H. calls. by apply (i_live s Hi) in H.
  - intros n b H. calls. by apply (i_apply s Hi) in H.
  - intros Ha. destruct (i_applying s Hi Ha) as [b H]. exists b. apply elem_of_waiting. split; [done|]. intros <-.
    by pose proof (one_call s _ _ _ Hi H Hr).
  - apply (i_bundle s Hi).
  - apply (i_sent s Hi).
  - apply (i_result s Hi).
  - by apply i_written.
Qed.

(** While a file is being read nothing is applied. *)
Lemma reading_not_applying s : invariant s -> (importSeq s, Reading) ∈ inflight s -> applying s = false.
Proof.
  intros Hi Hr. destruct (applying s) eqn:Ha; [|done]. destruct (i_applying s Hi Ha) as [b H]. by pose proof (one_call s _ _ _ Hi H Hr).
Qed.

Lemma invariant_file_read seq text t s : invariant s -> (seq, Reading) ∈ inflight s -> invariant (file_read seq text t s).
Proof.
  intros Hi Hr. pose proof (fun m => invariant_settled seq m s Hi Hr) as Hset. unfold file_read.
  destruct (Nat.eqb_spec seq (importSeq s)) as [->|]; cbn [negb]; [|by apply (Hset (importError s))].
  destruct (parseBundle text t) as [m|b] eqn:Ep; [by apply (Hset (Some m))|]. apply parseBundle_ok in Ep as [_ Hok].
  pose proof (reading_not_applying s Hi Hr) as Ha.
  apply (invariant_runImport b true (settled (importSeq s) (importError s) s)); [apply Hset|right; by apply (i_reading s Hi)|done|by left| |done].
  apply no_apply; [apply Hset|done].
Qed.

Lemma invariant_answered seq b dryRun a t s :
  invariant s -> (seq, Importing b dryRun) ∈ inflight s -> invariant (answered seq b dryRun a t s).
Proof.
  intros Hi Hc. split; unfold answered; cbn [inflight importSeq bundle importing result applying sent answers invalidations].
  - by apply NoDup_settle, i_nodup.
  - intros n w H. calls. by apply (i_bound s Hi) in H.
  - intros H. calls. rewrite (proj2 (Nat.eqb_neq seq (importSeq s))) by done. cbn [andb negb]. rewrite andb_true_r. by apply (i_reading s Hi).
  - intros b' d H. calls. rewrite (proj2 (Nat.eqb_neq seq (importSeq s))) by done. cbn [andb negb]. rewrite andb_true_r. by apply (i_live s Hi) in H.
  - intros n b' H. calls. destruct (i_apply s Hi _ _ H) as [-> ->]. split; [done|]. destruct dryRun; [done|].
    by destruct (i_apply s Hi _ _ Hc).
  - intros [Ha ->]%andb_true_iff. destruct (i_applying s Hi Ha) as [b' H]. exists b'. apply elem_of_waiting. split; [done|]. intros <-.
    by pose proof (one_call s _ _ _ Hi H Hc).
  - apply (i_bundle s Hi).
  - apply (i_sent s Hi).
  - intros r. assert (Hold : result s = Some r -> exists b0 d, bundle s = Some b0 /\ (b0, d, inr r) ∈ answers s ++ [(b, dryRun, a)]).
    { intros (b' & d & Hb & H)%(i_result s Hi). exists b', d. split; [done|]. apply elem_of_app. by left. }
    destruct (Nat.eqb_spec seq (importSeq s)) as [->|]; [|done]. destruct a as [e|r']; [done|]. intros [= ->].
    exists b, dryRun. split; [by destruct (i_live s Hi _ _ Hc)|]. apply elem_of_app. right. by apply list_elem_of_singleton.
  - rewrite (i_written s Hi), List.filter_app, length_app. cbn [List.filter]. by destruct (may_have_written _).
Qed.

Lemma invariant_step t s e s' : invariant s -> step t s e = Some s' -> invariant s'.
Proof.
  intros Hi. destruct e as [file|seq text| |seq a]; cbn [step].
  - destruct (applying s) eqn:Ha; [done|]. intros [= <-]. by apply invariant_handleFile.
  - destruct (mget (inflight s) seq) as [[|b d]|] eqn:E; [|done..]. intros <-%(inj Some). apply invariant_file_read; [done|]. by apply mget_in.
  - destruct (importing s) eqn:Eg; [done|]. destruct (bundle s) as [b|] eqn:Eb; [|done]. cbn [mbind option_bind]. intros <-%(inj Some).
    pose proof (i_bundle s Hi b Eb) as Hs. rewrite <- (load_same b s Eb) at 1.
    assert (Hno : forall n b', (n, Importing b' false) ∉ inflight s).
    { intros n b' H. destruct (i_apply s Hi _ _ H) as [-> _]. apply (i_live s Hi) in H. destruct H. congruence. }
    apply invariant_runImport; [done|by left|by destruct (i_sent s Hi _ _ Hs)|by right|done|].
    destruct (applying s) eqn:Ha; [|done]. destruct (i_applying s Hi Ha) as [b' H]. by destruct (Hno _ _ H).
  - destruct (mget (inflight s) seq) as [[|b d]|] eqn:E; [done| |done]. intros <-%(inj Some). apply invariant_answered; [done|]. by apply mget_in.
Qed.

Lemma run_snoc t es e s : run t (es ++ [e]) s = (s' ← run t es s; step t s' e).
Proof. unfold run. by rewrite fold_left_app. Qed.

Lemma invariant_run t es s : run t es opened = Some s -> invariant s.
Proof.
  revert s. induction es as [|e es IH] using rev_ind; intros s; [intros [= <-]; apply invariant_opened|].
  rewrite run_snoc. destruct (run t es opened) as [s0|]; [|done]. by apply invariant_step, IH.
Qed.

(** C19: However picks, file reads, presses of Apply and answers interleave: whatever was ever sent is a version-1
    bundle that was sent as a dry run (first, since this holds after every event); a result on screen is the server's
    answer about the bundle that Apply would send, never one about an earlier file; at most one apply is in flight,
    exactly while the file picker is held; and the cached lists were refreshed once for every apply that may have
    written something, superseded or not. *)
Theorem import_is_about_the_file t es s :
  run t es opened = Some s ->
  (forall b d, (b, d) ∈ sent s -> is_bundle b /\ (b, true) ∈ sent s) /\
  (forall r, result s = Some r -> exists b d, bundle s = Some b /\ (b, d, inr r) ∈ answers s) /\
  (forall n b m c, (n, Importing b false) ∈ inflight s -> (m, Importing c false) ∈ inflight s -> n = m /\ b = c) /\
  (applying s = true <-> exists n b, (n, Importing b false) ∈ inflight s) /\
  invalidations s = length (List.filter may_have_written (answers s)).
Proof.
  intros Hi%invariant_run. split_and!.
  - intros b d H. by destruct (i_sent s Hi _ _ H).
  - apply (i_result s Hi).
  - intros n b m c Hn Hm. destruct (i_apply s Hi _ _ Hn) as [-> _], (i_apply s Hi _ _ Hm) as [-> _].
    pose proof (one_call s _ _ _ Hi Hn Hm) as E. by injection E.
  - split; [intros [b H]%(i_applying s Hi); eauto|]. intros (n & b & H). by destruct (i_apply s Hi _ _ H).
  - by apply i_written.
Qed.

(** An error whose sentence can be read. *)
Definition speaks (t : Translate) (e : event) : Prop :=
  match e with Answered _ (inl err) => is_Some (queryErrorMessage err (t (js "bundle.importRefused") [])) | _ => True end.

Definition waits_for_newest (s : section) : Prop := importing s = true -> exists b d, (importSeq s, Importing b d) ∈ inflight s.

Lemma waits_settle seq w s : invariant s -> (seq, w) ∈ inflight s -> seq <> importSeq s ->
  (exists b d, (importSeq s, Importing b d) ∈ inflight s) -> exists b d, (importSeq s, Importing b d) ∈ settle seq s.
Proof. intros Hi Hc Hne (b & d & H). exists b, d. apply elem_of_waiting. split; [done|congruence]. Qed.

Lemma waits_step t s e s' : invariant s -> waits_for_newest s -> speaks t e -> step t s e = Some s' -> waits_for_newest s'.
Proof.
  intros Hi Hw Hsp. destruct e as [file|seq text| |seq a]; cbn [step].
  - destruct (applying s); [done|]. by intros [= <-].
  - destruct (mget (inflight s) seq) as [[|b d]|] eqn:E; [|done..]. apply mget_in in E. intros <-%(inj Some). unfold file_read.
    destruct (Nat.eqb_spec seq (importSeq s)) as [->|Hne]; cbn [negb].
    + destruct (i_reading s Hi E) as (_ & Hf & _). destruct (parseBundle text t) as [m|b]; [intros H; cbn [importing] in H; congruence|].
      intros _. exists b, true. cbn [runImport inflight importSeq]. apply elem_of_app. right. by apply list_elem_of_singleton.
    + intros Hg. cbn [importing importSeq inflight] in *. by eapply waits_settle; [..|apply Hw].
  - destruct (importing s); [done|]. destruct (bundle s) as [b|]; [|done]. cbn [mbind option_bind]. intros <-%(inj Some) _.
    exists b, false. cbn [runImport inflight importSeq]. apply elem_of_app. right. by apply list_elem_of_singleton.
  - destruct (mget (inflight s) seq) as [[|b d]|] eqn:E; [done| |done]. apply mget_in in E. intros <-%(inj Some).
    unfold waits_for_newest, answered. cbn [importing importSeq inflight]. intros [Hg Hl]%andb_true_iff.
    destruct (Nat.eqb_spec seq (importSeq s)) as [->|Hne]; [|by eapply waits_settle; [..|apply Hw]].
    cbn [andb] in Hl. destruct a as [err|r]; [|done]. cbn [speaks] in Hsp. by rewrite bool_decide_eq_true_2 in Hl.
Qed.

Lemma waits_run t es s : Forall (speaks t) es -> run t es opened = Some s -> waits_for_newest s.
Proof.
  revert s. induction es as [|e es IH] using rev_ind; intros s Hs; [by intros [= <-]|]. apply Forall_app in Hs as [Hs [He _]%Forall_cons].
  rewrite run_snoc. destruct (run t es opened) as [s0|] eqn:E; [|done]. apply waits_step; [by eapply invariant_run|by apply IH|done].
Qed.

(** C39: A waiting Apply button always comes back: as long as every refusal can be read, while the button waits there is
    a call in flight whose answer, whatever it is, releases it. *)
Theorem import_button_returns t es s :
  Forall (speaks t) es -> run t es opened = Some s -> importing s = true ->
  exists n, (exists b d, mget (inflight s) n = Some (Importing b d)) /\
    forall a, speaks t (Answered n a) -> exists s', step t s (Answered n a) = Some s' /\ importing s' = false.
Proof.
  intros Hs Hr Hg. pose proof (invariant_run t es s Hr) as Hi. destruct (waits_run t es s Hs Hr Hg) as (b & d & H).
  apply mget_elem_of in H; [|by apply i_nodup]. exists (importSeq s). split; [eauto|]. intros a Ha. cbn [step]. rewrite H.
  eexists. split; [reflexivity|]. unfold answered. cbn [importing]. rewrite Nat.eqb_refl, Hg. cbn [andb].
  destruct a as [err|r]; [|done]. cbn [speaks] in Ha. by rewrite bool_decide_eq_true_2.
Qed.

Lemma parseBundle_refuses text t b :
  JSON_parse text = Some b -> ~ is_bundle b -> parseBundle text t = inl (refusal b t).
Proof.
  intros Hp Hn. unfold parseBundle, refusal. rewrite Hp. destruct (isRecord b) eqn:Er; cbn [negb]; [|done].
  assert (Hv : match vget b (js "version") with VNum n => (n =? int BUNDLE_VERSION)%num | _ => false end = false); [|cbv zeta; rewrite Hv; by destruct (vget b (js "version"))].
  apply not_true_is_false. intros Hv. apply Hn. split; [done|]. destruct (vget b (js "version")) as [| | |[| |z]| | |]; try discriminate Hv.
  apply Z.eqb_eq in Hv. by rewrite Hv.
Qed.

(** C21: Export and import are inverse: whatever happened before and whatever finite numbers, texts, lists and objects the
    export holds, the file it writes can be written and, once picked, is read as the very value it was written from.  A
    version-1 bundle is loaded and sent to the server as a dry run; any other export is refused with the message for what
    is wrong with it, nothing is loaded and nothing is sent. *)
Theorem export_import_roundtrip t es s b name :
  run t es opened = Some s -> applying s = false -> json_ok b ->
  exists text s', export_text b = Some text /\ JSON_parse text = Some b /\
    run t (es ++ [Pick (Some name); FileRead (S (importSeq s)) text]) opened = Some s' /\ fileName s' = Some name /\
    (is_bundle b -> bundle s' = Some b /\ sent s' = sent s ++ [(b, true)] /\ importing s' = true /\ importError s' = None) /\
    (~ is_bundle b -> bundle s' = None /\ sent s' = sent s /\ importing s' = false /\ importError s' = Some (refusal b t)).
Proof.
  intros Hrun Ha Hok. destruct (JSON_roundtrip b Hok) as (text & Ht & Hp). exists text.
  change [Pick (Some name); FileRead (S (importSeq s)) text] with ([Pick (Some name)] ++ [FileRead (S (importSeq s)) text]).
  rewrite app_assoc, !run_snoc, Hrun. cbn [mbind option_bind step]. rewrite Ha. cbn [mbind option_bind].
  assert (Hin : mget (inflight (handleFile (Some name) s)) (S (importSeq s)) = Some Reading).
  { apply mget_elem_of; [apply NoDup_call; by eapply invariant_run|]. cbn [handleFile inflight]. by apply elem_of_call; right. }
  rewrite Hin. eexists. split; [done|]. split; [done|]. split; [reflexivity|].
  unfold file_read. cbn [handleFile importSeq]. rewrite Nat.eqb_refl. cbn [negb].
  split; [by destruct (parseBundle text t)|]. split; intros Hb.
  - assert (Hparse : parseBundle text t = inr b) by (destruct Hb as [Hr Hv]; unfold parseBundle; rewrite Hp, Hr; cbn [negb]; rewrite Hv; reflexivity).
    by rewrite Hparse.
  - by rewrite (parseBundle_refuses text t b).
Qed.

Module ConfigImportWitness.
Definition t : Translate := fun k _ => k.
Definition rule : value := VObj [(js "name", VStr (js "rtt")); (js "quantile", VNum (dec 95 2))].
Definition b : value := VObj [(js "version", VNum (int 1)); (js "alertRules", VArr [rule])].
Definition text : jstr := default [] (export_text b).
Definition plan : value := VObj [(js "dryRun", VBool true)].

Lemma b_ok : json_ok b.
Proof.
  assert (Hw : forall s, forallb (fun c => (0 <=? c) && (c <? 65536)) s = true -> code_units s) by apply code_units_check.
  cbn [b rule json_ok foldr fst snd]. split_and!; try exact I; try (apply Hw; vm_compute; reflexivity).
  - split; [|repeat constructor]. apply NoDup_cons. split; [|apply NoDup_singleton]. intros H%list_elem_of_singleton. discriminate H.
  - exists (1 * U). split; [done|]. apply double_int. unfold safe. lia.
  - split; [|repeat constructor]. apply NoDup_cons. split; [|apply NoDup_singleton]. intros H%list_elem_of_singleton. discriminate H.
  - apply double_dec; [lia|vm_compute; reflexivity].
Defined.

(** The first file is read late, after the second one was picked. *)
Definition events : list event :=
  [Pick (Some (js "old.json")); Pick (Some (js "new.json")); FileRead 2 text; FileRead 1 (js "{}"); Answered 3 (inr plan)].
Definition after_plan : section := default opened (run t events opened).

Lemma import_is_about_the_file_witness : result after_plan = Some plan /\ (b, true) ∈ sent after_plan.
Proof.
  split; [vm_compute; reflexivity|].
  destruct (import_is_about_the_file t events after_plan) as (H & _); [vm_compute; reflexivity|].
  apply (H b true). vm_compute. left.
Defined.

Lemma import_button_returns_witness :
  exists s n, run t (events ++ [Apply]) opened = Some s /\ exists b d, mget (inflight s) n = Some (Importing b d).
Proof.
  exists (default opened (run t (events ++ [Apply]) opened)).
  destruct (import_button_returns t (events ++ [Apply]) (default opened (run t (events ++ [Apply]) opened))) as (n & H & _).
  - repeat constructor.
  - vm_compute. reflexivity.
  - vm_compute. reflexivity.
  - exists n. split; [vm_compute; reflexivity|exact H].
Defined.

Lemma export_import_roundtrip_witness :
  exists text s', export_text b = Some text /\
    run t (events ++ [Pick (Some (js "back.json")); FileRead 4 text]) opened = Some s' /\ bundle s' = Some b.
Proof.
  destruct (export_import_roundtrip t events after_plan b (js "back.json")) as (x & s' & Hx & _ & Hr & _ & Hb & _).
  - vm_compute. reflexivity.
  - vm_compute. reflexivity.
  - apply b_ok.
  - exists x, s'. split; [exact Hx|]. split; [exact Hr|]. apply Hb. split; vm_compute; reflexivity.
Defined.
End ConfigImportWitness.
