(* ===== verification/Settings.v ===== *)
(** The Settings page ([web/src/pages/settings.tsx]) beside its export and import: the webhook form and row, API tokens
    and their form, and the lines of the About card. *)
From S2P Require Import Prelude JsNum JsString JsCollections JsValue JsDate JsFormat JsJson JsUrl SubmitGuard Targets Api.
Local Open Scope Z_scope.

(** ** Webhooks *)

Definition WEBHOOK_EVENTS : list jstr :=
  [js "incident.created"; js "incident.resolved"; js "incident.reopened"; js "alert.fired"; js "alert.resolved"].

Record WebhookDraft := { w_name : jstr; w_url : jstr; w_events : list jstr; w_enabled : bool; w_secret : jstr }.

(** The stored webhook an edit starts from. *)
Record Webhook := { h_id : jstr; h_name : jstr; h_url : jstr; h_events : list jstr; h_enabled : bool }.

Definition initial_draft (initial : option Webhook) : WebhookDraft :=
  match initial with
  | Some h => {| w_name := h_name h; w_url := h_url h; w_events := h_events h; w_enabled := h_enabled h; w_secret := [] |}
  | None => {| w_name := []; w_url := []; w_events := []; w_enabled := true; w_secret := [] |}
  end.

Definition webhookRequestFrom (draft : WebhookDraft) : value :=
  VObj ([(js "name", VStr (w_name draft)); (js "url", VStr (w_url draft)); (js "events", VArr (VStr <$> w_events draft));
         (js "enabled", VBool (w_enabled draft))] ++
        (if seqb (w_secret draft) [] then [] else [(js "secret", VStr (w_secret draft))])).

Definition WEBHOOK_FIELD_PHRASES : list (jstr * jstr) :=
  [(js "secret", js "secret"); (js "events", js "event"); (js "url", js "url"); (js "name", js "name")].

Inductive tone := neutral | tone_ok | tone_bad | tone_unknown.

Definition lastStatusTone (lastStatus : jstr) : tone :=
  if seqb lastStatus [] then neutral else if seqb lastStatus (js "ok") then tone_ok
  else if startsWith lastStatus (js "failed") then tone_bad else tone_unknown.

(** [/^[a-z0-9-]+$/]. *)
Definition WEBHOOK_NAME_RE (s : jstr) : bool :=
  negb (seqb s []) && forallb (fun c => is_digit c || ((97 <=? c) && (c <=? 122)) || (c =? 45)) s.

(** The messages by field, in the order they are written. *)
Definition webhookDraftErrors (draft : WebhookDraft) (editing : bool) (t : Translate) : list (jstr * jstr) :=
  let name := trim (w_name draft) in
  let url := trim (w_url draft) in
  (if seqb name [] then [(js "name", t (js "webhooks.form.nameRequired") [])]
   else if negb (WEBHOOK_NAME_RE name) then [(js "name", t (js "webhooks.form.nameCharset") [])] else []) ++
  (if seqb url [] then [(js "url", t (js "webhooks.form.urlRequired") [])]
   else if negb (startsWith url (js "http://")) && negb (startsWith url (js "https://"))
   then [(js "url", t (js "webhooks.form.urlScheme") [])] else []) ++
  (match w_events draft with [] => [(js "events", t (js "webhooks.form.eventsRequired") [])] | _ => [] end) ++
  (if negb editing && seqb (w_secret draft) [] then [(js "secret", t (js "webhooks.form.secretRequired") [])] else []).

(** [edit]: a changed field loses its message, and the form its own. *)
Definition clear_errors (field : jstr) (errors : list (jstr * jstr)) : list (jstr * jstr) :=
  if negb (mhas errors field) && negb (mhas errors (js "form")) then errors
  else List.filter (fun e => negb (seqb e.1 field) && negb (seqb e.1 (js "form"))) errors.

Definition toggleEvent (event : jstr) (events : list jstr) : list jstr :=
  if existsb (seqb event) events then List.filter (fun e => negb (seqb e event)) events else events ++ [event].

(** What a press of the form's button sends: a PUT of the webhook being edited, or a POST. *)
Definition webhook_check (initial : option Webhook) (draft : WebhookDraft) (t : Translate) : list (jstr * jstr) + (option jstr * value) :=
  match webhookDraftErrors draft (bool_decide (is_Some initial)) t with
  | [] => inr (h_id <$> initial, webhookRequestFrom draft)
  | errors => inl errors
  end.

Definition WebhookForm_handleSubmit (initial : option Webhook) (draft : WebhookDraft) (t : Translate) (g : guard) :
    press (list (jstr * jstr)) (option jstr * value) := guarded (webhook_check initial draft t) g.

Section Refusal.
Context (toLowerCase : jstr -> jstr).

Definition webhookFieldForDetail (detail : jstr) : option jstr := fieldForDetail toLowerCase detail WEBHOOK_FIELD_PHRASES.

(** The errors after a refused save; [None] is the [TypeError] of an error that cannot be read. *)
Definition webhook_refused (e : thrown) (t : Translate) : option (list (jstr * jstr)) :=
  m ← queryErrorMessage e (t (js "webhooks.form.failed") []);
  let field := match e with ApiError _ => webhookFieldForDetail m | Failure => None end in
  Some [(default (js "form") field, m)].

(** ** API tokens *)

Definition tokenFieldForDetail (detail : jstr) : option jstr :=
  let haystack := toLowerCase detail in
  if includes haystack (js "expire") then Some (js "expiresAt")
  else if includes haystack (js "name") then Some (js "name") else None.

Definition token_refused (e : thrown) (t : Translate) : option (jstr * option jstr) :=
  m ← queryErrorMessage e (t (js "tokens.form.failed") []);
  Some (m, match e with ApiError _ => tokenFieldForDetail m | Failure => None end).
End Refusal.

Inductive token_state := active | revoked | expired.

Section Tokens.
Context `{DateHost}.

(** [None] is a field that is absent; an empty text counts as absent. *)
Definition tokenState (revokedAt expiresAt : option jstr) (now : date) : token_state :=
  let truthy (s : option jstr) := match s with Some (_ :: _) => true | _ => false end in
  if truthy revokedAt then revoked
  else if truthy expiresAt && (getTime (date_of_string (default [] expiresAt)) <=? getTime now)%num then expired
  else active.

Record TokenRequest := { tk_name : jstr; tk_expiresAt : option jstr }.

(** The message and the field it belongs to, or the request. *)
Definition token_check (name : jstr) (expires : option date) (now : number) (t : Translate) : option ((jstr * jstr) + TokenRequest) :=
  if seqb (trim name) [] then Some (inl (t (js "tokens.form.nameRequired") [], js "name"))
  else match expires with
  | None => Some (inr {| tk_name := trim name; tk_expiresAt := None |})
  | Some d =>
      if isNaN (getTime d) then Some (inl (t (js "tokens.form.badExpiry") [], js "expiresAt"))
      else if (getTime d <=? now)%num then Some (inl (t (js "tokens.form.pastExpiry") [], js "expiresAt"))
      else iso ← toISOString d; Some (inr {| tk_name := trim name; tk_expiresAt := Some iso |})
  end.

Definition TokenForm_handleSubmit (name : jstr) (expires : option date) (now : number) (t : Translate) (g : guard) :
    option (press (jstr * jstr) TokenRequest) :=
  c ← token_check name expires now t; Some (guarded c g).

Definition spent (s : token_state) : bool := match s with active => false | _ => true end.
End Tokens.

(** ** About *)

Definition subjectLine (kind displayName : jstr) : jstr :=
  join ([32; 183; 32]) (List.filter (fun s => negb (seqb s [])) (trim <$> [kind; displayName])).

Definition shortCommit (commit : jstr) : jstr :=
  let '(hash, suffix) := match indexOf commit [45] with None => (commit, []) | Some dash => (take dash commit, drop dash commit) end in
  (if (12 <? length hash)%nat then take 12 hash else hash) ++ suffix.

(** * Theorems *)

(** The webhook form has one button: what it sends passed every check, is sent once, goes to the webhook being edited,
    and carries a secret exactly when one was typed, which a new webhook requires and an edit may leave out to keep
    the stored one. *)
Theorem webhook_form_sends_valid initial draft t g target body :
  sent_req (WebhookForm_handleSubmit initial draft t g) = Some (target, body) ->
  inFlight g = false /\ target = (h_id <$> initial) /\ body = webhookRequestFrom draft /\
  WEBHOOK_NAME_RE (trim (w_name draft)) = true /\
  (startsWith (trim (w_url draft)) (js "http://") = true \/ startsWith (trim (w_url draft)) (js "https://") = true) /\
  w_events draft <> [] /\ (initial = None -> w_secret draft <> []) /\
  vget body (js "secret") = (if seqb (w_secret draft) [] then VUndef else VStr (w_secret draft)).
Proof.
  intros [Hc Hg]%guarded_sends. unfold webhook_check in Hc. destruct (webhookDraftErrors _ _ _) eqn:E; [|done]. injection Hc as <- <-.
  unfold webhookDraftErrors in E. apply app_nil in E as [E1 E]. apply app_nil in E as [E2 E]. apply app_nil in E as [E3 E4].
  split_and!; [done..| | | | |].
  - destruct (seqb (trim (w_name draft)) []); [done|]. by destruct (WEBHOOK_NAME_RE _).
  - destruct (seqb (trim (w_url draft)) []); [done|]. destruct (startsWith _ (js "http://")); [by left|]. destruct (startsWith _ (js "https://")); [by right|done].
  - by destruct (w_events draft).
  - intros ->. rewrite bool_decide_eq_false_2 in E4 by (by intros []). cbn [negb andb] in E4. intros Hs. by rewrite Hs in E4.
  - unfold webhookRequestFrom. destruct (seqb (w_secret draft) []); reflexivity.
Qed.

(** An edit that touches nothing writes back what is stored, and no secret. *)
Theorem untouched_webhook h :
  webhookRequestFrom (initial_draft (Some h)) =
    VObj [(js "name", VStr (h_name h)); (js "url", VStr (h_url h)); (js "events", VArr (VStr <$> h_events h)); (js "enabled", VBool (h_enabled h))].
Proof. reflexivity. Qed.

(** The name is checked without its outer white space and sent with it: such a name passes the check here and is no
    webhook name. *)
Example checked_name_is_not_the_sent_one :
  let draft := {| w_name := js " pager"; w_url := js "https://hooks.example/x"; w_events := [js "alert.fired"]; w_enabled := true; w_secret := js "s" |} in
  webhookDraftErrors draft false (fun k _ => k) = [] /\ vget (webhookRequestFrom draft) (js "name") = VStr (js " pager") /\
  WEBHOOK_NAME_RE (js " pager") = false.
Proof. split_and!; vm_compute; reflexivity. Qed.

(** Ticking a box twice leaves the same subscriptions, and no event is listed twice. *)
Theorem toggleEvent_twice event events :
  NoDup events -> NoDup (toggleEvent event events) /\
  (event ∈ toggleEvent event events <-> event ∉ events) /\
  forall e, e ∈ toggleEvent event (toggleEvent event events) <-> e ∈ events.
Proof.
  assert (Hin : forall l, existsb (seqb event) l = true <-> event ∈ l).
  { intros l. rewrite existsb_elem. split; [intros (x & Hx & ->%seqb_eq); done|intros He; exists event; split; [done|by apply seqb_eq]]. }
  assert (Hmem : forall l e, e ∈ toggleEvent event l <-> (e ∈ l /\ e <> event) \/ (e = event /\ event ∉ l)).
  { intros l e. unfold toggleEvent. destruct (existsb (seqb event) l) eqn:E.
    - apply Hin in E. rewrite elem_of_filter_b, negb_true_iff, seqb_neq. split; [by left|]. intros [H|[-> H]]; done.
    - assert (Hn : event ∉ l) by (rewrite <- Hin; congruence). rewrite elem_of_app, list_elem_of_singleton. split.
      + intros [H| ->]; [|by right]. left. split; [done|]. congruence.
      + intros [[H _]|[-> _]]; [by left|by right]. }
  intros Hn. split_and!.
  - unfold toggleEvent. destruct (existsb (seqb event) events) eqn:E; [by apply NoDup_ListNoDup, List.NoDup_filter, NoDup_ListNoDup|].
    apply NoDup_app. split_and!; [done| |apply NoDup_singleton]. intros x Hx ->%list_elem_of_singleton. apply Hin in Hx. congruence.
  - rewrite Hmem. naive_solver.
  - intros e. rewrite !Hmem. destruct (decide (e = event)) as [->|]; [|naive_solver]. destruct (decide (event ∈ events)); naive_solver.
Qed.

Section TokenTheorems.
Context `{DateHost}.

(** A token the form asks for works when it is minted: its name is not blank, and its expiry, if it has one, is a
    moment the server reads back exactly and that lies ahead, so the row of the new token says active; and a second
    press sends nothing while the first is in flight. *)
Theorem token_form_mints_active name expires now t g p q :
  match expires with Some d => valid_date d | None => True end ->
  TokenForm_handleSubmit name expires (int now) t g = Some p -> sent_req p = Some q ->
  inFlight g = false /\ inFlight (after p) = true /\ tk_name q = trim name /\ tk_name q <> [] /\
  (forall d, expires = Some d -> exists iso, tk_expiresAt q = Some iso /\ date_of_string iso = d) /\
  tokenState None (tk_expiresAt q) (Some now) = active.
Proof.
  intros Hv Hp Hq. unfold TokenForm_handleSubmit in Hp. destruct (token_check name expires (int now) t) as [c|] eqn:Ec; [|done].
  apply (inj Some) in Hp as <-. pose proof (guarded_claims _ _ _ Hq) as Ha. apply guarded_sends in Hq as [-> Hg].
  unfold token_check in Ec. destruct (seqb (trim name) []) eqn:En; [done|]. apply seqb_neq in En.
  destruct expires as [[d|]|]; [|done|].
  - cbn [isNaN getTime] in Ec. change (isNaN (int d)) with false in Ec. cbn match in Ec. destruct (int d <=? int now)%num eqn:El; [done|].
    cbn [toISOString fmap option_fmap option_map mbind option_bind] in Ec. apply (inj Some) in Ec. apply (inj inr) in Ec as <-.
    assert (Hd : date_of_string (iso_string d) = Some d) by (by apply Date_parse_iso).
    split_and!; [done..| |].
    + intros d' [= <-]. by exists (iso_string d).
    + unfold tokenState. cbn [tk_expiresAt default]. unfold id. rewrite Hd. cbn [getTime]. rewrite El, andb_false_r. done.
  - apply (inj Some) in Ec. apply (inj inr) in Ec as <-. by split_and!.
Qed.

(** An unreadable expiry never reads as expired, and a revoked token is revoked whatever its expiry says. *)
Theorem tokenState_spec revokedAt expiresAt now :
  match tokenState revokedAt expiresAt now with
  | revoked => exists c r, revokedAt = Some (c :: r)
  | expired => exists iso at_ n, expiresAt = Some iso /\ date_of_string iso = Some at_ /\ now = Some n /\ at_ <= n
  | active => forall iso at_ n, expiresAt = Some iso -> iso <> [] -> date_of_string iso = Some at_ -> now = Some n -> n < at_
  end.
Proof.
  unfold tokenState. destruct revokedAt as [[|c r]|]; cbn match; [|by eauto|].
  all: destruct expiresAt as [[|c' r']|]; cbn [andb default]; try (by intros iso at_ n [= <-]); try done.
  all: unfold id; destruct (date_of_string (c' :: r')) as [at_|] eqn:Ed; cbn [getTime]; [|by intros iso at_ n [= <-] _; rewrite Ed].
  all: destruct now as [n|]; [|cbn; done].
  all: destruct (int at_ <=? getTime (Some n))%num eqn:El; change (getTime (Some n)) with (int n) in El; rewrite nleb_int in El; cbn match.
  all: first [eexists _, at_, n; split_and!; [done|done|done|lia]|intros iso a m E1 _ E2 E3; simplify_eq; lia].
Qed.
End TokenTheorems.

Module SettingsWitness.
Definition t : Translate := fun k _ => k.

Lemma token_form_mints_active_witness :
  tokenState (H := iso_host) None (Some (js "2026-01-01T00:00:00.000Z")) (Some 0) = active.
Proof.
  destruct (token_form_mints_active (H := iso_host) (js " ci ") (Some (Some 1767225600000)) 0 t guard_idle
    {| shown := None; sent_req := Some {| tk_name := js "ci"; tk_expiresAt := Some (js "2026-01-01T00:00:00.000Z") |}; after := {| inFlight := true; submitting := true |} |}
    {| tk_name := js "ci"; tk_expiresAt := Some (js "2026-01-01T00:00:00.000Z") |}) as (_ & _ & _ & _ & _ & Ht).
  - cbn. unfold in_time_range, MAX_TIME_MS. lia.
  - vm_compute. reflexivity.
  - reflexivity.
  - exact Ht.
Defined.
End SettingsWitness.
