(* ===== verification/Users.v ===== *)
(** Local accounts ([web/src/pages/settings-users.tsx], [web/src/components/change-password.tsx],
    [web/src/lib/password-policy.ts], [web/src/hooks/use-confirm-step.ts]): the floors a password and a username must
    pass, the three forms that set a password, the roles offered, and a user's row as a machine of asks, confirms and
    answers. *)
From S2P Require Import Prelude JsNum JsString JsCollections JsValue JsUrl SubmitGuard Api.
Local Open Scope Z_scope.

(** ** The password policy *)

Definition MIN_PASSWORD_CHARS : nat := 12.

(** [/^[A-Za-z0-9._@-]{1,64}$/]. *)
Definition USERNAME_PATTERN (s : jstr) : bool :=
  (1 <=? length s)%nat && (length s <=? 64)%nat &&
  forallb (fun c => is_alpha c || is_digit c || (c =? 46) || (c =? 95) || (c =? 64) || (c =? 45)) s.

Definition passwordTooShort (password : jstr) : bool := (length (code_points password) <? MIN_PASSWORD_CHARS)%nat.

(** ** The forms *)

Record UserRequest := { r_username : jstr; r_password : jstr; r_role : jstr; r_displayName : option jstr }.

Definition create_check (username displayName password role : jstr) (t : Translate) : jstr + UserRequest :=
  if negb (USERNAME_PATTERN username) then inl (t (js "form.usernameInvalid") [])
  else if passwordTooShort password then inl (t (js "form.tooShort") [])
  else inr {| r_username := username; r_password := password; r_role := role;
              r_displayName := if seqb (trim displayName) [] then None else Some (trim displayName) |}.

Definition CreateUserForm_handleSubmit (username displayName password role : jstr) (t : Translate) (g : guard) : press jstr UserRequest :=
  guarded (create_check username displayName password role t) g.

Definition ResetPasswordForm_handleSubmit (password : jstr) (t : Translate) (g : guard) : press jstr jstr :=
  guarded (if passwordTooShort password then inl (t (js "form.tooShort") []) else inr password) g.

(** The current and the new password. *)
Definition change_check (current next repeat_ : jstr) (t : Translate) : jstr + (jstr * jstr) :=
  if passwordTooShort next then inl (t (js "password.tooShort") [])
  else if negb (seqb next repeat_) then inl (t (js "password.mismatch") [])
  else if seqb next current then inl (t (js "password.same") [])
  else inr (current, next).

Definition ChangePassword_handleSubmit (current next repeat_ : jstr) (t : Translate) (g : guard) : press jstr (jstr * jstr) :=
  guarded (change_check current next repeat_ t) g.

(** ** The roles *)

Definition BUILTIN_ROLES : list jstr := [js "viewer"; js "operator"; js "alert-editor"; js "admin"].

Definition useRoleNames (custom : option (list jstr)) : list jstr :=
  BUILTIN_ROLES ++ List.filter (fun n => negb (existsb (seqb n) BUILTIN_ROLES)) (default [] custom).

Definition current_role (roles : list jstr) : jstr := default [] (head roles).

Definition role_options (userRoles roles : list jstr) : list jstr :=
  let current := current_role userRoles in
  if seqb current [] || existsb (seqb current) roles then roles else current :: roles.

(** ** A user's row *)

(** [useConfirmStep]: whether the confirming control is on screen. *)
Definition ask (confirming : bool) : bool := true.
Definition reset (confirming : bool) : bool := false.

Inductive row_request := SetRole (role : jstr) | SetDisabled (disabled : bool) | Delete.
#[export] Instance row_request_eq_dec : EqDecision row_request.
Proof. solve_decision. Defined.

Inductive refresh := Me | UsersList | TokensList.

(** [pending] is the request the row waits for; [sent] and [refreshed] are what the server and the query cache saw. *)
Record row := {
  confirming : bool; removing : bool; busy : bool; pendingRole : option jstr; error : option jstr;
  pending : option row_request; sent : list row_request; refreshed : list refresh;
}.

Definition new_row : row :=
  {| confirming := false; removing := false; busy := false; pendingRole := None; error := None; pending := None; sent := []; refreshed := [] |}.

(** [patch] and [remove], up to the answer. *)
Definition request (q : row_request) (r : row) : row :=
  {| confirming := confirming r; removing := removing r; busy := true; pendingRole := pendingRole r; error := None;
     pending := Some q; sent := sent r ++ [q]; refreshed := refreshed r |}.

(** The sentence a refusal without words falls back to. *)
Definition failed_text (t : Translate) (name : jstr) (q : row_request) : jstr :=
  t (match q with SetRole _ => js "row.roleFailed" | SetDisabled _ => js "row.statusFailed" | Delete => js "row.deleteFailed" end)
    [(js "user", VStr name)].

(** The lists refreshed by an answer, in order. *)
Definition refreshes (isMe : bool) (q : row_request) (success : bool) : list refresh :=
  (if success then (match q with SetRole _ => if isMe then [Me] else [] | _ => [] end) ++ [UsersList] else []) ++
  match q with SetRole _ => [] | _ => [TokensList] end.

(** After the [try]: what [patch] and [remove] do once the error, if any, was put on screen. *)
Definition settled (isMe : bool) (q : row_request) (success : bool) (said : option jstr) (r : row) : row :=
  {| confirming := match q with Delete => confirming r | _ => reset (confirming r) end;
     removing := match q with Delete => reset (removing r) | _ => removing r end;
     busy := false; pendingRole := match q with Delete => pendingRole r | _ => None end; error := said;
     pending := None; sent := sent r; refreshed := refreshed r ++ refreshes isMe q success |}.

(** The [catch] threw: the promise is rejected, nothing after it runs, and the row stays busy. *)
Definition stranded (r : row) : row :=
  {| confirming := confirming r; removing := removing r; busy := busy r; pendingRole := pendingRole r; error := error r;
     pending := None; sent := sent r; refreshed := refreshed r |}.

(** The rest of [patch] and [remove]; [None] is a request that was carried out, [Some] what it was refused with.  The
    words of a refusal are read inside the [catch], and reading them throws where the problem's texts are not texts. *)
Definition answer (t : Translate) (name : jstr) (isMe : bool) (refusal : option thrown) (q : row_request) (r : row) : row :=
  match refusal with
  | None => settled isMe q true (error r) r
  | Some e =>
      match queryErrorMessage e (failed_text t name q) with
      | Some m => settled isMe q false (Some m) r
      | None => stranded r
      end
  end.

Definition with_confirming (b : bool) (r : row) : row :=
  {| confirming := b; removing := removing r; busy := busy r; pendingRole := pendingRole r; error := error r;
     pending := pending r; sent := sent r; refreshed := refreshed r |}.
Definition with_removing (b : bool) (r : row) : row :=
  {| confirming := confirming r; removing := b; busy := busy r; pendingRole := pendingRole r; error := error r;
     pending := pending r; sent := sent r; refreshed := refreshed r |}.
Definition with_role (p : option jstr) (r : row) : row :=
  {| confirming := confirming r; removing := removing r; busy := busy r; pendingRole := p; error := error r;
     pending := pending r; sent := sent r; refreshed := refreshed r |}.

Inductive row_event :=
  | PickRole (next : jstr) | ConfirmRole | CancelRole
  | Enable | AskDisable | ConfirmDisable | CancelDisable
  | AskDelete | ConfirmDelete | CancelDelete
  | Answer (refusal : option thrown).

(** One event on the row of a user as the list last had it; [None] where the control is disabled or not on screen. *)
Definition row_step (t : Translate) (name : jstr) (isMe disabled : bool) (roles : list jstr) (r : row) (e : row_event) : option row :=
  match e with
  | PickRole next =>
      if busy r then None
      else if isMe then Some (with_role (if seqb next (current_role roles) then None else Some next) r)
      else Some (request (SetRole next) r)
  | ConfirmRole => if busy r then None else p ← pendingRole r; Some (request (SetRole p) r)
  | CancelRole => p ← pendingRole r; Some (with_role None r)
  | Enable => if disabled && negb (busy r) then Some (request (SetDisabled false) r) else None
  | AskDisable => if negb disabled && negb (confirming r) then Some (with_confirming (ask (confirming r)) r) else None
  | ConfirmDisable => if negb disabled && confirming r && negb (busy r) then Some (request (SetDisabled true) r) else None
  | CancelDisable => if negb disabled && confirming r then Some (with_confirming (reset (confirming r)) r) else None
  | AskDelete => if negb (removing r) then Some (with_removing (ask (removing r)) r) else None
  | ConfirmDelete => if removing r && negb (busy r) then Some (request Delete r) else None
  | CancelDelete => if removing r then Some (with_removing (reset (removing r)) r) else None
  | Answer refusal => q ← pending r; Some (answer t name isMe refusal q r)
  end.

(** A history of a row: each event with the user as the list had it then. *)
Record shown_user := { su_disabled : bool; su_roles : list jstr }.

Definition row_run (t : Translate) (name : jstr) (isMe : bool) (es : list (shown_user * row_event)) : option row :=
  fold_left (fun o e => r ← o; row_step t name isMe (su_disabled e.1) (su_roles e.1) r e.2) es (Some new_row).

(** * Theorems *)

(** ** The forms *)

(** Whatever form it comes from, a password that is sent has at least twelve characters, is sent once, and in a change
    of one's own is the one typed twice and not the old one. *)
Theorem passwords_sent_are_long t g :
  (forall username displayName password role q,
     sent_req (CreateUserForm_handleSubmit username displayName password role t g) = Some q ->
     inFlight g = false /\ (12 <= length (code_points (r_password q)))%nat /\ r_password q = password /\ USERNAME_PATTERN (r_username q) = true) /\
  (forall password q, sent_req (ResetPasswordForm_handleSubmit password t g) = Some q ->
     inFlight g = false /\ (12 <= length (code_points q))%nat /\ q = password) /\
  (forall current next repeat_ q, sent_req (ChangePassword_handleSubmit current next repeat_ t g) = Some q ->
     inFlight g = false /\ (12 <= length (code_points q.2))%nat /\ q = (current, next) /\ repeat_ = next /\ q.2 <> q.1).
Proof.
  assert (Hlong : forall p, passwordTooShort p = false -> (12 <= length (code_points p))%nat) by (intros p Hp%Nat.ltb_ge; done).
  split_and!.
  - intros * [Hc Hg]%guarded_sends. unfold create_check in Hc. destruct (USERNAME_PATTERN username) eqn:Eu; [|done]. cbn [negb] in Hc.
    destruct (passwordTooShort password) eqn:Ep; [done|]. injection Hc as <-. split_and!; [done|by apply Hlong|done..].
  - intros * [Hc Hg]%guarded_sends. destruct (passwordTooShort password) eqn:Ep; [done|]. injection Hc as <-. split_and!; [done|by apply Hlong|done].
  - intros * [Hc Hg]%guarded_sends. unfold change_check in Hc. destruct (passwordTooShort next) eqn:Ep; [done|].
    destruct (seqb next repeat_) eqn:Er; [|done]. cbn [negb] in Hc. destruct (seqb next current) eqn:Es; [done|]. injection Hc as <-.
    apply seqb_eq in Er as ->. apply seqb_neq in Es. split_and!; [done|by apply Hlong|done..].
Qed.

(** The role on screen is always one of the options, so the box never shows another. *)
Theorem role_is_offered userRoles custom :
  let options := role_options userRoles (useRoleNames custom) in
  current_role userRoles = [] \/ current_role userRoles ∈ options.
Proof.
  cbv zeta. unfold role_options. destruct (seqb (current_role userRoles) []) eqn:E; [left; by apply seqb_eq|]. right. cbn [orb].
  destruct (existsb _ (useRoleNames custom)) eqn:Ex; [|left]. apply existsb_elem in Ex as (x & Hx & ->%seqb_eq). done.
Qed.

(** ** The row *)

Section Row.
Context (t : Translate) (name : jstr) (isMe : bool).
Implicit Types (h : list (shown_user * row_event)) (r : row) (u : shown_user) (e : row_event) (q : row_request).

Definition is_answer (x : shown_user * row_event) : bool := match x.2 with Answer _ => true | _ => false end.

Definition answers (h : list (shown_user * row_event)) : nat := length (List.filter is_answer h).

Lemma answers_snoc h x : answers (h ++ [x]) = (answers h + if is_answer x then 1 else 0)%nat.
Proof. unfold answers. rewrite List.filter_app, length_app. cbn [List.filter]. by destruct (is_answer x). Qed.

(** The last event of [h] that [p] speaks of satisfies [q]. *)
Definition last_such (p : row_event -> bool) (good : shown_user * row_event -> Prop) (h : list (shown_user * row_event)) : Prop :=
  exists before x after, h = before ++ x :: after /\ good x /\ forall y, y ∈ after -> p y.2 = false.

Lemma last_such_keep p good h x : last_such p good h -> p x.2 = false -> last_such p good (h ++ [x]).
Proof.
  intros (before & y & after & -> & Hy & Hall) Hx. exists before, y, (after ++ [x]). split; [by rewrite <-app_assoc|]. split; [done|].
  intros z [Hz|Hz%list_elem_of_singleton]%elem_of_app; [by apply Hall|by subst].
Qed.

Lemma last_such_new p (good : shown_user * row_event -> Prop) h x : good x -> last_such p good (h ++ [x]).
Proof. intros Hx. exists h, x, []. split; [done|]. split; [done|]. by intros y ?%elem_of_nil. Qed.

Definition about_delete (e : row_event) : bool := match e with AskDelete | ConfirmDelete | CancelDelete => true | _ => false end.
Definition about_disable (e : row_event) : bool := match e with AskDisable | ConfirmDisable | CancelDisable => true | _ => false end.
Definition about_role (e : row_event) : bool := match e with PickRole _ | ConfirmRole | CancelRole => true | _ => false end.

(** The last word on the matter was the press that asks for it, or the role's being picked. *)
Definition asked_delete : list (shown_user * row_event) -> Prop := last_such about_delete (fun x => x.2 = AskDelete).
Definition asked_disable : list (shown_user * row_event) -> Prop := last_such about_disable (fun x => x.2 = AskDisable).
Definition picked (p : jstr) : list (shown_user * row_event) -> Prop :=
  last_such about_role (fun x => x.2 = PickRole p /\ p <> current_role (su_roles x.1)).

(** What allows the event [e], after the history [h], to send [q]. *)
Definition consent (h : list (shown_user * row_event)) (u : shown_user) (e : row_event) (q : row_request) : Prop :=
  match q with
  | Delete => e = ConfirmDelete /\ asked_delete h
  | SetDisabled true => e = ConfirmDisable /\ su_disabled u = false /\ asked_disable h
  | SetDisabled false => e = Enable /\ su_disabled u = true
  | SetRole p => if isMe then e = ConfirmRole /\ picked p h else e = PickRole p
  end.

(** The row waits for the answer to [q], or an answer it could not read left it waiting for ever. *)
Definition held_up (q : row_request -> bool) (r : row) : Prop :=
  busy r = true /\ match pending r with None => True | Some q' => q q' = true end.

Definition is_delete (q : row_request) : bool := match q with Delete => true | _ => false end.
Definition is_disable (q : row_request) : bool := match q with SetDisabled true => true | _ => false end.
Definition is_role (q : row_request) : bool := match q with SetRole _ => true | _ => false end.

Definition unread (x : shown_user * row_event) : Prop :=
  exists w q, x.2 = Answer (Some w) /\ queryErrorMessage w (failed_text t name q) = None.

Record row_invariant (h : list (shown_user * row_event)) (r : row) : Prop := {
  ri_waits : is_Some (pending r) -> busy r = true;
  ri_busy : busy r = true -> is_Some (pending r) \/ Exists unread h;
  ri_answers : length (sent r) = (answers h + if bool_decide (is_Some (pending r)) then 1 else 0)%nat;
  ri_delete : removing r = true -> held_up is_delete r \/ asked_delete h;
  ri_disable : confirming r = true -> held_up is_disable r \/ asked_disable h;
  ri_role : forall p, pendingRole r = Some p -> isMe = true /\ (held_up is_role r \/ picked p h);
}.

(** A request sent with consent. *)
Lemma row_invariant_request h u e q r :
  row_invariant h r -> busy r = false -> is_answer (u, e) = false ->
  (about_delete e = true -> q = Delete) -> (about_disable e = true -> is_disable q = true) -> (about_role e = true -> is_role q = true) ->
  row_invariant (h ++ [(u, e)]) (request q r).
Proof.
  intros [Hw _ Ha Hdel Hdis Hrole] Hbusy He Hq1 Hq2 Hq3.
  assert (Hp : pending r = None) by (destruct (pending r); [by rewrite Hw in Hbusy by eauto|done]).
  assert (Hidle : forall good, ~ held_up good r) by (intros good [? _]; congruence).
  rewrite Hp in Ha. cbn in Ha. split.
  - done.
  - intros _. left. by eexists.
  - cbn [request sent pending]. rewrite length_app, answers_snoc, He. rewrite bool_decide_eq_true_2 by eauto. simpl. lia.
  - cbn [request removing]. intros Hr. destruct (Hdel Hr) as [?|Hasked]; [by edestruct Hidle|].
    destruct (about_delete e) eqn:Ee; [left; split; [done|]; cbn; by rewrite Hq1|right; by apply last_such_keep].
  - cbn [request confirming]. intros Hr. destruct (Hdis Hr) as [?|Hasked]; [by edestruct Hidle|].
    destruct (about_disable e) eqn:Ee; [left; split; [done|]; by apply Hq2|right; by apply last_such_keep].
  - cbn [request pendingRole]. intros p Hr. destruct (Hrole p Hr) as [Hme [?|Hasked]]; [by edestruct Hidle|]. split; [done|].
    destruct (about_role e) eqn:Ee; [left; split; [done|]; by apply Hq3|right; by apply last_such_keep].
Qed.

(** A change of what is on screen only. *)
Lemma row_invariant_quiet h u e r r' :
  row_invariant h r -> busy r' = busy r -> pending r' = pending r -> sent r' = sent r -> is_answer (u, e) = false ->
  (removing r' = true -> e = AskDelete \/ removing r = true /\ about_delete e = false) ->
  (confirming r' = true -> e = AskDisable \/ confirming r = true /\ about_disable e = false) ->
  (forall p, pendingRole r' = Some p ->
     isMe = true /\ e = PickRole p /\ p <> current_role (su_roles u) \/ pendingRole r = Some p /\ about_role e = false) ->
  row_invariant (h ++ [(u, e)]) r'.
Proof.
  intros [Hw Hb Ha Hdel Hdis Hrole] Eb Ep Es He Hr Hc Hpr.
  assert (Hheld : forall good, held_up good r -> held_up good r') by (intros good; unfold held_up; by rewrite Eb, Ep).
  split; rewrite ?Eb, ?Ep, ?Es.
  - done.
  - intros [?|?]%Hb; [by left|]. right. apply Exists_app. by left.
  - rewrite answers_snoc, He. lia.
  - intros [-> |[Hr' He']]%Hr; [right; by apply last_such_new|]. destruct (Hdel Hr') as [?|?]; [left; auto|right; by apply last_such_keep].
  - intros [-> |[Hr' He']]%Hc; [right; by apply last_such_new|]. destruct (Hdis Hr') as [?|?]; [left; auto|right; by apply last_such_keep].
  - intros p [(Hme & -> & Hne)|[Hr' He']]%Hpr; [split; [done|]; right; by apply last_such_new|].
    destruct (Hrole p Hr') as [Hme [?|?]]; (split; [done|]); [left; auto|right; by apply last_such_keep].
Qed.

(** An answer ends what was under way: nothing it was asked for stays armed by it. *)
Lemma row_invariant_answer h u a q r :
  row_invariant h r -> pending r = Some q -> row_invariant (h ++ [(u, Answer a)]) (answer t name isMe a q r).
Proof.
  intros [Hw Hb Ha Hdel Hdis Hrole] Hp. rewrite Hp in Ha, Hw. rewrite bool_decide_eq_true_2 in Ha by eauto.
  assert (Hsettled : forall s m, row_invariant (h ++ [(u, Answer a)]) (settled isMe q s m r)).
  { intros s m. split; cbn [settled pending busy sent removing confirming pendingRole].
    - by intros [? ?].
    - done.
    - rewrite answers_snoc. cbn. cbn in Ha. lia.
    - intros Hr. destruct q; [| |done]; (destruct (Hdel Hr) as [[_ Hq]|?]; [by rewrite Hp in Hq|right; by apply last_such_keep]).
    - intros Hr. destruct q; [done|done|]. destruct (Hdis Hr) as [[_ Hq]|?]; [by rewrite Hp in Hq|right; by apply last_such_keep].
    - intros p Hr. destruct q; [done|done|]. destruct (Hrole p Hr) as [Hme [[_ Hq]|?]]; [by rewrite Hp in Hq|].
      split; [done|]. right. by apply last_such_keep. }
  destruct a as [e|]; cbn [answer]; [|apply Hsettled]. destruct (queryErrorMessage e _) eqn:Em; [apply Hsettled|].
  assert (Hbusy : busy r = true) by eauto.
  assert (Hheld : forall good, held_up good (stranded r)) by (intros good; split; done).
  split; cbn [stranded pending sent removing confirming pendingRole].
  - by intros [? ?].
  - intros _. right. apply Exists_app. right. apply Exists_cons_hd. by exists e, q.
  - rewrite answers_snoc. cbn. cbn in Ha. lia.
  - by left.
  - by left.
  - intros p Hr. destruct (Hrole p Hr) as [Hme _]. by split; [|left].
Qed.

Lemma row_invariant_step u h r e r' :
  row_invariant h r -> row_step t name isMe (su_disabled u) (su_roles u) r e = Some r' -> row_invariant (h ++ [(u, e)]) r'.
Proof.
  intros Hi. destruct e as [next| | | | | | | | | |a]; cbn [row_step].
  - destruct (busy r) eqn:Eb; [done|]. case_match eqn:Em; intros <-%(inj Some); [|by apply row_invariant_request].
    apply (row_invariant_quiet h u _ r); try done; cbn [with_role removing confirming pendingRole]; [by right..|].
    intros p Hp. left. destruct (seqb next _) eqn:Es; [done|]. injection Hp as ->. by apply seqb_neq in Es.
  - destruct (busy r) eqn:Eb; [done|]. destruct (pendingRole r) as [p|]; [|done]. intros <-%(inj Some). by apply row_invariant_request.
  - destruct (pendingRole r) as [p|]; [|done]. intros <-%(inj Some). apply (row_invariant_quiet h u _ r); try done; by right.
  - destruct (_ && _) eqn:E; [|done]. apply andb_true_iff in E as [_ Eb%negb_true_iff]. intros <-%(inj Some). by apply row_invariant_request.
  - destruct (_ && _); [|done]. intros <-%(inj Some). apply (row_invariant_quiet h u _ r); try done; cbn; auto.
  - destruct (_ && _) eqn:E; [|done]. apply andb_true_iff in E as [_ Eb%negb_true_iff]. intros <-%(inj Some). by apply row_invariant_request.
  - destruct (_ && _); [|done]. intros <-%(inj Some). apply (row_invariant_quiet h u _ r); try done; cbn; auto.
  - destruct (negb _); [|done]. intros <-%(inj Some). apply (row_invariant_quiet h u _ r); try done; cbn; auto.
  - destruct (_ && _) eqn:E; [|done]. apply andb_true_iff in E as [_ Eb%negb_true_iff]. intros <-%(inj Some). by apply row_invariant_request.
  - destruct (removing r); [|done]. intros <-%(inj Some). apply (row_invariant_quiet h u _ r); try done; cbn; auto.
  - destruct (pending r) as [q|] eqn:Ep; [|done]. intros <-%(inj Some). by apply row_invariant_answer.
Qed.

Lemma row_invariant_run h r : row_run t name isMe h = Some r -> row_invariant h r.
Proof.
  revert r. induction h as [|[u e] h IH] using rev_ind; intros r.
  - intros <-%(inj Some). split; try done. by intros [? ?].
  - unfold row_run in *. rewrite fold_left_app. cbn [fold_left]. destruct (fold_left _ h (Some new_row)) as [r0|]; [|done].
    cbn [mbind option_bind fst snd]. apply row_invariant_step. by apply IH.
Qed.

Lemma idle_asked h r : row_invariant h r -> busy r = false ->
  (removing r = true -> asked_delete h) /\ (confirming r = true -> asked_disable h) /\
  (forall p, pendingRole r = Some p -> isMe = true /\ picked p h).
Proof.
  intros [_ _ _ Hdel Hdis Hrole] Hb. assert (Hidle : forall good, ~ held_up good r) by (intros good [? _]; congruence).
  split_and!.
  - intros Hr. destruct (Hdel Hr) as [?|?]; [by edestruct Hidle|done].
  - intros Hr. destruct (Hdis Hr) as [?|?]; [by edestruct Hidle|done].
  - intros p Hr. destruct (Hrole p Hr) as [? [?|?]]; [by edestruct Hidle|done].
Qed.

(** Every step either sends nothing or sends one request with consent, from a row that is idle. *)
Lemma row_step_sends h u e r r' :
  row_invariant h r -> row_step t name isMe (su_disabled u) (su_roles u) r e = Some r' ->
  sent r' = sent r \/ exists q, sent r' = sent r ++ [q] /\ busy r = false /\ pending r' = Some q /\ consent h u e q.
Proof.
  intros Hi. assert (Hsend : forall q, busy r = false -> consent h u e q -> request q r = r' ->
    sent r' = sent r \/ exists q, sent r' = sent r ++ [q] /\ busy r = false /\ pending r' = Some q /\ consent h u e q).
  { intros q Hb Hc <-. right. by exists q. }
  destruct e as [next| | | | | | | | | |a]; cbn [row_step].
  - destruct (busy r) eqn:Eb; [done|]. case_match eqn:Em; intros H%(inj Some); [by left; subst|].
    apply (Hsend (SetRole next)); [done| |done]. cbn [consent]. by rewrite Em.
  - destruct (busy r) eqn:Eb; [done|]. destruct (pendingRole r) as [p|] eqn:Ep; [|done]. intros H%(inj Some).
    destruct (idle_asked h r Hi Eb) as (_ & _ & Hp). destruct (Hp p Ep) as [Em Hpick].
    apply (Hsend (SetRole p)); [done| |done]. cbn [consent]. by rewrite Em.
  - destruct (pendingRole r); [|done]. intros <-%(inj Some). by left.
  - destruct (_ && _) eqn:E; [|done]. apply andb_true_iff in E as [Ed Eb%negb_true_iff]. intros H%(inj Some). by apply (Hsend (SetDisabled false)).
  - destruct (_ && _); [|done]. intros <-%(inj Some). by left.
  - destruct (_ && _) eqn:E; [|done]. apply andb_true_iff in E as [[Ed%negb_true_iff Ec]%andb_true_iff Eb%negb_true_iff]. intros H%(inj Some).
    destruct (idle_asked h r Hi Eb) as (_ & Hp & _). apply (Hsend (SetDisabled true)); [done| |done]. cbn [consent]. auto.
  - destruct (_ && _); [|done]. intros <-%(inj Some). by left.
  - destruct (negb _); [|done]. intros <-%(inj Some). by left.
  - destruct (_ && _) eqn:E; [|done]. apply andb_true_iff in E as [Ec Eb%negb_true_iff]. intros H%(inj Some).
    destruct (idle_asked h r Hi Eb) as (Hp & _ & _). apply (Hsend Delete); [done| |done]. cbn [consent]. auto.
  - destruct (removing r); [|done]. intros <-%(inj Some). by left.
  - destruct (pending r); [|done]. intros <-%(inj Some). left. destruct a as [w|]; cbn [answer]; [destruct (queryErrorMessage _ _)|]; done.
Qed.
End Row.

(** C40: A user's row does only what it was asked to.  An event sends at most one request, and only from a row that waits
    for nothing: a deletion only on the confirming press, where the last thing done about deleting was the press that
    asks for it (so a confirmation serves once, and a cancelled or an already spent one does not serve again); a
    disabling likewise; an enabling on its own press; and a role on one's own row only on the confirming press, where
    the last thing done about the role was picking it, another than the one held.  Requests and answers alternate, and
    a row that is busy with nothing under way got a refusal whose words cannot be read. *)
Theorem user_row_asks_first t name isMe h u e r r' :
  row_run t name isMe h = Some r -> row_step t name isMe (su_disabled u) (su_roles u) r e = Some r' ->
  (sent r' = sent r \/ exists q, sent r' = sent r ++ [q] /\ busy r = false /\ pending r' = Some q /\ consent isMe h u e q) /\
  length (sent r') = (answers (h ++ [(u, e)]) + if bool_decide (is_Some (pending r')) then 1 else 0)%nat /\
  (is_Some (pending r') -> busy r' = true) /\
  (busy r' = true -> is_Some (pending r') \/ Exists (unread t name) (h ++ [(u, e)])).
Proof.
  intros Hi%row_invariant_run Hs. split; [by eapply row_step_sends|].
  destruct (row_invariant_step t name isMe u h r e r' Hi Hs) as [Hw Hb Ha _ _ _]. done.
Qed.

Module UsersWitness.
Definition t : Translate := fun k _ => k.
Definition u : shown_user := {| su_disabled := false; su_roles := [js "admin"] |}.
Definition history : list (shown_user * row_event) :=
  (u,.) <$> [AskDelete; CancelDelete; PickRole (js "viewer"); ConfirmRole; Answer (Some Failure); AskDelete].
Definition before : row := default new_row (row_run t (js "ann") true history).
Definition now : row := default new_row (row_step t (js "ann") true false [js "admin"] before ConfirmDelete).

(** Delete, asked for, cancelled and asked for again, is sent by the confirming press. *)
Lemma user_row_asks_first_witness :
  sent now = [SetRole (js "viewer"); Delete] /\
  exists q, sent now = sent before ++ [q] /\ busy before = false /\ pending now = Some q /\ consent true history u ConfirmDelete q.
Proof.
  split; [vm_compute; reflexivity|].
  destruct (user_row_asks_first t (js "ann") true history u ConfirmDelete before now) as [[H|H] _];
    [vm_compute; reflexivity|vm_compute; reflexivity|exfalso|exact H].
  apply (f_equal (@length row_request)) in H. vm_compute in H. congruence.
Defined.

(** A refusal whose detail is not a text leaves the row waiting for ever. *)
Lemma unread_refusal_strands :
  let refusal := ApiError (VObj [(js "detail", VNum (int 7))]) in
  let r := default new_row (row_run t (js "ann") true ((u,.) <$> [AskDelete; ConfirmDelete; Answer (Some refusal)])) in
  busy r = true /\ pending r = None /\ error r = None.
Proof. vm_compute. done. Qed.
End UsersWitness.
