(* ===== verification/Topology.v ===== *)
(** The Topology map and the Matrix page's gates ([web/src/pages/topology.tsx], [web/src/lib/zone-layout.ts],
    [web/src/pages/matrix.tsx]): the figures and names the two pages accept, why a cell of the grid is silent, the
    boxes of the map and where they stand, and the edges drawn between them. *)
From S2P Require Import Prelude JsNum JsString JsCollections JsValue JsDate JsFormat JsUrl Matrix Agents MtrExplorer TimeMachine Api Overview.
Local Open Scope Z_scope.

(** ** The gates of the grid *)

Definition measured (v : value) : option number :=
  match v with VNum n => if isFinite n && (n >=? int 0)%num then Some n else None | _ => None end.

Definition measured_cell (c : value) : option MatrixCell :=
  if negb (isRecord c) then None
  else match vget c (js "source"), vget c (js "destination") with
  | VStr s, VStr d =>
      Some {| Matrix.source := s; Matrix.destination := d; failRatio := measured (vget c (js "failRatio")); rttP95 := measured (vget c (js "rttP95"));
              lossRatio := measured (vget c (js "lossRatio")); mtuBytes := measured (vget c (js "mtuBytes"));
              probeMtuBytes := measured (vget c (js "probeMtuBytes")); recentFailRatio := measured (vget c (js "recentFailRatio")) |}
  | _, _ => None
  end.

Definition measuredCells (cells : value) : list MatrixCell := match cells with VArr l => omap measured_cell l | _ => [] end.

Definition named (v : value) : option jstr := match v with VStr s => if seqb s [] then None else Some s | _ => None end.

Definition gridNodes (nodes : value) : list jstr := match nodes with VArr l => set_of_list (omap named l) | _ => [] end.

(** The agents that can be named, with their names. *)
Definition named_agents (agents : list value) : list (jstr * value) :=
  omap (fun a => if isRecord a then (fun n => (n, a)) <$> named (vget a (js "nodeName")) else None) agents.

Section Plane.
Context `{CollatorHost}.

Definition fleetWithoutPlane (agents : value) (plane : jstr) : list jstr :=
  match agents with
  | VArr l =>
      let rows := named_agents l in
      if existsb (fun r => runsPlane r.2 plane) rows then [] else js_sort compareNaturalName (set_of_list rows.*1)
  | _ => []
  end.

(** The axis of the grid: [data] and [topology] are the two answers, absent while they load. *)
Definition grid_axis (data topology : option value) (protocol : jstr) : list jstr :=
  let fromSeries := gridNodes (from_option (fun d => vget d (js "nodes")) VUndef data) in
  match fromSeries, data with
  | [], Some _ => fleetWithoutPlane (from_option (fun d => vget d (js "agents")) VUndef topology) protocol
  | _, _ => fromSeries
  end.
End Plane.

(** The sources that left the plane out. *)
Definition unsupportedSources (agents : value) (plane : jstr) : list jstr :=
  match agents with
  | VArr l =>
      let rows := named_agents l in
      let out := set_of_list (List.filter (fun r => negb (runsPlane r.2 plane)) rows).*1 in
      let runs := set_of_list (List.filter (fun r => runsPlane r.2 plane) rows).*1 in
      fold_left sdelete runs out
  | _ => []
  end.

Definition by_pair (cells : list MatrixCell) : list (jstr * MatrixCell) :=
  fold_left (fun m c => mset m (pair_key (Matrix.source c) (Matrix.destination c)) c) cells [].

Definition hasUnsupportedCell (nodes unsupported : list jstr) (plan : option ProbePlan) (byPair : list (jstr * MatrixCell)) : bool :=
  negb (length unsupported =? 0)%nat &&
  existsb (fun src => shas unsupported src &&
    existsb (fun dst => negb (seqb src dst || isPlanExcluded plan src dst || isMeasured (mget byPair (pair_key src dst)))) nodes) nodes.

Inductive Silence := excluded | unsupported | unscraped | none.

Definition silenceFor (plan : option ProbePlan) (unsupportedSources unscraped_ : list jstr) (src dst : jstr) : Silence :=
  if isPlanExcluded plan src dst then excluded
  else if shas unsupportedSources src then unsupported
  else if shas unscraped_ src then unscraped else none.

(** ** The boxes *)

(** [mn_ready] is undefined where nothing is known of the node's readiness. *)
Record MapNode := { mn_name : jstr; mn_zone : jstr; mn_ready : value; mn_external : bool }.

Inductive MapSource := src_nodes | src_agents.

Definition zoneOf (zone : value) : jstr := match zone with VStr z => z | _ => [] end.

Record map_row := { mr_name : value; mr_zone : value; mr_ready : value }.

Definition collect_step (external : list (jstr * value)) (byName : list (jstr * MapNode)) (r : map_row) : list (jstr * MapNode) :=
  match named (mr_name r) with
  | None => byName
  | Some name =>
      if mhas byName name then byName
      else
        let isExternal := mhas external name in
        mset byName name {| mn_name := name; mn_zone := zoneOf (mr_zone r);
                            mn_ready := if isExternal then VUndef else mr_ready r; mn_external := isExternal |}
  end.

Section Map.
Context `{CollatorHost}.

Definition collect (external : list (jstr * value)) (rows : list map_row) : list MapNode :=
  js_sort (fun a b => compareNaturalName (mn_name a) (mn_name b)) (mvalues (fold_left (collect_step external) rows [])).

Definition records (v : value) : list value := match v with VArr l => List.filter isRecord l | _ => [] end.

Definition node_row (n : value) : map_row := {| mr_name := vget n (js "name"); mr_zone := vget n (js "zone"); mr_ready := vget n (js "ready") |}.
Definition agent_row (a : value) : map_row := {| mr_name := vget a (js "nodeName"); mr_zone := vget a (js "zone"); mr_ready := VUndef |}.

Definition mapNodes (topo : option value) : list MapNode * MapSource :=
  match topo with
  | None => ([], src_nodes)
  | Some tp =>
      let external := externalByNode tp in
      let nodeRows := node_row <$> records (vget tp (js "nodes")) in
      let nodes := collect external nodeRows in
      match nodes with
      | _ :: _ =>
          let known := mn_name <$> nodes in
          let bareHosts := (fun e => agent_row e.2) <$> List.filter (fun e => negb (shas known e.1)) external in
          (match bareHosts with [] => nodes | _ => collect external (nodeRows ++ bareHosts) end, src_nodes)
      | [] => (collect external (agent_row <$> records (vget tp (js "agents"))), src_agents)
      end
  end.
End Map.

(** ** Where the boxes stand *)

Definition NODE_W : Z := 260.
Definition NODE_GAP : Z := 20.
Definition ZONE_PAD : Z := 20.
Definition NODE_H : Z := 64.
Definition ZONE_MAX_COLS : Z := 4.
Definition EDGE_CAP : nat := 10.
Definition ZONE_GAP : Z := 80.

Definition LANDSCAPE_PANE_ASPECT : number := int 2.
Definition PORTRAIT_PANE_ASPECT : number := dec 6 1.

(** [Math.sqrt] and [Math.log], whose last digits are the host's: the square root of a whole number of boxes is a
    number that is not negative. *)
Class MathHost := {
  Math_sqrt : number -> number;
  Math_log : number -> number;
  Math_sqrt_count n : 0 <= n -> exists z, Math_sqrt (int n) = Fin z /\ 0 <= z;
}.

Record ZoneSize := { zs_width : number; zs_height : number }.
Record ZonePoint := { zp_x : number; zp_y : number }.

(** The loop's variables. *)
Record packing := { pk_x : number; pk_y : number; pk_rowHeight : number; pk_width : number; pk_points : list ZonePoint }.

Definition wrap (cols i : Z) (p : packing) : packing :=
  if (0 <? i) && (i mod cols =? 0)
  then {| pk_x := int 0; pk_y := (pk_y p + (pk_rowHeight p + int ZONE_GAP))%num; pk_rowHeight := int 0; pk_width := pk_width p; pk_points := pk_points p |}
  else p.

Definition place (s : ZoneSize) (p : packing) : packing :=
  {| pk_points := pk_points p ++ [{| zp_x := pk_x p; zp_y := pk_y p |}];
     pk_width := nmax (pk_width p) (pk_x p + zs_width s)%num;
     pk_x := (pk_x p + (zs_width s + int ZONE_GAP))%num; pk_y := pk_y p;
     pk_rowHeight := nmax (pk_rowHeight p) (zs_height s) |}.

Fixpoint layout_from (cols i : Z) (sizes : list ZoneSize) (p : packing) : packing :=
  match sizes with
  | [] => p
  | s :: rest => layout_from cols (i + 1) rest (place s (wrap cols i p))
  end.

Definition layout (sizes : list ZoneSize) (cols : Z) : list ZonePoint * number * number :=
  let p := layout_from cols 0 sizes {| pk_x := int 0; pk_y := int 0; pk_rowHeight := int 0; pk_width := int 0; pk_points := [] |} in
  (pk_points p, pk_width p, (pk_y p + pk_rowHeight p)%num).

Section Pack.
Context `{MathHost}.

Definition misfit (width height paneAspect : number) : number := nabs (Math_log (width / height / paneAspect)%num).

Definition closer (paneAspect : number) (a b : list ZonePoint * number * number) : list ZonePoint * number * number :=
  if (misfit b.1.2 b.2 paneAspect <? misfit a.1.2 a.2 paneAspect)%num then b else a.

Definition pack_options (sizes : list ZoneSize) (paneAspect : number) : list Z :=
  let n := Z.of_nat (length sizes) in
  List.filter (fun c => c <=? n) (if (paneAspect <? int 1)%num then [3; 2; 1] else if n <=? 2 then [n] else [3; 2]).

Definition packZones (sizes : list ZoneSize) (paneAspect : number) : list ZonePoint :=
  match map (layout sizes) (pack_options sizes paneAspect) with
  | [] => []
  | l :: ls => (fold_left (closer paneAspect) ls l).1.1
  end.

Definition zoneColumns (count : Z) : number :=
  if count <=? 1 then int 1 else nmin (int ZONE_MAX_COLS) (nmax (int 1) (nceil (Math_sqrt (int count)))).

Definition zoneWidth (count : Z) : number :=
  let cols := zoneColumns count in
  (int (ZONE_PAD * 2) + cols * int NODE_W + (cols - int 1) * int NODE_GAP)%num.

Definition zone_size (count : Z) : ZoneSize :=
  {| zs_width := zoneWidth count; zs_height := (int 64 + nceil (int count / zoneColumns count) * int NODE_H)%num |}.

(** The place of the [j]th node of a zone, within it. *)
Definition node_place (count j : Z) : ZonePoint :=
  let cols := zoneColumns count in
  {| zp_x := (int ZONE_PAD + (int j mod cols) * int (NODE_W + NODE_GAP))%num;
     zp_y := (int 52 + nfloor (int j / cols) * int NODE_H)%num |}.
End Pack.

(** ** The drawing *)

Inductive health := h_ok | h_degraded | h_failing.

Record zone_box := { zb_zone : jstr; zb_label : jstr; zb_count : Z; zb_at : ZonePoint; zb_size : ZoneSize }.
Record node_box := { nb_name : jstr; nb_zone : jstr; nb_at : ZonePoint; nb_ready : value; nb_health : health; nb_external : bool; nb_aria : jstr }.
Record edge := { ed_id : jstr; ed_source : jstr; ed_target : jstr; ed_mutual : option bool; ed_label : jstr; ed_aria : jstr; ed_failing : bool }.
Record flow := { fl_zones : list zone_box; fl_nodes : list node_box; fl_edges : list edge; fl_problemTotal : Z; fl_source : MapSource }.

(** [None] is the [URIError] of a name with a lone surrogate. *)
Definition edgeId (source destination : jstr) : option jstr :=
  s ← uri_component source; d ← uri_component destination; Some (s ++ js "->" ++ d).

Definition worst_out (cells : list MatrixCell) : list (jstr * number) :=
  fold_left (fun m c => match severityRatio (Some c) with
                        | None => m
                        | Some r => mset m (Matrix.source c) (nmax (default (int 0) (mget m (Matrix.source c))) r)
                        end) cells [].

Definition node_health (ready : value) (fail : number) : health :=
  if match ready with VBool false => true | _ => false end then h_failing
  else if (fail >=? FAILING_AT)%num then h_failing else if (fail >=? DEGRADED_AT)%num then h_degraded else h_ok.

Definition HEALTH_KEYS (h : health) : jstr :=
  match h with h_ok => js "health.ok" | h_degraded => js "health.degraded" | h_failing => js "health.failing" end.

Definition ratio_of (c : MatrixCell) : number := default (int 0) (severityRatio (Some c)).

Definition drawable (known : list jstr) (c : MatrixCell) : bool :=
  isProblemCell (Some c) && negb (seqb (Matrix.source c) (Matrix.destination c)) && shas known (Matrix.source c) && shas known (Matrix.destination c).

(** One turn over the problem cells: the pair keeps its worst reading. *)
Definition worst_step (m : list (jstr * MatrixCell)) (c : MatrixCell) : list (jstr * MatrixCell) :=
  let key := pair_key (Matrix.source c) (Matrix.destination c) in
  match mget m key with
  | Some prev => if (ratio_of c >? ratio_of prev)%num then mset m key c else m
  | None => mset m key c
  end.

Definition problem_pairs (known : list jstr) (cells : list MatrixCell) : list MatrixCell :=
  js_sort (fun a b => (ratio_of b - ratio_of a)%num) (mvalues (fold_left worst_step (List.filter (drawable known) cells) [])).

Definition fail_label (t : Translate) (c : MatrixCell) : jstr :=
  t (match failRatio c with None => js "edge.label.loss" | Some _ => js "edge.label" end) [(js "pct", VStr (fmtRatio (Some (ratio_of c))))].

Definition draw_edge (t : Translate) (drawn : list jstr) (c : MatrixCell) : option edge :=
  eid ← edgeId (Matrix.source c) (Matrix.destination c);
  Some
    {| ed_id := eid; ed_source := Matrix.source c; ed_target := Matrix.destination c;
       ed_mutual := if shas drawn (pair_key (Matrix.destination c) (Matrix.source c)) then Some (sltb (Matrix.source c) (Matrix.destination c)) else None;
       ed_label := fail_label t c;
       ed_aria := t (js "edge.aria") [(js "source", VStr (Matrix.source c)); (js "destination", VStr (Matrix.destination c)); (js "detail", VStr (fail_label t c))];
       ed_failing := (ratio_of c >=? FAILING_AT)%num |}.

(** [Some None] for a box that is not a node's; [None] is a throw, of a name with a lone surrogate or an unreadable instant. *)
Definition nodeNavigationPath (isNode : bool) (id : jstr) (at_ : option Z) : option (option jstr) :=
  if negb isNode then Some None
  else
    enc ← uri_component id;
    let path := js "/nodes/" ++ enc in
    match at_ with
    | Some d => instant ← formatAtParam (Some d); q ← uri_component instant; Some (Some (path ++ js "?at=" ++ q))
    | None => Some (Some path)
    end.

Section Flow.
Context `{CollatorHost} `{MathHost}.

Definition zone_nodes (mapped : list MapNode) (z : jstr) : list MapNode := List.filter (fun n => seqb (mn_zone n) z) mapped.

Definition zones_of (mapped : list MapNode) : list jstr := sort_leb (fun a b => negb (sltb b a)) (set_of_list (mn_zone <$> mapped)).

Definition draw_node (t : Translate) (worstOut : list (jstr * number)) (z : jstr) (count j : Z) (n : MapNode) : node_box :=
  let h := node_health (mn_ready n) (default (int 0) (mget worstOut (mn_name n))) in
  let spoken := if seqb z [] then t (js "zone.none") [] else t (js "node.aria.zone") [(js "zone", VStr z)] in
  {| nb_name := mn_name n; nb_zone := z; nb_at := node_place count j; nb_ready := mn_ready n; nb_health := h; nb_external := mn_external n;
     nb_aria := t (if mn_external n then js "node.aria.external"
                   else match mn_ready n with VUndef => js "node.aria.readyUnknown" | v => if truthy v then js "node.aria" else js "node.aria.notReady" end)
                  [(js "node", VStr (mn_name n)); (js "zone", VStr spoken); (js "health", VStr (t (HEALTH_KEYS h) []))] |}.

Definition draw_zone (t : Translate) (mapped : list MapNode) (z : jstr) (at_ : ZonePoint) : zone_box :=
  let n := Z.of_nat (length (zone_nodes mapped z)) in
  {| zb_zone := z; zb_label := if seqb z [] then t (js "zone.none") [] else z; zb_count := n; zb_at := at_; zb_size := zone_size n |}.

(** [None]: the identifier of an edge throws. *)
(** [None]: the identifier of an edge throws. *)
Definition buildFlow (topo : value) (cells : value) (t : Translate) (paneAspect : option number) : option flow :=
  let '(mapped, source) := mapNodes (Some topo) in
  let zones := zones_of mapped in
  let measured := measuredCells cells in
  let points := packZones ((fun z => zone_size (Z.of_nat (length (zone_nodes mapped z)))) <$> zones) (default LANDSCAPE_PANE_ASPECT paneAspect) in
  let problems := problem_pairs (mn_name <$> mapped) measured in
  let drawn := take EDGE_CAP problems in
  edges ← mapM (draw_edge t ((fun c => pair_key (Matrix.source c) (Matrix.destination c)) <$> drawn)) drawn;
  Some
    {| fl_zones := zip_with (draw_zone t mapped) zones points;
       fl_nodes := zones ≫= (fun z => imap (fun j n => draw_node t (worst_out measured) z (Z.of_nat (length (zone_nodes mapped z))) (Z.of_nat j) n) (zone_nodes mapped z));
       fl_edges := edges;
       fl_problemTotal := Z.of_nat (length problems); fl_source := source |}.

(** [v ?? 0]. *)
Definition or_zero (v : value) : value := match v with VUndef | VNull => VNum (int 0) | _ => v end.

Definition unfoldableEmpty (topo : option value) : option (value * value) :=
  tp ← topo;
  if negb (truthy (vget tp (js "historical"))) then None
  else match (mapNodes (Some tp)).1 with
  | _ :: _ => None
  | [] => let unfoldableEvents := or_zero (vget tp (js "unfoldableEvents")) in
          if match unfoldableEvents with VNum n => (n =? int 0)%num | _ => false end then None
          else Some (unfoldableEvents, or_zero (vget tp (js "eventsFolded")))
  end.
End Flow.

(** * Theorems *)

(** ** Why a cell is silent *)

(** Two sets are subtracted member by member. *)
Lemma elem_of_fold_sdelete (l s : list jstr) y : y ∈ fold_left sdelete l s <-> y ∈ s /\ y ∉ l.
Proof.
  revert s. induction l as [|x l IH]; intros s; cbn [fold_left]; [split; [intros; split; [done|apply not_elem_of_nil]|by intros [? _]]|].
  rewrite IH, elem_of_sdelete, not_elem_of_cons. tauto.
Qed.

(** A source is unsupported exactly when agents of its name registered and not one of them runs the plane. *)
Theorem unsupportedSources_spec l plane name :
  name ∈ unsupportedSources (VArr l) plane <->
  (exists a, (name, a) ∈ named_agents l) /\ forall a, (name, a) ∈ named_agents l -> runsPlane a plane = false.
Proof.
  unfold unsupportedSources. rewrite elem_of_fold_sdelete, !elem_of_set_of_list, !list_elem_of_fmap. split.
  - intros [([n a] & -> & [Ha _]%elem_of_filter_b) Hno]. cbn [fst] in *. split; [by exists a|].
    intros a' Ha'. apply not_true_iff_false. intros Hr. apply Hno. exists (n, a'). by rewrite elem_of_filter_b.
  - intros [[a Ha] Hall]. split; [exists (name, a); split; [done|]; apply elem_of_filter_b; split; [done|]; cbn [snd]; by rewrite (Hall a Ha)|].
    intros ([n a'] & -> & [Ha' Hr]%elem_of_filter_b). cbn [fst snd] in *. by rewrite (Hall a' Ha') in Hr.
Qed.

(** ** Boxes never overlap *)

Record rect := { rx : Z; ry : Z; rw : Z; rh : Z }.

(** At least [gap] apart in some direction. *)
Definition apart (gap : Z) (a b : rect) : Prop :=
  rx a + rw a + gap <= rx b \/ rx b + rw b + gap <= rx a \/ ry a + rh a + gap <= ry b \/ ry b + rh b + gap <= ry a.

Definition inside (a b : rect) : Prop := 0 <= rx a /\ rx a + rw a <= rw b /\ 0 <= ry a /\ ry a + rh a <= rh b.

Definition at_point (p : ZonePoint) (r : rect) : Prop := zp_x p = int (rx r) /\ zp_y p = int (ry r).
Definition of_size (s : ZoneSize) (r : rect) : Prop := zs_width s = int (rw r) /\ zs_height s = int (rh r) /\ 0 <= rw r /\ 0 <= rh r.

(** The room a box takes of the drawing's sides. *)
Definition room (r : rect) : Z := rw r + rh r + 2 * ZONE_GAP.

(** What has been placed: rows above, and the boxes of the current row to the left. *)
Record packed (bs : list rect) (p : packing) (x y h : Z) : Prop := {
  k_x : pk_x p = int x; k_y : pk_y p = int y; k_h : pk_rowHeight p = int h;
  k_points : Forall2 at_point (pk_points p) bs;
  k_pos : 0 <= x /\ 0 <= y /\ 0 <= h;
  k_rows : Forall (fun b => ry b + rh b + ZONE_GAP <= y \/ ry b = y /\ rx b + rw b + ZONE_GAP <= x /\ rh b <= h) bs;
  k_apart : StronglySorted (apart ZONE_GAP) bs;
}.

Lemma packed_wrap bs p x y h cols i :
  packed bs p x y h -> safe (y + (h + ZONE_GAP)) ->
  exists x' y' h', packed bs (wrap cols i p) x' y' h' /\ x' + y' + h' <= x + y + h + ZONE_GAP.
Proof.
  intros Hk Hs. pose proof (k_pos _ _ _ _ _ Hk). unfold wrap. destruct (_ && _); [|exists x, y, h; split; [done|unfold ZONE_GAP; lia]].
  exists 0, (y + (h + ZONE_GAP)), 0. split; [|lia]. destruct Hk as [Kx Ky Kh Kp K0 Kr Ka].
  split; cbn [pk_x pk_y pk_rowHeight pk_points]; try done.
  - rewrite Ky, Kh, (nadd_int h ZONE_GAP), nadd_int; [done|..]; unfold safe, ZONE_GAP in *; lia.
  - unfold ZONE_GAP in *. lia.
  - apply (Forall_impl _ _ _ Kr). intros b Hb. left. unfold ZONE_GAP in *. lia.
Qed.

Lemma packed_place bs p x y h s r0 :
  packed bs p x y h -> of_size s r0 -> safe (x + (rw r0 + ZONE_GAP)) ->
  let r := {| rx := x; ry := y; rw := rw r0; rh := rh r0 |} in
  packed (bs ++ [r]) (place s p) (x + (rw r0 + ZONE_GAP)) y (Z.max h (rh r0)).
Proof.
  intros [Kx Ky Kh Kp K0 Kr Ka] (Sw & Sh & W0 & H0) Hs r.
  split; cbn [place pk_x pk_y pk_rowHeight pk_points]; try done.
  - rewrite Kx, Sw, (nadd_int (rw r0) ZONE_GAP), nadd_int; [done|..]; unfold safe, ZONE_GAP in *; lia.
  - by rewrite Kh, Sh, nmax_int.
  - apply Forall2_app; [done|]. constructor; [by split|constructor].
  - unfold ZONE_GAP in *. lia.
  - apply Forall_app. split.
    + apply (Forall_impl _ _ _ Kr). intros b Hb. unfold ZONE_GAP in *. lia.
    + constructor; [|constructor]. right. cbn. unfold ZONE_GAP. lia.
  - apply StronglySorted_snoc; [done|]. apply (Forall_impl _ _ _ Kr). intros b Hb. unfold apart. cbn [rx ry rw rh r].
    unfold ZONE_GAP in *. lia.
Qed.

Lemma layout_from_packed cols sizes : forall i bs p x y h rs,
  packed bs p x y h -> Forall2 of_size sizes rs -> safe (x + y + h + sumZ (room <$> rs)) ->
  exists bs' x' y' h', packed (bs ++ bs') (layout_from cols i sizes p) x' y' h' /\ Forall2 of_size sizes bs'.
Proof.
  induction sizes as [|s sizes IH]; intros i bs p x y h rs Hk Hrs Hs; inversion Hrs as [|? r0 ? rs' Hr Hrs']; subst; cbn [layout_from].
  - exists [], x, y, h. rewrite app_nil_r. split; [done|constructor].
  - cbn [fmap list_fmap sumZ foldr] in Hs. pose proof (k_pos _ _ _ _ _ Hk). destruct Hr as (Sw & Sh & W0 & H0).
    assert (Hrest : 0 <= sumZ (room <$> rs')).
    { apply sumZ_nonneg. apply Forall_fmap. clear -Hrs'. induction Hrs' as [|? r ? rs (_ & _ & ? & ?)]; constructor; [unfold compose, room, ZONE_GAP; lia|done]. }
    change (safe (x + y + h + (room r0 + sumZ (room <$> rs')))) in Hs. unfold room in Hs at 1.
    destruct (packed_wrap bs p x y h cols i Hk) as (x' & y' & h' & Hk' & Hle); [unfold safe, ZONE_GAP in *; lia|].
    pose proof (k_pos _ _ _ _ _ Hk').
    pose proof (packed_place bs _ x' y' h' s r0 Hk' (conj Sw (conj Sh (conj W0 H0)))) as Hpl.
    destruct (IH (i + 1) _ _ _ _ _ rs' (Hpl ltac:(unfold safe, ZONE_GAP in *; lia)) Hrs') as (bs' & x'' & y'' & h'' & Hk'' & Hb).
    { unfold safe, ZONE_GAP in *. lia. }
    rewrite <- app_assoc in Hk''. cbn [app] in Hk''. eexists _, x'', y'', h''. split; [exact Hk''|]. by constructor.
Qed.

Lemma layout_apart sizes cols rs :
  Forall2 of_size sizes rs -> safe (sumZ (room <$> rs)) ->
  exists bs, Forall2 at_point (layout sizes cols).1.1 bs /\ Forall2 of_size sizes bs /\ StronglySorted (apart ZONE_GAP) bs.
Proof.
  intros Hrs Hs. unfold layout. set (p0 := {| pk_x := int 0 |}).
  destruct (layout_from_packed cols sizes 0 [] p0 0 0 0 rs) as (bs & x & y & h & Hk & Hb); [|done|done|].
  - split; try done; constructor.
  - exists bs. destruct Hk. cbn [app] in *. done.
Qed.

Section Drawn.
Context `{CollatorHost} `{MathHost}.

(** Whatever [Math.log] answers, the packing is one of the layouts, with at least one column. *)
Lemma packZones_layout sizes paneAspect :
  sizes <> [] -> exists cols, packZones sizes paneAspect = (layout sizes cols).1.1.
Proof.
  intros Hne. assert (Ho : pack_options sizes paneAspect <> []).
  { unfold pack_options. assert (Hn : 1 <= Z.of_nat (length sizes)) by (destruct sizes; [done|simpl; lia]).
    destruct (_ <? int 1)%num; [|destruct (Z.leb_spec (Z.of_nat (length sizes)) 2)]; cbn [List.filter].
    - rewrite (proj2 (Z.leb_le 1 _)) by lia. repeat case_match; done.
    - by rewrite Z.leb_refl.
    - by rewrite (proj2 (Z.leb_le 3 _)) by lia. }
  unfold packZones. destruct (pack_options sizes paneAspect) as [|c cs]; [done|]. cbn [map].
  assert (Hf : forall ls l, (exists c, l = layout sizes c) -> Forall (fun l => exists c, l = layout sizes c) ls ->
    exists c, fold_left (closer paneAspect) ls l = layout sizes c).
  { induction ls as [|l' ls IH]; intros l Hl Hls; [done|]. apply Forall_cons in Hls as [Hl' Hls]. cbn [fold_left]. apply IH; [|done].
    unfold closer. by case_match. }
  destruct (Hf (map (layout sizes) cs) (layout sizes c)) as [c' ->]; [by exists c| |by exists c'].
  apply Forall_forall. intros l (c' & -> & _)%list_elem_of_fmap. by exists c'.
Qed.

Lemma zoneColumns_int count : 1 <= count -> exists k, zoneColumns count = int k /\ 1 <= k <= 4.
Proof.
  intros Hc. unfold zoneColumns. destruct (Z.leb_spec count 1); [by exists 1|].
  destruct (Math_sqrt_count count ltac:(lia)) as (z & -> & Hz). cbn [nceil].
  assert (Hi : exists k, nceil (Fin z) = int k) by (by eexists).
  destruct Hi as [k Hk]. cbn [nceil] in Hk. rewrite Hk, nmax_int, nmin_int. eexists. split; [done|]. unfold ZONE_MAX_COLS. lia.
Qed.

Definition zone_w (k : Z) : Z := 40 + k * 260 + (k - 1) * 20.
Definition zone_h (k count : Z) : Z := 64 + (count + k - 1) / k * 64.

Lemma rows_bound k count : 1 <= k <= 4 -> 1 <= count -> 1 <= (count + k - 1) / k <= count.
Proof. intros. Z.to_euclidean_division_equations. nia. Qed.

(** A zone of [count] boxes: how many columns, and its size. *)
Lemma zone_size_int count :
  1 <= count <= 2 ^ 20 ->
  exists k, 1 <= k <= 4 /\ zoneColumns count = int k /\ zs_width (zone_size count) = int (zone_w k) /\ zs_height (zone_size count) = int (zone_h k count).
Proof.
  intros Hc. destruct (zoneColumns_int count ltac:(lia)) as (k & Hk & Hr). exists k. split_and!; [lia|lia|done| |]; cbn [zone_size zs_width zs_height].
  - unfold zoneWidth. rewrite Hk. unfold ZONE_PAD, NODE_W, NODE_GAP, zone_w.
    rewrite (nmul_int k 260), (nsub_int k 1), (nmul_int (k - 1) 20), (nadd_int (20 * 2)), nadd_int by (unfold safe; lia). f_equal.
  - rewrite Hk, nceil_ndiv_safe by lia. pose proof (rows_bound k count ltac:(lia) ltac:(lia)). unfold NODE_H, zone_h.
    by rewrite nmul_int, nadd_int by (unfold safe; lia).
Qed.

(** The [j]th box of a zone, by column and row. *)
Definition node_rect (k j : Z) : rect := {| rx := 20 + j mod k * 280; ry := 52 + j / k * 64; rw := NODE_W; rh := NODE_H |}.

Lemma node_place_int count k j :
  zoneColumns count = int k -> 1 <= k <= 4 -> 0 <= j < count -> count <= 2 ^ 20 -> at_point (node_place count j) (node_rect k j).
Proof.
  intros Hk Hr Hj Hc. unfold node_place, at_point. cbn [zp_x zp_y node_rect rx ry]. rewrite Hk.
  rewrite nrem_int, Z.rem_mod_nonneg, nfloor_ndiv_safe by lia. unfold ZONE_PAD, NODE_W, NODE_GAP, NODE_H. change (260 + 20) with 280.
  pose proof (Z.mod_pos_bound j k ltac:(lia)). assert (0 <= j / k <= j) by (Z.to_euclidean_division_equations; nia).
  rewrite (nmul_int (j mod k)), (nmul_int (j / k)), !nadd_int by (unfold safe; lia). done.
Qed.

Lemma node_inside count k j :
  1 <= k <= 4 -> 0 <= j < count -> inside (node_rect k j) {| rx := 0; ry := 0; rw := zone_w k; rh := zone_h k count |}.
Proof.
  intros Hk Hj. unfold inside. cbn [node_rect rx ry rw rh]. unfold NODE_W, NODE_H, zone_w, zone_h.
  pose proof (Z.mod_pos_bound j k ltac:(lia)). assert (0 <= j / k < (count + k - 1) / k) by (Z.to_euclidean_division_equations; nia). nia.
Qed.

Lemma node_apart k i j : 1 <= k <= 4 -> 0 <= i -> i < j -> apart 0 (node_rect k i) (node_rect k j).
Proof.
  intros Hk Hi Hj. unfold apart. cbn [node_rect rx ry rw rh]. unfold NODE_W, NODE_H.
  destruct (Z.eq_dec (i / k) (j / k)) as [E|E].
  - left. assert (i mod k < j mod k) by (Z.to_euclidean_division_equations; nia). lia.
  - right. right. left. assert (i / k < j / k) by (Z.to_euclidean_division_equations; nia). lia.
Qed.

Lemma sumZ_bound l b : Forall (fun x => x <= b) l -> sumZ l <= Z.of_nat (length l) * b.
Proof. unfold sumZ. induction 1; simpl; lia. Qed.

Lemma zones_count mapped z :
  z ∈ zones_of mapped -> 1 <= Z.of_nat (length (zone_nodes mapped z)) <= Z.of_nat (length mapped).
Proof.
  unfold zones_of. rewrite elem_of_sort_leb, elem_of_set_of_list. intros (n & -> & Hn)%list_elem_of_fmap. split.
  - assert (Hin : n ∈ zone_nodes mapped (mn_zone n)) by (apply elem_of_filter_b; split; [done|by apply seqb_eq]).
    destruct (zone_nodes mapped (mn_zone n)); [by apply elem_of_nil in Hin|simpl; lia].
  - unfold zone_nodes. pose proof (List.filter_length_le (fun n0 => seqb (mn_zone n0) (mn_zone n)) mapped). lia.
Qed.

Lemma zones_length mapped : (length (zones_of mapped) <= length mapped)%nat.
Proof. unfold zones_of. rewrite length_sort_leb. pose proof (length_set_of_list_le (mn_zone <$> mapped)). by rewrite length_fmap in *. Qed.

(** Every zone has a place, and no two overlap. *)
Lemma zones_apart mapped paneAspect :
  Z.of_nat (length mapped) <= 2 ^ 20 ->
  let sizes := (fun z => zone_size (Z.of_nat (length (zone_nodes mapped z)))) <$> zones_of mapped in
  exists bs, Forall2 at_point (packZones sizes paneAspect) bs /\ Forall2 of_size sizes bs /\ StronglySorted (apart ZONE_GAP) bs.
Proof.
  intros Hn sizes. destruct (decide (zones_of mapped = [])) as [E|Hne].
  { subst sizes. rewrite E. exists []. cbn. split_and!; [|constructor|constructor].
    unfold packZones, pack_options. cbn. destruct (paneAspect <? int 1)%num; cbn; constructor. }
  destruct (packZones_layout sizes paneAspect) as [cols ->]; [subst sizes; by destruct (zones_of mapped)|].
  assert (Hrs : exists rs, Forall2 of_size sizes rs /\ Forall (fun r => room r <= 1364 + 2 ^ 20 * 64) rs).
  { subst sizes. pose proof (zones_count mapped) as Hc. revert Hc. generalize (zones_of mapped). intros zs Hc. clear Hne.
    induction zs as [|z zs IH]; [exists []; split; constructor|].
    destruct IH as (rs & H1 & H2); [intros z' Hz'; apply Hc; by right|]. pose proof (Hc z ltac:(left)) as Hz.
    destruct (zone_size_int (Z.of_nat (length (zone_nodes mapped z)))) as (k & Hk & _ & Hw & Hh); [lia|].
    pose proof (rows_bound k (Z.of_nat (length (zone_nodes mapped z))) Hk ltac:(lia)).
    exists ({| rx := 0; ry := 0; rw := zone_w k; rh := zone_h k (Z.of_nat (length (zone_nodes mapped z))) |} :: rs).
    split; (constructor; [|done]).
    - split_and!; [done|done|cbn; unfold zone_w; lia|cbn; unfold zone_h; lia].
    - unfold room. cbn [rw rh]. unfold zone_w, zone_h, ZONE_GAP. lia. }
  destruct Hrs as (rs & H1 & H2). apply (layout_apart sizes cols rs); [done|].
  assert (Hlen : (length rs <= length mapped)%nat).
  { rewrite <- (Forall2_length _ _ _ H1). subst sizes. rewrite length_fmap. apply zones_length. }
  assert (Hpos : 0 <= sumZ (room <$> rs)).
  { apply sumZ_nonneg, Forall_fmap. clear -H1. induction H1 as [|? r ? rs' (_ & _ & ? & ?)]; constructor; [unfold compose, room, ZONE_GAP; lia|done]. }
  pose proof (sumZ_bound (room <$> rs) (1364 + 2 ^ 20 * 64) ltac:(by apply Forall_fmap)) as Hb. rewrite length_fmap in Hb. unfold safe. nia.
Qed.
End Drawn.

(** Grouping by a key covers every element once. *)
Definition of_key {A} (key : A -> jstr) (l : list A) (z : jstr) : list A := List.filter (fun x => seqb (key x) z) l.

Lemma of_key_cons {A} (key : A -> jstr) x l z : of_key key (x :: l) z = (if seqb (key x) z then [x] else []) ++ of_key key l z.
Proof. unfold of_key. cbn [List.filter]. by destruct (seqb (key x) z). Qed.

Lemma bind_of_key_other {A} (key : A -> jstr) x l zs : key x ∉ zs -> (zs ≫= of_key key (x :: l)) = (zs ≫= of_key key l).
Proof.
  induction zs as [|z zs IH]; [done|]. intros [Hz Hzs]%not_elem_of_cons. cbn [mbind list_bind].
  rewrite of_key_cons, (proj2 (seqb_neq _ _) Hz). cbn [app]. f_equal. by apply IH.
Qed.

Lemma bind_of_key_cons {A} (key : A -> jstr) x l zs :
  NoDup zs -> key x ∈ zs -> (zs ≫= of_key key (x :: l)) ≡ₚ x :: (zs ≫= of_key key l).
Proof.
  induction 1 as [|z zs Hz Hn IH]; [by intros ?%elem_of_nil|]. intros Hk. cbn [mbind list_bind]. rewrite of_key_cons.
  destruct (seqb (key x) z) eqn:E.
  - apply seqb_eq in E. subst z. cbn [app]. rewrite bind_of_key_other by done. done.
  - apply seqb_neq in E. apply elem_of_cons in Hk as [Hk|Hk]; [done|]. cbn [app].
    change (list_bind _ _ (of_key key (x :: l)) zs) with (zs ≫= of_key key (x :: l)). rewrite (IH Hk). by rewrite Permutation_middle.
Qed.

Lemma bind_filter_perm {A} (key : A -> jstr) (zs : list jstr) (l : list A) :
  NoDup zs -> (forall x, x ∈ l -> key x ∈ zs) -> (zs ≫= of_key key l) ≡ₚ l.
Proof.
  intros Hn. induction l as [|x l IH]; intros Hc; [by clear; induction zs|].
  rewrite bind_of_key_cons; [|done|apply Hc; left]. constructor. apply IH. intros y Hy. apply Hc. by right.
Qed.

Lemma StronglySorted_imap {A B} (R : B -> B -> Prop) (f : nat -> A -> B) l :
  (forall i j x y, (i < j)%nat -> x ∈ l -> y ∈ l -> R (f i x) (f j y)) -> StronglySorted R (imap f l).
Proof.
  revert f. induction l as [|x l IH]; intros f Hf; [constructor|]. rewrite imap_cons. constructor.
  - apply IH. intros i j y z Hij Hy Hz. apply Hf; [lia|by right..].
  - apply Forall_forall. intros b (i & y & -> & Hy)%elem_of_lookup_imap. apply Hf; [lia|left|right]. by apply list_elem_of_lookup_2 in Hy.
Qed.

Lemma StronglySorted_blocks {A} (R : A -> A -> Prop) (key : A -> jstr) (f : jstr -> list A) zs :
  NoDup zs -> (forall z, z ∈ zs -> StronglySorted R (f z) /\ Forall (fun a => key a = z) (f z)) ->
  (forall a b, key a <> key b -> R a b) -> StronglySorted R (zs ≫= f).
Proof.
  intros Hn Hf HR. induction Hn as [|z zs Hz Hn IH]; [constructor|]. cbn [mbind list_bind].
  destruct (Hf z ltac:(left)) as [Hs Hk]. specialize (IH (fun z' Hz' => Hf z' ltac:(by right))).
  assert (Hcross : Forall (fun a => Forall (R a) (zs ≫= f)) (f z)).
  { apply (Forall_impl _ _ _ Hk). intros a Ha. apply Forall_forall. intros b (z' & Hb & Hz')%list_elem_of_bind.
    apply HR. rewrite Ha, (proj1 (Forall_forall _ _) (proj2 (Hf z' ltac:(by right))) b Hb). congruence. }
  clear -Hs Hcross IH. induction Hs as [|a l Hs IHs Hl]; cbn [app]; [done|]. apply Forall_cons in Hcross as [Ha Hcross].
  constructor; [by apply IHs|]. apply Forall_app. by split.
Qed.

(** The columns of a zone, as a whole number. *)
Definition columns_of `{MathHost} (count : Z) : Z := match zoneColumns count with Fin z => z / U | _ => 0 end.

Lemma columns_of_int `{MathHost} count k : zoneColumns count = int k -> columns_of count = k.
Proof. unfold columns_of. intros ->. unfold int. pose proof U_pos. by rewrite Z.div_mul by lia. Qed.

Section MapTheorem.
Context `{CollatorHost} `{MathHost}.

Definition node_count (mapped : list MapNode) (z : jstr) : Z := Z.of_nat (length (zone_nodes mapped z)).

(** The node boxes of one zone, each with the rectangle it covers within the zone. *)
Definition zone_block (t : Translate) (worst : list (jstr * number)) (mapped : list MapNode) (z : jstr) : list (node_box * rect) :=
  imap (fun j n => (draw_node t worst z (node_count mapped z) (Z.of_nat j) n, node_rect (columns_of (node_count mapped z)) (Z.of_nat j))) (zone_nodes mapped z).

Lemma zones_NoDup mapped : NoDup (zones_of mapped).
Proof. unfold zones_of. rewrite sort_leb_perm. apply NoDup_set_of_list. Qed.

Lemma zone_block_boxes t worst mapped z :
  (zone_block t worst mapped z).*1 = imap (fun j n => draw_node t worst z (node_count mapped z) (Z.of_nat j) n) (zone_nodes mapped z).
Proof. unfold zone_block. by rewrite fmap_imap. Qed.

Lemma zone_block_names t worst mapped z : nb_name <$> (zone_block t worst mapped z).*1 = mn_name <$> zone_nodes mapped z.
Proof.
  rewrite zone_block_boxes, fmap_imap. unfold compose. cbn [draw_node nb_name]. generalize (zone_nodes mapped z).
  intros l. induction l as [|n l IH]; [done|]. rewrite imap_cons. cbn. f_equal. exact IH.
Qed.

(** The boxes of one zone: each where its rectangle says, inside the zone, none over another. *)
Lemma zone_block_spec t worst mapped z :
  z ∈ zones_of mapped -> Z.of_nat (length mapped) <= 2 ^ 20 ->
  StronglySorted (fun a b => nb_zone a.1 = nb_zone b.1 -> apart 0 a.2 b.2) (zone_block t worst mapped z) /\
  Forall (fun a => nb_zone a.1 = z) (zone_block t worst mapped z) /\
  forall a b, a ∈ zone_block t worst mapped z -> of_size (zone_size (node_count mapped z)) b ->
    at_point (nb_at a.1) a.2 /\ rw a.2 = NODE_W /\ rh a.2 = NODE_H /\ inside a.2 b.
Proof.
  intros Hz Hn. pose proof (zones_count mapped z Hz) as Hc. fold (node_count mapped z) in Hc.
  destruct (zone_size_int (node_count mapped z) ltac:(lia)) as (k & Hk & Hcol & Hw & Hh). unfold zone_block. rewrite (columns_of_int _ k Hcol). split_and!.
  - apply StronglySorted_imap. intros i j x y Hij _ _ _. cbn [snd]. apply node_apart; lia.
  - apply Forall_forall. intros a (i & n & -> & _)%elem_of_lookup_imap. done.
  - intros a b (i & n & -> & Hi)%elem_of_lookup_imap (Bw & Bh & _). cbn [fst snd draw_node nb_at].
    apply lookup_lt_Some in Hi. assert (Hj : 0 <= Z.of_nat i < node_count mapped z) by (unfold node_count; lia).
    rewrite Hw in Bw. rewrite Hh in Bh. apply int_inj in Bw, Bh. split_and!; [|done|done|].
    + by apply node_place_int; [..|lia].
    + pose proof (node_inside (node_count mapped z) k (Z.of_nat i) Hk Hj) as (? & ? & ? & ?). unfold inside. cbn [rw rh] in *. rewrite <- Bw, <- Bh. done.
Qed.

Lemma zip_with_zones t mapped points zs bs :
  Forall2 at_point points bs -> Forall2 of_size ((fun z => zone_size (node_count mapped z)) <$> zs) bs ->
  zb_zone <$> zip_with (draw_zone t mapped) zs points = zs /\
  Forall2 (fun z b => at_point (zb_at z) b /\ of_size (zb_size z) b /\ zb_size z = zone_size (node_count mapped (zb_zone z)))
    (zip_with (draw_zone t mapped) zs points) bs.
Proof.
  intros Hp. revert zs. induction Hp as [|p b points bs Hpb Hp IH]; intros zs Hs; destruct zs as [|z zs]; inversion Hs; subst.
  - split; [done|constructor].
  - destruct (IH zs ltac:(done)) as [H1 H2]. cbn [zip_with fmap list_fmap]. split; [cbn; by f_equal|]. by constructor.
Qed.

End MapTheorem.

(** ** The edges *)

Definition ratio_units (c : MatrixCell) : Z := units (ratio_of c).

Lemma ratio_finite c : ratio_of c = Fin (ratio_units c).
Proof.
  unfold ratio_units, ratio_of, severityRatio. cbn [omap list_omap]. unfold finite.
  destruct (failRatio c) as [[|b|x]|], (lossRatio c) as [[|b'|y]|]; cbn [isFinite]; try reflexivity.
  unfold nmaximum. cbn. unfold nmax. cbn. by destruct (x <? y).
Qed.

Abbreviation cell_key c := (pair_key (Matrix.source c) (Matrix.destination c)).

(** What the map of pairs holds after a list of cells: a cell of the list under its own key, the worst of that key. *)
Lemma worst_fold l :
  let m := fold_left worst_step l [] in
  NoDup (mkeys m) /\
  (forall k c, mget m k = Some c -> k = cell_key c /\ c ∈ l) /\
  forall c, c ∈ l -> exists w, mget m (cell_key c) = Some w /\ ratio_units c <= ratio_units w.
Proof.
  cbv zeta. induction l as [|x l (Hd & Hin & Hw)] using rev_ind.
  { split_and!; [constructor|done|]. intros c Hc. by apply not_elem_of_nil in Hc. }
  rewrite fold_left_app. cbn [fold_left]. set (m := fold_left worst_step l []) in *.
  assert (Hset : (forall w, mget m (cell_key x) = Some w -> ratio_units w <= ratio_units x) ->
    NoDup (mkeys (mset m (cell_key x) x)) /\
    (forall k c, mget (mset m (cell_key x) x) k = Some c -> k = cell_key c /\ c ∈ l ++ [x]) /\
    forall c, c ∈ l ++ [x] -> exists w, mget (mset m (cell_key x) x) (cell_key c) = Some w /\ ratio_units c <= ratio_units w).
  { intros Hx. split_and!; [by apply NoDup_mkeys_mset|..].
    - intros k c. destruct (decide (cell_key x = k)) as [<-|Hne].
      + rewrite mget_mset_eq. intros <-%(inj Some). split; [done|]. apply elem_of_app. right. by apply list_elem_of_singleton.
      + rewrite mget_mset_ne by done. intros E. apply Hin in E as [-> ?]. split; [done|]. apply elem_of_app. by left.
    - intros c Hc. destruct (decide (cell_key x = cell_key c)) as [E|Hne].
      + exists x. rewrite <- E, mget_mset_eq. split; [done|]. apply elem_of_app in Hc as [Hc| ->%list_elem_of_singleton]; [|lia].
        destruct (Hw c Hc) as (w & Ew & Hle). rewrite <- E in Ew. pose proof (Hx w Ew). lia.
      + rewrite mget_mset_ne by done. apply elem_of_app in Hc as [Hc| ->%list_elem_of_singleton]; [|done]. by apply Hw. }
  assert (Hst : worst_step m x = mset m (cell_key x) x /\ (forall w, mget m (cell_key x) = Some w -> ratio_units w <= ratio_units x) \/
    worst_step m x = m /\ exists w, mget m (cell_key x) = Some w /\ ratio_units x <= ratio_units w).
  { unfold worst_step. destruct (mget m (cell_key x)) as [prev|]; [|by left]. rewrite !ratio_finite.
    change (Fin (ratio_units x) >? Fin (ratio_units prev))%num with (ratio_units prev <? ratio_units x).
    destruct (Z.ltb_spec (ratio_units prev) (ratio_units x)); [left|by right; split; [|exists prev]]. split; [done|]. intros w <-%(inj Some). lia. }
  destruct Hst as [[-> Hx]|[-> Hx]]; [by apply Hset|]. split_and!; [done|..].
  - intros k c E. apply Hin in E as [-> ?]. split; [done|]. apply elem_of_app. by left.
  - intros c [Hc| ->%list_elem_of_singleton]%elem_of_app; [by apply Hw|done].
Qed.

(** A map whose values carry their keys. *)
Lemma mvalues_keyed {V} (key : V -> jstr) (m : list (jstr * V)) :
  NoDup (mkeys m) -> (forall k v, mget m k = Some v -> k = key v) ->
  key <$> mvalues m = mkeys m /\ forall v, v ∈ mvalues m <-> mget m (key v) = Some v.
Proof.
  intros Hd Hk. assert (Hin : forall k v, (k, v) ∈ m -> k = key v) by (intros k v ?%(mget_elem_of _ _ _ Hd); by apply Hk). split.
  - clear Hd Hk. unfold mvalues, mkeys. induction m as [|[k v] m IH]; [done|]. cbn. f_equal; [symmetry; apply Hin; left|]. apply IH. intros. apply Hin. by right.
  - intros v. split; [|intros ?%mget_in; apply list_elem_of_fmap; by exists (key v, v)].
    intros ([k v'] & -> & Hkv)%list_elem_of_fmap. cbn [snd]. rewrite <- (Hin _ _ Hkv). by apply mget_elem_of.
Qed.

Definition no_milder (a b : MatrixCell) : Prop := ratio_units b <= ratio_units a.

Lemma by_ratio_sorted l : StronglySorted no_milder (js_sort (fun a b => (ratio_of b - ratio_of a)%num) l).
Proof.
  apply (js_sort_sorted _ (fun _ => True)); [|unfold no_milder; lia..|by apply Forall_true].
  intros a b _ _. unfold cmp_leb, no_milder. rewrite !ratio_finite, (proj1 (nsub_sign _ _)), negb_true_iff. lia.
Qed.

Lemma drawable_spec known c :
  drawable known c = true <->
  isProblemCell (Some c) = true /\ Matrix.source c <> Matrix.destination c /\ Matrix.source c ∈ known /\ Matrix.destination c ∈ known.
Proof. unfold drawable. rewrite !andb_true_iff, negb_true_iff, seqb_neq, !shas_spec. tauto. Qed.

(** The pairs of the map, worst first: each drawable pair once, by its worst cell. *)
Lemma problem_pairs_spec known cells :
  let ps := problem_pairs known cells in
  StronglySorted no_milder ps /\ NoDup ((fun c => cell_key c) <$> ps) /\
  (forall c, c ∈ ps -> c ∈ cells /\ drawable known c = true) /\
  forall c, c ∈ cells -> drawable known c = true -> exists w, w ∈ ps /\ cell_key w = cell_key c /\ ratio_units c <= ratio_units w.
Proof.
  intros ps. destruct (worst_fold (List.filter (drawable known) cells)) as (Hd & Hin & Hw).
  set (m := fold_left worst_step _ []) in *.
  destruct (mvalues_keyed (fun c => cell_key c) m Hd ltac:(intros k v E; apply (Hin _ _ E))) as [Hk Hv].
  assert (Hp : ps ≡ₚ mvalues m) by apply sort_leb_perm. split_and!; [apply by_ratio_sorted|by rewrite Hp, Hk|..].
  - intros c Hc. rewrite Hp, Hv in Hc. apply Hin in Hc as [_ Hc]. by apply elem_of_filter_b in Hc as [? ?].
  - intros c Hc Hdr. destruct (Hw c) as (w & E & Hle); [by apply elem_of_filter_b|]. exists w.
    destruct (Hin _ _ E) as [Ek _]. split_and!; [|done|done]. rewrite Hp, Hv, <- Ek. done.
Qed.

Section EdgeTheorem.
Context `{CollatorHost} `{MathHost}.

(** A name [encodeURIComponent] can take: one without a lone surrogate. *)
Definition encodable (name : jstr) : Prop := is_Some (uri_component name).

Lemma edgeId_encodable s d : is_Some (edgeId s d) <-> encodable s /\ encodable d.
Proof.
  unfold edgeId, encodable. destruct (uri_component s) as [x|], (uri_component d) as [y|]; cbn [mbind option_bind];
    (split; [intros [? ?]|intros [[? ?] [? ?]]]); try done; eauto.
Qed.

Lemma draw_edge_encodable t drawn c : is_Some (draw_edge t drawn c) <-> encodable (Matrix.source c) /\ encodable (Matrix.destination c).
Proof. unfold draw_edge. rewrite <- edgeId_encodable. destruct (edgeId _ _); cbn [mbind option_bind]; split; intros [? ?]; try done; by eexists. Qed.

(** The drawing fails exactly where a drawn edge joins a name that cannot be encoded. *)
Lemma buildFlow_fails topo cells t paneAspect :
  buildFlow topo cells t paneAspect = None <->
  exists c, c ∈ take EDGE_CAP (problem_pairs (mn_name <$> (mapNodes (Some topo)).1) (measuredCells cells)) /\
    ~ (encodable (Matrix.source c) /\ encodable (Matrix.destination c)).
Proof.
  unfold buildFlow. destruct (mapNodes (Some topo)) as [mapped src]. cbn [fst].
  set (drawn := take EDGE_CAP _). set (keys := _ <$> drawn). clearbody keys drawn.
  destruct (mapM (draw_edge t keys) drawn) as [es|] eqn:E; cbn [mbind option_bind].
  - split; [done|]. intros (c & Hc & Hn). apply mapM_Some_1 in E. destruct Hn. apply (draw_edge_encodable t keys).
    apply list_elem_of_lookup_1 in Hc as [i Hi]. destruct (Forall2_lookup_l _ _ _ _ _ E Hi) as (e & _ & He). eauto.
  - split; [|done]. intros _. apply mapM_None_1 in E. apply Exists_exists in E as (c & Hc & He). exists c. split; [done|].
    rewrite <- (draw_edge_encodable t keys), He. by intros [? ?].
Qed.

Lemma undrawable mapped cells :
  (exists c, c ∈ take EDGE_CAP (problem_pairs (mn_name <$> mapped) cells) /\ ~ (encodable (Matrix.source c) /\ encodable (Matrix.destination c))) ->
  Exists (fun n => ~ encodable (mn_name n)) mapped.
Proof.
  assert (Hdec : forall name, encodable name \/ ~ encodable name) by (intros name; unfold encodable; destruct (uri_component name); [left; eauto|right; by intros [? ?]]).
  intros (c & Hc & Hn). assert (Hin : c ∈ problem_pairs (mn_name <$> mapped) cells) by (eapply elem_of_submseteq; [exact Hc|apply sublist_submseteq, sublist_take]).
  destruct (problem_pairs_spec (mn_name <$> mapped) cells) as (_ & _ & Hd & _).
  destruct (Hd c Hin) as [_ (_ & _ & (n & En & Hns)%list_elem_of_fmap & (m & Em & Hms)%list_elem_of_fmap)%drawable_spec]. apply Exists_exists.
  destruct (Hdec (Matrix.source c)) as [Hs|Hs]; [|exists n; by rewrite <- En].
  destruct (Hdec (Matrix.destination c)) as [Hd'|Hd']; [|exists m; by rewrite <- Em]. by destruct Hn.
Qed.

(** C23: The map never draws a box over another.  Of a fleet of up to a million nodes every zone is drawn once and any
    two zones are at least the gap apart, whichever packing was chosen; every node is drawn once, inside the box of
    its zone, and two nodes of a zone do not overlap.  The map fails to be drawn only where a node of the fleet has a
    name with a lone surrogate. *)
Theorem map_boxes_apart topo cells t paneAspect :
  let mapped := (mapNodes (Some topo)).1 in
  Z.of_nat (length mapped) <= 2 ^ 20 ->
  match buildFlow topo cells t paneAspect with
  | None => Exists (fun n => ~ encodable (mn_name n)) mapped
  | Some f =>
  zb_zone <$> fl_zones f = zones_of mapped /\ nb_name <$> fl_nodes f ≡ₚ mn_name <$> mapped /\
  exists zs, Forall2 (fun z b => at_point (zb_at z) b /\ of_size (zb_size z) b) (fl_zones f) zs /\ StronglySorted (apart ZONE_GAP) zs /\
  exists ns : list (node_box * rect),
    ns.*1 = fl_nodes f /\
    StronglySorted (fun a b => nb_zone a.1 = nb_zone b.1 -> apart 0 a.2 b.2) ns /\
    forall a, a ∈ ns -> at_point (nb_at a.1) a.2 /\ rw a.2 = NODE_W /\ rh a.2 = NODE_H /\
      exists z b, z ∈ fl_zones f /\ zb_zone z = nb_zone a.1 /\ of_size (zb_size z) b /\ inside a.2 b
  end.
Proof.
  intros mapped Hn. pose proof (buildFlow_fails topo cells t paneAspect) as [Hfail _]. revert Hfail. unfold buildFlow.
  destruct (mapNodes (Some topo)) as [mp src] eqn:Em. subst mapped. cbn [fst fl_zones fl_nodes] in *.
  destruct (mapM _ _) as [edges|]; cbn [mbind option_bind fl_zones fl_nodes]; intros Hfail; [clear Hfail|exact (undrawable mp (measuredCells cells) (Hfail eq_refl))].
  set (worst := worst_out (measuredCells cells)).
  destruct (zones_apart mp (default LANDSCAPE_PANE_ASPECT paneAspect) Hn) as (bs & Hp & Hs & Ha).
  destruct (zip_with_zones t mp _ _ bs Hp Hs) as [Hz Hb]. split_and!; [done| |].
  - rewrite <- (bind_filter_perm mn_zone (zones_of mp) mp (zones_NoDup mp)) at 2.
    2:{ intros n Hin. unfold zones_of. rewrite elem_of_sort_leb, elem_of_set_of_list. apply list_elem_of_fmap. by exists n. }
    apply reflexive_eq. generalize (zones_of mp). intros zs. induction zs as [|z zs IH]; [done|]. cbn [mbind list_bind]. rewrite !fmap_app. f_equal; [|exact IH].
    change (of_key mn_zone mp z) with (zone_nodes mp z). rewrite <- (zone_block_names t worst mp z), zone_block_boxes. done.
  - exists bs. split_and!; [|done|].
    { revert Hb. clear. induction 1 as [|? ? ? ? (? & ? & _)]; constructor; auto. }
    exists (zones_of mp ≫= zone_block t worst mp). split_and!.
    + generalize (zones_of mp). intros zs. induction zs as [|z zs IH]; [done|]. cbn [mbind list_bind]. rewrite fmap_app. f_equal; [|exact IH]. apply zone_block_boxes.
    + apply (StronglySorted_blocks _ (fun a : node_box * rect => nb_zone a.1)); [apply zones_NoDup| |by intros a b ? ?].
      intros z Hin. destruct (zone_block_spec t worst mp z Hin Hn) as (H1 & H2 & _). done.
    + intros a (z & Hab & Hin)%list_elem_of_bind. destruct (zone_block_spec t worst mp z Hin Hn) as (_ & Hk & Hspec).
      assert (Hzb : exists zb b, zb ∈ zip_with (draw_zone t mp) (zones_of mp) (packZones ((fun z0 => zone_size (node_count mp z0)) <$> zones_of mp) (default LANDSCAPE_PANE_ASPECT paneAspect)) /\
        zb_zone zb = z /\ of_size (zb_size zb) b /\ zb_size zb = zone_size (node_count mp z)).
      { rewrite <- Hz in Hin. apply list_elem_of_fmap in Hin as (zb & -> & Hzb). pose proof Hzb as Hzb'.
        apply list_elem_of_lookup in Hzb' as [i Hi]. destruct (Forall2_lookup_l _ _ _ _ _ Hb Hi) as (b & _ & _ & Hof & E). by exists zb, b. }
      destruct Hzb as (zb & b & Hzb & E1 & Hof & E2). rewrite E2 in Hof.
      destruct (Hspec a b Hab Hof) as (P1 & P2 & P3 & P4). split_and!; [done..|]. exists zb, b.
      rewrite (proj1 (Forall_forall _ _) Hk a Hab). split_and!; [done|done|by rewrite E2|done].
Qed.
(** C24: The edges of the map are the worst ten of its failing paths.  Each is drawn from a problem cell of the accepted
    matrix between two different boxes of the map; no ordered pair is drawn twice, and a pair is drawn by its worst
    reading; they stand worst first, and a problem pair left out is no worse than any that is drawn; the caption's
    total counts every problem pair once.  Node names hold no NUL, the separator of the pair's key.  The map fails to be
    drawn exactly where one of those ten joins a name with a lone surrogate. *)
Theorem map_edges_are_the_worst topo cells t paneAspect :
  let mapped := (mapNodes (Some topo)).1 in
  let names := mn_name <$> mapped in
  Forall nul_free names ->
  exists ps,
    match buildFlow topo cells t paneAspect with
    | None => Exists (fun c => ~ (encodable (Matrix.source c) /\ encodable (Matrix.destination c))) (take EDGE_CAP ps)
    | Some f =>
        Forall2 (fun c e => draw_edge t ((fun c => cell_key c) <$> take EDGE_CAP ps) c = Some e) (take EDGE_CAP ps) (fl_edges f) /\
        fl_problemTotal f = Z.of_nat (length ps)
    end /\
    StronglySorted no_milder ps /\ NoDup ((fun c => (Matrix.source c, Matrix.destination c)) <$> ps) /\
    (forall c, c ∈ ps -> c ∈ measuredCells cells /\ isProblemCell (Some c) = true /\
       Matrix.source c <> Matrix.destination c /\ Matrix.source c ∈ names /\ Matrix.destination c ∈ names) /\
    forall c, c ∈ measuredCells cells -> isProblemCell (Some c) = true -> Matrix.source c <> Matrix.destination c ->
      Matrix.source c ∈ names -> Matrix.destination c ∈ names ->
      exists w, w ∈ ps /\ Matrix.source w = Matrix.source c /\ Matrix.destination w = Matrix.destination c /\ no_milder w c.
Proof.
  intros mapped names Hnul. exists (problem_pairs names (measuredCells cells)).
  destruct (problem_pairs_spec names (measuredCells cells)) as (Hs & Hd & Hin & Hw). split_and!.
  - destruct (buildFlow topo cells t paneAspect) as [f|] eqn:Ef.
    + unfold buildFlow in Ef. subst names mapped. destruct (mapNodes (Some topo)) as [mp src]. cbn [fst].
      destruct (mapM _ _) as [edges|] eqn:Em; [|discriminate]. apply (inj Some) in Ef as <-. split; [|done]. by apply mapM_Some_1 in Em.
    + apply buildFlow_fails in Ef as (c & Hc & Hn). apply Exists_exists. by exists c.
  - done.
  - apply (NoDup_fmap_1 (fun p => pair_key p.1 p.2)). rewrite <- list_fmap_compose. exact Hd.
  - intros c Hc. destruct (Hin c Hc) as [? ?%drawable_spec]. done.
  - intros c Hc H1 H2 H3 H4. destruct (Hw c Hc) as (w & Hwin & Ek & Hle); [by apply drawable_spec|]. exists w.
    destruct (Hin w Hwin) as [_ (_ & _ & W1 & W2)%drawable_spec]. pose proof (proj1 (Forall_forall _ _) Hnul) as Hf.
    apply pair_key_inj in Ek as [? ?]; auto.
Qed.
End EdgeTheorem.

(** * Witnesses *)
Module TopologyWitness.

(** A host whose square root is the one below, in units, and whose logarithm ranks by the quotient itself. *)
Definition below_host : MathHost.
Proof.
  refine {| Math_sqrt x := match x with Fin z => Fin (Z.sqrt (z * U)) | _ => x end; Math_log x := x |}.
  intros n Hn. exists (Z.sqrt (n * U * U)). split; [reflexivity|apply Z.sqrt_nonneg].
Defined.

#[local] Existing Instance below_host.
#[local] Existing Instance length_collator.

Definition node (name zone : string) : value := VObj [(js "name", VStr (js name)); (js "zone", VStr (js zone)); (js "ready", VBool true)].
Definition cell (source destination : string) (loss : number) : value :=
  VObj [(js "source", VStr (js source)); (js "destination", VStr (js destination)); (js "lossRatio", VNum loss)].

(** Six nodes in three zones and one without; four of the cells name a problem pair of the map, two of them the same. *)
Definition fleet : value :=
  VObj [(js "nodes", VArr [node "n1" "eu"; node "n2" "eu"; node "n3" "eu"; node "n4" "us"; node "n5" "ap"; node "n6" ""]); (js "agents", VArr [])].
Definition readings : value :=
  VArr [cell "n1" "n2" (dec 5 1); cell "n2" "n1" (dec 2 2); cell "n1" "n2" (dec 9 1); cell "n4" "n4" (int 1); cell "n4" "n5" (dec 3 1); cell "n4" "n9" (int 1)].

Definition words : Translate := fun key _ => key.

Definition drawing : flow :=
  default {| fl_zones := []; fl_nodes := []; fl_edges := []; fl_problemTotal := 0; fl_source := (mapNodes (Some fleet)).2 |}
    (buildFlow fleet readings words None).

Lemma drawing_drawn : buildFlow fleet readings words None = Some drawing.
Proof.
  assert (E : match buildFlow fleet readings words None with Some _ => true | None => false end = true) by (vm_compute; reflexivity).
  unfold drawing. destruct (buildFlow fleet readings words None); [reflexivity|discriminate E].
Qed.

Lemma map_boxes_apart_witness :
  zb_zone <$> fl_zones drawing = [js ""; js "ap"; js "eu"; js "us"] /\ length (fl_nodes drawing) = 6%nat.
Proof.
  pose proof (map_boxes_apart fleet readings words None ltac:(apply Z.leb_le; vm_compute; reflexivity)) as H0.
  rewrite drawing_drawn in H0. destruct H0 as (H & Hn & _).
  split; [etransitivity; [exact H|vm_compute; reflexivity]|].
  apply Permutation_length in Hn. rewrite !length_fmap in Hn. etransitivity; [exact Hn|vm_compute; reflexivity].
Defined.

Lemma map_edges_are_the_worst_witness :
  ((fun e => (ed_source e, ed_target e)) <$> fl_edges drawing) = [(js "n1", js "n2"); (js "n4", js "n5"); (js "n2", js "n1")] /\
  exists ps, fl_problemTotal drawing = Z.of_nat (length ps) /\ StronglySorted no_milder ps.
Proof.
  split; [vm_compute; reflexivity|].
  destruct (map_edges_are_the_worst fleet readings words None) as (ps & Hf & Hs & _).
  - apply (bool_decide_unpack _). vm_compute. exact I.
  - rewrite drawing_drawn in Hf. destruct Hf as [_ Ht]. exists ps. split; [exact Ht|exact Hs].
Defined.

(** A failing path to a node whose name is a lone surrogate takes the whole map down. *)
Example surrogate_name_throws :
  let bad := [0xD800] in
  let named name := VObj [(js "name", VStr name); (js "zone", VStr (js "eu")); (js "ready", VBool true)] in
  let topo := VObj [(js "nodes", VArr [named (js "n1"); named bad]); (js "agents", VArr [])] in
  let lossy := VArr [VObj [(js "source", VStr (js "n1")); (js "destination", VStr bad); (js "lossRatio", VNum (int 1))]] in
  buildFlow topo lossy words None = None.
Proof. vm_compute. reflexivity. Qed.
End TopologyWitness.
