(* ===== verification/RunDetail.v ===== *)
(** The page of one diagnostic run ([web/src/pages/run-detail.tsx]): the run the address names, the pair table, the
    track of an interval run's probes, and the panel that reads back the route a probe walked. *)
From S2P Require Import Prelude JsNum JsString JsCollections JsValue JsDate JsFormat JsUrl RunSamples RunPage Api.
Local Open Scope Z_scope.

Definition given {A} (o : option A) : bool := match o with Some _ => true | None => false end.

(** ** The run of an address *)

Definition RUN_PATH_PREFIX : jstr := js "/diagnostics/runs/".

Definition runIdFromPath (pathname : jstr) : jstr :=
  if startsWith pathname RUN_PATH_PREFIX then drop (length RUN_PATH_PREFIX) pathname else [].

(** A malformed escape is shown as it stands. *)
Definition decodeRunId (raw : jstr) : jstr := default raw (decodeURIComponent raw).

(** ** The pair table *)

Definition pair_ok (p : RunPairRow) : bool := bool_decide (r_success p = Some true) || seqb (r_state p) (js "succeeded").
Definition pair_bad (p : RunPairRow) : bool := bool_decide (r_success p = Some false) || seqb (r_state p) (js "failed").

Definition okPairs (pairs : list RunPairRow) : Z := Z.of_nat (length (List.filter pair_ok pairs)).

(** The words of [STATUS_KEYS]; each one's key is the word after [status.]. *)
Definition STATUS_WORDS : list jstr :=
  js <$> ["pending"; "running"; "succeeded"; "partial"; "failed"; "cancelled"; "timeout"; "dispatched"]%string.

Definition statusLabel (t : Translate) (status : jstr) : jstr :=
  if shas STATUS_WORDS status then t (js "status." ++ status) [] else status.

Definition sharedPairError (pairs : list RunPairRow) : option jstr :=
  match pairs with
  | p :: _ :: _ =>
      match r_error p with
      | Some (c :: e) => if forallb (fun q => bool_decide (r_error q = Some (c :: e))) pairs then Some (c :: e) else None
      | _ => None
      end
  | _ => None
  end.

Definition pairRank (p : RunPairRow) : Z := if pair_bad p then 0 else if pair_ok p then 2 else 1.

(** [[...arrived].sort((a, b) => pairRank(a) - pairRank(b))]. *)
Definition ranked (arrived : list RunPairRow) : list RunPairRow := js_sort (fun a b => (int (pairRank a) - int (pairRank b))%num) arrived.

(** The row's chevron: one row open at a time. *)
Definition toggle_row (open : option jstr) (key : jstr) : option jstr := if bool_decide (open = Some key) then None else Some key.

Definition MISSING : jstr := js "—".
Definition text (v : value) : jstr := match v with VStr (c :: s) => c :: s | _ => MISSING end.

Definition fixedDecimal (v : number) (digits : nat) (locale : jstr) : jstr :=
  let figure := toFixed v digits in if seqb locale (js "ru") then replace_point figure (js ",") else figure.

Definition fmtPercent (ratio : number) (locale : jstr) : jstr := fixedDecimal (ratio * int 100)%num 1 locale ++ js "%".

(** ** The track of an interval run *)

(** The length an array-like's [length] stands for. *)
Definition to_length (n : number) : nat :=
  Z.to_nat (match n with Fin z => Z.min (z / U) (2 ^ 53 - 1) | Inf false => 2 ^ 53 - 1 | _ => 0 end).

Record track := { tr_progress : PairProgress; tr_framed : bool; tr_slotCount : number; tr_counting : bool }.

Definition track_of (durationNs : number) (cadence : option Cadence) (running truncated : bool) (g : PairSamples) : track :=
  let progress := pairProgress durationNs (len (samples g)) cadence in
  let framed := framed progress && negb truncated in
  {| tr_progress := progress; tr_framed := framed;
     tr_slotCount := if framed then expected progress else len (samples g);
     tr_counting := running && (remaining progress >? int 0)%num && negb truncated |}.

(** [Array.from({ length: slotCount }, (_, slot) => g.samples[slot])]. *)
Definition slots (tr : track) (g : PairSamples) : list (option RunSamples.RunResult) :=
  (fun i => samples g !! i) <$> seq 0 (to_length (tr_slotCount tr)).

Definition countForm (locale : jstr) (n : number) : jstr :=
  if negb (seqb locale (js "ru")) then if (n =? int 1)%num then js "one" else js "many"
  else
    let teen := (n mod int 100)%num in
    if (teen >=? int 11)%num && (teen <=? int 14)%num then js "many"
    else
      let last := (n mod int 10)%num in
      if (last =? int 1)%num then js "one"
      else if (last >=? int 2)%num && (last <=? int 4)%num then js "few" else js "many".

Definition trackLabel (t : Translate) (locale : jstr) (g : PairSamples) (agg : SampleAggregate) (progress : PairProgress) (counting framed : bool) : jstr :=
  let ends := [(js "source", VStr (source g)); (js "destination", VStr (destination g))] in
  if negb framed then t (js "timeline.rowLabel") (ends ++ [(js "sent", VNum (RunSamples.sent agg)); (js "failed", VNum (failed agg))])
  else
    let of_plan := [(js "arrived", VNum (arrived progress)); (js "expected", VNum (planned progress))] in
    if counting then t (js "timeline.trackLabel.pending." ++ countForm locale (remaining progress)) (ends ++ of_plan ++ [(js "count", VNum (remaining progress))])
    else t (js "timeline.trackLabel.settled") (ends ++ of_plan ++ [(js "failed", VNum (failed agg))]).

(** The caption under a framed track. *)
Definition track_caption (t : Translate) (locale : jstr) (tr : track) : option jstr :=
  let p := tr_progress tr in
  if negb (tr_framed tr) then None
  else Some (if tr_counting tr
    then t (js "timeline.progress.running") [(js "arrived", VNum (arrived p)); (js "expected", VNum (planned p)); (js "remaining", VStr (formatDurationNs (remainingNs p) locale))]
    else t (js "timeline.progress.settled") [(js "arrived", VNum (arrived p)); (js "expected", VNum (planned p))]).

Record open_tick := { ot_source : jstr; ot_destination : jstr; ot_probe : RunSamples.RunResult }.

Definition tick_opened (o : option open_tick) (g : PairSamples) (s : RunSamples.RunResult) : bool :=
  match o with
  | Some k => seqb (ot_source k) (source g) && seqb (ot_destination k) (destination g) &&
              bool_decide (RunSamples.recordedAt (ot_probe k) = RunSamples.recordedAt s)
  | None => false
  end.

Definition click_tick (o : option open_tick) (g : PairSamples) (s : RunSamples.RunResult) : option open_tick :=
  if tick_opened o g s then None else Some {| ot_source := source g; ot_destination := destination g; ot_probe := s |}.

(** ** The route a probe walked *)

Record Snapshot := { firstSeen : jstr; lastSeen : jstr; route_id : jstr }.

(** What the panel is asked about: the clicked probe, or a pair row's latest. *)
Record trace_props := { tp_probe : option RunSamples.RunResult; tp_pairRecordedAt : option jstr; tp_pairFailed : bool }.

Definition recorded_at (p : trace_props) : option jstr :=
  match tp_probe p with Some r => RunSamples.recordedAt r | None => tp_pairRecordedAt p end.

Definition failed_of (p : trace_props) : bool := match tp_probe p with Some r => negb (RunSamples.success r) | None => tp_pairFailed p end.

(** What the query library tells the panel of the pair's listing: its status, whether a fetch is under way, the data
    last received. *)
Inductive q_status := q_pending | q_success | q_error.

Record listing := { q_state : q_status; q_fetching : bool; q_data : option (list Snapshot) }.

(** [asks] is the trace of the [refetch()] calls, by the instant each was for. *)
Record panel := { props : trace_props; query : listing; askedFor : option jstr; answeredFor : option jstr; asks : list (option jstr) }.

Definition isSuccess (p : panel) : bool := match q_state (query p) with q_success => true | _ => false end.
Definition isPending (p : panel) : bool := match q_state (query p) with q_pending => true | _ => false end.
Definition snapshots (p : panel) : list Snapshot := default [] (q_data (query p)).
Definition recordedAt_now (p : panel) : option jstr := recorded_at (props p).
Definition failed_now (p : panel) : bool := failed_of (props p).

Section Trace.
Context `{DateHost}.

Definition behind (p : panel) : bool :=
  isSuccess p && negb (failed_now p) &&
  match recordedAt_now p with
  | Some r => negb (existsb (fun s => (parse_ms (lastSeen s) >=? parse_ms r)%num) (snapshots p))
  | None => false
  end.

Definition reasking (p : panel) : bool := behind p && (q_fetching (query p) || negb (bool_decide (askedFor p = recordedAt_now p))).

(** The state set while rendering. *)
Definition render (p : panel) : panel :=
  if isSuccess p && negb (reasking p) && negb (bool_decide (answeredFor p = recordedAt_now p))
  then {| props := props p; query := query p; askedFor := askedFor p; answeredFor := recordedAt_now p; asks := asks p |}
  else p.

(** The effect: the listing is asked again, once per probe. *)
Definition ask_again (p : panel) : panel :=
  if negb (behind p) || bool_decide (askedFor p = recordedAt_now p) then p
  else {| props := props p; query := {| q_state := q_state (query p); q_fetching := true; q_data := q_data (query p) |};
          askedFor := recordedAt_now p; answeredFor := answeredFor p; asks := asks p ++ [recordedAt_now p] |}.

(** A render, its effect, and the render the effect's states cause. *)
Definition commit (p : panel) : panel := render (ask_again (render p)).

Definition holding (p : panel) : bool := reasking p && negb (given (tp_probe (props p))) && given (answeredFor p).
Definition at_of (p : panel) : option jstr := if holding p then answeredFor p else recordedAt_now p.
Definition loading (p : panel) : bool := isPending p || reasking p && negb (holding p).

(** [!at]. *)
Definition no_instant (at_ : option jstr) : bool := match at_ with Some (_ :: _) => false | _ => true end.

Definition covers_of (p : panel) : list Snapshot :=
  if failed_now p || no_instant (at_of p) then [] else coveringSnapshots firstSeen lastSeen (snapshots p) (at_of p).

Definition chosen (p : panel) : option Snapshot :=
  if loading p || failed_now p then None
  else if no_instant (at_of p) then head (snapshots p)
  else match covers_of p with [s] => Some s | _ => None end.

Definition noRoute (t : Translate) (p : panel) : jstr :=
  let probe := given (tp_probe (props p)) in
  t (if failed_now p then if probe then js "trace.probeFailed" else js "trace.pairFailed"
     else if no_instant (at_of p) || negb probe && (length (snapshots p) =? 0)%nat then js "trace.none"
     else if (1 <? length (covers_of p))%nat then if probe then js "trace.severalForProbe" else js "trace.severalForPair"
     else if probe then js "trace.noneForProbe" else js "trace.noneForPair") [].

Definition says_no_route (p : panel) : bool := isSuccess p && negb (loading p) && negb (given (chosen p)).

(** What happens to a panel: the page renders it about another probe, the library starts a fetch of its own accord, a
    fetch is answered or fails. *)
Inductive panel_event := About (p : trace_props) | Fetch | Answer (items : list Snapshot) | Refusal.

Definition with_query (q : listing) (p : panel) : panel :=
  {| props := props p; query := q; askedFor := askedFor p; answeredFor := answeredFor p; asks := asks p |}.

Definition happens (p : panel) (e : panel_event) : panel :=
  let q := query p in
  match e with
  | About ps => {| props := ps; query := q; askedFor := askedFor p; answeredFor := answeredFor p; asks := asks p |}
  | Fetch => with_query {| q_state := match q_data q with None => q_pending | Some _ => q_state q end; q_fetching := true; q_data := q_data q |} p
  | Answer items => if q_fetching q then with_query {| q_state := q_success; q_fetching := false; q_data := Some items |} p else p
  | Refusal => if q_fetching q then with_query {| q_state := q_error; q_fetching := false; q_data := q_data q |} p else p
  end.

Definition panel_step (p : panel) (e : panel_event) : panel := commit (happens p e).

(** A panel mounts over what the library holds for the pair. *)
Definition mount (ps : trace_props) (q : listing) : panel := commit {| props := ps; query := q; askedFor := None; answeredFor := None; asks := [] |}.

Definition panel_run (p : panel) (es : list panel_event) : panel := fold_left panel_step es p.
End Trace.

Definition explorerHref (source destination : jstr) : option jstr :=
  s ← uri_component source; d ← uri_component destination; Some (js "/mtr?source=" ++ s ++ js "&destination=" ++ d).

(** ** Cancelling *)

Record cancel_button := { cb_busy : bool; cb_error : option value }.

(** The handler once its calls settled; the sentence is the server's where it gave one. *)
Definition handleCancel (t : Translate) (cancelled refetched : thrown + unit) : cancel_button :=
  let refused e := match e with
    | ApiError problem => match vget problem (js "detail") with VUndef | VNull => vget problem (js "title") | d => d end
    | Failure => VStr (t (js "cancel.failed") [])
    end in
  {| cb_busy := false;
     cb_error := match cancelled with inl e => Some (refused e) | inr _ => match refetched with inl e => Some (refused e) | inr _ => None end end |}.

(** ** What the page shows *)

Inductive run_page := page_notFound | page_loading | page_unavailable | page_run.

Definition page_of (runId : jstr) (notFound hasRun isLoading : bool) : run_page :=
  if notFound || seqb runId [] then page_notFound
  else if negb hasRun && isLoading then page_loading else if negb hasRun then page_unavailable else page_run.

Definition page_pairTotal (run : RunDetail) (pairs : list RunPairRow) : number :=
  match pairTotal run with VNum n => if isFinite n then n else len pairs | _ => len pairs end.

(** The agents the run is spread over. *)
Definition sourceCount (groups : list PairSamples) : Z := Z.of_nat (length (set_of_list (source <$> groups))).

Definition page_cadence (run : RunDetail) (results : list RunSamples.RunResult) : option RunCadence :=
  runCadence (Some run) (VNum (int (sourceCount (groupSamplesByPair results)))).

Definition shows_badge (status : option jstr) (connecting : bool) : bool := negb (isTerminalRunStatus status || connecting).
Definition shows_cancel (status : option jstr) (canCreate : bool) : bool := canCreate && negb (isTerminalRunStatus status).

(** * Theorems *)

(** ** The table *)

Definition rank_le (a b : RunPairRow) : Prop := pairRank a <= pairRank b.

Lemma rank_leb a b : cmp_leb (fun a b => (int (pairRank a) - int (pairRank b))%num) a b = true <-> rank_le a b.
Proof. unfold cmp_leb, rank_le. rewrite nsub_int_pos, negb_true_iff. lia. Qed.

(** The table holds the rows that arrived, failures first and successes last, each kind in the order of arrival. *)
Theorem ranked_spec arrived :
  ranked arrived ≡ₚ arrived /\ StronglySorted rank_le (ranked arrived) /\
  forall k, List.filter (fun p => pairRank p =? k) (ranked arrived) = List.filter (fun p => pairRank p =? k) arrived.
Proof.
  split_and!; [apply sort_leb_perm| |].
  - apply (js_sort_sorted _ (fun _ => True)); [intros; apply rank_leb|unfold rank_le; lia..|by apply Forall_true].
  - intros k. unfold ranked, js_sort. set (leb := cmp_leb _).
    assert (Hl : forall a b, leb a b = (pairRank a <=? pairRank b)).
    { intros a b. apply eq_true_iff_eq. rewrite Z.leb_le. apply rank_leb. }
    induction arrived as [|x l IH]; [done|]. cbn [sort_leb List.filter]. rewrite <- IH. generalize (sort_leb leb l). intros s. clear IH.
    induction s as [|y s IHs]; cbn [sort_insert List.filter]; [by destruct (_ =? _)|].
    rewrite Hl. destruct (Z.leb_spec (pairRank x) (pairRank y)); cbn [List.filter]; [done|]. rewrite IHs.
    destruct (Z.eqb_spec (pairRank x) k), (Z.eqb_spec (pairRank y) k); (done || lia).
Qed.

(** The sentence said once in the header is every pair's. *)
Lemma sharedPairError_spec pairs e :
  sharedPairError pairs = Some e <-> (2 <= length pairs)%nat /\ e <> [] /\ Forall (fun p => r_error p = Some e) pairs.
Proof.
  destruct pairs as [|p [|q l]]; [split; [done|intros [? _]; cbn in *; lia]..|]. cbn [sharedPairError]. split.
  - destruct (r_error p) as [[|c s]|]; [done| |done]. destruct (forallb _ _) eqn:Ef; [|done]. intros <-%(inj Some).
    split_and!; [cbn; lia|done|]. apply Forall_forall. intros r Hr. rewrite forallb_forall in Ef.
    apply (bool_decide_eq_true_1 _ (Ef r (proj1 (list_elem_of_In _ _) Hr))).
  - intros (_ & Hne & Hall). rewrite (Forall_inv Hall). destruct e as [|c s]; [done|].
    rewrite (proj2 (forallb_forall _ _)); [done|]. intros r Hr. apply bool_decide_eq_true_2.
    by apply (proj1 (Forall_forall _ _) Hall), list_elem_of_In.
Qed.

(** ** The track *)

Lemma slots_eq g n :
  (length (samples g) <= n)%nat ->
  ((fun i => samples g !! i) <$> seq 0 n) = (Some <$> samples g) ++ replicate (n - length (samples g)) None.
Proof.
  intros Hn. apply list_eq. intros i. rewrite list_lookup_fmap, lookup_app, list_lookup_fmap, length_fmap.
  destruct (decide (i < length (samples g))%nat) as [Hi|Hi].
  - destruct (lookup_lt_is_Some_2 (samples g) i Hi) as [s Hs]. rewrite (proj2 (lookup_seq _ _ _ _)) by (split; [reflexivity|lia]). cbn. by rewrite Hs.
  - rewrite (lookup_ge_None_2 (samples g)) by lia. cbn [fmap option_fmap option_map]. destruct (decide (i < n)%nat) as [Hj|Hj].
    + rewrite (proj2 (lookup_seq _ _ _ _)) by (split; [reflexivity|lia]). cbn. rewrite (lookup_ge_None_2 (samples g)) by lia. symmetry. apply lookup_replicate_2. lia.
    + rewrite lookup_ge_None_2 by (rewrite length_seq; lia). symmetry. apply lookup_replicate_None. lia.
Qed.

(** No sample falls off a track, and what is left of a frame is empty slots; an unframed track is the samples. *)
Theorem track_holds_every_sample durationNs cadence running truncated g :
  Z.of_nat (length (samples g)) < 2 ^ 53 ->
  let tr := track_of durationNs cadence running truncated g in
  exists n, slots tr g = (Some <$> samples g) ++ replicate n None /\ (tr_framed tr = false -> n = 0%nat).
Proof.
  intros Hs tr. assert (Hlen : to_length (len (samples g)) = length (samples g)).
  { unfold to_length, len, int. pose proof U_pos. rewrite Z.div_mul by lia. lia. }
  exists (to_length (tr_slotCount tr) - length (samples g))%nat. split; [apply slots_eq|].
  2:{ intros Hf. subst tr. cbn [track_of tr_framed tr_slotCount] in *. rewrite Hf, Hlen. lia. }
  subst tr. cbn [track_of tr_slotCount]. destruct (framed _ && _) eqn:Ef; [|by rewrite Hlen].
  apply andb_true_iff in Ef as [Ef _]. unfold pairProgress in *. cbn [framed expected] in *.
  set (pl := match cadence with Some _ => _ | None => _ end) in *.
  assert (Hc : (if isFinite (len (samples g)) && (len (samples g) >? int 0)%num then nfloor (len (samples g)) else int 0) = len (samples g)).
  { unfold len. rewrite nfloor_int. cbn [isFinite int andb]. rewrite nltb_int.
    destruct (Z.ltb_spec 0 (Z.of_nat (length (samples g)))); [done|]. f_equal. lia. }
  rewrite Hc in *. rewrite <- Hlen at 1. clear Hc. unfold nmax in *. destruct (isNaN pl || _) eqn:En; [done|].
  destruct (nltb pl _) eqn:El; [lia|]. unfold to_length, len, int in *. pose proof U_pos. rewrite Z.div_mul by lia.
  destruct pl as [|[]|z]; try done; [lia|]. apply Z.ltb_ge in El.
  assert (Z.of_nat (length (samples g)) <= z / U) by (apply Z.div_le_lower_bound; lia). lia.
Qed.

(** ** The panel *)

Section PanelTheorem.
Context `{DateHost}.

(** A library that is not paused: a listing without an answer is being fetched, an answered one has its data. *)
Definition q_ok (q : listing) : Prop := (q_state q = q_pending -> q_fetching q = true) /\ (q_state q = q_success -> q_data q <> None).

(** Between commits: [seen] are the instants the panel was about, the last one first rendered now. *)
Record panel_ok (seen : list (option jstr)) (p : panel) : Prop := {
  ok_query : q_ok (query p);
  ok_answered : answeredFor p = None \/ answeredFor p ∈ seen;
  ok_asks : exists pre, seen = pre ++ [recordedAt_now p] /\
    (sublist (asks p) pre \/ askedFor p = recordedAt_now p /\ sublist (asks p) seen);
}.

(** After a commit: nothing is left to ask, and what could be answered is. *)
Definition settled_panel (p : panel) : Prop :=
  (behind p = true -> askedFor p = recordedAt_now p) /\ (isSuccess p = true -> reasking p = false -> answeredFor p = recordedAt_now p).

Lemma render_ok seen p : panel_ok seen p -> panel_ok seen (render p).
Proof.
  intros [Hq Ha Hs]. unfold render. destruct (_ && _); [|by split]. split; cbn; [done| |done].
  right. destruct Hs as (pre & -> & _). apply elem_of_app. right. by apply list_elem_of_singleton.
Qed.

Lemma ask_again_ok seen p : panel_ok seen p -> panel_ok seen (ask_again p).
Proof.
  intros [[Hp Hd] Ha (pre & Es & Hs)]. unfold ask_again. destruct (_ || _) eqn:E; [by split; [split|..|exists pre]|].
  apply orb_false_iff in E as [_ E]. apply bool_decide_eq_false_1 in E. split; cbn; [by split|done|].
  exists pre. split; [done|]. right. split; [done|]. destruct Hs as [Hs|[? _]]; [|done]. rewrite Es. by apply sublist_app.
Qed.

(** The renders leave what they are derived from alone. *)
Lemma render_same p :
  props (render p) = props p /\ query (render p) = query p /\ askedFor (render p) = askedFor p /\ asks (render p) = asks p.
Proof. unfold render. by destruct (_ && _). Qed.

Lemma behind_query p p' : props p' = props p -> q_state (query p') = q_state (query p) -> q_data (query p') = q_data (query p) -> behind p' = behind p.
Proof. unfold behind, isSuccess, failed_now, recordedAt_now, snapshots. by intros -> -> ->. Qed.

Lemma behind_render p : behind (render p) = behind p.
Proof. destruct (render_same p) as (E1 & E2 & _). apply behind_query; by rewrite ?E1, ?E2. Qed.

Lemma reasking_render p : reasking (render p) = reasking p.
Proof. unfold reasking. rewrite behind_render. unfold recordedAt_now. by destruct (render_same p) as (-> & -> & -> & _). Qed.

Lemma render_answers p : isSuccess (render p) = true -> reasking (render p) = false -> answeredFor (render p) = recordedAt_now (render p).
Proof.
  rewrite reasking_render. unfold isSuccess. rewrite (proj1 (proj2 (render_same p))). fold (isSuccess p). intros Hs Hr.
  unfold render. rewrite Hs, Hr. cbn [negb andb]. by case_bool_decide.
Qed.

Lemma ask_again_asked p : behind (ask_again p) = true -> askedFor (ask_again p) = recordedAt_now (ask_again p).
Proof.
  unfold ask_again. destruct (negb (behind p) || _) eqn:E; [|done].
  intros Hb. rewrite Hb in E. by apply bool_decide_eq_true in E.
Qed.

Lemma commit_settled p : settled_panel (commit p).
Proof.
  unfold commit. split; [|apply render_answers]. rewrite behind_render. unfold recordedAt_now.
  destruct (render_same (ask_again (render p))) as (-> & _ & -> & _). apply ask_again_asked.
Qed.

Lemma commit_ok seen p : panel_ok seen p -> panel_ok seen (commit p).
Proof. intros Hp. by apply render_ok, ask_again_ok, render_ok. Qed.

(** Rendering again changes nothing: the component does not loop. *)
Lemma commit_stable p : settled_panel p -> commit p = p.
Proof.
  intros [Hb Ha]. assert (Hr : render p = p).
  { unfold render. destruct (isSuccess p) eqn:E1, (reasking p) eqn:E2; try done. cbn [negb andb]. rewrite bool_decide_eq_true_2 by auto. done. }
  unfold commit. rewrite Hr. assert (Hk : ask_again p = p); [|by rewrite Hk].
  unfold ask_again. destruct (behind p) eqn:E; [|done]. cbn [negb orb]. by rewrite bool_decide_eq_true_2 by auto.
Qed.

Definition seen_after (seen : list (option jstr)) (e : panel_event) : list (option jstr) :=
  match e with About ps => seen ++ [recorded_at ps] | _ => seen end.

Lemma happens_ok seen p e : panel_ok seen p -> panel_ok (seen_after seen e) (happens p e).
Proof.
  intros Hok. pose proof Hok as [[Hp Hd] Ha (pre & Es & Hs)]. destruct e as [ps| |items|]; cbn [seen_after happens].
  - split; cbn; [by split|destruct Ha as [?|Ha]; [by left|right; apply elem_of_app; by left]|].
    exists seen. split; [done|]. left. destruct Hs as [Hs|[_ Hs]]; [|done]. rewrite Es. by apply sublist_inserts_r.
  - split; cbn; [split; [done|]|done|by exists pre]. cbn. destruct (q_data (query p)) eqn:E; [done|]. intros [=].
  - destruct (q_fetching (query p)); [|done]. split; cbn; [by split|done|by exists pre].
  - destruct (q_fetching (query p)); [|done]. split; cbn; [by split|done|by exists pre].
Qed.

(** The instants a panel was about, in order. *)
Definition instants (ps : trace_props) (es : list panel_event) : list (option jstr) := fold_left seen_after es [recorded_at ps].

Lemma panel_run_ok ps q es :
  q_ok q -> panel_ok (instants ps es) (panel_run (mount ps q) es) /\ settled_panel (panel_run (mount ps q) es).
Proof.
  intros Hq. induction es as [|e es [IHo _]] using rev_ind.
  - split; [|apply commit_settled]. apply commit_ok. split; [done|by left|]. exists []. split; [done|]. by left.
  - unfold panel_run, instants in *. rewrite !fold_left_app. cbn [fold_left]. split; [|apply commit_settled].
    by apply commit_ok, happens_ok.
Qed.

(** In a settled panel the skeleton stands for a fetch under way. *)
Lemma loading_fetches p : q_ok (query p) -> settled_panel p -> loading p = true -> q_fetching (query p) = true.
Proof.
  intros [Hq _] [Hb _]. unfold loading, isPending. destruct (q_state (query p)) eqn:E; [intros _; by apply Hq| |].
  all: cbn [orb]; unfold reasking; destruct (behind p) eqn:Eb; [|done]; rewrite bool_decide_eq_true_2 by auto; by destruct (q_fetching _).
Qed.

Lemma covering_elem_of at_ (l : list Snapshot) s : s ∈ coveringSnapshots firstSeen lastSeen l at_ -> s ∈ l.
Proof.
  unfold coveringSnapshots. destruct at_ as [r|]; [|by intros ?%not_elem_of_nil]. destruct (seqb r []); [by intros ?%not_elem_of_nil|].
  cbv zeta. destruct (isNaN _); [by intros ?%not_elem_of_nil|]. destruct (_ <? _)%nat; by intros [? _]%elem_of_filter_b.
Qed.

Lemma ask_again_idle p : askedFor p = recordedAt_now p -> ask_again p = p.
Proof. intros E. unfold ask_again. rewrite E, bool_decide_eq_true_2 by done. by rewrite orb_true_r. Qed.

Lemma commit_idle p : askedFor p = recordedAt_now p -> query (commit p) = query p.
Proof.
  intros E. destruct (render_same p) as (E1 & E2 & E3 & _). unfold commit. rewrite (proj1 (proj2 (render_same _))).
  rewrite ask_again_idle; [done|]. unfold recordedAt_now. by rewrite E1, E3.
Qed.

(** A commit that starts a fetch starts it for the instant at hand. *)
Lemma commit_fetch p :
  q_fetching (query p) = false -> q_fetching (query (commit p)) = true -> askedFor (commit p) = recordedAt_now (commit p).
Proof.
  intros Hf. destruct (render_same p) as (_ & E2 & _). unfold commit, recordedAt_now at 1.
  destruct (render_same (ask_again (render p))) as (-> & -> & -> & _). fold (recordedAt_now (ask_again (render p))).
  unfold ask_again. destruct (_ || _); [|done]. rewrite E2, Hf. done.
Qed.

Lemma commit_query_ok p : q_ok (query p) -> q_ok (query (commit p)).
Proof.
  unfold commit. rewrite (proj1 (proj2 (render_same _))). destruct (render_same p) as (_ & E2 & _). unfold ask_again, q_ok.
  destruct (_ || _); [by rewrite E2|]. cbn. rewrite E2. intros [? ?]. by split.
Qed.

Lemma settled_answer p i : settled_panel p -> q_fetching (query p) = false -> panel_step p (Answer i) = p.
Proof. intros Hs Hf. unfold panel_step. cbn [happens]. rewrite Hf. by apply commit_stable. Qed.

Lemma loading_idle p : q_ok (query p) -> settled_panel p -> q_fetching (query p) = false -> loading p = false.
Proof. intros Hq Hs Hf. destruct (loading p) eqn:E; [|done]. by rewrite (loading_fetches p Hq Hs E) in Hf. Qed.

(** An answer leaves a panel idle, or asking once more, for this very instant. *)
Lemma answer_or_ask p i :
  q_ok (query p) -> settled_panel p ->
  let p' := panel_step p (Answer i) in
  q_ok (query p') /\ settled_panel p' /\ (q_fetching (query p') = false \/ askedFor p' = recordedAt_now p').
Proof.
  intros Hq Hs p'. destruct (q_fetching (query p)) eqn:Ef.
  - subst p'. unfold panel_step. cbn [happens]. rewrite Ef. set (p0 := with_query _ p).
    split_and!; [apply commit_query_ok; by split|apply commit_settled|]. destruct (q_fetching (query (commit p0))) eqn:E; [|by left].
    right. by apply commit_fetch.
  - subst p'. rewrite settled_answer by done. auto.
Qed.

Lemma two_answers p i1 i2 :
  q_ok (query p) -> settled_panel p -> loading (panel_step (panel_step p (Answer i1)) (Answer i2)) = false.
Proof.
  intros Hq Hs. destruct (answer_or_ask p i1 Hq Hs) as (Hq1 & Hs1 & H1). set (p1 := panel_step p (Answer i1)) in *.
  destruct (answer_or_ask p1 i2 Hq1 Hs1) as (Hq2 & Hs2 & _). apply loading_idle; [done|done|].
  destruct (q_fetching (query p1)) eqn:Ef; [|by rewrite settled_answer].
  destruct H1 as [?|E]; [done|]. unfold panel_step. cbn [happens]. rewrite Ef. by rewrite commit_idle.
Qed.

(** C12: The panel shows only the route of the probe it is about.  However probes follow one another and fetches of the
    pair's listing start, succeed and fail: a failed probe gets no route; a route shown for an instant is the one
    stored route that covers it; a clicked tick is answered for its own instant, and a pair row for its latest probe
    or, while the listing is asked again, for an earlier one of its probes.  The listing is asked again at most once
    per probe the panel turns to; a waiting panel has a fetch under way (the library is not paused) and is done waiting after two answers; a pair
    row that answered once does not go back to waiting; and rendering settles. *)
Theorem trace_is_the_probes_own ps q es :
  q_ok q ->
  let p := panel_run (mount ps q) es in
  let probe := tp_probe (props p) in
  (forall s, chosen p = Some s -> failed_now p = false /\ s ∈ snapshots p /\
     (no_instant (at_of p) = true \/ coveringSnapshots firstSeen lastSeen (snapshots p) (at_of p) = [s])) /\
  (at_of p = recordedAt_now p \/ probe = None /\ at_of p ∈ instants ps es) /\
  sublist (asks p) (instants ps es) /\
  (loading p = true -> q_fetching (query p) = true) /\
  (forall i1 i2, loading (panel_step (panel_step p (Answer i1)) (Answer i2)) = false) /\
  (probe = None -> answeredFor p <> None -> loading p = isPending p) /\
  commit p = p.
Proof.
  intros Hq p probe. destruct (panel_run_ok ps q es Hq) as [Hok Hset]. fold p in Hok, Hset. split_and!.
  - intros s. unfold chosen, covers_of. destruct (loading p); [done|]. destruct (failed_now p); [done|]. cbn [orb].
    destruct (no_instant (at_of p)).
    + intros Hs. split_and!; [done| |by left]. by apply head_Some_elem_of.
    + destruct (coveringSnapshots _ _ _ _) as [|s' []] eqn:E; [done| |done]. intros ->%(inj Some). split_and!; [done| |by right].
      by apply (covering_elem_of (at_of p)); rewrite E; apply list_elem_of_singleton.
  - unfold at_of, holding. destruct (reasking p); [|by left]. subst probe. destruct (tp_probe (props p)); [by left|].
    destruct (answeredFor p) as [a|] eqn:Ea; [right|by left]. split; [done|]. cbn [negb andb given]. rewrite <- Ea.
    destruct (ok_answered _ _ Hok) as [Hn|Hin]; [by rewrite Ea in Hn|done].
  - destruct (ok_asks _ _ Hok) as (pre & Es & [Hs|[_ Hs]]); [|done]. rewrite Es. by apply sublist_inserts_r.
  - by apply loading_fetches; [apply ok_query in Hok|].
  - intros i1 i2. by apply two_answers; [apply ok_query in Hok|].
  - intros Hn Ha. unfold loading, holding. subst probe. rewrite Hn. destruct (answeredFor p); [|done]. cbn [given negb]. rewrite !andb_true_r.
    destruct (reasking p), (isPending p); done.
  - by apply commit_stable.
Qed.
End PanelTheorem.

(** * Witnesses *)
Module RunDetailWitness.
#[local] Existing Instance iso_host.

Definition noon : jstr := js "2026-08-09T12:00:00.000Z".
Definition later : jstr := js "2026-08-09T12:05:00.000Z".
Definition row (at_ : jstr) : trace_props := {| tp_probe := None; tp_pairRecordedAt := Some at_; tp_pairFailed := false |}.
Definition route (to : jstr) (id : string) : Snapshot := {| firstSeen := js "2026-08-09T11:00:00.000Z"; lastSeen := to; route_id := js id |}.
Definition unasked : listing := {| q_state := q_pending; q_fetching := true; q_data := None |}.

(** The listing names the route of the first probe; the second probe arrives, and the listing is asked again. *)
Definition story : list panel_event := [Answer [route noon "r1"]; About (row later)].

Lemma trace_is_the_probes_own_witness :
  chosen (panel_run (mount (row noon) unasked) story) = Some (route noon "r1") /\
  at_of (panel_run (mount (row noon) unasked) story) = Some noon /\
  asks (panel_run (mount (row noon) unasked) story) = [Some later] /\
  coveringSnapshots firstSeen lastSeen [route noon "r1"] (Some noon) = [route noon "r1"] /\
  loading (panel_step (panel_step (panel_run (mount (row noon) unasked) story) (Answer [])) (Answer [])) = false.
Proof.
  assert (E1 : chosen (panel_run (mount (row noon) unasked) story) = Some (route noon "r1")) by (vm_compute; reflexivity).
  assert (E2 : at_of (panel_run (mount (row noon) unasked) story) = Some noon) by (vm_compute; reflexivity).
  assert (E3 : snapshots (panel_run (mount (row noon) unasked) story) = [route noon "r1"]) by (vm_compute; reflexivity).
  assert (Hq : q_ok unasked) by (split; [reflexivity|intros E; inversion E]).
  pose proof (trace_is_the_probes_own (row noon) unasked story Hq) as H. cbv zeta in H. destruct H as (H1 & _ & _ & _ & H5 & _).
  pose proof (H1 _ E1) as (_ & _ & H). rewrite E2, E3 in H. destruct H as [H|H]; [apply diff_false_true in H as []|].
  split; [exact E1|]. split; [exact E2|]. split; [vm_compute; reflexivity|]. split; [exact H|apply H5].
Defined.
End RunDetailWitness.
