(* ===== verification/MatrixFeed.v ===== *)
(** How the grid is fed ([web/src/hooks/use-ws-topic.ts], [use-matrix.ts], [use-topology.ts]): the subscription of a
    component to a topic of the shared socket, over renders, effects and callbacks that interleave, and the matrix
    served from one cache entry by pushes and polls. *)
From S2P Require Import Prelude JsNum JsString JsCollections JsValue JsDate TimeMachine RunPage.
Local Open Scope Z_scope.

(** ** A topic *)

(** An envelope as the hook reads it; [e_obj] is the identity of the data object it carries. *)
Record envelope := { e_error : bool; e_data : value; e_seq : number; e_obj : nat }.

Record TopicValue := { v_topic : jstr; v_data : option (nat * value); v_seq : number }.

Definition no_value (topic : jstr) : TopicValue := {| v_topic := topic; v_data := None; v_seq := int 0 |}.

(** The hook in one component: the arguments of the latest render, those its effect last ran for, its states, the topic
    its handler is subscribed to, and the shared socket's state.  Two fields only record what happened, for the
    theorems: whether the server refused the topic since the socket opened under it, and the data that arrived. *)
Record hook := {
  topic : jstr; enabled : bool; deps : option (jstr * bool);
  value_ : TopicValue; connected : bool; settled : bool;
  subscription : option jstr; ws_state : SocketState;
  refused : bool; arrivals : list (jstr * nat * value);
}.

Definition first_render (topic : jstr) (enabled : bool) (ws : SocketState) : hook :=
  {| topic := topic; enabled := enabled; deps := None; value_ := no_value topic; connected := false; settled := false;
     subscription := None; ws_state := ws; refused := false; arrivals := [] |}.

Definition rerender (topic : jstr) (enabled : bool) (h : hook) : hook :=
  {| topic := topic; enabled := enabled; deps := deps h; value_ := value_ h; connected := connected h; settled := settled h;
     subscription := subscription h; ws_state := ws_state h; refused := refused h; arrivals := arrivals h |}.

(** Subscribing dials a socket that is not open, unless a retry is already planned. *)
Definition dialled (dials : bool) (ws : SocketState) : SocketState :=
  if bool_decide (ws = Open) then Open else if dials then Connecting else ws.

(** The effect runs when the topic or the switch changed since it last ran, its cleanup first. *)
Definition topic_effect (dials : bool) (h : hook) : hook :=
  if bool_decide (deps h = Some (topic h, enabled h)) then h
  else if negb (enabled h)
  then {| topic := topic h; enabled := enabled h; deps := Some (topic h, enabled h); value_ := no_value (topic h);
          connected := false; settled := settled h; subscription := None; ws_state := ws_state h;
          refused := false; arrivals := arrivals h |}
  else
    let ws := dialled dials (ws_state h) in
    {| topic := topic h; enabled := enabled h; deps := Some (topic h, enabled h); value_ := value_ h;
       connected := bool_decide (ws_state h = Open); settled := bool_decide (ws <> Connecting);
       subscription := Some (topic h); ws_state := ws; refused := false; arrivals := arrivals h |}.

(** The socket's state changes; the listener hears of it while it is registered. *)
Definition onStateChange (s : SocketState) (h : hook) : hook :=
  match subscription h with
  | Some _ => {| topic := topic h; enabled := enabled h; deps := deps h; value_ := value_ h; connected := bool_decide (s = Open);
                 settled := settled h || bool_decide (s <> Connecting); subscription := subscription h; ws_state := s;
                 refused := refused h && negb (bool_decide (s = Open)); arrivals := arrivals h |}
  | None => {| topic := topic h; enabled := enabled h; deps := deps h; value_ := value_ h; connected := connected h;
               settled := settled h; subscription := None; ws_state := s; refused := refused h; arrivals := arrivals h |}
  end.

(** An envelope reaches the handler, which knows the topic it subscribed to. *)
Definition onEnvelope (e : envelope) (h : hook) : hook :=
  match subscription h with
  | None => h
  | Some t =>
      if e_error e
      then {| topic := topic h; enabled := enabled h; deps := deps h; value_ := value_ h; connected := false; settled := settled h;
              subscription := subscription h; ws_state := ws_state h; refused := true; arrivals := arrivals h |}
      else {| topic := topic h; enabled := enabled h; deps := deps h;
              value_ := {| v_topic := t; v_data := Some (e_obj e, e_data e); v_seq := e_seq e |};
              connected := connected h; settled := settled h; subscription := subscription h; ws_state := ws_state h;
              refused := refused h; arrivals := arrivals h ++ [(t, e_obj e, e_data e)] |}
  end.

(** What [useWsTopic] returns. *)
Definition current (h : hook) : bool := seqb (v_topic (value_ h)) (topic h).
Definition push_data (h : hook) : option (nat * value) := if current h then v_data (value_ h) else None.
Definition lastSeq (h : hook) : number := if current h then v_seq (value_ h) else int 0.
Definition topic_connecting (h : hook) : bool := enabled h && negb (settled h).

(** ** The matrix *)

Definition MATRIX_POLL_MS : Z := 15000.

Definition matrixTopic (protocol : jstr) : jstr := js "matrix:" ++ protocol ++ js ":pod".

(** What a render of the page is about: the plane, the instant viewed, and the server's capabilities. *)
Record view := { protocol : jstr; at_ : option Z; realtime : bool; resolved : bool }.

Definition engaged (v : view) : bool := match at_ v with Some _ => true | None => false end.
Definition push_enabled (v : view) : bool := realtime v && negb (engaged v).

(** The keys of the cache: the live entry of a plane, and one entry per instant. *)
Inductive cache_key := live_key (protocol : jstr) | past_key (protocol stamp : jstr).

(** What the page's effect depends on. *)
Definition feed_deps (v : view) (h : hook) : bool * bool * option nat * jstr := (realtime v, engaged v, fst <$> push_data h, protocol v).

Record feed := { f_view : view; f_hook : hook; f_deps : option (bool * bool * option nat * jstr); f_writes : list (cache_key * value) }.

Definition feed_mount (v : view) (ws : SocketState) : feed :=
  {| f_view := v; f_hook := first_render (matrixTopic (protocol v)) (push_enabled v) ws; f_deps := None; f_writes := [] |}.

(** A push is written over the live entry when it names the plane on screen. *)
Definition push_write (v : view) (h : hook) : list (cache_key * value) :=
  match push_data h with
  | Some (_, VObj kv) =>
      match vget (VObj kv) (js "protocol") with
      | VStr p => if realtime v && negb (engaged v) && seqb p (protocol v) then [(live_key (protocol v), VObj kv)] else []
      | _ => []
      end
  | _ => []
  end.

(** A commit: the effects of the hook and of the page, both over what was rendered. *)
Definition feed_effects (dials : bool) (f : feed) : feed :=
  let d := feed_deps (f_view f) (f_hook f) in
  {| f_view := f_view f; f_hook := topic_effect dials (f_hook f); f_deps := Some d;
     f_writes := f_writes f ++ if bool_decide (f_deps f = Some d) then [] else push_write (f_view f) (f_hook f) |}.

Inductive feed_event := Render (v : view) | Effects (dials : bool) | StateChange (s : SocketState) | Arrive (e : envelope).

Definition with_hook (g : hook -> hook) (f : feed) : feed :=
  {| f_view := f_view f; f_hook := g (f_hook f); f_deps := f_deps f; f_writes := f_writes f |}.

Definition feed_step (f : feed) (e : feed_event) : feed :=
  match e with
  | Render v => {| f_view := v; f_hook := rerender (matrixTopic (protocol v)) (push_enabled v) (f_hook f); f_deps := f_deps f; f_writes := f_writes f |}
  | Effects dials => feed_effects dials f
  | StateChange s => with_hook (onStateChange s) f
  | Arrive e => with_hook (onEnvelope e) f
  end.

Definition feed_run (f : feed) (es : list feed_event) : feed := fold_left feed_step es f.

Definition live (f : feed) : bool := realtime (f_view f) && negb (engaged (f_view f)) && connected (f_hook f).

Definition connecting (f : feed) : bool :=
  negb (engaged (f_view f)) && (negb (resolved (f_view f)) || realtime (f_view f) && topic_connecting (f_hook f)).

Definition query_key (v : view) : cache_key :=
  match at_ v with Some t => past_key (protocol v) (default [] (formatAtParam (Some t))) | None => live_key (protocol v) end.

(** [None] is false: the query does not poll. *)
Definition matrix_interval (f : feed) : option Z := if engaged (f_view f) || live f then None else Some MATRIX_POLL_MS.

(** ** The topology *)

Definition TOPOLOGY_POLL_MS : Z := 15000.

(** The stamp in the key, and the poll. *)
Definition useTopology (instant : option Z) : option jstr * option Z :=
  (t ← instant; formatAtParam (Some t), match instant with Some _ => None | None => Some TOPOLOGY_POLL_MS end).

(** * Theorems *)

(** The hook between events: connected is an open socket under the subscription, not refused; a subscription is the
    one its effect asked for; data held arrived on the topic it is tagged with. *)
Record hook_ok (h : hook) : Prop := {
  k_connected : connected h = bool_decide (subscription h <> None /\ ws_state h = Open) && negb (refused h);
  k_subscription : subscription h = (d ← deps h; if d.2 : bool then Some d.1 else None);
  k_refused : refused h = true -> subscription h <> None;
  k_data : forall o d, v_data (value_ h) = Some (o, d) -> (v_topic (value_ h), o, d) ∈ arrivals h;
}.

#[local] Ltac fields := cbn [first_render rerender topic enabled deps value_ connected settled subscription ws_state refused arrivals v_topic v_data negb].

Lemma first_render_ok t e ws : hook_ok (first_render t e ws).
Proof. split; fields; [|done..]. rewrite bool_decide_eq_false_2; [done|]. by intros [? _]. Qed.

Lemma rerender_ok t e h : hook_ok h -> hook_ok (rerender t e h).
Proof. intros [H1 H2 H3 H4]. by split. Qed.

Lemma topic_effect_ok dials h : hook_ok h -> hook_ok (topic_effect dials h).
Proof.
  intros Hok. unfold topic_effect. case_bool_decide; [done|]. destruct Hok as [_ _ _ H4]. destruct (enabled h) eqn:Ee; cbn [negb]; split; fields; try done.
  - rewrite andb_true_r. apply bool_decide_ext. unfold dialled. case_bool_decide; [by split|]. split; [done|]. intros [_ E]. destruct dials; done.
Qed.

Lemma onStateChange_ok s h : hook_ok h -> hook_ok (onStateChange s h).
Proof.
  intros [H1 H2 H3 H4]. unfold onStateChange. destruct (subscription h) as [t|] eqn:Es; split; fields; try done.
  - destruct (decide (s = Open)) as [->|Hs].
    + rewrite !bool_decide_eq_true_2 by (repeat split; done). by rewrite andb_false_r.
    + rewrite (bool_decide_eq_false_2 (s = Open)), bool_decide_eq_false_2; [done| |done]. by intros [_ ?].
Qed.

Lemma onEnvelope_ok e h : hook_ok h -> hook_ok (onEnvelope e h).
Proof.
  intros Hok. unfold onEnvelope. destruct (subscription h) as [t|] eqn:Es; [|done]. destruct Hok as [H1 H2 H3 H4].
  rewrite Es in H1, H2. destruct (e_error e); split; fields; try done.
  - by rewrite andb_false_r.
  - intros o d [= <- <-]. apply elem_of_app. right. by apply list_elem_of_singleton.
Qed.

(** Every write is a push that arrived on the plane's topic and names the plane. *)
Definition written_ok (h : hook) (w : cache_key * value) : Prop :=
  exists p o, w.1 = live_key p /\ vget w.2 (js "protocol") = VStr p /\ (matrixTopic p, o, w.2) ∈ arrivals h.

Lemma push_write_ok v h :
  hook_ok h -> topic h = matrixTopic (protocol v) ->
  Forall (written_ok h) (push_write v h) /\ (engaged v = true -> push_write v h = []).
Proof.
  intros Hok Ht. unfold push_write, push_data, current. destruct (seqb _ (topic h)) eqn:Et; [|by split].
  apply seqb_eq in Et. destruct (v_data (value_ h)) as [[o d]|] eqn:Ed; [|by split]. destruct d as [| | | | | |kv]; try by split.
  destruct (vget _ _) eqn:Ev; try by split. destruct (realtime v && _ && _) eqn:Eg.
  - apply andb_true_iff in Eg as [[_ Eg]%andb_true_iff ->%seqb_eq]. split; [|intros En; by rewrite En in Eg]. constructor; [|done].
    exists (protocol v), o. split_and!; [done|done|]. rewrite <- Ht, <- Et. by apply (k_data _ Hok).
  - by split.
Qed.

Record feed_ok (f : feed) : Prop := {
  fk_hook : hook_ok (f_hook f);
  fk_args : topic (f_hook f) = matrixTopic (protocol (f_view f)) /\ enabled (f_hook f) = push_enabled (f_view f);
  fk_writes : Forall (written_ok (f_hook f)) (f_writes f);
}.

Lemma written_mono h h' ws : sublist (arrivals h) (arrivals h') -> Forall (written_ok h) ws -> Forall (written_ok h') ws.
Proof.
  intros Hs Hf. apply (Forall_impl _ _ _ Hf). intros w (p & o & E1 & E2 & Hin). exists p, o. split_and!; [done|done|]. by apply (elem_of_sublist _ _ _ Hin Hs).
Qed.

Lemma topic_effect_args dials h : topic (topic_effect dials h) = topic h /\ enabled (topic_effect dials h) = enabled h /\ arrivals (topic_effect dials h) = arrivals h.
Proof. unfold topic_effect. case_bool_decide; [done|]. by destruct (negb _). Qed.

Lemma onStateChange_args s h : topic (onStateChange s h) = topic h /\ enabled (onStateChange s h) = enabled h /\ arrivals (onStateChange s h) = arrivals h.
Proof. unfold onStateChange. by destruct (subscription h). Qed.

Lemma onEnvelope_args e h : topic (onEnvelope e h) = topic h /\ enabled (onEnvelope e h) = enabled h /\ sublist (arrivals h) (arrivals (onEnvelope e h)).
Proof. unfold onEnvelope. destruct (subscription h); [|done]. destruct (e_error e); [done|]. split_and!; [done|done|]. cbn. by apply sublist_inserts_r. Qed.

Lemma feed_step_ok f e : feed_ok f -> feed_ok (feed_step f e).
Proof.
  intros [Hh [Ht He] Hw]. destruct e as [v|dials|s|env]; cbn [feed_step].
  - split; cbn; [by apply rerender_ok|done|]. by apply (written_mono (f_hook f)).
  - destruct (topic_effect_args dials (f_hook f)) as (E1 & E2 & E3). split; cbn; [by apply topic_effect_ok|by rewrite E1, E2|].
    apply (written_mono (f_hook f)); [by rewrite E3|]. apply Forall_app. split; [done|]. case_bool_decide; [done|]. by apply push_write_ok.
  - destruct (onStateChange_args s (f_hook f)) as (E1 & E2 & E3). split; cbn; [by apply onStateChange_ok|by rewrite E1, E2|].
    apply (written_mono (f_hook f)); [by rewrite E3|done].
  - destruct (onEnvelope_args env (f_hook f)) as (E1 & E2 & E3). split; cbn; [by apply onEnvelope_ok|by rewrite E1, E2|].
    by apply (written_mono (f_hook f)).
Qed.

Lemma feed_run_ok v ws es : feed_ok (feed_run (feed_mount v ws) es).
Proof.
  unfold feed_run. induction es as [|e es IH] using rev_ind.
  - split; cbn; [apply first_render_ok|done|done].
  - rewrite fold_left_app. by apply feed_step_ok.
Qed.

(** C13: The grid always has a source, and only its own.  Whatever order renders, effects, socket changes and envelopes
    come in: once the effects of the latest render have run, a live grid either polls or is subscribed to exactly its
    plane's topic over an open socket on which the server has not refused it, and then it does not poll; the data it
    is handed arrived on its own topic; every write to the cache is such a push, naming its plane, over the live entry
    of that plane; and while a past instant is viewed a commit writes nothing. *)
Theorem grid_is_fed v ws es dials :
  let f := feed_run (feed_mount v ws) es in
  let h := f_hook f in
  let own := subscription h = Some (matrixTopic (protocol (f_view f))) /\ ws_state h = Open /\ refused h = false in
  (deps h = Some (topic h, enabled h) -> engaged (f_view f) = false ->
     (matrix_interval f = None <-> realtime (f_view f) = true /\ own) /\ (matrix_interval f <> None -> matrix_interval f = Some MATRIX_POLL_MS)) /\
  (forall o d, push_data h = Some (o, d) -> (matrixTopic (protocol (f_view f)), o, d) ∈ arrivals h) /\
  Forall (written_ok h) (f_writes f) /\
  (engaged (f_view f) = true -> f_writes (feed_step f (Effects dials)) = f_writes f /\ matrix_interval f = None /\ query_key (f_view f) <> live_key (protocol (f_view f))).
Proof.
  intros f h own. destruct (feed_run_ok v ws es) as [Hh [Ht He] Hw]. fold f in Hh, Ht, He, Hw. fold h in Hh, Ht, He, Hw. split_and!.
  - intros Hd Hg. assert (Hi : matrix_interval f = if live f then None else Some MATRIX_POLL_MS) by (unfold matrix_interval; by rewrite Hg).
    split; [|rewrite Hi; by destruct (live f)].
    pose proof (k_subscription _ Hh) as Hs. rewrite Hd in Hs. cbn in Hs. unfold push_enabled in He. rewrite Hg, andb_true_r in He. rewrite He, Ht in Hs.
    rewrite Hi. unfold live. rewrite Hg, andb_true_r. fold h. rewrite (k_connected _ Hh). unfold own. destruct (realtime (f_view f)); [|by split; [|intros [? _]]].
    rewrite Hs. cbn [andb]. destruct (refused h); [rewrite andb_false_r; split; [done|by intros (_ & _ & _ & ?)]|]. rewrite andb_true_r.
    case_bool_decide as E; [split; [intros _; by destruct E|done]|]. split; [done|]. intros (_ & _ & Eo & _). by exfalso; apply E.
  - intros o d. unfold push_data, current. destruct (seqb _ _) eqn:E; [|done]. apply seqb_eq in E. intros Hv. rewrite <- Ht, <- E. by apply (k_data _ Hh).
  - done.
  - intros Hg. split_and!.
    + cbn [feed_step feed_effects f_writes]. fold h. case_bool_decide; [by rewrite app_nil_r|]. rewrite (proj2 (push_write_ok _ _ Hh Ht) Hg). by rewrite app_nil_r.
    + unfold matrix_interval. by rewrite Hg.
    + unfold query_key, engaged in *. by destruct (at_ (f_view f)).
Qed.

(** * Witnesses *)
Module MatrixFeedWitness.

Definition tcp : view := {| protocol := js "tcp"; at_ := None; realtime := true; resolved := true |}.
Definition frame : envelope := {| e_error := false; e_data := VObj [(js "protocol", VStr (js "tcp"))]; e_seq := int 1; e_obj := 1 |}.

(** The socket opens, a frame arrives, the frame is committed. *)
Definition morning : list feed_event := [Effects true; StateChange Open; Arrive frame; Effects false].

(** It polls before, not after, when it is subscribed; the frame is in the cache, and is the plane's own. *)
Lemma grid_is_fed_witness :
  matrix_interval (feed_mount tcp Closed) = Some MATRIX_POLL_MS /\
  subscription (f_hook (feed_run (feed_mount tcp Closed) morning)) = Some (matrixTopic (js "tcp")) /\
  f_writes (feed_run (feed_mount tcp Closed) morning) = [(live_key (js "tcp"), e_data frame)] /\
  Forall (written_ok (f_hook (feed_run (feed_mount tcp Closed) morning))) (f_writes (feed_run (feed_mount tcp Closed) morning)).
Proof.
  split; [vm_compute; reflexivity|]. pose proof (grid_is_fed tcp Closed morning true) as H. cbv zeta in H. destruct H as (H1 & _ & H3 & _).
  specialize (H1 ltac:(vm_compute; reflexivity) ltac:(vm_compute; reflexivity)) as [H1 _]. apply proj1 in H1.
  specialize (H1 ltac:(vm_compute; reflexivity)) as (_ & H1 & _).
  split; [exact H1|]. split; [vm_compute; reflexivity|exact H3].
Defined.
End MatrixFeedWitness.
