(* ===== verification/Tooltip.v ===== *)
(** The bubble of a chart ([web/src/lib/chart-tooltip.ts]): where it stands in the window, which rows it names, what
    their values read as, and the HTML it is made of. *)
From S2P Require Import Prelude JsNum JsString JsCollections JsValue JsFormat.
Local Open Scope Z_scope.

(** ** Where it stands *)

Definition GAP : Z := 12.
Definition VIEWPORT_MARGIN : Z := 8.

Record HostRect := { host_left : number; host_top : number }.
Record TooltipPlacement := { point : number * number; content : number * number; host : HostRect; viewport : number * number }.

Definition clamp (v min max : number) : number := if (max <? min)%num then min else nmin (nmax v min) max.

Definition coversPoint (px py x y w h : number) : bool := (px >=? x)%num && (px <=? x + w)%num && (py >=? y)%num && (py <=? y + h)%num.

Definition placeTooltip (p : TooltipPlacement) : number * number :=
  let '(px, py) := point p in
  let '(w, h) := content p in
  let minX := (int VIEWPORT_MARGIN - host_left (host p))%num in
  let maxX := ((viewport p).1 - int VIEWPORT_MARGIN - w - host_left (host p))%num in
  let minY := (int VIEWPORT_MARGIN - host_top (host p))%num in
  let maxY := ((viewport p).2 - int VIEWPORT_MARGIN - h - host_top (host p))%num in
  let right := (px + int GAP)%num in
  let left := (px - int GAP - w)%num in
  let x := if (right <=? maxX)%num then right else if (left >=? minX)%num then left else clamp right minX maxX in
  let y := clamp (py - h / int 2)%num minY maxY in
  if coversPoint px py x y w h then
    let below := (py + int GAP)%num in
    let above := (py - int GAP - h)%num in
    (x, if (below <=? maxY)%num then below else if (above >=? minY)%num then above else y)
  else (x, y).

(** ** Which rows *)

Definition TOOLTIP_ROW_CAP : Z := 10.

(** A row as the chart hands it; [row_value] is undefined where it carries none. *)
Record AxisTooltipRow := { marker : option jstr; seriesName : option jstr; row_value : value; seriesIndex : option nat }.

(** [Array.isArray(v) ? v[v.length - 1] : v]. *)
Definition raw_value (v : value) : value := match v with VArr l => default VUndef (last l) | _ => v end.

Definition rowValue (row : AxisTooltipRow) : option number :=
  match raw_value (row_value row) with
  | VNull | VUndef | VStr [] => None
  | raw => let n := match raw with VNum n => n | _ => number_of_value raw end in if isFinite n then Some n else None
  end.

Definition rank (cursor : option number) (row : AxisTooltipRow) : number :=
  match rowValue row with
  | None => Inf false
  | Some v => match cursor with None => nneg v | Some c => nabs (v - c)%num end
  end.

(** [a.rank - b.rank || a.i - b.i]. *)
Definition by_rank (cursor : option number) (a b : nat * AxisTooltipRow) : number :=
  let d := (rank cursor a.2 - rank cursor b.2)%num in
  if isNaN d || (d =? int 0)%num then (int (Z.of_nat a.1) - int (Z.of_nat b.1))%num else d.

Definition capTooltipRows (rows : list AxisTooltipRow) (cursor : option number) (cap : nat) : list AxisTooltipRow * Z :=
  if (length rows <=? cap)%nat then (rows, 0)
  else (take cap (js_sort (by_rank cursor) (imap pair rows)).*2, Z.of_nat (length rows) - Z.of_nat cap).

(** ** What a value reads as *)

Definition NO_VALUE : jstr := js "—".

Definition tooltipValueText (raw : value) (valueFormatter : option (value -> jstr)) : jstr :=
  match raw with
  | VNull | VUndef => NO_VALUE
  | VStr s => if seqb s [] || seqb s (js "-") then NO_VALUE else match valueFormatter with Some f => f raw | None => string_of_value raw end
  | VNum n => if negb (isFinite n) then NO_VALUE else match valueFormatter with Some f => f raw | None => string_of_value raw end
  | _ => match valueFormatter with Some f => f raw | None => string_of_value raw end
  end.

(** ** The HTML *)

(** [s.replace(/c/g, by)] for one character. *)
Definition replace_all (c : Z) (by_ : jstr) (s : jstr) : jstr := s ≫= (fun x => if x =? c then by_ else [x]).

Definition escapeHtml (s : jstr) : jstr :=
  replace_all 34 (js "&quot;") (replace_all 62 (js "&gt;") (replace_all 60 (js "&lt;") (replace_all 38 (js "&amp;") s))).

(** The formatter with the row it may look at. *)
Definition ValueFormatter := value -> AxisTooltipRow -> jstr.

Definition shown_value (valueFormatter : option ValueFormatter) (row : AxisTooltipRow) : jstr :=
  tooltipValueText (raw_value (row_value row)) ((fun f v => f v row) <$> valueFormatter).

Definition ROW_OPEN : jstr := js "<div style=" ++ [34] ++ js "display:flex;align-items:center;gap:8px;line-height:1.5" ++ [34] ++ js ">".
Definition NAME_OPEN : jstr :=
  js "<span style=" ++ [34] ++ js "flex:1 1 auto;overflow:hidden;text-overflow:ellipsis;white-space:nowrap;max-width:22rem" ++ [34] ++ js ">".
Definition VALUE_OPEN : jstr := js "<span style=" ++ [34] ++ js "font-weight:600" ++ [34] ++ js ">".
Definition TAIL_OPEN : jstr := js "<div style=" ++ [34] ++ js "margin-top:4px;opacity:0.7" ++ [34] ++ js ">".
Definition HEADER_OPEN : jstr := js "<div style=" ++ [34] ++ js "font-weight:600;margin-bottom:4px" ++ [34] ++ js ">".

Definition row_html (valueFormatter : option ValueFormatter) (row : AxisTooltipRow) : jstr :=
  ROW_OPEN ++ default [] (marker row) ++
  NAME_OPEN ++ escapeHtml (default [] (seriesName row)) ++ js "</span>" ++
  VALUE_OPEN ++ escapeHtml (shown_value valueFormatter row) ++ js "</span></div>".

Definition renderAxisTooltip (rows : list AxisTooltipRow) (hidden : Z) (header : jstr) (more : Z -> jstr) (valueFormatter : option ValueFormatter) : jstr :=
  let body := rows ≫= row_html valueFormatter in
  let tail := if 0 <? hidden then TAIL_OPEN ++ escapeHtml (more hidden) ++ js "</div>" else [] in
  HEADER_OPEN ++ escapeHtml header ++ js "</div>" ++ body ++ tail.

(** The formatter of a tooltip with an axis trigger: [own] is a series' formatter by its index, [chart] the chart's. *)
Definition row_formatter (own : nat -> option (value -> jstr)) (hasOwn : bool) (chart : option (value -> jstr)) : option ValueFormatter :=
  if hasOwn || bool_decide (is_Some chart)
  then Some (fun v row => (match seriesIndex row ≫= own with Some f => f | None => default string_of_value chart end) v)
  else None.

Definition tooltip_formatter (cursor : option number) (cap : nat) (more : Z -> jstr) (label : option jstr) (valueFormatter : option ValueFormatter)
    (params : list AxisTooltipRow) : jstr :=
  let '(rows, hidden) := capTooltipRows params cursor cap in
  renderAxisTooltip rows hidden (default [] label) more valueFormatter.

(** * Theorems *)

(** ** The HTML says what it was given *)

(** A reader of HTML: the text between the tags, and the tags. *)
Fixpoint scan (inside : bool) (s : jstr) : jstr * jstr :=
  match s with
  | [] => ([], [])
  | c :: r =>
      if inside then let '(t, m) := scan (negb (c =? 62)) r in (t, c :: m)
      else if c =? 60 then let '(t, m) := scan true r in (t, c :: m)
      else let '(t, m) := scan false r in (c :: t, m)
  end.

Definition entity (name : jstr) : jstr :=
  if seqb name (js "amp") then [38] else if seqb name (js "lt") then [60] else if seqb name (js "gt") then [62]
  else if seqb name (js "quot") then [34] else [38] ++ name ++ [59].

(** The character references of a text, read. *)
Fixpoint unescape (pending : option jstr) (s : jstr) : jstr :=
  match s, pending with
  | [], None => []
  | [], Some n => 38 :: n
  | c :: r, None => if c =? 38 then unescape (Some []) r else c :: unescape None r
  | c :: r, Some n => if c =? 59 then entity n ++ unescape None r else unescape (Some (n ++ [c])) r
  end.

Definition textContent (html : jstr) : jstr := unescape None (scan false html).1.
Definition tags (html : jstr) : jstr := (scan false html).2.

Definition escape_unit (c : Z) : jstr :=
  if c =? 38 then js "&amp;" else if c =? 60 then js "&lt;" else if c =? 62 then js "&gt;" else if c =? 34 then js "&quot;" else [c].

Lemma replace_all_app c b s t : replace_all c b (s ++ t) = replace_all c b s ++ replace_all c b t.
Proof. apply bind_app. Qed.

Lemma escapeHtml_app s t : escapeHtml (s ++ t) = escapeHtml s ++ escapeHtml t.
Proof. unfold escapeHtml. by rewrite !replace_all_app. Qed.

Lemma replace_all_other c b x : x <> c -> replace_all c b [x] = [x].
Proof. intros H. unfold replace_all. cbn [mbind list_bind app]. by rewrite (proj2 (Z.eqb_neq x c) H). Qed.

Lemma escapeHtml_unit c : escapeHtml [c] = escape_unit c.
Proof.
  unfold escape_unit. destruct (Z.eqb_spec c 38) as [->|H1]; [reflexivity|]. destruct (Z.eqb_spec c 60) as [->|H2]; [reflexivity|].
  destruct (Z.eqb_spec c 62) as [->|H3]; [reflexivity|]. destruct (Z.eqb_spec c 34) as [->|H4]; [reflexivity|].
  unfold escapeHtml. by rewrite !replace_all_other.
Qed.

Lemma escapeHtml_cons c s : escapeHtml (c :: s) = escape_unit c ++ escapeHtml s.
Proof. rewrite <- escapeHtml_unit. apply (escapeHtml_app [c]). Qed.

Lemma scan_plain u r : forallb (fun c => negb (c =? 60)) u = true -> scan false (u ++ r) = (u ++ (scan false r).1, (scan false r).2).
Proof.
  induction u as [|c u IH]; [cbn [app]; by destruct (scan false r)|]. cbn [forallb]. rewrite andb_true_iff, negb_true_iff. intros [Hc Hu].
  cbn [app scan]. rewrite Hc, (IH Hu). done.
Qed.

Lemma escape_unit_plain c : forallb (fun c => negb (c =? 60)) (escape_unit c) = true.
Proof.
  unfold escape_unit. destruct (c =? 38); [reflexivity|]. destruct (c =? 60) eqn:E; [reflexivity|]. destruct (c =? 62); [reflexivity|].
  destruct (c =? 34); [reflexivity|]. cbn [forallb]. by rewrite E.
Qed.

(** An escaped text opens no tag, and reads back. *)
Lemma scan_escaped s r : scan false (escapeHtml s ++ r) = (escapeHtml s ++ (scan false r).1, (scan false r).2).
Proof.
  apply scan_plain. induction s as [|c s IH]; [done|]. by rewrite escapeHtml_cons, forallb_app, escape_unit_plain.
Qed.

Lemma unescape_escaped s r : unescape None (escapeHtml s ++ r) = s ++ unescape None r.
Proof.
  induction s as [|c s IH]; [done|]. rewrite escapeHtml_cons, <- app_assoc. cbn [app]. rewrite <- IH.
  unfold escape_unit. repeat match goal with |- context [if ?c =? ?k then _ else _] => destruct (Z.eqb_spec c k) end; subst; [reflexivity..|].
  cbn [app unescape]. by rewrite (proj2 (Z.eqb_neq c 38)).
Qed.

(** Markup: tags, and no text between them. *)
Definition markup (m : jstr) : Prop := forall r, scan false (m ++ r) = ((scan false r).1, m ++ (scan false r).2).

Lemma markup_app m n : markup m -> markup n -> markup (m ++ n).
Proof. intros Hm Hn r. by rewrite <- !app_assoc, Hm, Hn. Qed.

Lemma markup_nil : markup [].
Proof. intros r. cbn [app]. by destruct (scan false r). Qed.

Fixpoint tagged (inside : bool) (m : jstr) : bool :=
  match m with
  | [] => negb inside
  | c :: r => if inside then tagged (negb (c =? 62)) r else (c =? 60) && tagged true r
  end.

Lemma tagged_scan m r b : tagged b m = true -> scan b (m ++ r) = ((scan false r).1, m ++ (scan false r).2).
Proof.
  revert b. induction m as [|c m IH]; intros b; cbn [tagged app].
  - rewrite negb_true_iff. intros ->. by destruct (scan false r).
  - cbn [scan]. destruct b; [intros Hm; by rewrite (IH _ Hm)|]. destruct (c =? 60); [|done]. intros Hm. by rewrite (IH _ Hm).
Qed.

Lemma tagged_markup m : tagged false m = true -> markup m.
Proof. intros Hm r. by apply tagged_scan. Qed.

(** What a row and the bubble read as, and their markup. *)
Definition row_text (vf : option ValueFormatter) (row : AxisTooltipRow) : jstr := default [] (seriesName row) ++ shown_value vf row.
Definition row_markup (row : AxisTooltipRow) : jstr := ROW_OPEN ++ default [] (marker row) ++ NAME_OPEN ++ js "</span>" ++ VALUE_OPEN ++ js "</span></div>".

(** A piece of HTML that reads as [t] over the markup [m]: its scanned text is [e], which is [t] escaped. *)
Definition reads (html t m : jstr) : Prop := exists e, (forall r, unescape None (e ++ r) = t ++ unescape None r) /\
  forall r, scan false (html ++ r) = (e ++ (scan false r).1, m ++ (scan false r).2).

Lemma reads_markup m : markup m -> reads m [] m.
Proof. intros Hm. exists []. split; [done|]. intros r. by rewrite Hm. Qed.

Lemma reads_escaped s : reads (escapeHtml s) s [].
Proof. exists (escapeHtml s). split; [intros; apply unescape_escaped|]. intros r. by rewrite scan_escaped. Qed.

Lemma reads_app h t m h' t' m' : reads h t m -> reads h' t' m' -> reads (h ++ h') (t ++ t') (m ++ m').
Proof.
  intros (e & U1 & S1) (e' & U2 & S2). exists (e ++ e'). split; [intros r; by rewrite <- !app_assoc, U1, U2|].
  intros r. rewrite <- app_assoc, S1, S2. cbn [fst snd]. by rewrite <- !app_assoc.
Qed.

Lemma reads_bind {A} (f t m : A -> jstr) l : Forall (fun x => reads (f x) (t x) (m x)) l -> reads (l ≫= f) (l ≫= t) (l ≫= m).
Proof. induction 1 as [|x l Hx _ IH]; [apply reads_markup, markup_nil|]. by apply reads_app. Qed.

Lemma reads_spec h t m : reads h t m -> textContent h = t /\ tags h = m.
Proof.
  intros (e & HU & HS). specialize (HS []). specialize (HU []). cbn [scan fst snd] in HS. rewrite !app_nil_r in HS. rewrite !app_nil_r in HU.
  unfold textContent, tags. by rewrite HS.
Qed.

Lemma reads_tag m h t m' : markup m -> reads h t m' -> reads (m ++ h) t (m ++ m').
Proof. intros Hm Hh. apply (reads_app m [] m); [by apply reads_markup|done]. Qed.

Lemma reads_text s h t m : reads h t m -> reads (escapeHtml s ++ h) (s ++ t) m.
Proof. apply (reads_app (escapeHtml s) s []). apply reads_escaped. Qed.

Lemma reads_last s m : markup m -> reads (escapeHtml s ++ m) s m.
Proof. intros Hm. pose proof (reads_text s m [] m (reads_markup m Hm)) as H. by rewrite app_nil_r in H. Qed.

#[local] Ltac tag := apply reads_tag; [apply tagged_markup; vm_compute; reflexivity|].

Lemma reads_row vf row : markup (default [] (marker row)) -> reads (row_html vf row) (row_text vf row) (row_markup row).
Proof.
  intros Hm. unfold row_html, row_text, row_markup.
  tag. apply reads_tag; [done|]. tag.
  apply reads_text. tag. tag.
  apply reads_last, tagged_markup. vm_compute. reflexivity.
Qed.

(** C25: A chart's bubble shows every text as it was given and lets none of them be markup.  Whatever the header, the
    series' names, the formatted values and the overflow line hold - label values are somebody else's text - the
    bubble's text reads exactly as those, in order, and its tags are the ones of its layout, whatever the texts. *)
Theorem tooltip_text_verbatim rows hidden header more vf :
  Forall (fun row => markup (default [] (marker row))) rows ->
  let html := renderAxisTooltip rows hidden header more vf in
  textContent html = header ++ (rows ≫= row_text vf) ++ (if 0 <? hidden then more hidden else []) /\
  tags html = HEADER_OPEN ++ js "</div>" ++ (rows ≫= row_markup) ++ (if 0 <? hidden then TAIL_OPEN ++ js "</div>" else []).
Proof.
  intros Hm html. apply reads_spec. subst html. unfold renderAxisTooltip. cbv zeta.
  tag. apply reads_text. tag. apply reads_app.
  - apply reads_bind. apply (Forall_impl _ _ _ Hm). intros row. apply reads_row.
  - destruct (0 <? hidden); [|apply reads_markup, markup_nil]. tag.
    apply reads_last, tagged_markup. vm_compute. reflexivity.
Qed.

(** ** The bubble stays in the window *)

(** A clamped value lies between its bounds. *)
Lemma clamp_between v a b : isNaN v = false -> a <= b -> exists z, clamp v (int a) (int b) = Fin z /\ a * U <= z <= b * U.
Proof.
  intros Hv Hab. pose proof U_pos. unfold clamp. rewrite nltb_int, (proj2 (Z.ltb_ge b a)) by lia. unfold nmin, nmax.
  destruct v as [|[]|z]; [done|..]; cbn [isNaN orb int nltb]; unfold int; cbn [isNaN orb nltb].
  - destruct (Z.ltb_spec (b * U) (a * U)); eexists; (split; [reflexivity|nia]).
  - eexists; (split; [reflexivity|nia]).
  - destruct (Z.ltb_spec z (a * U)); cbn [isNaN orb nltb]; [destruct (Z.ltb_spec (b * U) (a * U))|destruct (Z.ltb_spec (b * U) z)];
      eexists; (split; [reflexivity|nia]).
Qed.

(** Half a height taken from a coordinate is a number. *)
Lemma centre_number py h : 0 <= h <= 2 ^ 40 -> isNaN (int py - int h / int 2)%num = false.
Proof.
  intros Hh. pose proof U_pos. destruct (ndiv_int_between (h * U) 2 0 (2 ^ 40)) as (q & E & _); [lia|done|unfold safe; lia|nia|].
  change (Fin (h * U)) with (int h) in E. rewrite E. unfold nsub, int. cbn [nneg nadd]. unfold round64. by destruct (_ <? _).
Qed.

(** Coordinates of a window, in pixels. *)
Definition pixels (z : Z) : Prop := Z.abs z <= 2 ^ 40.

Record placed := { q_px : Z; q_py : Z; q_w : Z; q_h : Z; q_left : Z; q_top : Z; q_vw : Z; q_vh : Z }.

Definition placement (q : placed) : TooltipPlacement :=
  {| point := (int (q_px q), int (q_py q)); content := (int (q_w q), int (q_h q));
     host := {| host_left := int (q_left q); host_top := int (q_top q) |}; viewport := (int (q_vw q), int (q_vh q)) |}.

(** Pixel coordinates, a cursor over the window, and a bubble that fits between the margins. *)
Record placeable (q : placed) : Prop := {
  p_pixels : Forall pixels [q_px q; q_py q; q_w q; q_h q; q_left q; q_top q; q_vw q; q_vh q];
  p_size : 0 <= q_w q /\ 0 <= q_h q;
  p_cursor : 0 <= q_left q + q_px q <= q_vw q /\ 0 <= q_top q + q_py q <= q_vh q;
  p_fits : q_w q + 2 * VIEWPORT_MARGIN <= q_vw q /\ q_h q + 2 * VIEWPORT_MARGIN <= q_vh q;
}.

Definition between (lo : Z) (v : number) (hi : Z) : Prop := (int lo <=? v)%num = true /\ (v <=? int hi)%num = true.

Lemma between_int lo z hi : lo <= z <= hi -> between lo (int z) hi.
Proof. unfold between. rewrite !nleb_int. lia. Qed.

Lemma between_clamp v lo hi : isNaN v = false -> lo <= hi -> between lo (clamp v (int lo) (int hi)) hi.
Proof. intros Hv Hl. destruct (clamp_between v lo hi Hv Hl) as (z & -> & Hz). unfold between, int. rewrite !nleb_fin. lia. Qed.

(** C26: A bubble that fits in the window is whole inside it.  For pixel coordinates and a cursor over the window the
    bubble stands between the window's margins on both axes, whichever side of the cursor it took, and it does not lie
    over the point being read unless there is room neither below nor above it. *)
Theorem tooltip_in_window q :
  placeable q ->
  let '(x, y) := placeTooltip (placement q) in
  between (VIEWPORT_MARGIN - q_left q) x (q_vw q - VIEWPORT_MARGIN - q_w q - q_left q) /\
  between (VIEWPORT_MARGIN - q_top q) y (q_vh q - VIEWPORT_MARGIN - q_h q - q_top q) /\
  (coversPoint (int (q_px q)) (int (q_py q)) x y (int (q_w q)) (int (q_h q)) = true ->
     q_vh q - VIEWPORT_MARGIN - q_h q - q_top q < q_py q + GAP /\ q_py q - GAP - q_h q < VIEWPORT_MARGIN - q_top q).
Proof.
  intros [Hp Hs Hc Hf]. destruct q as [px py w h hl ht vw vh]. cbn [q_px q_py q_w q_h q_left q_top q_vw q_vh] in *.
  repeat (apply Forall_cons in Hp as [? Hp]). unfold pixels, VIEWPORT_MARGIN, GAP in *.
  unfold placeTooltip, placement. cbn [point content host viewport host_left host_top fst snd q_px q_py q_w q_h q_left q_top q_vw q_vh]. unfold VIEWPORT_MARGIN, GAP.
  repeat (rewrite nsub_int by (unfold safe; lia)). repeat (rewrite nadd_int by (unfold safe; lia)). rewrite !nleb_int.
  set (x := if px + 12 <=? _ then _ else _). set (y0 := clamp (int py - int h / int 2)%num _ _).
  assert (Hx : between (8 - hl) x (vw - 8 - w - hl)).
  { subst x. destruct (Z.leb_spec (px + 12) (vw - 8 - w - hl)); [apply between_int; lia|].
    destruct (Z.leb_spec (8 - hl) (px - 12 - w)); [apply between_int; lia|]. apply between_clamp; [done|lia]. }
  assert (Hy : between (8 - ht) y0 (vh - 8 - h - ht)) by (apply between_clamp; [apply centre_number|]; lia).
  destruct (coversPoint _ _ x y0 _ _) eqn:Ec; [|split_and!; [done|done|by rewrite Ec]].
  destruct (Z.leb_spec (py + 12) (vh - 8 - h - ht)); [split_and!; [done|apply between_int; lia|]|].
  { unfold coversPoint. rewrite (nleb_int (py + 12) py), (proj2 (Z.leb_gt _ _)), andb_false_r by lia. done. }
  destruct (Z.leb_spec (8 - ht) (py - 12 - h)); [split_and!; [done|apply between_int; lia|]|split_and!; [done|done|lia]].
  unfold coversPoint. rewrite nadd_int, (nleb_int py), (proj2 (Z.leb_gt py _)), andb_false_r by (unfold safe; lia). done.
Qed.

(** ** The rows kept *)

(** The order of ranks: finite ones by their value, then the rest. *)
Definition no_farther (x y : number) : Prop :=
  match x, y with Fin a, Fin b => a <= b | Fin _, _ => True | _, Fin _ => False | _, _ => True end.

Definition ahead (cursor : option number) (a b : nat * AxisTooltipRow) : Prop :=
  let x := rank cursor a.2 in let y := rank cursor b.2 in
  no_farther x y /\ (no_farther y x -> (a.1 <= b.1)%nat).

(** The ranks a finite cursor gives: a distance, or last. *)
Definition is_rank (x : number) : Prop := match x with Fin _ | Inf false => True | _ => False end.

Lemma rank_is cursor row : from_option isFinite true cursor = true -> is_rank (rank cursor row).
Proof.
  intros Hc. unfold rank, rowValue.
  assert (Hn : forall n, isFinite n = true -> is_rank (match cursor with None => nneg n | Some c => nabs (n - c)%num end)).
  { intros [| |z] Hz; try done. destruct cursor as [[| |c]|]; try done. unfold nsub. cbn [nneg nadd]. unfold round64. by destruct (_ <? _). }
  destruct (raw_value (row_value row)) as [| | |n|[]| |]; try done.
  all: match goal with |- is_rank (match (if isFinite ?n then _ else _) with _ => _ end) => destruct (isFinite n) eqn:E; [by apply Hn|done] end.
Qed.

Lemma by_rank_leb cursor a b :
  is_rank (rank cursor a.2) -> is_rank (rank cursor b.2) -> cmp_leb (by_rank cursor) a b = true <-> ahead cursor a b.
Proof.
  unfold cmp_leb, by_rank, ahead. destruct (rank cursor a.2) as [|[]|x], (rank cursor b.2) as [|[]|y]; try done; intros _ _; cbn [no_farther].
  - cbn [nsub nadd nneg negb Bool.eqb isNaN orb]. rewrite nsub_int_pos, negb_true_iff. lia.
  - cbn [nsub nadd nneg negb isNaN orb neqb]. change (int 0) with (Fin 0). cbn [neqb nltb negb]. intuition discriminate.
  - assert (Hn : isNaN (Fin x - Fin y)%num = false) by (unfold nsub; cbn [nneg nadd]; unfold round64; by destruct (_ <? _)).
    rewrite Hn, (proj2 (proj2 (nsub_sign x y))). cbn [orb]. destruct (Z.eqb_spec x y); rewrite ?nsub_int_pos, ?(proj1 (nsub_sign x y)), negb_true_iff; lia.
Qed.

Lemma ahead_total cursor a b : ahead cursor a b \/ ahead cursor b a.
Proof. unfold ahead. destruct (rank cursor a.2) as [|[]|], (rank cursor b.2) as [|[]|]; cbn [no_farther]; lia. Qed.

Lemma ahead_trans cursor a b c : ahead cursor a b -> ahead cursor b c -> ahead cursor a c.
Proof. unfold ahead. destruct (rank cursor a.2) as [|[]|], (rank cursor b.2) as [|[]|], (rank cursor c.2) as [|[]|]; cbn [no_farther]; lia. Qed.

Lemma imap_pair_snd {A} (l : list A) : (imap pair l).*2 = l.
Proof. rewrite fmap_imap. unfold compose. cbn. induction l as [|x l IH]; [done|]. rewrite imap_cons. by f_equal. Qed.

(** A capped bubble keeps as many rows as its cap, says how many it left out, and leaves out none that was nearer the
    cursor (or, without one, higher) than a row it kept; under the cap nothing is moved. *)
Theorem capTooltipRows_spec rows cursor cap :
  from_option isFinite true cursor = true ->
  let '(kept, hidden) := capTooltipRows rows cursor cap in
  hidden = Z.of_nat (length rows - cap) /\ (hidden = 0 -> kept = rows) /\
  exists out, kept ++ out ≡ₚ rows /\ length kept = min cap (length rows) /\
    forall k o, k ∈ kept -> o ∈ out -> no_farther (rank cursor k) (rank cursor o).
Proof.
  intros Hc. unfold capTooltipRows. destruct (Nat.leb_spec (length rows) cap).
  - split_and!; [lia|done|]. exists []. rewrite app_nil_r. split_and!; [done|lia|]. by intros k o _ ?%not_elem_of_nil.
  - set (s := js_sort (by_rank cursor) (imap pair rows)).
    assert (Hp : s.*2 ≡ₚ rows) by (unfold s, js_sort; rewrite sort_leb_perm; by rewrite imap_pair_snd).
    assert (Hs : StronglySorted (ahead cursor) s).
    { apply (js_sort_sorted _ (fun _ => True)); [|apply ahead_total|apply ahead_trans|by apply Forall_true].
      intros a b _ _. apply by_rank_leb; by apply rank_is. }
    split_and!; [lia|lia|]. exists (drop cap s.*2). rewrite take_drop. split_and!; [done|rewrite length_take, Hp; lia|].
    intros k o. rewrite <- fmap_take, <- fmap_drop. intros (a & -> & Ha)%list_elem_of_fmap (b & -> & Hb)%list_elem_of_fmap.
    rewrite <- (take_drop cap s) in Hs. apply (StronglySorted_app_1_elem_of _ _ _ _ _ Hs Ha Hb).
Qed.

(** * Witnesses *)
Module TooltipWitness.

(** A label value that would be a script. *)
Definition hostile : jstr := js "<script>alert(1)</script>&amp;".
Definition dot : jstr := js "<i class=dot></i>".
Definition row : AxisTooltipRow := {| marker := Some dot; seriesName := Some hostile; row_value := VArr [VNum (int 1); VNum (int 2)]; seriesIndex := None |}.

Lemma tooltip_text_verbatim_witness :
  textContent (renderAxisTooltip [row] 3 (js "12:00") (fun _ => js "3 more") None) = js "12:00" ++ (hostile ++ js "2") ++ js "3 more".
Proof.
  pose proof (tooltip_text_verbatim [row] 3 (js "12:00") (fun _ => js "3 more") None) as H. cbv zeta in H.
  rewrite (proj1 (H ltac:(constructor; [apply tagged_markup; vm_compute; reflexivity|constructor]))). vm_compute. reflexivity.
Defined.

(** A cursor at the right edge of a phone's window, over a panel that begins left of it. *)
Definition edge : placed := {| q_px := 360; q_py := 100; q_w := 200; q_h := 81; q_left := 20; q_top := 300; q_vw := 390; q_vh := 844 |}.

Lemma tooltip_in_window_witness : placeTooltip (placement edge) = (int 148, dec 595 1) /\ between (-12) (placeTooltip (placement edge)).1 162.
Proof.
  pose proof (tooltip_in_window edge) as H. split; [vm_compute; reflexivity|].
  destruct (placeTooltip (placement edge)) as [x y]. destruct H as (H & _); [|exact H].
  split; [repeat constructor; unfold pixels; cbn; lia|cbn; lia|cbn; lia|unfold VIEWPORT_MARGIN; cbn; lia].
Defined.
End TooltipWitness.
